(** * CustomerService: a shallow embedding of the customer data service

    The development follows [CustomerService.ts]: the in-memory customer
    collection with its id counter, the validation rules, the two health
    score computations, the CRUD operations and the query operations.  A
    second part follows the route handlers that call the service, with
    their sanitisers.

    Conventions of the embedding.
    - A JavaScript string is a [string]; a character stands for one code
      unit below 256 (Latin-1), which is where [trim], [toLowerCase] and
      the two regular expressions of the service are decided here.
    - A JavaScript number that the service treats as a count, an index, a
      bound or a millisecond timestamp is an integer ([Z], [nat] for the id
      counter).  The account-age bonus and the mean of the statistics leave
      the integers and are computed in exact rationals ([Q]); the [NaN] of
      an empty mean is a value of its own.
    - The health score of a customer is a [Score.t]: the scores that the
      service computes are integers, but an update stores the number of
      its patch as it is, a fraction or [NaN] included.
    - An optional field ([email?: string]) is an [option]; [None] is
      [undefined].
    - [throw] inside [try { ... } catch] is the error monad [Except];
      [handleError] turns a thrown error into a failure response.
    - The clock ([new Date()], [Date.now()]) is an explicit argument.
    - The object state ([this.customers], [this.nextId]) is passed
      explicitly: an operation maps a [State] to a response and a [State].
    - [logOperation] and the [console.error] of [handleError] write to the
      console only and are left out.  So are [resetData] and
      [getDataSnapshot], the two utilities for test data, which return no
      [ServiceResponse]; the seed data [mockCustomers] is not part of the
      service file, and no property below depends on it: the properties
      hold from any state, or from any state that satisfies the stated
      invariant. *)

From Stdlib Require Import ZArith QArith Qround Qminmax List Bool Ascii String.
From Stdlib Require Import Lia Lqa.
From Stdlib Require Import Permutation Numbers.DecimalString Numbers.DecimalNat.
From Stdlib Require Import Sorting.Sorted.
From Stdlib Require Numbers.DecimalFacts.
Import ListNotations.

Local Open Scope string_scope.
Local Open Scope list_scope.
Local Open Scope Z_scope.

(** ** JavaScript primitives used by the service *)

Module JS.

(** [WhiteSpace] and [LineTerminator] code units below 256: TAB, LF, VT,
    FF, CR, SP and NBSP.  Both [String.prototype.trim] and the regular
    expression class [\s] use this set. *)
Definition isWhiteSpace (c : ascii) : bool :=
  let n := nat_of_ascii c in
  ((9 <=? n) && (n <=? 13) || (n =? 32) || (n =? 160))%nat.

Fixpoint trimStart (s : string) : string :=
  match s with
  | EmptyString => EmptyString
  | String c r => if isWhiteSpace c then trimStart r else s
  end.

Fixpoint trimEnd (s : string) : string :=
  match s with
  | EmptyString => EmptyString
  | String c r =>
      let r' := trimEnd r in
      if isWhiteSpace c && String.eqb r' "" then EmptyString else String c r'
  end.

(** [s.trim()] *)
Definition trim (s : string) : string := trimEnd (trimStart s).

(** Lower-case mapping of one code unit: [A-Z] and the Latin-1 capitals
    (192..222 without the multiplication sign 215) move up by 32. *)
Definition toLowerChar (c : ascii) : ascii :=
  let n := nat_of_ascii c in
  if ((65 <=? n) && (n <=? 90)
      || (192 <=? n) && (n <=? 222) && negb (n =? 215))%nat
  then ascii_of_nat (n + 32) else c.

(** [s.toLowerCase()] *)
Fixpoint toLowerCase (s : string) : string :=
  match s with
  | EmptyString => EmptyString
  | String c r => String (toLowerChar c) (toLowerCase r)
  end.

(** [s.includes(t)]: [t] occurs in [s] as a contiguous substring. *)
Fixpoint includes (s t : string) : bool :=
  prefix t s
  || match s with
     | EmptyString => false
     | String _ r => includes r t
     end.

(** Truthiness of a string: every string but the empty one. *)
Definition truthy (s : string) : bool := negb (String.eqb s "").

(** Truthiness of an optional string: [undefined] and [""] are falsy. *)
Definition truthy_opt (o : option string) : bool :=
  match o with
  | Some s => truthy s
  | None => false
  end.

(** [n.toString()] for a non-negative integer counter. *)
Definition toString (n : nat) : string :=
  NilEmpty.string_of_uint (Nat.to_uint n).

(** [Math.round]: the nearest integer, halves rounded up. *)
Definition Math_round (q : Q) : Z := Qfloor (q + (1 # 2))%Q.

(** [Math.ceil(a / b)] on integers, [b] not zero. *)
Definition Math_ceil_div (a b : Z) : Z := - ((- a) / b).

(** Index normalisation of [Array.prototype.slice]: a negative index counts
    from the end, and the result is clamped to [0 .. len]. *)
Definition relativeIndex (len i : Z) : Z :=
  if i <? 0 then Z.max (len + i) 0 else Z.min i len.

(** [xs.slice(start, end)] *)
Definition slice {A : Type} (xs : list A) (start end_ : Z) : list A :=
  let len := Z.of_nat (List.length xs) in
  let k := relativeIndex len start in
  let final := relativeIndex len end_ in
  firstn (Z.to_nat (final - k)) (skipn (Z.to_nat k) xs).

(** [xs.findIndex(p)]; [None] is the result [-1]. *)
Fixpoint findIndex {A : Type} (p : A -> bool) (xs : list A) : option nat :=
  match xs with
  | [] => None
  | x :: r => if p x then Some O else option_map S (findIndex p r)
  end.

(** [xs.splice(i, 1)]: the list without its element at index [i]. *)
Definition splice1 {A : Type} (i : nat) (xs : list A) : list A :=
  firstn i xs ++ skipn (S i) xs.

(** [xs[i] = v] for an index within the list. *)
Fixpoint setAt {A : Type} (i : nat) (v : A) (xs : list A) : list A :=
  match xs, i with
  | [], _ => []
  | _ :: r, O => v :: r
  | x :: r, S j => x :: setAt j v r
  end.

(** [xs.sort(cmp)]: the stable sort of ES2019, as an insertion sort.  An
    element moves in front of the elements it compares less than or equal
    to, so equal elements keep their order.

    ECMAScript fixes the result of [sort] for a consistent comparator
    only, one that orders the elements as a total preorder.  For any other
    comparator (the one of [getCustomers] answers 0 against a missing
    field and against [NaN]) the order is left to the implementation, and
    the insertion sort here is one implementation, which need not agree
    with that of an engine.  What is stated below on the order of a sorted
    listing is stated for comparators that are consistent on the elements
    sorted; everything else uses only that [sort] rearranges its argument. *)
Fixpoint insertBy {A : Type} (cmp : A -> A -> Z) (x : A) (xs : list A) : list A :=
  match xs with
  | [] => [x]
  | y :: r => if cmp x y <=? 0 then x :: y :: r else y :: insertBy cmp x r
  end.

Fixpoint sort {A : Type} (cmp : A -> A -> Z) (xs : list A) : list A :=
  match xs with
  | [] => []
  | x :: r => insertBy cmp x (sort cmp r)
  end.

End JS.

(** ** Regular expressions

    The two patterns of the service are anchored at both ends and use
    classes, concatenation, [*], [+] and [{2,}] only, so [test] is full
    matching, decided here by Brzozowski derivatives. *)

Module Regex.

Inductive t : Type :=
| Void
| Eps
| Class (p : ascii -> bool)
| Seq (r1 r2 : t)
| Alt (r1 r2 : t)
| Star (r : t).

Fixpoint nullable (r : t) : bool :=
  match r with
  | Void => false
  | Eps => true
  | Class _ => false
  | Seq r1 r2 => nullable r1 && nullable r2
  | Alt r1 r2 => nullable r1 || nullable r2
  | Star _ => true
  end.

(** Constructors that drop [Void] and [Eps], to keep derivatives small. *)
Definition seq (r1 r2 : t) : t :=
  match r1, r2 with
  | Void, _ => Void
  | _, Void => Void
  | Eps, _ => r2
  | _, Eps => r1
  | _, _ => Seq r1 r2
  end.

Definition alt (r1 r2 : t) : t :=
  match r1, r2 with
  | Void, _ => r2
  | _, Void => r1
  | _, _ => Alt r1 r2
  end.

Fixpoint deriv (c : ascii) (r : t) : t :=
  match r with
  | Void => Void
  | Eps => Void
  | Class p => if p c then Eps else Void
  | Seq r1 r2 =>
      if nullable r1
      then alt (seq (deriv c r1) r2) (deriv c r2)
      else seq (deriv c r1) r2
  | Alt r1 r2 => alt (deriv c r1) (deriv c r2)
  | Star r1 => seq (deriv c r1) (Star r1)
  end.

(** [/^r$/.test(s)] *)
Fixpoint test (r : t) (s : string) : bool :=
  match s with
  | EmptyString => nullable r
  | String c s' => test (deriv c r) s'
  end.

(** The language of a pattern, as a relation: what [test] decides. *)
Inductive Matches : t -> string -> Prop :=
| MEps : Matches Eps ""
| MClass (p : ascii -> bool) (c : ascii) :
    p c = true -> Matches (Class p) (String c "")
| MSeq (r1 r2 : t) (s1 s2 : string) :
    Matches r1 s1 -> Matches r2 s2 -> Matches (Seq r1 r2) (s1 ++ s2)
| MAltL (r1 r2 : t) (s : string) : Matches r1 s -> Matches (Alt r1 r2) s
| MAltR (r1 r2 : t) (s : string) : Matches r2 s -> Matches (Alt r1 r2) s
| MStarNil (r : t) : Matches (Star r) ""
| MStarCons (r : t) (s1 s2 : string) :
    Matches r s1 -> Matches (Star r) s2 -> Matches (Star r) (s1 ++ s2).

(** [r+] and [r{2,}] *)
Definition plus (r : t) : t := Seq r (Star r).
Definition atLeast2 (r : t) : t := Seq r (Seq r (Star r)).

Definition chr (a : ascii) : t := Class (Ascii.eqb a).

Definition inRange (lo hi : nat) (c : ascii) : bool :=
  let n := nat_of_ascii c in ((lo <=? n) && (n <=? hi))%nat.

(** [[a-zA-Z]], [[a-zA-Z0-9]], [[a-zA-Z0-9-]] and [[^\s@]] *)
Definition isAlpha (c : ascii) : bool := inRange 97 122 c || inRange 65 90 c.
Definition isAlnum (c : ascii) : bool := isAlpha c || inRange 48 57 c.
Definition isAlnumDash (c : ascii) : bool := isAlnum c || Ascii.eqb c "-".
Definition notSpaceAt (c : ascii) : bool :=
  negb (JS.isWhiteSpace c) && negb (Ascii.eqb c "@").

End Regex.

(** ** The number stored as a health score *)

(** [healthScore: number].  The scores that the service computes are
    integers, but [updateCustomer] stores the score of its patch as it is,
    and the check of the patch, [h < 0 || h > 100], lets every number
    through for which both comparisons are false: a fraction of the range,
    and [NaN].  [Real q] is the finite number [q], exactly; the two
    infinities, which that check and every caller reject, are left out. *)
Module Score.

Inductive t : Type :=
| Real (q : Q)
| NaN.

Definition ofZ (z : Z) : t := Real (inject_Z z).

(** [a <= b] and [a < b]; a comparison with [NaN] is false. *)
Definition leb (a b : t) : bool :=
  match a, b with
  | Real p, Real q => Qle_bool p q
  | _, _ => false
  end.

Definition ltb (a b : t) : bool :=
  match a, b with
  | Real p, Real q => negb (Qle_bool q p)
  | _, _ => false
  end.

(** [a + b] *)
Definition add (a b : t) : t :=
  match a, b with
  | Real p, Real q => Real (p + q)
  | _, _ => NaN
  end.

(** The sign of [a - b].  [Array.prototype.sort] reads the number that its
    comparator returns by its sign only, and reads [NaN] as 0. *)
Definition sign (a b : t) : Z :=
  match a, b with
  | Real p, Real q =>
      match (p ?= q)%Q with
      | Lt => -1
      | Eq => 0
      | Gt => 1
      end
  | _, _ => 0
  end.

End Score.

(** ** Data model *)

(** [subscriptionTier: 'basic' | 'premium' | 'enterprise'] *)
Inductive Tier : Type := basic | premium | enterprise.

Definition Tier_eqb (a b : Tier) : bool :=
  match a, b with
  | basic, basic | premium, premium | enterprise, enterprise => true
  | _, _ => false
  end.

(** The [Customer] interface.  [createdAt] and [updatedAt] hold the
    millisecond count that [new Date(s).getTime()] reads back from the ISO
    string the service stores. *)
Module Customer.
Record t : Type := mk {
  id : string;
  name : string;
  company : string;
  healthScore : Score.t;
  email : option string;
  subscriptionTier : option Tier;
  domains : option (list string);
  createdAt : option Z;
  updatedAt : option Z
}.
End Customer.
Abbreviation Customer := Customer.t.

(** [CustomerCreateInput] *)
Module CreateInput.
Record t : Type := mk {
  name : string;
  company : string;
  email : option string;
  subscriptionTier : option Tier;
  domains : option (list string)
}.
End CreateInput.
Abbreviation CustomerCreateInput := CreateInput.t.

(** [CustomerUpdateInput] *)
Module UpdateInput.
Record t : Type := mk {
  name : option string;
  company : option string;
  email : option string;
  subscriptionTier : option Tier;
  domains : option (list string);
  healthScore : option Score.t
}.
End UpdateInput.
Abbreviation CustomerUpdateInput := UpdateInput.t.

(** ** Errors and responses *)

Inductive ErrorCode : Type :=
| VALIDATION_ERROR
| NOT_FOUND
| DUPLICATE_ERROR
| INTERNAL_ERROR.

(** [CustomerServiceError]: a message and a code. *)
Record CustomerServiceError : Type := {
  message : string;
  errorCode : ErrorCode
}.

Definition ValidationError (msg : string) : CustomerServiceError :=
  {| message := msg; errorCode := VALIDATION_ERROR |}.

Definition NotFoundError (id : string) : CustomerServiceError :=
  {| message := ("Customer with ID '" ++ id ++ "' not found")%string;
     errorCode := NOT_FOUND |}.

Definition DuplicateError (field value : string) : CustomerServiceError :=
  {| message :=
       ("Customer with " ++ field ++ " '" ++ value ++ "' already exists")%string;
     errorCode := DUPLICATE_ERROR |}.

(** What a [catch] clause may receive: an error of the service, another
    [Error], or a value that is no [Error] at all. *)
Inductive Thrown : Type :=
| ServiceError (e : CustomerServiceError)
| OtherError (msg : string)
| NotAnError.

(** The error monad of a [try] block. *)
Inductive Except (A : Type) : Type :=
| Return (a : A)
| Throw (e : Thrown).
Arguments Return {A} a.
Arguments Throw {A} e.

Definition bind {A B : Type} (m : Except A) (k : A -> Except B) : Except B :=
  match m with
  | Return a => k a
  | Throw e => Throw e
  end.

(** [if (b) throw e;] *)
Definition throwIf (b : bool) (e : CustomerServiceError) : Except unit :=
  if b then Throw (ServiceError e) else Return tt.

Declare Scope except_scope.
Delimit Scope except_scope with except.
Notation "x <- m ;; k" := (bind m (fun x => k))
  (at level 61, m at next level, right associativity) : except_scope.
Notation "m ;; k" := (bind m (fun _ => k))
  (at level 61, right associativity) : except_scope.

(** [ServiceResponse<T>] *)
Record ServiceResponse (T : Type) : Type := {
  success : bool;
  data : option T;
  error : option string;
  code : option ErrorCode
}.
Arguments success {T} _.
Arguments data {T} _.
Arguments error {T} _.
Arguments code {T} _.

(** [{ success: true, data }] *)
Definition succeed {T : Type} (d : T) : ServiceResponse T :=
  {| success := true; data := Some d; error := None; code := None |}.

Definition handleError {T : Type} (e : Thrown) : ServiceResponse T :=
  let errorMessage :=
    match e with
    | ServiceError err => message err
    | OtherError msg => msg
    | NotAnError => "Unknown error occurred"
    end in
  let errorCode_ :=
    match e with
    | ServiceError err => errorCode err
    | _ => INTERNAL_ERROR
    end in
  {| success := false; data := None;
     error := Some errorMessage; code := Some errorCode_ |}.

(** ** Validation *)

(** [/^[^\s@]+@[^\s@]+\.[^\s@]+$/] *)
Definition emailRegex : Regex.t :=
  Regex.Seq (Regex.plus (Regex.Class Regex.notSpaceAt))
    (Regex.Seq (Regex.chr "@")
       (Regex.Seq (Regex.plus (Regex.Class Regex.notSpaceAt))
          (Regex.Seq (Regex.chr ".")
             (Regex.plus (Regex.Class Regex.notSpaceAt))))).

Definition isValidEmail (email : string) : bool :=
  Regex.test emailRegex (JS.trim email).

(** The domain pattern: one [[a-zA-Z0-9]], any number of [[a-zA-Z0-9-]],
    any number of [[a-zA-Z0-9]], a dot, then a label of two or more
    letters followed by any number of further dot-and-label groups. *)
Definition domainRegex : Regex.t :=
  Regex.Seq (Regex.Class Regex.isAlnum)
    (Regex.Seq (Regex.Star (Regex.Class Regex.isAlnumDash))
       (Regex.Seq (Regex.Star (Regex.Class Regex.isAlnum))
          (Regex.Seq (Regex.chr ".")
             (Regex.Seq (Regex.atLeast2 (Regex.Class Regex.isAlpha))
                (Regex.Star
                   (Regex.Seq (Regex.chr ".")
                      (Regex.atLeast2 (Regex.Class Regex.isAlpha)))))))).

Definition isValidDomain (domain : string) : bool :=
  Regex.test domainRegex (JS.trim domain)
  && (String.length domain <=? 253)%nat.

(** [!s || s.trim() === ''] *)
Definition isBlank (s : string) : bool :=
  negb (JS.truthy s) || String.eqb (JS.trim s) "".

(** [input.email && !this.isValidEmail(input.email)] *)
Definition badEmail (email : option string) : bool :=
  match email with
  | Some e => JS.truthy e && negb (isValidEmail e)
  | None => false
  end.

(** The [forEach] over the domains: the first invalid entry throws. *)
Fixpoint checkDomains (ds : list string) (index : nat) : Except unit :=
  match ds with
  | [] => Return tt
  | domain :: rest =>
      (throwIf (negb (isValidDomain domain))
         (ValidationError
            ("Invalid domain format at index " ++ JS.toString index
               ++ ": " ++ domain)%string) ;;
       checkDomains rest (S index))%except
  end.

(** [if (input.domains) input.domains.forEach(...)] *)
Definition checkDomainsOpt (ds : option (list string)) : Except unit :=
  match ds with
  | Some l => checkDomains l O
  | None => Return tt
  end.

Definition validateCustomerInput (input : CustomerCreateInput) : Except unit :=
  (throwIf (isBlank (CreateInput.name input))
     (ValidationError "Customer name is required") ;;
   throwIf (isBlank (CreateInput.company input))
     (ValidationError "Company name is required") ;;
   throwIf (100 <? String.length (JS.trim (CreateInput.name input)))%nat
     (ValidationError "Customer name must be less than 100 characters") ;;
   throwIf (100 <? String.length (JS.trim (CreateInput.company input)))%nat
     (ValidationError "Company name must be less than 100 characters") ;;
   throwIf (badEmail (CreateInput.email input))
     (ValidationError "Invalid email format") ;;
   checkDomainsOpt (CreateInput.domains input))%except.

(** [s !== undefined && (!s || s.trim() === '')] *)
Definition presentBlank (o : option string) : bool :=
  match o with
  | Some s => isBlank s
  | None => false
  end.

(** [s && s.trim().length > 100] *)
Definition tooLong (o : option string) : bool :=
  match o with
  | Some s => JS.truthy s && (100 <? String.length (JS.trim s))%nat
  | None => false
  end.

(** [h !== undefined && (h < 0 || h > 100)] *)
Definition badHealthScore (o : option Score.t) : bool :=
  match o with
  | Some h => Score.ltb h (Score.ofZ 0) || Score.ltb (Score.ofZ 100) h
  | None => false
  end.

Definition validateCustomerUpdateInput (input : CustomerUpdateInput)
  : Except unit :=
  (throwIf (presentBlank (UpdateInput.name input))
     (ValidationError "Customer name cannot be empty") ;;
   throwIf (presentBlank (UpdateInput.company input))
     (ValidationError "Company name cannot be empty") ;;
   throwIf (tooLong (UpdateInput.name input))
     (ValidationError "Customer name must be less than 100 characters") ;;
   throwIf (tooLong (UpdateInput.company input))
     (ValidationError "Company name must be less than 100 characters") ;;
   throwIf (badEmail (UpdateInput.email input))
     (ValidationError "Invalid email format") ;;
   throwIf (badHealthScore (UpdateInput.healthScore input))
     (ValidationError "Health score must be between 0 and 100") ;;
   checkDomainsOpt (UpdateInput.domains input))%except.

(** ** Health score *)

(** The [switch] on the tier; no case, no bonus. *)
Definition tierBonus (t : option Tier) : Z :=
  match t with
  | Some enterprise => 30
  | Some premium => 15
  | Some basic => 5
  | None => 0
  end.

(** [if (domains) score += Math.min(domains.length * 5, 20)] *)
Definition domainBonus (ds : option (list string)) : Z :=
  match ds with
  | Some l => Z.min (Z.of_nat (List.length l) * 5) 20
  | None => 0
  end.

(** [if (email) score += 10] *)
Definition emailBonus (e : option string) : Z :=
  if JS.truthy_opt e then 10 else 0.

(** The value of [score] in [calculateInitialHealthScore] when the function
    reaches its [return]. *)
Definition initialScore (input : CustomerCreateInput) : Z :=
  let score := 50 in
  let score := score + tierBonus (CreateInput.subscriptionTier input) in
  let score := score + domainBonus (CreateInput.domains input) in
  let score := score + emailBonus (CreateInput.email input) in
  score.

Definition calculateInitialHealthScore (input : CustomerCreateInput) : Z :=
  Z.min (Z.max (initialScore input) 0) 100.

(** [if (createdAt) score += Math.min(daysSinceCreation / 10, 15)], with
    [Date.now()] read as [now]. *)
Definition ageBonus (now : Z) (createdAt : option Z) : Q :=
  match createdAt with
  | Some created =>
      let accountAge := now - created in
      let daysSinceCreation :=
        (inject_Z accountAge / inject_Z (1000 * 60 * 60 * 24))%Q in
      Qmin (daysSinceCreation / inject_Z 10)%Q (inject_Z 15)
  | None => 0%Q
  end.

(** The value of [score] in [calculateHealthScore] before rounding. *)
Definition recomputedScore (now : Z) (customer : Customer) : Q :=
  let score := 50 in
  let score := score + tierBonus (Customer.subscriptionTier customer) in
  let score := score + domainBonus (Customer.domains customer) in
  let score := score + emailBonus (Customer.email customer) in
  (inject_Z score + ageBonus now (Customer.createdAt customer))%Q.

Definition calculateHealthScore (now : Z) (customer : Customer) : Z :=
  Z.min (Z.max (JS.Math_round (recomputedScore now customer)) 0) 100.

(** ** The service state and the monad of a method body *)

(** [this.customers] and [this.nextId] *)
Record State : Type := {
  customers : list Customer;
  nextId : nat
}.

(** A method body reads and writes the state and may throw.  A throw keeps
    the state as it is at that moment: what was written before stays
    written. *)
Definition Body (A : Type) : Type := State -> Except A * State.

Definition ret {A : Type} (a : A) : Body A := fun s => (Return a, s).

Definition andThen {A B : Type} (m : Body A) (k : A -> Body B) : Body B :=
  fun s =>
    match m s with
    | (Return a, s') => k a s'
    | (Throw e, s') => (Throw e, s')
    end.

Definition lift {A : Type} (m : Except A) : Body A := fun s => (m, s).

Definition throw {A : Type} (e : CustomerServiceError) : Body A :=
  fun s => (Throw (ServiceError e), s).

Definition gets {A : Type} (f : State -> A) : Body A :=
  fun s => (Return (f s), s).

Definition modify (f : State -> State) : Body unit :=
  fun s => (Return tt, f s).

Declare Scope body_scope.
Delimit Scope body_scope with body.
Notation "x <- m ;; k" := (andThen m (fun x => k))
  (at level 61, m at next level, right associativity) : body_scope.
Notation "m ;; k" := (andThen m (fun _ => k))
  (at level 61, right associativity) : body_scope.

(** [try { body } catch (error) { return this.handleError(op, error) }] *)
Definition tryCatch {T : Type} (body : Body T)
  : State -> ServiceResponse T * State :=
  fun s =>
    match body s with
    | (Return d, s') => (succeed d, s')
    | (Throw e, s') => (handleError e, s')
    end.

(** [this.customers.push(c)], [this.nextId++], [this.customers[i] = c] and
    [this.customers.splice(i, 1)] *)
Definition push (c : Customer) (s : State) : State :=
  {| customers := customers s ++ [c]; nextId := nextId s |}.

Definition incrementNextId (s : State) : State :=
  {| customers := customers s; nextId := S (nextId s) |}.

Definition assignAt (i : nat) (c : Customer) (s : State) : State :=
  {| customers := JS.setAt i c (customers s); nextId := nextId s |}.

Definition spliceAt (i : nat) (s : State) : State :=
  {| customers := JS.splice1 i (customers s); nextId := nextId s |}.

(** ** Mutating operations *)

(** [a === b] on optional strings. *)
Definition optString_eqb (a b : option string) : bool :=
  match a, b with
  | Some x, Some y => String.eqb x y
  | None, None => true
  | _, _ => false
  end.

(** [input.email && this.customers.some(c => c.email === input.email)],
    throwing [DuplicateError('email', input.email)]. *)
Definition checkDuplicateEmail (email : option string) (cs : list Customer)
  : Except unit :=
  match email with
  | Some e =>
      throwIf
        (JS.truthy e
         && existsb (fun c => optString_eqb (Customer.email c) (Some e)) cs)
        (DuplicateError "email" e)
  | None => Return tt
  end.

(** The object literal [newCustomer] of [createCustomer]. *)
Definition newCustomer (now : Z) (next : nat) (input : CustomerCreateInput)
  : Customer :=
  {| Customer.id := JS.toString next;
     Customer.name := JS.trim (CreateInput.name input);
     Customer.company := JS.trim (CreateInput.company input);
     Customer.email := option_map JS.trim (CreateInput.email input);
     Customer.subscriptionTier :=
       match CreateInput.subscriptionTier input with
       | Some t => Some t
       | None => Some basic
       end;
     Customer.domains :=
       match CreateInput.domains input with
       | Some ds => Some ds
       | None => Some []
       end;
     Customer.healthScore := Score.ofZ (calculateInitialHealthScore input);
     Customer.createdAt := Some now;
     Customer.updatedAt := Some now |}.

Definition createCustomer (now : Z) (input : CustomerCreateInput)
  : State -> ServiceResponse Customer * State :=
  tryCatch
    (lift (validateCustomerInput input) ;;
     cs <- gets customers ;;
     lift (checkDuplicateEmail (CreateInput.email input) cs) ;;
     next <- gets nextId ;;
     let c := newCustomer now next input in
     modify (push c) ;;
     modify incrementNextId ;;
     ret c)%body.

(** [o !== undefined ? o : d], one entry of the spread of the patch. *)
Definition orElse {A : Type} (o : option A) (d : A) : A :=
  match o with
  | Some a => a
  | None => d
  end.

Definition orKeep {A : Type} (o d : option A) : option A :=
  match o with
  | Some a => Some a
  | None => d
  end.

(** [{ ...existingCustomer, ...definedEntries(input), updatedAt }] *)
Definition spreadPatch (stamp : Z) (existing : Customer)
  (input : CustomerUpdateInput) : Customer :=
  {| Customer.id := Customer.id existing;
     Customer.name := orElse (UpdateInput.name input) (Customer.name existing);
     Customer.company :=
       orElse (UpdateInput.company input) (Customer.company existing);
     Customer.healthScore :=
       orElse (UpdateInput.healthScore input) (Customer.healthScore existing);
     Customer.email := orKeep (UpdateInput.email input) (Customer.email existing);
     Customer.subscriptionTier :=
       orKeep (UpdateInput.subscriptionTier input)
         (Customer.subscriptionTier existing);
     Customer.domains :=
       orKeep (UpdateInput.domains input) (Customer.domains existing);
     Customer.createdAt := Customer.createdAt existing;
     Customer.updatedAt := Some stamp |}.

(** [if (input.f) updated.f = input.f.trim()] for a required string field
    and for the optional email. *)
Definition trimmedOr (o : option string) (current : string) : string :=
  match o with
  | Some s => if JS.truthy s then JS.trim s else current
  | None => current
  end.

Definition trimmedOrOpt (o : option string) (current : option string)
  : option string :=
  match o with
  | Some s => if JS.truthy s then Some (JS.trim s) else current
  | None => current
  end.

Definition ensureTrimmed (input : CustomerUpdateInput) (c : Customer)
  : Customer :=
  {| Customer.id := Customer.id c;
     Customer.name := trimmedOr (UpdateInput.name input) (Customer.name c);
     Customer.company :=
       trimmedOr (UpdateInput.company input) (Customer.company c);
     Customer.healthScore := Customer.healthScore c;
     Customer.email := trimmedOrOpt (UpdateInput.email input) (Customer.email c);
     Customer.subscriptionTier := Customer.subscriptionTier c;
     Customer.domains := Customer.domains c;
     Customer.createdAt := Customer.createdAt c;
     Customer.updatedAt := Customer.updatedAt c |}.

Definition withHealthScore (h : Score.t) (c : Customer) : Customer :=
  {| Customer.id := Customer.id c;
     Customer.name := Customer.name c;
     Customer.company := Customer.company c;
     Customer.healthScore := h;
     Customer.email := Customer.email c;
     Customer.subscriptionTier := Customer.subscriptionTier c;
     Customer.domains := Customer.domains c;
     Customer.createdAt := Customer.createdAt c;
     Customer.updatedAt := Customer.updatedAt c |}.

(** [input.subscriptionTier || input.domains]: a tier name and an array are
    both truthy. *)
Definition touchesScoreInputs (input : CustomerUpdateInput) : bool :=
  match UpdateInput.subscriptionTier input, UpdateInput.domains input with
  | None, None => false
  | _, _ => true
  end.

(** [if (touches) updated.healthScore = this.calculateHealthScore(updated)] *)
Definition recalculate (now : Z) (input : CustomerUpdateInput) (c : Customer)
  : Customer :=
  if touchesScoreInputs input
  then withHealthScore (Score.ofZ (calculateHealthScore now c)) c
  else c.

(** The record [updateCustomer] stores for [existing]. *)
Definition updatedCustomer (stamp now : Z) (existing : Customer)
  (input : CustomerUpdateInput) : Customer :=
  recalculate now input (ensureTrimmed input (spreadPatch stamp existing input)).

(** [input.email && this.customers.some(c => c.id !== id && c.email === input.email)] *)
Definition checkDuplicateEmailExcept (id : string) (email : option string)
  (cs : list Customer) : Except unit :=
  match email with
  | Some e =>
      throwIf
        (JS.truthy e
         && existsb
              (fun c =>
                 negb (String.eqb (Customer.id c) id)
                 && optString_eqb (Customer.email c) (Some e)) cs)
        (DuplicateError "email" e)
  | None => Return tt
  end.

(** [stamp] is the reading of [new Date()] for [updatedAt], [now] the later
    reading of [Date.now()] inside [calculateHealthScore]. *)
Definition updateCustomer (stamp now : Z) (id : string)
  (input : CustomerUpdateInput) : State -> ServiceResponse Customer * State :=
  tryCatch
    (lift (throwIf (isBlank id) (ValidationError "Customer ID is required")) ;;
     cs <- gets customers ;;
     match JS.findIndex (fun c => String.eqb (Customer.id c) id) cs with
     | None => throw (NotFoundError id)
     | Some customerIndex =>
         lift (validateCustomerUpdateInput input) ;;
         lift (checkDuplicateEmailExcept id (UpdateInput.email input) cs) ;;
         match nth_error cs customerIndex with
         | Some existingCustomer =>
             let c := updatedCustomer stamp now existingCustomer input in
             modify (assignAt customerIndex c) ;;
             ret c
         | None =>
             (* not reached: [findIndex] answers with an index of the array *)
             lift (Throw NotAnError)
         end
     end)%body.

Definition deleteCustomer (id : string)
  : State -> ServiceResponse bool * State :=
  tryCatch
    (lift (throwIf (isBlank id) (ValidationError "Customer ID is required")) ;;
     cs <- gets customers ;;
     match JS.findIndex (fun c => String.eqb (Customer.id c) id) cs with
     | None => throw (NotFoundError id)
     | Some customerIndex =>
         modify (spliceAt customerIndex) ;;
         ret true
     end)%body.

(** ** Query operations *)

Definition getCustomerById (id : string)
  : State -> ServiceResponse Customer * State :=
  tryCatch
    (lift (throwIf (isBlank id) (ValidationError "Customer ID is required")) ;;
     cs <- gets customers ;;
     match find (fun c => String.eqb (Customer.id c) id) cs with
     | None => throw (NotFoundError id)
     | Some customer => ret customer
     end)%body.

(** [c.healthScore >= minScore && c.healthScore <= maxScore] *)
Definition inScoreRange (minScore maxScore : Z) (c : Customer) : bool :=
  Score.leb (Score.ofZ minScore) (Customer.healthScore c)
  && Score.leb (Customer.healthScore c) (Score.ofZ maxScore).

(** The parameters default to 0 and 100 when they are [undefined]. *)
Definition getCustomersByHealthScore (minScore maxScore : option Z)
  : State -> ServiceResponse (list Customer) * State :=
  let minScore := orElse minScore 0 in
  let maxScore := orElse maxScore 100 in
  tryCatch
    (lift (throwIf ((minScore <? 0) || (100 <? maxScore) || (maxScore <? minScore))
             (ValidationError
                "Invalid health score range. Must be 0-100 with min <= max")) ;;
     cs <- gets customers ;;
     ret (filter (inScoreRange minScore maxScore) cs))%body.

(** [customer.subscriptionTier === tier] *)
Definition hasTier (tier : Tier) (c : Customer) : bool :=
  match Customer.subscriptionTier c with
  | Some t => Tier_eqb t tier
  | None => false
  end.

Definition getCustomersByTier (tier : Tier)
  : State -> ServiceResponse (list Customer) * State :=
  tryCatch
    (cs <- gets customers ;;
     ret (filter (hasTier tier) cs))%body.

(** [o?.toLowerCase().includes(t)]; [undefined] counts as no match. *)
Definition optIncludesLower (o : option string) (t : string) : bool :=
  match o with
  | Some s => JS.includes (JS.toLowerCase s) t
  | None => false
  end.

(** The predicate shared by [searchCustomers] and the [searchTerm] filter. *)
Definition matchesSearch (searchLower : string) (c : Customer) : bool :=
  JS.includes (JS.toLowerCase (Customer.name c)) searchLower
  || JS.includes (JS.toLowerCase (Customer.company c)) searchLower
  || optIncludesLower (Customer.email c) searchLower.

Definition searchCustomers (searchTerm : string)
  : State -> ServiceResponse (list Customer) * State :=
  tryCatch
    (if isBlank searchTerm
     then ret []
     else
       let searchLower := JS.trim (JS.toLowerCase searchTerm) in
       cs <- gets customers ;;
       ret (filter (matchesSearch searchLower) cs))%body.

(** *** Statistics *)

(** A number that may be [NaN]. *)
Inductive Number : Type :=
| Num (z : Z)
| NaN.

Module TierCounts.
Record t : Type := mk { basic : nat; premium : nat; enterprise : nat }.
End TierCounts.

Module HealthDistribution.
Record t : Type := mk { healthy : nat; warning : nat; critical : nat }.
End HealthDistribution.

Module Stats.
Record t : Type := mk {
  total : nat;
  byTier : TierCounts.t;
  averageHealthScore : Number;
  healthDistribution : HealthDistribution.t
}.
End Stats.

(** [cs.reduce((sum, c) => sum + c.healthScore, 0)] *)
Definition sumHealthScores (cs : list Customer) : Score.t :=
  fold_left (fun sum c => Score.add sum (Customer.healthScore c)) cs (Score.ofZ 0).

(** [Math.round(sum / cs.length)].  Over the empty array the sum is 0 and
    the quotient [0 / 0] is [NaN], which [Math.round] returns as it is, as
    it does when a stored [NaN] has made the sum [NaN].  The sum and the
    quotient are exact here.  In floating point the sum of whole scores is
    exact as well; a sum of fractions can differ in its last bits, which
    leaves the bounds stated below on the mean as they are, floating-point
    addition and division being monotone. *)
Definition roundedMean (cs : list Customer) : Number :=
  match List.length cs with
  | O => NaN
  | S _ as n =>
      match sumHealthScores cs with
      | Score.Real sum => Num (JS.Math_round (sum / inject_Z (Z.of_nat n))%Q)
      | Score.NaN => NaN
      end
  end.

Definition count (p : Customer -> bool) (cs : list Customer) : nat :=
  List.length (filter p cs).

(** [c.healthScore >= 71], [c.healthScore >= 31 && c.healthScore <= 70]
    and [c.healthScore <= 30] *)
Definition isHealthy (c : Customer) : bool :=
  Score.leb (Score.ofZ 71) (Customer.healthScore c).
Definition isWarning (c : Customer) : bool :=
  Score.leb (Score.ofZ 31) (Customer.healthScore c)
  && Score.leb (Customer.healthScore c) (Score.ofZ 70).
Definition isCritical (c : Customer) : bool :=
  Score.leb (Customer.healthScore c) (Score.ofZ 30).

Definition computeStats (cs : list Customer) : Stats.t :=
  {| Stats.total := List.length cs;
     Stats.byTier :=
       {| TierCounts.basic := count (hasTier basic) cs;
          TierCounts.premium := count (hasTier premium) cs;
          TierCounts.enterprise := count (hasTier enterprise) cs |};
     Stats.averageHealthScore := roundedMean cs;
     Stats.healthDistribution :=
       {| HealthDistribution.healthy := count isHealthy cs;
          HealthDistribution.warning := count isWarning cs;
          HealthDistribution.critical := count isCritical cs |} |}.

Definition getCustomerStats : State -> ServiceResponse Stats.t * State :=
  tryCatch
    (cs <- gets customers ;;
     ret (computeStats cs))%body.

(** *** Listing with filters, sorting and pagination *)

(** [keyof Customer] *)
Inductive CustomerKey : Type :=
| K_id | K_name | K_company | K_healthScore | K_email
| K_subscriptionTier | K_domains | K_createdAt | K_updatedAt.

Inductive SortOrder : Type := asc | desc.

Module ListOptions.
Record t : Type := mk {
  subscriptionTier : option Tier;
  healthScoreMin : option Z;
  healthScoreMax : option Z;
  company : option string;
  searchTerm : option string;
  page : option Z;
  limit : option Z;
  sortBy : option CustomerKey;
  sortOrder : option SortOrder
}.
End ListOptions.

Module Pagination.
Record t : Type := mk { page : Z; limit : Z; total : Z; totalPages : Z }.
End Pagination.

Module Paginated.
Record t : Type := mk { data : list Customer; pagination : Pagination.t }.
End Paginated.

(** What [typeof] tells the comparator about a field value. *)
Inductive FieldValue : Type :=
| VString (s : string)
| VNumber (n : Score.t)
| VObject
| VUndefined.

Definition tierName (t : Tier) : string :=
  match t with
  | basic => "basic"
  | premium => "premium"
  | enterprise => "enterprise"
  end.

Definition optField {A : Type} (f : A -> FieldValue) (o : option A) : FieldValue :=
  match o with
  | Some a => f a
  | None => VUndefined
  end.

(** [options.x || d] for a number: 0 and [undefined] give the default. *)
Definition orDefault (o : option Z) (d : Z) : Z :=
  match o with
  | Some n => if n =? 0 then d else n
  | None => d
  end.

(** [if (options.f) xs = xs.filter(p(options.f))] for a string option. *)
Definition filterIfTruthy (o : option string) (p : string -> Customer -> bool)
  (cs : list Customer) : list Customer :=
  match o with
  | Some s => if JS.truthy s then filter (p s) cs else cs
  | None => cs
  end.

Definition filterIfDefined {A : Type} (o : option A) (p : A -> Customer -> bool)
  (cs : list Customer) : list Customer :=
  match o with
  | Some a => filter (p a) cs
  | None => cs
  end.

(** The five filters of [getCustomers], in the order of the source. *)
Definition applyFilters (options : ListOptions.t) (cs : list Customer)
  : list Customer :=
  let cs := filterIfDefined (ListOptions.subscriptionTier options) hasTier cs in
  let cs := filterIfDefined (ListOptions.healthScoreMin options)
              (fun m c => Score.leb (Score.ofZ m) (Customer.healthScore c)) cs in
  let cs := filterIfDefined (ListOptions.healthScoreMax options)
              (fun m c => Score.leb (Customer.healthScore c) (Score.ofZ m)) cs in
  let cs := filterIfTruthy (ListOptions.company options)
              (fun company c =>
                 JS.includes (JS.toLowerCase (Customer.company c))
                   (JS.toLowerCase company)) cs in
  let cs := filterIfTruthy (ListOptions.searchTerm options)
              (fun term => matchesSearch (JS.toLowerCase term)) cs in
  cs.

Section Service.

(** The collation of [String.prototype.localeCompare] and the format of
    [Date.prototype.toISOString] belong to the platform; the service is
    verified for any choice of them. *)
Variable localeCompare : string -> string -> Z.
Variable toISOString : Z -> string.

(** [customer[key]] as the comparator of [getCustomers] sees it. *)
Definition fieldValue (key : CustomerKey) (c : Customer) : FieldValue :=
  match key with
  | K_id => VString (Customer.id c)
  | K_name => VString (Customer.name c)
  | K_company => VString (Customer.company c)
  | K_healthScore => VNumber (Customer.healthScore c)
  | K_email => optField VString (Customer.email c)
  | K_subscriptionTier =>
      optField (fun t => VString (tierName t)) (Customer.subscriptionTier c)
  | K_domains => optField (fun _ => VObject) (Customer.domains c)
  | K_createdAt =>
      optField (fun t => VString (toISOString t)) (Customer.createdAt c)
  | K_updatedAt =>
      optField (fun t => VString (toISOString t)) (Customer.updatedAt c)
  end.

(** The comparator passed to [sort]. *)
Definition compareBy (key : CustomerKey) (order : option SortOrder)
  (a b : Customer) : Z :=
  let aValue := fieldValue key a in
  let bValue := fieldValue key b in
  let modifier := match order with Some desc => -1 | _ => 1 end in
  match aValue, bValue with
  | VString x, VString y => localeCompare x y * modifier
  | VNumber x, VNumber y => Score.sign x y * modifier
  | _, _ => 0
  end.

(** [if (options.sortBy) xs.sort(...)] *)
Definition applySort (options : ListOptions.t) (cs : list Customer)
  : list Customer :=
  match ListOptions.sortBy options with
  | Some key => JS.sort (compareBy key (ListOptions.sortOrder options)) cs
  | None => cs
  end.

(** The filtered and sorted array that [getCustomers] paginates. *)
Definition filteredSorted (options : ListOptions.t) (s : State)
  : list Customer :=
  applySort options (applyFilters options (customers s)).

Definition paginate (options : ListOptions.t) (filteredCustomers : list Customer)
  : Paginated.t :=
  let page := orDefault (ListOptions.page options) 1 in
  let limit := orDefault (ListOptions.limit options) 10 in
  let startIndex := (page - 1) * limit in
  let endIndex := startIndex + limit in
  let paginatedCustomers := JS.slice filteredCustomers startIndex endIndex in
  {| Paginated.data := paginatedCustomers;
     Paginated.pagination :=
       {| Pagination.page := page;
          Pagination.limit := limit;
          Pagination.total := Z.of_nat (List.length filteredCustomers);
          Pagination.totalPages :=
            JS.Math_ceil_div (Z.of_nat (List.length filteredCustomers)) limit |} |}.

Definition getCustomers (options : ListOptions.t)
  : State -> ServiceResponse Paginated.t * State :=
  tryCatch
    (cs <- gets customers ;;
     let filteredCustomers := applySort options (applyFilters options cs) in
     ret (paginate options filteredCustomers))%body.

(** ** The public operations as one interface *)

(** A call of a public operation, with its arguments and the clock
    readings it consumes. *)
Inductive Call : Type :=
| CallGetCustomers (options : ListOptions.t)
| CallGetCustomerById (id : string)
| CallCreateCustomer (now : Z) (input : CustomerCreateInput)
| CallUpdateCustomer (stamp now : Z) (id : string) (input : CustomerUpdateInput)
| CallDeleteCustomer (id : string)
| CallGetCustomersByHealthScore (minScore maxScore : option Z)
| CallGetCustomersByTier (tier : Tier)
| CallSearchCustomers (searchTerm : string)
| CallGetCustomerStats.

(** The envelope of a response: the tag, whether a payload is attached,
    the message and the code. *)
Record Outcome : Type := {
  succeeded : bool;
  hasData : bool;
  errorMessage : option string;
  errorKind : option ErrorCode
}.

Definition outcome {T : Type} (r : ServiceResponse T) : Outcome :=
  {| succeeded := success r;
     hasData := match data r with Some _ => true | None => false end;
     errorMessage := error r;
     errorKind := code r |}.

Definition observe {T : Type} (r : ServiceResponse T * State) : Outcome * State :=
  (outcome (fst r), snd r).

Definition perform (call : Call) (s : State) : Outcome * State :=
  match call with
  | CallGetCustomers options => observe (getCustomers options s)
  | CallGetCustomerById id => observe (getCustomerById id s)
  | CallCreateCustomer now input => observe (createCustomer now input s)
  | CallUpdateCustomer stamp now id input =>
      observe (updateCustomer stamp now id input s)
  | CallDeleteCustomer id => observe (deleteCustomer id s)
  | CallGetCustomersByHealthScore lo hi =>
      observe (getCustomersByHealthScore lo hi s)
  | CallGetCustomersByTier tier => observe (getCustomersByTier tier s)
  | CallSearchCustomers term => observe (searchCustomers term s)
  | CallGetCustomerStats => observe (getCustomerStats s)
  end.

(** The state after a sequence of calls. *)
Definition performAll (calls : list Call) (s : State) : State :=
  fold_left (fun st call => snd (perform call st)) calls s.

End Service.

(** * Reference statements and sample data

    The formulas and rules of the specification as definitions of their
    own, the checks of the code gathered into predicates, the state
    invariant, and the inputs and states at which the properties below are
    evaluated. *)

(** ** Well-formed emails *)

Fixpoint allChars (p : ascii -> bool) (s : string) : bool :=
  match s with
  | EmptyString => true
  | String c r => p c && allChars p r
  end.

(** A run of one or more characters, none of them whitespace or [@]. *)
Definition emailPart (s : string) : Prop :=
  s <> "" /\ allChars Regex.notSpaceAt s = true.

(** What the email pattern asks for: [local@domain.tld], the three parts
    runs of that kind. *)
Definition wellFormedEmail (s : string) : Prop :=
  exists local domain tld,
    s = (local ++ "@" ++ domain ++ "." ++ tld)%string
    /\ emailPart local /\ emailPart domain /\ emailPart tld.

(** ** What the validators throw *)

Definition isValidationError (e : Thrown) : Prop :=
  exists msg, e = ServiceError (ValidationError msg).

(** The conjunction of the checks of [validateCustomerInput]. *)
Definition passesCreateChecks (input : CustomerCreateInput) : bool :=
  negb (isBlank (CreateInput.name input))
  && negb (isBlank (CreateInput.company input))
  && (String.length (JS.trim (CreateInput.name input)) <=? 100)%nat
  && (String.length (JS.trim (CreateInput.company input)) <=? 100)%nat
  && negb (badEmail (CreateInput.email input))
  && forallb isValidDomain (orElse (CreateInput.domains input) []).

(** ** Initial health score *)

(** The formula of the specification, read literally:
    [clamp(round(50 + tierBonus(T) + min(5*|D|, 20) + (E ? 10 : 0)), 0, 100)]. *)
Definition clamp (x lo hi : Z) : Z :=
  if x <? lo then lo else if hi <? x then hi else x.

Definition spec_tierBonus (T : option Tier) : Z :=
  match T with
  | Some enterprise => 30
  | Some premium => 15
  | Some basic => 5
  | None => 0
  end.

Definition spec_initialHealthScore (T : option Tier) (D : list string)
  (E : option string) : Z :=
  clamp
    (JS.Math_round
       (inject_Z 50 + inject_Z (spec_tierBonus T)
        + Qmin (inject_Z 5 * inject_Z (Z.of_nat (List.length D))) (inject_Z 20)
        + (if JS.truthy_opt E then inject_Z 10 else inject_Z 0))%Q)
    0 100.

(** The first scenario of the specification. *)
Definition janeDoe : CustomerCreateInput :=
  {| CreateInput.name := "Jane Doe";
     CreateInput.company := "Acme";
     CreateInput.email := Some "jane@acme.com";
     CreateInput.subscriptionTier := Some premium;
     CreateInput.domains := Some ["acme.com"] |}.

Definition emptyState : State := {| customers := []; nextId := 9 |}.

(** ** The default tier and the initial score *)

(** The create input with its tier replaced. *)
Definition withTier (t : option Tier) (input : CustomerCreateInput)
  : CustomerCreateInput :=
  {| CreateInput.name := CreateInput.name input;
     CreateInput.company := CreateInput.company input;
     CreateInput.email := CreateInput.email input;
     CreateInput.subscriptionTier := t;
     CreateInput.domains := CreateInput.domains input |}.

(** A create input without a tier. *)
Definition noTierInput : CustomerCreateInput :=
  {| CreateInput.name := "To Be Deleted";
     CreateInput.company := "Delete Company";
     CreateInput.email := None;
     CreateInput.subscriptionTier := None;
     CreateInput.domains := None |}.

(** ** Failure is tagged and leaves the state as it was *)

(** A success carries a payload and no error; a failure carries a message
    and a code, no payload, and comes with the state [s] it started from. *)
Definition taggedAndAtomic (s : State) (r : Outcome * State) : Prop :=
  (succeeded (fst r) = true /\ hasData (fst r) = true
   /\ errorMessage (fst r) = None /\ errorKind (fst r) = None)
  \/ (succeeded (fst r) = false /\ hasData (fst r) = false
      /\ (exists msg k, errorMessage (fst r) = Some msg /\ errorKind (fst r) = Some k)
      /\ snd r = s).

(** ** Statistics *)

(** A collection with one customer, the one [createCustomer] makes of
    [noTierInput] in [emptyState]. *)
Definition singletonState : State :=
  snd (createCustomer 0 noTierInput emptyState).

(** ** Search *)

(** The reading of the specification: the field contains the term, the
    letter case of both ignored. *)
Definition containsIgnoringCase (field term : string) : bool :=
  JS.includes (JS.toLowerCase field) (JS.toLowerCase term).

Definition spec_matches (term : string) (c : Customer) : bool :=
  containsIgnoringCase (Customer.name c) term
  || containsIgnoringCase (Customer.company c) term
  || match Customer.email c with
     | Some e => containsIgnoringCase e term
     | None => false
     end.

(** Nothing for an empty or whitespace-only term, otherwise the customers
    that contain the term as it was given. *)
Definition spec_search (term : string) (cs : list Customer) : list Customer :=
  if String.eqb (JS.trim term) "" then [] else filter (spec_matches term) cs.

(** The collection that holds the customer of [janeDoe] only. *)
Definition janeState : State := snd (createCustomer 1000 janeDoe emptyState).

(** ** Validation on create *)

(** The rules as the specification lists them: name and company not empty
    after trimming and of at most 100 characters, an email that is present
    well-formed and of at most 254 characters, the domains each valid and at
    most 10 of them. *)
Definition spec_validCreate (input : CustomerCreateInput) : bool :=
  negb (String.eqb (JS.trim (CreateInput.name input)) "")
  && (String.length (JS.trim (CreateInput.name input)) <=? 100)%nat
  && negb (String.eqb (JS.trim (CreateInput.company input)) "")
  && (String.length (JS.trim (CreateInput.company input)) <=? 100)%nat
  && match CreateInput.email input with
     | Some e =>
         String.eqb e ""
         || isValidEmail e && (String.length e <=? 254)%nat
     | None => true
     end
  && match CreateInput.domains input with
     | Some ds => forallb isValidDomain ds && (List.length ds <=? 10)%nat
     | None => true
     end.

(** The rules [validateCustomerInput] enforces: the same without the bound
    on the length of the email and without the bound on the number of
    domains. *)
Definition enforced_validCreate (input : CustomerCreateInput) : bool :=
  negb (String.eqb (JS.trim (CreateInput.name input)) "")
  && (String.length (JS.trim (CreateInput.name input)) <=? 100)%nat
  && negb (String.eqb (JS.trim (CreateInput.company input)) "")
  && (String.length (JS.trim (CreateInput.company input)) <=? 100)%nat
  && match CreateInput.email input with
     | Some e => String.eqb e "" || isValidEmail e
     | None => true
     end
  && match CreateInput.domains input with
     | Some ds => forallb isValidDomain ds
     | None => true
     end.

(** A create input with eleven valid domains. *)
Definition elevenDomains : CustomerCreateInput :=
  {| CreateInput.name := "Jane Doe";
     CreateInput.company := "Acme";
     CreateInput.email := None;
     CreateInput.subscriptionTier := None;
     CreateInput.domains :=
       Some ["a.com"; "b.com"; "c.com"; "d.com"; "e.com"; "f.com";
             "g.com"; "h.com"; "i.com"; "j.com"; "k.com"] |}.

(** ** Pagination *)

(** The options with the page replaced. *)
Definition withPage (p : Z) (options : ListOptions.t) : ListOptions.t :=
  {| ListOptions.subscriptionTier := ListOptions.subscriptionTier options;
     ListOptions.healthScoreMin := ListOptions.healthScoreMin options;
     ListOptions.healthScoreMax := ListOptions.healthScoreMax options;
     ListOptions.company := ListOptions.company options;
     ListOptions.searchTerm := ListOptions.searchTerm options;
     ListOptions.page := Some p;
     ListOptions.limit := ListOptions.limit options;
     ListOptions.sortBy := ListOptions.sortBy options;
     ListOptions.sortOrder := ListOptions.sortOrder options |}.

(** The page numbers [1 .. n]. *)
Definition pagesUpTo (n : Z) : list Z := map Z.of_nat (seq 1 (Z.to_nat n)).

(** The slice that [getCustomers] returns for page [p]. *)
Definition pageData (localeCompare : string -> string -> Z)
  (toISOString : Z -> string) (options : ListOptions.t) (s : State) (p : Z)
  : list Customer :=
  match data (fst (getCustomers localeCompare toISOString
                     (withPage p options) s)) with
  | Some r => Paginated.data r
  | None => []
  end.

(** Three customers, created one after the other. *)
Definition threeCustomers : State :=
  snd (createCustomer 2000 elevenDomains
         (snd (createCustomer 1500 noTierInput janeState))).

(** Two per page, the healthiest first. *)
Definition twoPerPage : ListOptions.t :=
  {| ListOptions.subscriptionTier := None;
     ListOptions.healthScoreMin := None;
     ListOptions.healthScoreMax := None;
     ListOptions.company := None;
     ListOptions.searchTerm := None;
     ListOptions.page := None;
     ListOptions.limit := Some 2;
     ListOptions.sortBy := Some K_healthScore;
     ListOptions.sortOrder := Some desc |}.

(** A limit below zero, which [getCustomers] takes as it is. *)
Definition negativeLimit : ListOptions.t :=
  {| ListOptions.subscriptionTier := None;
     ListOptions.healthScoreMin := None;
     ListOptions.healthScoreMax := None;
     ListOptions.company := None;
     ListOptions.searchTerm := None;
     ListOptions.page := None;
     ListOptions.limit := Some (-2);
     ListOptions.sortBy := None;
     ListOptions.sortOrder := None |}.

(** ** Update and the recomputed health score *)

(** The conjunction of the checks of [validateCustomerUpdateInput]. *)
Definition passesUpdateChecks (input : CustomerUpdateInput) : bool :=
  negb (presentBlank (UpdateInput.name input))
  && negb (presentBlank (UpdateInput.company input))
  && negb (tooLong (UpdateInput.name input))
  && negb (tooLong (UpdateInput.company input))
  && negb (badEmail (UpdateInput.email input))
  && negb (badHealthScore (UpdateInput.healthScore input))
  && forallb isValidDomain (orElse (UpdateInput.domains input) []).

(** The recomputation as the specification writes it: the shared part of
    the score and the account-age bonus [min(daysSinceCreatedAt / 10, 15)],
    rounded and clamped. *)
Definition spec_ageBonus (now : Z) (createdAt : option Z) : Q :=
  match createdAt with
  | Some created =>
      let daysSinceCreatedAt :=
        (inject_Z (now - created) / inject_Z 86400000)%Q in
      Qmin (daysSinceCreatedAt / inject_Z 10)%Q (inject_Z 15)
  | None => 0%Q
  end.

Definition spec_recomputedHealthScore (now : Z) (T : option Tier)
  (D : option (list string)) (E : option string) (createdAt : option Z) : Z :=
  clamp
    (JS.Math_round
       (inject_Z 50 + inject_Z (spec_tierBonus T)
        + Qmin (inject_Z 5 * inject_Z (Z.of_nat (List.length (orElse D []))))
            (inject_Z 20)
        + (if JS.truthy_opt E then inject_Z 10 else inject_Z 0)
        + spec_ageBonus now createdAt)%Q)
    0 100.

(** The patch with its health score replaced. *)
Definition withPatchScore (h : option Score.t) (input : CustomerUpdateInput)
  : CustomerUpdateInput :=
  {| UpdateInput.name := UpdateInput.name input;
     UpdateInput.company := UpdateInput.company input;
     UpdateInput.email := UpdateInput.email input;
     UpdateInput.subscriptionTier := UpdateInput.subscriptionTier input;
     UpdateInput.domains := UpdateInput.domains input;
     UpdateInput.healthScore := h |}.

(** Thirty days after the customer of [janeDoe] was created, a patch moves
    it to the enterprise tier and carries a health score of 10. *)
Definition upgradePatch : CustomerUpdateInput :=
  {| UpdateInput.name := None;
     UpdateInput.company := None;
     UpdateInput.email := None;
     UpdateInput.subscriptionTier := Some enterprise;
     UpdateInput.domains := None;
     UpdateInput.healthScore := Some (Score.ofZ 10) |}.

Definition thirtyDaysLater : Z := 1000 + 30 * 86400000.

(** ** Uniqueness of emails *)

(** Equality of two emails with the letter case ignored, the comparison of
    the specification. *)
Definition sameEmailIgnoringCase (a b : string) : bool :=
  String.eqb (JS.toLowerCase a) (JS.toLowerCase b).

(** The create input of [janeDoe] with the email in capitals. *)
Definition shoutingJane : CustomerCreateInput :=
  {| CreateInput.name := "Jane Doe";
     CreateInput.company := "Acme";
     CreateInput.email := Some "JANE@ACME.COM";
     CreateInput.subscriptionTier := Some premium;
     CreateInput.domains := Some ["acme.com"] |}.

(** The emails of the collection that are not empty, in order. *)
Definition nonEmptyEmail (c : Customer) : list string :=
  match Customer.email c with
  | Some e => if JS.truthy e then [e] else []
  | None => []
  end.

Definition nonEmptyEmails (cs : list Customer) : list string :=
  flat_map nonEmptyEmail cs.

(** The email that a call hands to the service, if any. *)
Definition suppliedEmail (call : Call) : option string :=
  match call with
  | CallCreateCustomer _ input => CreateInput.email input
  | CallUpdateCustomer _ _ _ input => UpdateInput.email input
  | _ => None
  end.

(** The call hands over no email with whitespace around it. *)
Definition suppliesTrimmedEmail (call : Call) : Prop :=
  forall e, suppliedEmail call = Some e -> JS.trim e = e.

(** The state invariant: ids are pairwise distinct and were issued by the
    counter, and the emails that are not empty are pairwise distinct under
    exact comparison. *)
Record Consistent (s : State) : Prop := {
  ids_distinct : NoDup (map Customer.id (customers s));
  ids_issued :
    forall c k, In c (customers s) -> (nextId s <= k)%nat ->
                Customer.id c <> JS.toString k;
  emails_distinct : NoDup (nonEmptyEmails (customers s))
}.

(** A second customer, and a patch that would give it the email of the
    first. *)
Definition bobInput : CustomerCreateInput :=
  {| CreateInput.name := "Bob Stone";
     CreateInput.company := "Globex";
     CreateInput.email := Some "bob@globex.com";
     CreateInput.subscriptionTier := None;
     CreateInput.domains := None |}.

Definition janeCustomer : Customer := newCustomer 1000 9 janeDoe.
Definition bobCustomer : Customer := newCustomer 1500 10 bobInput.

Definition twoCustomers : State := snd (createCustomer 1500 bobInput janeState).

Definition takeJanesEmail : CustomerUpdateInput :=
  {| UpdateInput.name := None;
     UpdateInput.company := None;
     UpdateInput.email := Some "jane@acme.com";
     UpdateInput.subscriptionTier := None;
     UpdateInput.domains := None;
     UpdateInput.healthScore := None |}.

Definition threeCalls : list Call :=
  [CallCreateCustomer 1000 janeDoe;
   CallCreateCustomer 1500 bobInput;
   CallUpdateCustomer 3000 3000 "10" takeJanesEmail].

(** The duplicate check compares the email as supplied and the service
    stores it trimmed: with a space in front, the email of an existing
    customer passes the check and is stored a second time.  This is why the
    invariant above asks for emails supplied without surrounding
    whitespace. *)
Definition paddedJane : CustomerCreateInput :=
  {| CreateInput.name := "Jane Doe";
     CreateInput.company := "Acme";
     CreateInput.email := Some " jane@acme.com";
     CreateInput.subscriptionTier := Some premium;
     CreateInput.domains := Some ["acme.com"] |}.

(** ** Invariants of the collection *)

(** The score is a number, not [NaN], and lies in [lo..hi]. *)
Definition ScoreWithin (lo hi : Z) (h : Score.t) : Prop :=
  match h with
  | Score.Real q => (inject_Z lo <= q <= inject_Z hi)%Q
  | Score.NaN => False
  end.

(** The score is a whole number. *)
Definition ScoreIsInteger (h : Score.t) : Prop :=
  match h with
  | Score.Real q => exists z : Z, (q == inject_Z z)%Q
  | Score.NaN => False
  end.

(** Every stored health score lies in 0..100. *)
Definition ScoresInRange (s : State) : Prop :=
  Forall (fun c => ScoreWithin 0 100 (Customer.healthScore c)) (customers s).

(** A patch that holds nothing but a health score. *)
Definition scoreOnly (h : Score.t) : CustomerUpdateInput :=
  {| UpdateInput.name := None;
     UpdateInput.company := None;
     UpdateInput.email := None;
     UpdateInput.subscriptionTier := None;
     UpdateInput.domains := None;
     UpdateInput.healthScore := Some h |}.

(** The call is no update whose patch carries [NaN] as the health score. *)
Definition carriesNoNaN (call : Call) : Prop :=
  match call with
  | CallUpdateCustomer _ _ _ input =>
      UpdateInput.healthScore input <> Some Score.NaN
  | _ => True
  end.

(** The ids are pairwise distinct and the counter has not reached any of
    them: no stored id is the decimal form of the counter or of a later
    value. *)
Record IdsFresh (s : State) : Prop := {
  fresh_distinct : NoDup (map Customer.id (customers s));
  fresh_issued :
    forall c k, In c (customers s) -> (nextId s <= k)%nat ->
                Customer.id c <> JS.toString k
}.

(** What a call can do to the state: nothing, append the new customer,
    replace one customer by its update, or remove one customer. *)
Inductive Step (s : State) : State -> Prop :=
| StepNone : Step s s
| StepCreate (now : Z) (input : CustomerCreateInput) :
    success (fst (createCustomer now input s)) = true ->
    Step s {| customers := customers s ++ [newCustomer now (nextId s) input];
              nextId := S (nextId s) |}
| StepUpdate (stamp now : Z) (input : CustomerUpdateInput)
    (before after : list Customer) (existing : Customer) :
    customers s = before ++ existing :: after ->
    forallb (fun c => negb (String.eqb (Customer.id c) (Customer.id existing)))
      before = true ->
    passesUpdateChecks input = true ->
    Step s {| customers :=
                before ++ updatedCustomer stamp now existing input :: after;
              nextId := nextId s |}
| StepDelete (before after : list Customer) (existing : Customer) :
    customers s = before ++ existing :: after ->
    Step s {| customers := before ++ after; nextId := nextId s |}.

(** Where the ids of a later state come from: the ids of the earlier state
    and the counter values in between. *)
Definition idsFrom (s0 s : State) : Prop :=
  (nextId s0 <= nextId s)%nat
  /\ forall c, In c (customers s) ->
       In (Customer.id c) (map Customer.id (customers s0))
       \/ exists k, (nextId s0 <= k < nextId s)%nat
                    /\ Customer.id c = JS.toString k.

(** An id that is absent and is not a coming counter value stays absent. *)
Definition idRetired (x : string) (s : State) : Prop :=
  ~ In x (map Customer.id (customers s))
  /\ forall k, (nextId s <= k)%nat -> x <> JS.toString k.

(** ** The filters of the listing as one predicate *)

(** A customer passes when it satisfies every filter that is set. *)
Definition passesFilters (options : ListOptions.t) (c : Customer) : bool :=
  match ListOptions.subscriptionTier options with
  | Some t => hasTier t c
  | None => true
  end
  && match ListOptions.healthScoreMin options with
     | Some m => Score.leb (Score.ofZ m) (Customer.healthScore c)
     | None => true
     end
  && match ListOptions.healthScoreMax options with
     | Some m => Score.leb (Customer.healthScore c) (Score.ofZ m)
     | None => true
     end
  && match ListOptions.company options with
     | Some t =>
         if JS.truthy t
         then JS.includes (JS.toLowerCase (Customer.company c)) (JS.toLowerCase t)
         else true
     | None => true
     end
  && match ListOptions.searchTerm options with
     | Some t => if JS.truthy t then matchesSearch (JS.toLowerCase t) c else true
     | None => true
     end.

(** ** Search and listing options *)

(** The listing options that set the search term only. *)
Definition searchOnly (term : string) : ListOptions.t :=
  {| ListOptions.subscriptionTier := None;
     ListOptions.healthScoreMin := None;
     ListOptions.healthScoreMax := None;
     ListOptions.company := None;
     ListOptions.searchTerm := Some term;
     ListOptions.page := None;
     ListOptions.limit := None;
     ListOptions.sortBy := None;
     ListOptions.sortOrder := None |}.

(** The customer has no tier. *)
Definition hasNoTier (c : Customer) : bool :=
  match Customer.subscriptionTier c with
  | Some _ => false
  | None => true
  end.

(** The order of two scores that are numbers. *)
Definition ScoreLe (a b : Score.t) : Prop :=
  match a, b with
  | Score.Real p, Score.Real q => (p <= q)%Q
  | _, _ => False
  end.

(** The score of the customer is the number [v]. *)
Definition hasScore (v : Q) (c : Customer) : bool :=
  match Customer.healthScore c with
  | Score.Real q => Qeq_bool q v
  | Score.NaN => false
  end.

(** The score of the customer falls between the health bands: it is a
    number strictly between 30 and 31 or strictly between 70 and 71, or it
    is [NaN]. *)
Definition betweenBands (c : Customer) : bool :=
  match Customer.healthScore c with
  | Score.Real q =>
      (negb (Qle_bool q (inject_Z 30)) && negb (Qle_bool (inject_Z 31) q))
      || (negb (Qle_bool q (inject_Z 70)) && negb (Qle_bool (inject_Z 71) q))
  | Score.NaN => true
  end.

(** ** The rules on a patch *)

(** What [validateCustomerUpdateInput] asks of the fields that are present:
    a name and a company not empty after trimming and of at most 100
    characters then, an email that is empty or well-formed, a health score
    that is within 0..100 or is [NaN], and domains that are each valid. *)
Definition enforced_validPatch (input : CustomerUpdateInput) : bool :=
  match UpdateInput.name input with
  | Some n =>
      negb (String.eqb (JS.trim n) "")
      && (String.length (JS.trim n) <=? 100)%nat
  | None => true
  end
  && match UpdateInput.company input with
     | Some n =>
         negb (String.eqb (JS.trim n) "")
         && (String.length (JS.trim n) <=? 100)%nat
     | None => true
     end
  && match UpdateInput.email input with
     | Some e => String.eqb e "" || isValidEmail e
     | None => true
     end
  && match UpdateInput.healthScore input with
     | Some (Score.Real q) => Qle_bool (inject_Z 0) q && Qle_bool q (inject_Z 100)
     | Some Score.NaN => true
     | None => true
     end
  && match UpdateInput.domains input with
     | Some ds => forallb isValidDomain ds
     | None => true
     end.

(** A patch that renames the customer and sets its health score. *)
Definition renamePatch : CustomerUpdateInput :=
  {| UpdateInput.name := Some "  John Smith Updated ";
     UpdateInput.company := None;
     UpdateInput.email := None;
     UpdateInput.subscriptionTier := None;
     UpdateInput.domains := None;
     UpdateInput.healthScore := Some (Score.ofZ 90) |}.

(** * The HTTP layer

    The route handlers of [app/api/customers]: [route.ts] (list and
    create), [[id]/route.ts] (read, update and delete one customer) and
    [search/route.ts].  A handler sanitises the request, calls the service
    and maps the service response to a status.

    Conventions of this part.
    - A request body is the value that [request.json()] resolves to;
      [None] is a body for which it throws.  A JSON number is the
      rational that its literal denotes; JSON has no [NaN].
    - The query string is the list of its decoded parameters, in order;
      the path parameter [id] is its decoded string.
    - A response is its status and the members [success], [data], [error]
      and [code] of its JSON body.  The [timestamp] member, the
      [searchTime] of the search metadata, the headers (the same for every
      response of a route) and the console logging are left out.
    - The handlers wrap their body in [try { ... } catch]; nothing they
      call throws (the service catches its own errors), so the [catch]
      branch, which answers 500, has no counterpart.
    - The statistics route is left out: its entity tag is computed with
      [Buffer] and base64, and its percentages in floating point. *)

(** ** Further JavaScript primitives *)

Module Text.

(** [s.replace(/[class]/g, '')]: the string without the code units of a
    class. *)
Fixpoint remove (p : ascii -> bool) (s : string) : string :=
  match s with
  | EmptyString => EmptyString
  | String c r => if p c then remove p r else String c (remove p r)
  end.

(** [s.substring(start, end)] for indices that are not negative: both are
    clamped to the length, and swapped when [start] is the larger. *)
Definition substring (s : string) (start finish : nat) : string :=
  String.substring (Nat.min start finish)
    (Nat.max start finish - Nat.min start finish) s.

Definition isDigit (c : ascii) : bool := Regex.inRange 48 57 c.

(** The longest prefix of decimal digits. *)
Fixpoint digitPrefix (s : string) : string :=
  match s with
  | EmptyString => EmptyString
  | String c r => if isDigit c then String c (digitPrefix r) else EmptyString
  end.

(** The value of a string of decimal digits, after the digits [acc]. *)
Fixpoint decimalValue (acc : Z) (s : string) : Z :=
  match s with
  | EmptyString => acc
  | String c r => decimalValue (10 * acc + (Z.of_nat (nat_of_ascii c) - 48)) r
  end.

(** [parseInt(s, 10)]: leading white space is skipped, one sign is read,
    then the longest prefix of digits; without a digit the result is
    [NaN].  The value is exact here; the callers compare it with bounds of
    at most 1000, where the rounding of large values plays no part. *)
Definition parseInt (s : string) : Number :=
  let s := JS.trimStart s in
  let sign :=
    match s with
    | String c _ => if Ascii.eqb c "-" then -1 else 1
    | EmptyString => 1
    end in
  let s :=
    match s with
    | String c r => if Ascii.eqb c "-" || Ascii.eqb c "+" then r else s
    | EmptyString => s
    end in
  let z := digitPrefix s in
  if String.eqb z "" then NaN else Num (sign * decimalValue 0 z).

End Text.

(** ** JSON values *)

Module Json.

#[warnings="-register-all"]
Inductive t : Type :=
| Null
| Bool (b : bool)
| Num (n : Q)
| Str (s : string)
| Arr (items : list t)
| Obj (members : list (string * t)).

(** [!!v] *)
Definition truthy (v : t) : bool :=
  match v with
  | Null => false
  | Bool b => b
  | Num n => negb (Qeq_bool n 0)
  | Str s => JS.truthy s
  | Arr _ | Obj _ => true
  end.

(** [typeof v === 'object'] *)
Definition isObject (v : t) : bool :=
  match v with
  | Null | Arr _ | Obj _ => true
  | _ => false
  end.

(** [typeof v === 'string'] *)
Definition isString (v : t) : bool :=
  match v with
  | Str _ => true
  | _ => false
  end.

Fixpoint lookup (key : string) (members : list (string * t)) : option t :=
  match members with
  | [] => None
  | (k, v) :: rest => if String.eqb k key then Some v else lookup key rest
  end.

(** [v[key]] for a key that is no property of arrays: the member of an
    object, [undefined] for an array and for an object without the key. *)
Definition get (v : t) (key : string) : option t :=
  match v with
  | Obj members => lookup key members
  | _ => None
  end.

End Json.

(** [searchParams]: the decoded parameters of the query string. *)
Definition Query : Type := list (string * string).

(** [searchParams.get(key)]: the first value of the key, [None] for
    [null]. *)
Fixpoint param (key : string) (q : Query) : option string :=
  match q with
  | [] => None
  | (k, v) :: rest => if String.eqb k key then Some v else param key rest
  end.

(** ** Responses *)

Module Http.

Record Response (T : Type) : Type := mk {
  status : Z;
  success : bool;
  data : option T;
  error : option string;
  code : option string
}.
Arguments mk {T} _ _ _ _ _.
Arguments status {T} _.
Arguments success {T} _.
Arguments data {T} _.
Arguments error {T} _.
Arguments code {T} _.

End Http.

(** The code of a service error as the string it is. *)
Definition codeString (c : ErrorCode) : string :=
  match c with
  | VALIDATION_ERROR => "VALIDATION_ERROR"
  | NOT_FOUND => "NOT_FOUND"
  | DUPLICATE_ERROR => "DUPLICATE_ERROR"
  | INTERNAL_ERROR => "INTERNAL_ERROR"
  end.

(** [createErrorResponse(message, status, code)], with its
    [code || 'VALIDATION_ERROR']. *)
Definition createErrorResponse {T : Type} (message : string) (status : Z)
  (code : option string) : Http.Response T :=
  {| Http.status := status;
     Http.success := false;
     Http.data := None;
     Http.error := Some message;
     Http.code :=
       Some (if JS.truthy_opt code then orElse code "VALIDATION_ERROR"
             else "VALIDATION_ERROR") |}.

(** [createSuccessResponse(data, status)]; [data] may be [undefined]. *)
Definition createSuccessResponse {T : Type} (data : option T) (status : Z)
  : Http.Response T :=
  {| Http.status := status;
     Http.success := true;
     Http.data := data;
     Http.error := None;
     Http.code := None |}.

(** [result.error || fallback] *)
Definition errorOr (error : option string) (fallback : string) : string :=
  if JS.truthy_opt error then orElse error fallback else fallback.

(** ** Sanitisers *)

Definition isAngle (c : ascii) : bool := Ascii.eqb c "<" || Ascii.eqb c ">".
Definition isBrace (c : ascii) : bool := Ascii.eqb c "{" || Ascii.eqb c "}".

(** [sanitizeString]: nothing for a value that is not a non-empty string;
    otherwise the string trimmed, without angle brackets and braces, cut
    to 1000 characters. *)
Definition sanitizeString (input : option Json.t) : option string :=
  match input with
  | Some (Json.Str s) =>
      if JS.truthy s
      then Some (Text.substring
                   (Text.remove isBrace (Text.remove isAngle (JS.trim s)))
                   0%nat 1000%nat)
      else None
  | _ => None
  end.

(** [[a-zA-Z0-9._%+-]] and [[a-zA-Z0-9.-]] *)
Definition isLocalChar (c : ascii) : bool :=
  Regex.isAlnum c || Ascii.eqb c "." || Ascii.eqb c "_" || Ascii.eqb c "%"
  || Ascii.eqb c "+" || Ascii.eqb c "-".
Definition isHostChar (c : ascii) : bool :=
  Regex.isAlnum c || Ascii.eqb c "." || Ascii.eqb c "-".

(** The email pattern of the routes: one or more local characters, an at
    sign, one or more host characters, a dot, two or more letters. *)
Definition routeEmailRegex : Regex.t :=
  Regex.Seq (Regex.plus (Regex.Class isLocalChar))
    (Regex.Seq (Regex.chr "@")
       (Regex.Seq (Regex.plus (Regex.Class isHostChar))
          (Regex.Seq (Regex.chr ".")
             (Regex.atLeast2 (Regex.Class Regex.isAlpha))))).

(** [sanitizeEmail]: the sanitised string in lower case when it matches
    the pattern, nothing otherwise.  The first guard of the source is the
    guard of [sanitizeString]. *)
Definition sanitizeEmail (email : option Json.t) : option string :=
  match sanitizeString email with
  | Some sanitized =>
      if JS.truthy sanitized
      then if Regex.test routeEmailRegex sanitized
           then Some (JS.toLowerCase sanitized)
           else None
      else None
  | None => None
  end.

(** The second filter of [sanitizeDomains]; the pattern is the one of the
    service, applied without trimming. *)
Definition keepsDomain (domain : option string) : bool :=
  match domain with
  | Some d =>
      JS.truthy d && Regex.test domainRegex d && (String.length d <=? 253)%nat
  | None => false
  end.

(** The narrowing [(domain): domain is string] of that filter. *)
Fixpoint strings (xs : list (option string)) : list string :=
  match xs with
  | [] => []
  | Some s :: r => s :: strings r
  | None :: r => strings r
  end.

Definition sanitizeDomains (domains : option Json.t) : option (list string) :=
  match domains with
  | Some (Json.Arr items) =>
      let sanitizedDomains :=
        strings
          (filter keepsDomain
             (map (fun domain => sanitizeString (Some domain))
                (filter Json.isString items))) in
      if (0 <? List.length sanitizedDomains)%nat
      then Some sanitizedDomains
      else None
  | _ => None
  end.

Definition validateSubscriptionTier (tier : option Json.t) : option Tier :=
  match tier with
  | Some (Json.Str s) =>
      if String.eqb s "basic" then Some basic
      else if String.eqb s "premium" then Some premium
      else if String.eqb s "enterprise" then Some enterprise
      else None
  | _ => None
  end.

(** [typeof score === 'number' && score >= 0 && score <= 100] *)
Definition validateHealthScore (score : option Json.t) : option Score.t :=
  match score with
  | Some (Json.Num n) =>
      let score := Score.Real n in
      if Score.leb (Score.ofZ 0) score && Score.leb score (Score.ofZ 100)
      then Some score
      else None
  | _ => None
  end.

(** [[a-zA-Z0-9-_]] *)
Definition isIdChar (c : ascii) : bool :=
  Regex.isAlnum c || Ascii.eqb c "-" || Ascii.eqb c "_".

(** [sanitizeId]: the id trimmed, reduced to letters, digits, dash and
    underscore, cut to 50 characters; [None] is [null]. *)
Definition sanitizeId (id : string) : option string :=
  if JS.truthy id
  then
    let sanitized :=
      Text.substring (Text.remove (fun c => negb (isIdChar c)) (JS.trim id))
        0%nat 50%nat in
    if (0 <? String.length sanitized)%nat then Some sanitized else None
  else None.

(** [parseNumericParam(param, min, max)] *)
Definition parseNumericParam (p : option string) (min max : Z) : option Z :=
  match p with
  | Some s =>
      if JS.truthy s
      then match Text.parseInt s with
           | Num n => if (min <=? n) && (n <=? max) then Some n else None
           | NaN => None
           end
      else None
  | None => None
  end.

(** ** The status of a service failure *)

(** The three mappings of the handlers: create knows a conflict, read and
    delete know a missing customer, update knows both; an internal error
    is 500 and anything else 400. *)
Definition createStatus (c : option ErrorCode) : Z :=
  match c with
  | Some DUPLICATE_ERROR => 409
  | Some INTERNAL_ERROR => 500
  | _ => 400
  end.

Definition byIdStatus (c : option ErrorCode) : Z :=
  match c with
  | Some NOT_FOUND => 404
  | Some INTERNAL_ERROR => 500
  | _ => 400
  end.

Definition updateStatus (c : option ErrorCode) : Z :=
  match c with
  | Some NOT_FOUND => 404
  | Some DUPLICATE_ERROR => 409
  | Some INTERNAL_ERROR => 500
  | _ => 400
  end.

(** [if (!result.success) return createErrorResponse(result.error ||
    fallback, status, result.code); return createSuccessResponse(...)] *)
Definition respond {T U : Type} (result : ServiceResponse T)
  (fallback : string) (status : Z) (payload : option U) (okStatus : Z)
  : Http.Response U :=
  if negb (success result)
  then createErrorResponse (errorOr (error result) fallback) status
         (option_map codeString (code result))
  else createSuccessResponse payload okStatus.

(** The narrowing of [if (!x) return ...] on a sanitised string: what
    passes is a string that is not empty. *)
Definition present (o : option string) : option string :=
  match o with
  | Some s => if JS.truthy s then Some s else None
  | None => None
  end.

(** ** [route.ts]: list and create *)

Module CustomersRoute.

(** The part of [POST] before the call of the service: the response it
    returns early, or the input it hands to [createCustomer]. *)
Definition createInput (body : option Json.t)
  : Http.Response Customer + CustomerCreateInput :=
  match body with
  | None =>
      inl (createErrorResponse "Invalid JSON in request body" 400
             (Some "INVALID_JSON"))
  | Some rawData =>
      if negb (Json.truthy rawData) || negb (Json.isObject rawData)
      then inl (createErrorResponse
                  "Request body must be a valid JSON object" 400
                  (Some "INVALID_BODY"))
      else
        let name := sanitizeString (Json.get rawData "name") in
        let company := sanitizeString (Json.get rawData "company") in
        let email := sanitizeEmail (Json.get rawData "email") in
        let subscriptionTier :=
          validateSubscriptionTier (Json.get rawData "subscriptionTier") in
        let domains := sanitizeDomains (Json.get rawData "domains") in
        match present name with
        | None =>
            inl (createErrorResponse
                   "Customer name is required and must be a valid string"
                   400 (Some "MISSING_NAME"))
        | Some name =>
            match present company with
            | None =>
                inl (createErrorResponse
                       "Company name is required and must be a valid string"
                       400 (Some "MISSING_COMPANY"))
            | Some company =>
                if (100 <? String.length name)%nat
                then inl (createErrorResponse
                            "Customer name must be 100 characters or less"
                            400 (Some "NAME_TOO_LONG"))
                else if (100 <? String.length company)%nat
                then inl (createErrorResponse
                            "Company name must be 100 characters or less"
                            400 (Some "COMPANY_TOO_LONG"))
                else if match email with
                        | Some e =>
                            JS.truthy e && (254 <? String.length e)%nat
                        | None => false
                        end
                then inl (createErrorResponse "Email address is too long"
                            400 (Some "EMAIL_TOO_LONG"))
                else if match domains with
                        | Some ds => (10 <? List.length ds)%nat
                        | None => false
                        end
                then inl (createErrorResponse
                            "Maximum 10 domains allowed per customer"
                            400 (Some "TOO_MANY_DOMAINS"))
                else
                  inr {| CreateInput.name := name;
                         CreateInput.company := company;
                         CreateInput.email := email;
                         CreateInput.subscriptionTier :=
                           Some (orElse subscriptionTier basic);
                         CreateInput.domains := domains |}
            end
        end
  end.

(** [POST /api/customers] *)
Definition POST (now : Z) (body : option Json.t) (s : State)
  : Http.Response Customer * State :=
  match createInput body with
  | inl response => (response, s)
  | inr input =>
      let (result, s') := createCustomer now input s in
      (respond result "Failed to create customer"
         (createStatus (code result)) (data result) 201, s')
  end.

(** The options that [GET] reads from the query string. *)
Definition listOptions (q : Query) : ListOptions.t :=
  let page := parseNumericParam (param "page" q) 1 1000 in
  let limit := parseNumericParam (param "limit" q) 1 100 in
  let sortBy := param "sortBy" q in
  let sortOrder := param "sortOrder" q in
  let subscriptionTier :=
    validateSubscriptionTier
      (option_map Json.Str (param "subscriptionTier" q)) in
  let healthScoreMin := parseNumericParam (param "healthScoreMin" q) 0 100 in
  let healthScoreMax := parseNumericParam (param "healthScoreMax" q) 0 100 in
  let company := sanitizeString (option_map Json.Str (param "company" q)) in
  let searchTerm :=
    sanitizeString (option_map Json.Str (param "searchTerm" q)) in
  {| ListOptions.subscriptionTier := subscriptionTier;
     ListOptions.healthScoreMin := healthScoreMin;
     ListOptions.healthScoreMax := healthScoreMax;
     ListOptions.company := present company;
     ListOptions.searchTerm := present searchTerm;
     ListOptions.page :=
       match page with
       | Some n => if n =? 0 then None else Some n
       | None => None
       end;
     ListOptions.limit :=
       match limit with
       | Some n => if n =? 0 then None else Some n
       | None => None
       end;
     ListOptions.sortBy :=
       match sortBy with
       | Some k =>
           if String.eqb k "id" then Some K_id
           else if String.eqb k "name" then Some K_name
           else if String.eqb k "company" then Some K_company
           else if String.eqb k "healthScore" then Some K_healthScore
           else if String.eqb k "createdAt" then Some K_createdAt
           else if String.eqb k "updatedAt" then Some K_updatedAt
           else None
       | None => None
       end;
     ListOptions.sortOrder :=
       match sortOrder with
       | Some o =>
           if String.eqb o "asc" then Some asc
           else if String.eqb o "desc" then Some desc
           else None
       | None => None
       end |}.

(** [healthScoreMin !== undefined && healthScoreMax !== undefined &&
    healthScoreMin > healthScoreMax] *)
Definition invalidRange (options : ListOptions.t) : bool :=
  match ListOptions.healthScoreMin options,
        ListOptions.healthScoreMax options with
  | Some lo, Some hi => hi <? lo
  | _, _ => false
  end.

Section Listing.

Variable localeCompare : string -> string -> Z.
Variable toISOString : Z -> string.

(** [GET /api/customers] *)
Definition GET (q : Query) (s : State) : Http.Response Paginated.t * State :=
  let options := listOptions q in
  if invalidRange options
  then (createErrorResponse
          "healthScoreMin cannot be greater than healthScoreMax" 400
          (Some "INVALID_RANGE"), s)
  else
    let (result, s') := getCustomers localeCompare toISOString options s in
    (respond result "Failed to retrieve customers" 500 (data result) 200, s').

End Listing.

End CustomersRoute.

(** ** [[id]/route.ts]: one customer *)

Module CustomerByIdRoute.

(** The patch under construction and whether it holds the key [email]
    with the value [undefined], which [Object.keys] counts and the service
    skips. *)
Record Patch : Type := {
  fields : CustomerUpdateInput;
  emailUndefined : bool
}.

Definition isSome {A : Type} (o : option A) : bool :=
  match o with
  | Some _ => true
  | None => false
  end.

(** [Object.keys(updateInput).length] *)
Definition keys (p : Patch) : nat :=
  let input := fields p in
  List.length
    (filter (fun b : bool => b)
       [isSome (UpdateInput.name input);
        isSome (UpdateInput.company input);
        isSome (UpdateInput.email input) || emailUndefined p;
        isSome (UpdateInput.subscriptionTier input);
        isSome (UpdateInput.domains input);
        isSome (UpdateInput.healthScore input)]).

(** The steps of [PUT] on the fields of the body, each with the response
    it returns early or the value it assigns, [None] when it assigns
    nothing. *)
Definition nameField (rawData : Json.t)
  : Http.Response Customer + option string :=
  match sanitizeString (Json.get rawData "name") with
  | Some name =>
      if negb (JS.truthy name)
      then inl (createErrorResponse "Customer name cannot be empty" 400
                  (Some "EMPTY_NAME"))
      else if (100 <? String.length name)%nat
      then inl (createErrorResponse
                  "Customer name must be 100 characters or less" 400
                  (Some "NAME_TOO_LONG"))
      else inr (Some name)
  | None => inr None
  end.

Definition companyField (rawData : Json.t)
  : Http.Response Customer + option string :=
  match sanitizeString (Json.get rawData "company") with
  | Some company =>
      if negb (JS.truthy company)
      then inl (createErrorResponse "Company name cannot be empty" 400
                  (Some "EMPTY_COMPANY"))
      else if (100 <? String.length company)%nat
      then inl (createErrorResponse
                  "Company name must be 100 characters or less" 400
                  (Some "COMPANY_TOO_LONG"))
      else inr (Some company)
  | None => inr None
  end.

(** The email step gives the email it assigns and whether it assigned
    [undefined]. *)
Definition emailField (rawData : Json.t)
  : Http.Response Customer + (option string * bool) :=
  let email := sanitizeEmail (Json.get rawData "email") in
  match Json.get rawData "email" with
  | Some raw =>
      if match raw with
         | Json.Null => true
         | Json.Str r => String.eqb r ""
         | _ => false
         end
      then inr (None, true)
      else
        match present email with
        | Some e =>
            if (254 <? String.length e)%nat
            then inl (createErrorResponse "Email address is too long" 400
                        (Some "EMAIL_TOO_LONG"))
            else inr (Some e, false)
        | None =>
            inl (createErrorResponse "Invalid email format" 400
                   (Some "INVALID_EMAIL"))
        end
  | None => inr (None, false)
  end.

Definition tierField (rawData : Json.t)
  : Http.Response Customer + option Tier :=
  let subscriptionTier :=
    validateSubscriptionTier (Json.get rawData "subscriptionTier") in
  match Json.get rawData "subscriptionTier" with
  | Some _ =>
      match subscriptionTier with
      | Some t => inr (Some t)
      | None =>
          inl (createErrorResponse
                 "Invalid subscription tier. Must be basic, premium, or enterprise"
                 400 (Some "INVALID_TIER"))
      end
  | None => inr None
  end.

Definition domainsField (rawData : Json.t)
  : Http.Response Customer + option (list string) :=
  let domains := sanitizeDomains (Json.get rawData "domains") in
  match Json.get rawData "domains" with
  | Some (Json.Arr items) =>
      if (10 <? List.length items)%nat
      then inl (createErrorResponse
                  "Maximum 10 domains allowed per customer" 400
                  (Some "TOO_MANY_DOMAINS"))
      else inr (Some (orElse domains []))
  | Some _ =>
      inl (createErrorResponse "Domains must be an array of strings" 400
             (Some "INVALID_DOMAINS_FORMAT"))
  | None => inr None
  end.

Definition healthScoreField (rawData : Json.t)
  : Http.Response Customer + option Score.t :=
  let healthScore := validateHealthScore (Json.get rawData "healthScore") in
  match Json.get rawData "healthScore" with
  | Some _ =>
      match healthScore with
      | Some h => inr (Some h)
      | None =>
          inl (createErrorResponse
                 "Health score must be a number between 0 and 100" 400
                 (Some "INVALID_HEALTH_SCORE"))
      end
  | None => inr None
  end.

(** The next step runs when the one before did not return. *)
Definition next {E A B : Type} (step : E + A) (rest : A -> E + B) : E + B :=
  match step with
  | inl response => inl response
  | inr a => rest a
  end.

(** The part of [PUT] between the check of the id and the call of the
    service: the response it returns early, or the patch it hands to
    [updateCustomer]. *)
Definition updateInput (body : option Json.t)
  : Http.Response Customer + CustomerUpdateInput :=
  match body with
  | None =>
      inl (createErrorResponse "Invalid JSON in request body" 400
             (Some "INVALID_JSON"))
  | Some rawData =>
      if negb (Json.truthy rawData) || negb (Json.isObject rawData)
      then inl (createErrorResponse
                  "Request body must be a valid JSON object" 400
                  (Some "INVALID_BODY"))
      else
        next (nameField rawData) (fun name =>
        next (companyField rawData) (fun company =>
        next (emailField rawData) (fun email =>
        next (tierField rawData) (fun subscriptionTier =>
        next (domainsField rawData) (fun domains =>
        next (healthScoreField rawData) (fun healthScore =>
          let patch :=
            {| fields :=
                 {| UpdateInput.name := name;
                    UpdateInput.company := company;
                    UpdateInput.email := fst email;
                    UpdateInput.subscriptionTier := subscriptionTier;
                    UpdateInput.domains := domains;
                    UpdateInput.healthScore := healthScore |};
               emailUndefined := snd email |} in
          if (keys patch =? 0)%nat
          then inl (createErrorResponse
                      "At least one field must be provided for update" 400
                      (Some "NO_UPDATE_FIELDS"))
          else inr (fields patch)))))))
  end.

Definition invalidId {T : Type} : Http.Response T :=
  createErrorResponse "Invalid customer ID format" 400 (Some "INVALID_ID").

(** [GET /api/customers/[id]] *)
Definition GET (id : string) (s : State) : Http.Response Customer * State :=
  match sanitizeId id with
  | None => (invalidId, s)
  | Some customerId =>
      let (result, s') := getCustomerById customerId s in
      (respond result "Failed to retrieve customer"
         (byIdStatus (code result)) (data result) 200, s')
  end.

(** [PUT /api/customers/[id]] *)
Definition PUT (stamp now : Z) (id : string) (body : option Json.t)
  (s : State) : Http.Response Customer * State :=
  match sanitizeId id with
  | None => (invalidId, s)
  | Some customerId =>
      match updateInput body with
      | inl response => (response, s)
      | inr input =>
          let (result, s') := updateCustomer stamp now customerId input s in
          (respond result "Failed to update customer"
             (updateStatus (code result)) (data result) 200, s')
      end
  end.

(** [{ deleted: true, id: customerId }] *)
Record Deleted : Type := { deleted : bool; id : string }.

(** [DELETE /api/customers/[id]] *)
Definition DELETE (id : string) (s : State) : Http.Response Deleted * State :=
  match sanitizeId id with
  | None => (invalidId, s)
  | Some customerId =>
      let (result, s') := deleteCustomer customerId s in
      (respond result "Failed to delete customer"
         (byIdStatus (code result))
         (Some {| deleted := true; id := customerId |}) 200, s')
  end.

End CustomerByIdRoute.

(** ** [search/route.ts] *)

Module SearchRoute.

(** [\w] and the class [[\w\s@.-]] whose complement is removed *)
Definition isWord (c : ascii) : bool := Regex.isAlnum c || Ascii.eqb c "_".
Definition isSearchChar (c : ascii) : bool :=
  isWord c || JS.isWhiteSpace c || Ascii.eqb c "@" || Ascii.eqb c "."
  || Ascii.eqb c "-".

Definition sanitizeSearchTerm (input : option string) : option string :=
  match input with
  | Some s =>
      if JS.truthy s
      then
        let sanitized :=
          Text.substring
            (Text.remove (fun c => negb (isSearchChar c))
               (Text.remove isBrace (Text.remove isAngle (JS.trim s))))
            0%nat 100%nat in
        if (0 <? String.length sanitized)%nat then Some sanitized else None
      else None
  | None => None
  end.

(** [pattern.test(s)] for a pattern without anchors: the pattern matches
    some substring of [s]. *)
Definition any : Regex.t := Regex.Class (fun _ => true).
Definition occurs (r : Regex.t) (s : string) : bool :=
  Regex.test (Regex.Seq (Regex.Star any) (Regex.Seq r (Regex.Star any))) s.

(** A literal under the flag [i]: each character in either case.  The
    literals are in lower case. *)
Definition eitherCase (a : ascii) : Regex.t :=
  Regex.Class (fun c => Ascii.eqb (JS.toLowerChar c) a).

Fixpoint literal_i (s : string) : Regex.t :=
  match s with
  | EmptyString => Regex.Eps
  | String a r => Regex.Seq (eitherCase a) (literal_i r)
  end.

(** The dot: any code unit but a line terminator. *)
Definition isLineTerminator (c : ascii) : bool :=
  let n := nat_of_ascii c in ((n =? 10) || (n =? 13))%nat.
Definition dot : Regex.t := Regex.Class (fun c => negb (isLineTerminator c)).

Definition space : Regex.t := Regex.Class JS.isWhiteSpace.
Definition word : Regex.t := Regex.Class isWord.

(** The seven patterns, in the order of the source: an angle bracket; the
    protocols javascript, data and vbscript; an event handler, that is on,
    word characters and an equals sign; a word in double braces; and a
    dollar sign with a pair of braces. *)
Definition suspiciousPatterns : list Regex.t :=
  [ Regex.Class isAngle;
    literal_i "javascript:";
    literal_i "data:";
    literal_i "vbscript:";
    Regex.Seq (literal_i "on") (Regex.Seq (Regex.plus word) (Regex.chr "="));
    Regex.Seq (Regex.chr "{")
      (Regex.Seq (Regex.chr "{")
         (Regex.Seq (Regex.Star space)
            (Regex.Seq (Regex.plus word)
               (Regex.Seq (Regex.Star space)
                  (Regex.Seq (Regex.chr "}") (Regex.chr "}"))))));
    Regex.Seq (Regex.chr "$")
      (Regex.Seq (Regex.chr "{") (Regex.Seq (Regex.Star dot) (Regex.chr "}"))) ].

Definition isSuspicious (rawSearchTerm : string) : bool :=
  existsb (fun pattern => occurs pattern rawSearchTerm) suspiciousPatterns.

(** The payload of a search response. *)
Record Found : Type := {
  results : list Customer;
  searchTerm : string;
  resultCount : nat;
  totalFound : nat;
  limit : Z
}.

Definition quote : string := String (ascii_of_nat 34) "".

(** [GET /api/customers/search] *)
Definition GET (q : Query) (s : State) : Http.Response Found * State :=
  let rawSearchTerm := param "q" q in
  let rawLimit := param "limit" q in
  match present rawSearchTerm with
  | None =>
      (createErrorResponse
         ("Search term is required. Use the " ++ quote ++ "q" ++ quote
          ++ " query parameter.") 400 (Some "MISSING_SEARCH_TERM"), s)
  | Some raw =>
      match sanitizeSearchTerm (Some raw) with
      | None =>
          (createErrorResponse
             "Invalid search term. Search term must contain valid characters and be non-empty."
             400 (Some "INVALID_SEARCH_TERM"), s)
      | Some term =>
          if (String.length term <? 2)%nat
          then (createErrorResponse
                  "Search term must be at least 2 characters long." 400
                  (Some "SEARCH_TERM_TOO_SHORT"), s)
          else
            let limit_ := orDefault (parseNumericParam rawLimit 1 100) 20 in
            if isSuspicious raw
            then (createErrorResponse "Invalid search term format." 400
                    (Some "SUSPICIOUS_PATTERN"), s)
            else
              let (result, s') := searchCustomers term s in
              let limitedResults :=
                match data result with
                | Some found => JS.slice found 0 limit_
                | None => []
                end in
              (respond result "Search failed" 500
                 (Some {| results := limitedResults;
                          searchTerm := term;
                          resultCount := List.length limitedResults;
                          totalFound :=
                            match data result with
                            | Some found => List.length found
                            | None => O
                            end;
                          limit := limit_ |}) 200, s')
      end
  end.

End SearchRoute.

(** ** The routes as one interface *)

(** A request to one of the three routes, with the clock readings the
    service consumes. *)
Inductive Request : Type :=
| ListCustomers (q : Query)
| CreateCustomer (now : Z) (body : option Json.t)
| ReadCustomer (id : string)
| UpdateCustomer (stamp now : Z) (id : string) (body : option Json.t)
| DeleteCustomer (id : string)
| SearchCustomers (q : Query).

Section Server.

Variable localeCompare : string -> string -> Z.
Variable toISOString : Z -> string.

(** The status of the response and the state after it. *)
Definition serve (request : Request) (s : State) : Z * State :=
  let answer {T : Type} (r : Http.Response T * State) : Z * State :=
    (Http.status (fst r), snd r) in
  match request with
  | ListCustomers q =>
      answer (CustomersRoute.GET localeCompare toISOString q s)
  | CreateCustomer now body => answer (CustomersRoute.POST now body s)
  | ReadCustomer id => answer (CustomerByIdRoute.GET id s)
  | UpdateCustomer stamp now id body =>
      answer (CustomerByIdRoute.PUT stamp now id body s)
  | DeleteCustomer id => answer (CustomerByIdRoute.DELETE id s)
  | SearchCustomers q => answer (SearchRoute.GET q s)
  end.

(** The state after a sequence of requests. *)
Definition serveAll (requests : list Request) (s : State) : State :=
  fold_left (fun s request => snd (serve request s)) requests s.

End Server.

(** ** The HTTP layer: reference statements and sample requests *)

(** Every class of a pattern lies within [q]. *)
Fixpoint classesWithin (q : ascii -> bool) (r : Regex.t) : Prop :=
  match r with
  | Regex.Class p => forall c, p c = true -> q c = true
  | Regex.Seq a b | Regex.Alt a b => classesWithin q a /\ classesWithin q b
  | Regex.Star a => classesWithin q a
  | Regex.Void | Regex.Eps => True
  end.

(** Every class of a pattern is closed under [f]. *)
Fixpoint classesClosed (f : ascii -> ascii) (r : Regex.t) : Prop :=
  match r with
  | Regex.Class p => forall c, p c = true -> p (f c) = true
  | Regex.Seq a b | Regex.Alt a b => classesClosed f a /\ classesClosed f b
  | Regex.Star a => classesClosed f a
  | Regex.Void | Regex.Eps => True
  end.

(** A text without angle brackets and braces. *)
Definition isPlain (c : ascii) : bool := negb (isAngle c) && negb (isBrace c).
Definition plainText (s : string) : Prop := allChars isPlain s = true.

(** The characters of an email that passed the pattern of the routes. *)
Definition isEmailChar (c : ascii) : bool :=
  isLocalChar c || Ascii.eqb c "@".

(** Every stored email is in lower case. *)
Definition LowerEmails (s : State) : Prop :=
  forall c e, In c (customers s) -> Customer.email c = Some e ->
              JS.toLowerCase e = e.

(** What a request can do to the state: nothing, or what the call of the
    service does that the route makes with the input it has built. *)
Inductive Effect (s : State) : State -> Prop :=
| NoEffect : Effect s s
| Created (now : Z) (body : option Json.t) (input : CustomerCreateInput) :
    CustomersRoute.createInput body = inr input ->
    Effect s (snd (createCustomer now input s))
| Updated (stamp now : Z) (customerId : string) (body : option Json.t)
    (input : CustomerUpdateInput) :
    CustomerByIdRoute.updateInput body = inr input ->
    Effect s (snd (updateCustomer stamp now customerId input s))
| Removed (customerId : string) :
    Effect s (snd (deleteCustomer customerId s)).

(** Sample requests: a body with markup, an email in capitals, a tier
    that is none and three entries for domains; and a second body. *)
Definition annBody : Json.t :=
  Json.Obj
    [("name", Json.Str " <b>Ann</b> ");
     ("company", Json.Str "Acme {x}");
     ("email", Json.Str "Ann@Acme.COM");
     ("subscriptionTier", Json.Str "gold");
     ("domains", Json.Arr [Json.Str "acme.com"; Json.Num (inject_Z 3); Json.Str "bad domain"])].

Definition annCustomer : Customer :=
  {| Customer.id := "9";
     Customer.name := "bAnn/b";
     Customer.company := "Acme x";
     Customer.healthScore := Score.ofZ 70;
     Customer.email := Some "ann@acme.com";
     Customer.subscriptionTier := Some basic;
     Customer.domains := Some ["acme.com"];
     Customer.createdAt := Some 1000;
     Customer.updatedAt := Some 1000 |}.

Definition bobBody : Json.t :=
  Json.Obj
    [("name", Json.Str "Bob Stone");
     ("company", Json.Str "Globex");
     ("email", Json.Str "bob@globex.com")].

Definition bobCreated : Customer :=
  {| Customer.id := "10";
     Customer.name := "Bob Stone";
     Customer.company := "Globex";
     Customer.healthScore := Score.ofZ 65;
     Customer.email := Some "bob@globex.com";
     Customer.subscriptionTier := Some basic;
     Customer.domains := Some [];
     Customer.createdAt := Some 2000;
     Customer.updatedAt := Some 2000 |}.

(** A body that asks to clear the email. *)
Definition clearEmailBody : Json.t := Json.Obj [("email", Json.Null)].

(** A body that sets the health score to 30.5. *)
Definition fractionBody : Json.t :=
  Json.Obj [("healthScore", Json.Num (61 # 2))].

(** The requests that only read. *)
Definition readsOnly (request : Request) : bool :=
  match request with
  | ListCustomers _ | ReadCustomer _ | SearchCustomers _ => true
  | _ => false
  end.

(** A failure response of the service with one of the given codes, the
    state left as it was. *)
Definition failsWith {T : Type} (r : ServiceResponse T * State) (s : State)
  (codes : list ErrorCode) : Prop :=
  success (fst r) = false
  /\ snd r = s
  /\ exists c, code (fst r) = Some c /\ In c codes.

(** Every word of the pattern holds a character of the class [k]. *)
Fixpoint needs (k : ascii -> bool) (r : Regex.t) : Prop :=
  match r with
  | Regex.Void => True
  | Regex.Eps => False
  | Regex.Class p => forall c, p c = true -> k c = true
  | Regex.Seq a b => needs k a \/ needs k b
  | Regex.Alt a b => needs k a /\ needs k b
  | Regex.Star _ => False
  end.

(** A query string for the search route. *)
Definition acmeQuery : Query := [("q", " ACME "); ("limit", "1")].

(** The customer of [janeState] after an update at time 5000 that changes
    no field. *)
Definition janeAfterPut : Customer :=
  {| Customer.id := "9";
     Customer.name := "Jane Doe";
     Customer.company := "Acme";
     Customer.healthScore := Score.ofZ 80;
     Customer.email := Some "jane@acme.com";
     Customer.subscriptionTier := Some premium;
     Customer.domains := Some ["acme.com"];
     Customer.createdAt := Some 1000;
     Customer.updatedAt := Some 5000 |}.

(** * Properties *)

(** ** Comparisons of scores *)

Lemma leb_ofZ (a b : Z) : Score.leb (Score.ofZ a) (Score.ofZ b) = (a <=? b).
Proof.
  unfold Score.leb, Score.ofZ. apply eq_true_iff_eq.
  rewrite Qle_bool_iff, Z.leb_le, <- Zle_Qle. reflexivity.
Qed.

Lemma ltb_ofZ (a b : Z) : Score.ltb (Score.ofZ a) (Score.ofZ b) = (a <? b).
Proof.
  unfold Score.ltb, Score.ofZ. apply eq_true_iff_eq.
  rewrite negb_true_iff, <- not_true_iff_false, Qle_bool_iff, Z.ltb_lt,
    <- Zle_Qle. lia.
Qed.

Lemma leb_lower (lo : Z) (h : Score.t) :
  Score.leb (Score.ofZ lo) h = true
  <-> exists q, h = Score.Real q /\ (inject_Z lo <= q)%Q.
Proof.
  destruct h as [q|]; cbn [Score.leb Score.ofZ].
  - rewrite Qle_bool_iff. split; [intros H; exists q; auto|].
    intros (q' & [= <-] & H). exact H.
  - split; [discriminate | intros (q' & [=] & _)].
Qed.

Lemma leb_upper (hi : Z) (h : Score.t) :
  Score.leb h (Score.ofZ hi) = true
  <-> exists q, h = Score.Real q /\ (q <= inject_Z hi)%Q.
Proof.
  destruct h as [q|]; cbn [Score.leb Score.ofZ].
  - rewrite Qle_bool_iff. split; [intros H; exists q; auto|].
    intros (q' & [= <-] & H). exact H.
  - split; [discriminate | intros (q' & [=] & _)].
Qed.

Lemma ScoreWithin_leb (lo hi : Z) (h : Score.t) :
  Score.leb (Score.ofZ lo) h && Score.leb h (Score.ofZ hi) = true
  <-> ScoreWithin lo hi h.
Proof.
  destruct h as [q|]; cbn [Score.leb Score.ofZ ScoreWithin].
  - rewrite andb_true_iff, !Qle_bool_iff. reflexivity.
  - split; [discriminate | contradiction].
Qed.

Lemma ScoreWithin_ofZ (lo hi z : Z) :
  ScoreWithin lo hi (Score.ofZ z) <-> lo <= z <= hi.
Proof. cbn [ScoreWithin Score.ofZ]. rewrite <- !Zle_Qle. reflexivity. Qed.

Lemma ScoreWithin_weaken (lo hi lo' hi' : Z) (h : Score.t) :
  lo' <= lo -> hi <= hi' -> ScoreWithin lo hi h -> ScoreWithin lo' hi' h.
Proof.
  destruct h as [q|]; cbn [ScoreWithin]; [|intros _ _ []].
  intros Hlo Hhi [H1 H2]. rewrite Zle_Qle in Hlo, Hhi.
  split; eapply Qle_trans; eassumption.
Qed.

(** ** The pattern matcher decides the language of the pattern *)

Section PatternMatcher.

Local Open Scope string_scope.

Lemma append_empty_r (s : string) : s ++ "" = s.
Proof. induction s as [|c r IH]; simpl; [reflexivity | rewrite IH; reflexivity]. Qed.

Lemma append_is_empty (s1 s2 : string) : s1 ++ s2 = "" -> s1 = "" /\ s2 = "".
Proof. destruct s1; simpl; [auto | discriminate]. Qed.

Lemma append_assoc (s1 s2 s3 : string) : (s1 ++ s2) ++ s3 = s1 ++ (s2 ++ s3).
Proof. induction s1 as [|c r IH]; simpl; [reflexivity | rewrite IH; reflexivity]. Qed.

Lemma Matches_Void_inv (s : string) : Regex.Matches Regex.Void s -> False.
Proof. intros H. inversion H. Qed.

Lemma Matches_Eps_inv (s : string) : Regex.Matches Regex.Eps s -> s = "".
Proof. intros H. inversion H. reflexivity. Qed.

Lemma Matches_Class_inv (p : ascii -> bool) (s : string) :
  Regex.Matches (Regex.Class p) s -> exists c, s = String c "" /\ p c = true.
Proof. intros H. inversion H; subst. eauto. Qed.

Lemma Matches_Seq_inv (r1 r2 : Regex.t) (s : string) :
  Regex.Matches (Regex.Seq r1 r2) s ->
  exists s1 s2, s = s1 ++ s2 /\ Regex.Matches r1 s1 /\ Regex.Matches r2 s2.
Proof. intros H. inversion H; subst. eauto. Qed.

Lemma Matches_Alt_inv (r1 r2 : Regex.t) (s : string) :
  Regex.Matches (Regex.Alt r1 r2) s -> Regex.Matches r1 s \/ Regex.Matches r2 s.
Proof. intros H. inversion H; subst; auto. Qed.

(** A non-empty word of [r*] starts with a non-empty word of [r]. *)
Lemma Matches_Star_cons_inv (r : Regex.t) (c : ascii) (s : string) :
  Regex.Matches (Regex.Star r) (String c s) ->
  exists s1 s2, s = s1 ++ s2 /\ Regex.Matches r (String c s1) /\ Regex.Matches (Regex.Star r) s2.
Proof.
  intros H. remember (Regex.Star r) as r' eqn:Hr. remember (String c s) as w eqn:Hw.
  revert s Hw.
  induction H as [| | | | | |r0 s1 s2 H1 _ H2 IH2]; intros w' Hw;
    try discriminate.
  injection Hr as ->. destruct s1 as [|c1 s1]; simpl in Hw.
  - apply IH2; [reflexivity | exact Hw].
  - injection Hw as -> <-. exists s1, s2. repeat split; assumption.
Qed.

Lemma nullable_spec (r : Regex.t) : Regex.nullable r = true <-> Regex.Matches r "".
Proof.
  induction r as [| |p|r1 IH1 r2 IH2|r1 IH1 r2 IH2|r IH]; simpl.
  - split; [discriminate | intros H; destruct (Matches_Void_inv _ H)].
  - split; [constructor | reflexivity].
  - split; [discriminate|]. intros H.
    apply Matches_Class_inv in H as (c & Hc & _). discriminate.
  - rewrite andb_true_iff, IH1, IH2. split.
    + intros [H1 H2]. exact (Regex.MSeq r1 r2 "" "" H1 H2).
    + intros H. apply Matches_Seq_inv in H as (s1 & s2 & Hs & H1 & H2).
      symmetry in Hs. apply append_is_empty in Hs as [-> ->]. split; assumption.
  - rewrite orb_true_iff, IH1, IH2. split.
    + intros [H|H]; [apply Regex.MAltL | apply Regex.MAltR]; exact H.
    + apply Matches_Alt_inv.
  - split; [constructor | reflexivity].
Qed.

Lemma seq_spec (r1 r2 : Regex.t) (s : string) :
  Regex.Matches (Regex.seq r1 r2) s <-> Regex.Matches (Regex.Seq r1 r2) s.
Proof.
  assert (HvoidL : forall r, Regex.Matches (Regex.Seq Regex.Void r) s -> False).
  { intros r H. apply Matches_Seq_inv in H as (? & ? & _ & H & _).
    exact (Matches_Void_inv _ H). }
  assert (HvoidR : forall r, Regex.Matches (Regex.Seq r Regex.Void) s -> False).
  { intros r H. apply Matches_Seq_inv in H as (? & ? & _ & _ & H).
    exact (Matches_Void_inv _ H). }
  assert (HepsL : forall r, Regex.Matches r s <-> Regex.Matches (Regex.Seq Regex.Eps r) s).
  { intros r. split.
    - intros H. exact (Regex.MSeq Regex.Eps r "" s Regex.MEps H).
    - intros H. apply Matches_Seq_inv in H as (s1 & s2 & -> & H1 & H2).
      apply Matches_Eps_inv in H1 as ->. exact H2. }
  assert (HepsR : forall r, Regex.Matches r s <-> Regex.Matches (Regex.Seq r Regex.Eps) s).
  { intros r. split.
    - intros H. rewrite <- (append_empty_r s). exact (Regex.MSeq r Regex.Eps s "" H Regex.MEps).
    - intros H. apply Matches_Seq_inv in H as (s1 & s2 & -> & H1 & H2).
      apply Matches_Eps_inv in H2 as ->. rewrite append_empty_r. exact H1. }
  destruct r1, r2; simpl;
    try reflexivity;
    try (split; intros H; [destruct (Matches_Void_inv _ H)|];
         solve [destruct (HvoidL _ H) | destruct (HvoidR _ H)]);
    solve [apply HepsL | apply HepsR].
Qed.

Lemma alt_spec (r1 r2 : Regex.t) (s : string) :
  Regex.Matches (Regex.alt r1 r2) s <-> Regex.Matches (Regex.Alt r1 r2) s.
Proof.
  assert (HL : forall r, Regex.Matches r s <-> Regex.Matches (Regex.Alt Regex.Void r) s).
  { intros r. split; [apply Regex.MAltR|]. intros H.
    apply Matches_Alt_inv in H as [H|H]; [destruct (Matches_Void_inv _ H) | exact H]. }
  assert (HR : forall r, Regex.Matches r s <-> Regex.Matches (Regex.Alt r Regex.Void) s).
  { intros r. split; [apply Regex.MAltL|]. intros H.
    apply Matches_Alt_inv in H as [H|H]; [exact H | destruct (Matches_Void_inv _ H)]. }
  destruct r1, r2; simpl; try reflexivity; solve [apply HL | apply HR].
Qed.

Lemma deriv_spec (c : ascii) (r : Regex.t) :
  forall s, Regex.Matches (Regex.deriv c r) s <-> Regex.Matches r (String c s).
Proof.
  induction r as [| |p|r1 IH1 r2 IH2|r1 IH1 r2 IH2|r IH]; intros s; simpl.
  - split; intros H; destruct (Matches_Void_inv _ H).
  - split; intros H; [destruct (Matches_Void_inv _ H)|].
    apply Matches_Eps_inv in H. discriminate.
  - destruct (p c) eqn:Hp; split; intros H.
    + apply Matches_Eps_inv in H as ->. constructor. exact Hp.
    + apply Matches_Class_inv in H as (c' & Heq & _). injection Heq as <- ->.
      constructor.
    + destruct (Matches_Void_inv _ H).
    + apply Matches_Class_inv in H as (c' & Heq & Hp'). injection Heq as <- ->.
      congruence.
  - assert (Hseq : Regex.Matches (Regex.seq (Regex.deriv c r1) r2) s \/
                   (Regex.Matches r1 "" /\ Regex.Matches r2 (String c s))
                   <-> Regex.Matches (Regex.Seq r1 r2) (String c s)).
    { rewrite seq_spec. split.
      - intros [H|[H1 H2]].
        + apply Matches_Seq_inv in H as (s1 & s2 & -> & H1 & H2).
          apply IH1 in H1. exact (Regex.MSeq r1 r2 (String c s1) s2 H1 H2).
        + exact (Regex.MSeq r1 r2 "" (String c s) H1 H2).
      - intros H. apply Matches_Seq_inv in H as (s1 & s2 & Hs & H1 & H2).
        destruct s1 as [|c1 s1]; simpl in Hs.
        + right. subst s2. split; assumption.
        + injection Hs as <- ->. left. apply IH1 in H1.
          exact (Regex.MSeq _ _ _ _ H1 H2). }
    destruct (Regex.nullable r1) eqn:Hn.
    + rewrite alt_spec, <- Hseq. split.
      * intros H. apply Matches_Alt_inv in H as [H|H]; [left; exact H|].
        right. split; [apply nullable_spec; exact Hn | apply IH2; exact H].
      * intros [H|[_ H]]; [apply Regex.MAltL; exact H | apply Regex.MAltR, IH2; exact H].
    + rewrite <- Hseq. split; [auto|]. intros [H|[H _]]; [exact H|].
      apply nullable_spec in H. congruence.
  - rewrite alt_spec. split.
    + intros H. apply Matches_Alt_inv in H as [H|H];
        [apply Regex.MAltL, IH1 | apply Regex.MAltR, IH2]; exact H.
    + intros H. apply Matches_Alt_inv in H as [H|H];
        [apply Regex.MAltL, IH1 | apply Regex.MAltR, IH2]; exact H.
  - rewrite seq_spec. split.
    + intros H. apply Matches_Seq_inv in H as (s1 & s2 & -> & H1 & H2).
      apply IH in H1. exact (Regex.MStarCons r (String c s1) s2 H1 H2).
    + intros H. apply Matches_Star_cons_inv in H as (s1 & s2 & -> & H1 & H2).
      apply IH in H1. exact (Regex.MSeq _ _ _ _ H1 H2).
Qed.

Lemma test_spec (r : Regex.t) (s : string) :
  Regex.test r s = true <-> Regex.Matches r s.
Proof.
  revert r. induction s as [|c s IH]; intros r; simpl.
  - apply nullable_spec.
  - rewrite IH. apply deriv_spec.
Qed.

Lemma Matches_Star_Class (p : ascii -> bool) (s : string) :
  Regex.Matches (Regex.Star (Regex.Class p)) s <-> allChars p s = true.
Proof.
  split.
  - intros H. remember (Regex.Star (Regex.Class p)) as r eqn:Hr.
    induction H as [| | | | | |r0 s1 s2 H1 _ H2 IH2]; try discriminate.
    + reflexivity.
    + injection Hr as ->.
      apply Matches_Class_inv in H1 as (c & -> & Hc). simpl.
      rewrite Hc. apply IH2. reflexivity.
  - induction s as [|c s IH]; simpl; [constructor|].
    intros H. apply andb_true_iff in H as [Hc Hs].
    exact (Regex.MStarCons (Regex.Class p) (String c "") s
             (Regex.MClass p c Hc) (IH Hs)).
Qed.

Lemma Matches_plus_Class (p : ascii -> bool) (s : string) :
  Regex.Matches (Regex.plus (Regex.Class p)) s
  <-> s <> "" /\ allChars p s = true.
Proof.
  unfold Regex.plus. split.
  - intros H. apply Matches_Seq_inv in H as (s1 & s2 & -> & H1 & H2).
    apply Matches_Class_inv in H1 as (c & -> & Hc).
    apply Matches_Star_Class in H2. simpl. rewrite Hc, H2.
    split; [discriminate | reflexivity].
  - intros [Hne H]. destruct s as [|c s]; [contradiction|].
    simpl in H. apply andb_true_iff in H as [Hc Hs].
    exact (Regex.MSeq (Regex.Class p) (Regex.Star (Regex.Class p))
             (String c "") s (Regex.MClass p c Hc)
             (proj2 (Matches_Star_Class p s) Hs)).
Qed.

Lemma Matches_chr (a : ascii) (s : string) :
  Regex.Matches (Regex.chr a) s <-> s = String a "".
Proof.
  unfold Regex.chr. split.
  - intros H. apply Matches_Class_inv in H as (c & -> & Hc).
    apply Ascii.eqb_eq in Hc. subst c. reflexivity.
  - intros ->. constructor. apply Ascii.eqb_refl.
Qed.

(** [isValidEmail] accepts the emails that, trimmed, read
    [local@domain.tld]. *)
Lemma isValidEmail_spec (email : string) :
  isValidEmail email = true <-> wellFormedEmail (JS.trim email).
Proof.
  unfold isValidEmail, wellFormedEmail, emailPart, emailRegex.
  rewrite test_spec. split.
  - intros H.
    apply Matches_Seq_inv in H as (a & r1 & -> & Ha & H).
    apply Matches_Seq_inv in H as (at_ & r2 & -> & Hat & H).
    apply Matches_Seq_inv in H as (b & r3 & -> & Hb & H).
    apply Matches_Seq_inv in H as (dot & c & -> & Hdot & Hc).
    apply Matches_chr in Hat, Hdot. subst at_ dot.
    apply Matches_plus_Class in Ha, Hb, Hc.
    exists a, b, c. repeat split; tauto.
  - intros (a & b & c & -> & Ha & Hb & Hc).
    apply Matches_plus_Class in Ha, Hb, Hc.
    repeat (apply Regex.MSeq; try assumption); apply Matches_chr; reflexivity.
Qed.

End PatternMatcher.

(** ** The method bodies, unfolded *)

Ltac unfold_body :=
  unfold tryCatch, andThen, lift, gets, modify, ret, throw.

Lemma createCustomer_unfold (now : Z) (input : CustomerCreateInput) (s : State) :
  createCustomer now input s =
  match validateCustomerInput input with
  | Throw e => (handleError e, s)
  | Return _ =>
      match checkDuplicateEmail (CreateInput.email input) (customers s) with
      | Throw e => (handleError e, s)
      | Return _ =>
          let c := newCustomer now (nextId s) input in
          (succeed c, incrementNextId (push c s))
      end
  end.
Proof.
  unfold createCustomer. unfold_body.
  destruct (validateCustomerInput input); [|reflexivity].
  destruct (checkDuplicateEmail _ _); reflexivity.
Qed.

Lemma updateCustomer_unfold (stamp now : Z) (id : string)
  (input : CustomerUpdateInput) (s : State) :
  updateCustomer stamp now id input s =
  if isBlank id
  then (handleError (ServiceError (ValidationError "Customer ID is required")), s)
  else
    match JS.findIndex (fun c => String.eqb (Customer.id c) id) (customers s) with
    | None => (handleError (ServiceError (NotFoundError id)), s)
    | Some i =>
        match validateCustomerUpdateInput input with
        | Throw e => (handleError e, s)
        | Return _ =>
            match checkDuplicateEmailExcept id (UpdateInput.email input)
                    (customers s) with
            | Throw e => (handleError e, s)
            | Return _ =>
                match nth_error (customers s) i with
                | Some existing =>
                    let c := updatedCustomer stamp now existing input in
                    (succeed c, assignAt i c s)
                | None => (handleError NotAnError, s)
                end
            end
        end
    end.
Proof.
  unfold updateCustomer, throwIf. unfold_body.
  destruct (isBlank id); [reflexivity|].
  destruct (JS.findIndex _ _); [|reflexivity].
  destruct (validateCustomerUpdateInput input); [|reflexivity].
  destruct (checkDuplicateEmailExcept _ _ _); [|reflexivity].
  destruct (nth_error _ _); reflexivity.
Qed.

Lemma deleteCustomer_unfold (id : string) (s : State) :
  deleteCustomer id s =
  if isBlank id
  then (handleError (ServiceError (ValidationError "Customer ID is required")), s)
  else
    match JS.findIndex (fun c => String.eqb (Customer.id c) id) (customers s) with
    | None => (handleError (ServiceError (NotFoundError id)), s)
    | Some i => (succeed true, spliceAt i s)
    end.
Proof.
  unfold deleteCustomer, throwIf. unfold_body.
  destruct (isBlank id); [reflexivity|].
  destruct (JS.findIndex _ _); reflexivity.
Qed.

Lemma succeed_inj {T : Type} (a b : T) (s s' : State) :
  (succeed a, s) = (succeed b, s') -> a = b.
Proof. intros H. injection H as H _. exact H. Qed.

Lemma tryCatch_data_success {T : Type} (body : Body T) (s : State) (d : T) :
  data (fst (tryCatch body s)) = Some d ->
  success (fst (tryCatch body s)) = true.
Proof.
  unfold tryCatch. destruct (body s) as [[a|e] s']; simpl; congruence.
Qed.

(** ** What the validators throw *)

Lemma throwIf_cases (b : bool) (e : CustomerServiceError) :
  (b = false /\ throwIf b e = Return tt)
  \/ (b = true /\ throwIf b e = Throw (ServiceError e)).
Proof. destruct b; [right | left]; split; reflexivity. Qed.

Lemma checkDomains_spec (ds : list string) :
  forall index,
    (forallb isValidDomain ds = true /\ checkDomains ds index = Return tt)
    \/ (forallb isValidDomain ds = false
        /\ exists e, checkDomains ds index = Throw e /\ isValidationError e).
Proof.
  induction ds as [|d ds IH]; intros index; simpl.
  - left; split; reflexivity.
  - destruct (isValidDomain d); simpl.
    + apply IH.
    + right; split; [reflexivity|]. eexists; split; [reflexivity|].
      eexists; reflexivity.
Qed.

Lemma validateCustomerInput_spec (input : CustomerCreateInput) :
  (passesCreateChecks input = true /\ validateCustomerInput input = Return tt)
  \/ (passesCreateChecks input = false
      /\ exists e, validateCustomerInput input = Throw e /\ isValidationError e).
Proof.
  unfold passesCreateChecks, validateCustomerInput, checkDomainsOpt, bind.
  destruct (isBlank (CreateInput.name input)); simpl;
    [right; split; [reflexivity|]; eexists; split;
       [reflexivity | eexists; reflexivity]|].
  destruct (isBlank (CreateInput.company input)); simpl;
    [right; split; [reflexivity|]; eexists; split;
       [reflexivity | eexists; reflexivity]|].
  rewrite !Nat.ltb_antisym.
  destruct (String.length (JS.trim (CreateInput.name input)) <=? 100)%nat; simpl;
    [|right; split; [reflexivity|]; eexists; split;
       [reflexivity | eexists; reflexivity]].
  destruct (String.length (JS.trim (CreateInput.company input)) <=? 100)%nat; simpl;
    [|right; split; [reflexivity|]; eexists; split;
       [reflexivity | eexists; reflexivity]].
  destruct (badEmail (CreateInput.email input)); simpl;
    [right; split; [reflexivity|]; eexists; split;
       [reflexivity | eexists; reflexivity]|].
  destruct (CreateInput.domains input) as [ds|]; simpl.
  - apply checkDomains_spec.
  - left; split; reflexivity.
Qed.

Lemma checkDuplicateEmail_throws (email : option string) (cs : list Customer)
  (e : Thrown) :
  checkDuplicateEmail email cs = Throw e ->
  exists v, email = Some v /\ e = ServiceError (DuplicateError "email" v).
Proof.
  unfold checkDuplicateEmail, throwIf. destruct email as [v|]; [|discriminate].
  destruct (_ && _); [|discriminate].
  intros H; injection H as <-. exists v; split; reflexivity.
Qed.

(** ** Initial health score *)

Lemma clamp_min_max (x : Z) : Z.min (Z.max x 0) 100 = clamp x 0 100.
Proof.
  unfold clamp. destruct (Z.ltb_spec x 0); [lia|].
  destruct (Z.ltb_spec 100 x); lia.
Qed.

Lemma Math_round_inject_Z (z : Z) : JS.Math_round (inject_Z z) = z.
Proof.
  unfold JS.Math_round, Qfloor, Qplus, inject_Z. simpl.
  symmetry. apply (Z.div_unique_pos _ _ _ 1); lia.
Qed.

Lemma Math_round_integer (q : Q) (z : Z) :
  (q == inject_Z z)%Q -> JS.Math_round q = z.
Proof.
  intros H. unfold JS.Math_round.
  assert (E : (q + (1 # 2) == inject_Z z + (1 # 2))%Q) by (rewrite H; reflexivity).
  rewrite (Qfloor_comp _ _ E). apply Math_round_inject_Z.
Qed.

Lemma Qmin_inject_Z (a b : Z) :
  (Qmin (inject_Z a) (inject_Z b) == inject_Z (Z.min a b))%Q.
Proof.
  destruct (Z.le_ge_cases a b) as [H|H].
  - rewrite Z.min_l by assumption. apply Q.min_l. rewrite <- Zle_Qle. assumption.
  - rewrite Z.min_r by assumption. apply Q.min_r. rewrite <- Zle_Qle. assumption.
Qed.

Lemma domainBonus_orElse (ds : option (list string)) :
  domainBonus ds = Z.min (Z.of_nat (List.length (orElse ds [])) * 5) 20.
Proof. destruct ds; reflexivity. Qed.

(** The part of the score that both computations share, in the rationals
    of the specification and in the integers of the code. *)
Lemma sharedScore_integer (T : option Tier) (D : option (list string))
  (E : option string) :
  (inject_Z 50 + inject_Z (spec_tierBonus T)
   + Qmin (inject_Z 5 * inject_Z (Z.of_nat (List.length (orElse D []))))
       (inject_Z 20)
   + (if JS.truthy_opt E then inject_Z 10 else inject_Z 0)
   == inject_Z (50 + tierBonus T + domainBonus D + emailBonus E))%Q.
Proof.
  unfold emailBonus. rewrite domainBonus_orElse.
  change (tierBonus T) with (spec_tierBonus T).
  rewrite <- inject_Z_mult, Qmin_inject_Z.
  rewrite (Z.mul_comm 5 (Z.of_nat _)).
  destruct (JS.truthy_opt E); rewrite !inject_Z_plus; reflexivity.
Qed.

Lemma calculateInitialHealthScore_spec (input : CustomerCreateInput) :
  calculateInitialHealthScore input =
  spec_initialHealthScore (CreateInput.subscriptionTier input)
    (orElse (CreateInput.domains input) []) (CreateInput.email input).
Proof.
  unfold calculateInitialHealthScore, spec_initialHealthScore.
  rewrite clamp_min_max. f_equal. symmetry. apply Math_round_integer.
  exact (sharedScore_integer (CreateInput.subscriptionTier input)
           (CreateInput.domains input) (CreateInput.email input)).
Qed.

Lemma initialScore_bounds (input : CustomerCreateInput) :
  50 <= initialScore input <= 110.
Proof.
  unfold initialScore, emailBonus, domainBonus.
  destruct (CreateInput.subscriptionTier input) as [[]|];
    destruct (CreateInput.domains input);
    destruct (JS.truthy_opt (CreateInput.email input)); simpl tierBonus; lia.
Qed.

Lemma createCustomer_success (now : Z) (input : CustomerCreateInput) (s : State) :
  success (fst (createCustomer now input s)) = true ->
  validateCustomerInput input = Return tt
  /\ checkDuplicateEmail (CreateInput.email input) (customers s) = Return tt
  /\ createCustomer now input s =
     (succeed (newCustomer now (nextId s) input),
      incrementNextId (push (newCustomer now (nextId s) input) s)).
Proof.
  rewrite createCustomer_unfold.
  destruct (validateCustomerInput input) as [[]|]; [|discriminate].
  destruct (checkDuplicateEmail _ _) as [[]|]; [|discriminate].
  intros _. repeat split.
Qed.

(** [C2] The health score of a created customer is
    [clamp(round(50 + tierBonus(T) + min(5*|D|, 20) + (E ? 10 : 0)), 0, 100)]
    for the tier [T], the domains [D] and the email [E] of a create input
    that is accepted; a premium tier with one domain and an email gives 80. *)
Theorem create_initial_health_score :
  forall (now : Z) (input : CustomerCreateInput) (s : State),
    success (fst (createCustomer now input s)) = true ->
    exists c,
      data (fst (createCustomer now input s)) = Some c
      /\ In c (customers (snd (createCustomer now input s)))
      /\ Customer.healthScore c =
         Score.ofZ
           (spec_initialHealthScore (CreateInput.subscriptionTier input)
              (orElse (CreateInput.domains input) []) (CreateInput.email input))
      /\ (CreateInput.subscriptionTier input = Some premium ->
          List.length (orElse (CreateInput.domains input) []) = 1%nat ->
          JS.truthy_opt (CreateInput.email input) = true ->
          Customer.healthScore c = Score.ofZ 80).
Proof.
  intros now input s Hok.
  destruct (createCustomer_success now input s Hok) as (_ & _ & ->).
  exists (newCustomer now (nextId s) input). simpl.
  split; [reflexivity|]. split; [apply in_or_app; right; left; reflexivity|].
  split; [f_equal; apply calculateInitialHealthScore_spec|].
  intros HT HD HE. unfold calculateInitialHealthScore, initialScore, emailBonus.
  rewrite domainBonus_orElse, HT, HD, HE. reflexivity.
Qed.

Lemma create_initial_health_score_witness :
  exists c,
    data (fst (createCustomer 1000 janeDoe emptyState)) = Some c
    /\ Customer.healthScore c = Score.ofZ 80.
Proof.
  destruct (create_initial_health_score 1000 janeDoe emptyState)
    as (c & Hc & _ & _ & H80).
  - vm_compute. reflexivity.
  - exists c. split; [exact Hc|].
    apply H80; vm_compute; reflexivity.
Defined.

(** ** The default tier and the initial score *)

Lemma validateCustomerInput_withTier (t : option Tier)
  (input : CustomerCreateInput) :
  validateCustomerInput (withTier t input) = validateCustomerInput input.
Proof. reflexivity. Qed.

Lemma initialScore_no_clamp (input : CustomerCreateInput) :
  CreateInput.subscriptionTier input <> Some enterprise ->
  CreateInput.subscriptionTier input <> Some premium ->
  calculateInitialHealthScore input = initialScore input.
Proof.
  intros He Hp. unfold calculateInitialHealthScore, initialScore, emailBonus,
    domainBonus.
  destruct (CreateInput.subscriptionTier input) as [[]|]; try congruence;
    destruct (CreateInput.domains input);
    destruct (JS.truthy_opt (CreateInput.email input)); simpl tierBonus; lia.
Qed.

(** [C10] A create input without a tier is stored with the tier [basic],
    yet its score is computed without a tier bonus: the score before
    clamping, and the stored health score as well, is 5 below that of the
    same input with the tier [basic] written out, while both stored
    customers carry the tier [basic]. *)
Theorem default_tier_scores_five_lower :
  forall (now : Z) (input : CustomerCreateInput) (s : State),
    CreateInput.subscriptionTier input = None ->
    success (fst (createCustomer now input s)) = true ->
    exists c c',
      data (fst (createCustomer now input s)) = Some c
      /\ data (fst (createCustomer now (withTier (Some basic) input) s)) = Some c'
      /\ Customer.subscriptionTier c = Some basic
      /\ Customer.subscriptionTier c' = Some basic
      /\ initialScore input
         = 50 + domainBonus (CreateInput.domains input)
           + emailBonus (CreateInput.email input)
      /\ initialScore (withTier (Some basic) input) = initialScore input + 5
      /\ exists h,
           Customer.healthScore c = Score.ofZ h
           /\ Customer.healthScore c' = Score.ofZ (h + 5).
Proof.
  intros now input s HT Hok.
  destruct (createCustomer_success now input s Hok) as (Hv & Hd & Heq).
  assert (Hs : initialScore (withTier (Some basic) input) = initialScore input + 5).
  { unfold initialScore, withTier.
    cbn [CreateInput.subscriptionTier CreateInput.domains CreateInput.email].
    rewrite HT. unfold tierBonus. lia. }
  exists (newCustomer now (nextId s) input),
    (newCustomer now (nextId s) (withTier (Some basic) input)).
  rewrite Heq, createCustomer_unfold, validateCustomerInput_withTier, Hv.
  change (CreateInput.email (withTier (Some basic) input))
    with (CreateInput.email input).
  rewrite Hd.
  cbn [fst data succeed newCustomer Customer.subscriptionTier
       Customer.healthScore].
  change (CreateInput.subscriptionTier (withTier (Some basic) input))
    with (Some basic).
  rewrite HT.
  do 4 (split; [reflexivity|]).
  split. { unfold initialScore. rewrite HT. unfold tierBonus. lia. }
  split. { exact Hs. }
  exists (initialScore input). split.
  - rewrite initialScore_no_clamp;
      [reflexivity | rewrite HT; discriminate | rewrite HT; discriminate].
  - rewrite initialScore_no_clamp;
      [rewrite Hs; reflexivity | discriminate | discriminate].
Qed.

Lemma default_tier_scores_five_lower_witness :
  exists c c',
    data (fst (createCustomer 0 noTierInput emptyState)) = Some c
    /\ data (fst (createCustomer 0 (withTier (Some basic) noTierInput) emptyState))
       = Some c'
    /\ Customer.subscriptionTier c = Customer.subscriptionTier c'
    /\ Customer.healthScore c = Score.ofZ 50
    /\ Customer.healthScore c' = Score.ofZ 55.
Proof.
  destruct (default_tier_scores_five_lower 0 noTierInput emptyState)
    as (c & c' & Hc & Hc' & Ht & Ht' & _ & _ & h & Hh & Hh').
  - reflexivity.
  - vm_compute. reflexivity.
  - exists c, c'. repeat split; try assumption.
    + congruence.
    + vm_compute in Hc. injection Hc as <-. reflexivity.
    + vm_compute in Hc'. injection Hc' as <-. reflexivity.
Defined.

(** ** Health score range query *)


(** ** Failure is tagged and leaves the state as it was *)

Lemma taggedAndAtomic_success {T : Type} (d : T) (s s' : State) :
  taggedAndAtomic s (observe (succeed d, s')).
Proof. left. repeat split. Qed.

Lemma taggedAndAtomic_failure {T : Type} (e : Thrown) (s : State) :
  taggedAndAtomic s (observe (@handleError T e, s)).
Proof.
  right. split; [reflexivity|]. split; [reflexivity|]. split; [|reflexivity].
  simpl. eexists _, _. split; reflexivity.
Qed.

Create HintDb service.
#[local] Hint Resolve taggedAndAtomic_success taggedAndAtomic_failure : service.

(** [C5] Every public operation answers with a tagged response: a success
    with its payload, or a failure with a message and a code.  When it
    answers with a failure, the collection and the id counter are what they
    were before the call. *)
Theorem failure_leaves_state_unchanged :
  forall (localeCompare : string -> string -> Z) (toISOString : Z -> string)
         (call : Call) (s : State),
    taggedAndAtomic s (perform localeCompare toISOString call s).
Proof.
  intros lc iso call s. destruct call; unfold perform.
  - unfold getCustomers. unfold_body. auto with service.
  - unfold getCustomerById, throwIf. unfold_body.
    destruct (isBlank id); [auto with service|].
    destruct (find _ _); auto with service.
  - rewrite createCustomer_unfold.
    destruct (validateCustomerInput input); [|auto with service].
    destruct (checkDuplicateEmail _ _); auto with service.
  - rewrite updateCustomer_unfold.
    destruct (isBlank id); [auto with service|].
    destruct (JS.findIndex _ _); [|auto with service].
    destruct (validateCustomerUpdateInput input); [|auto with service].
    destruct (checkDuplicateEmailExcept _ _ _); [|auto with service].
    destruct (nth_error _ _); auto with service.
  - rewrite deleteCustomer_unfold.
    destruct (isBlank id); [auto with service|].
    destruct (JS.findIndex _ _); auto with service.
  - unfold getCustomersByHealthScore, throwIf. unfold_body.
    destruct (_ || _); auto with service.
  - unfold getCustomersByTier. unfold_body. auto with service.
  - unfold searchCustomers. unfold_body.
    destruct (isBlank searchTerm); auto with service.
  - unfold getCustomerStats. unfold_body. auto with service.
Qed.

(** ** Statistics *)


Lemma stats_total (cs : list Customer) :
  Stats.total (computeStats cs) = List.length cs.
Proof. reflexivity. Qed.

Lemma count_cons (p : Customer -> bool) (c : Customer) (cs : list Customer) :
  count p (c :: cs) = ((if p c then 1 else 0) + count p cs)%nat.
Proof. unfold count. simpl. destruct (p c); reflexivity. Qed.

Lemma Qle_bool_between (a b : Z) (q : Q) :
  Qle_bool (inject_Z a) q = true -> Qle_bool q (inject_Z b) = true -> a <= b.
Proof.
  rewrite !Qle_bool_iff, Zle_Qle. intros Ha Hb. exact (Qle_trans _ _ _ Ha Hb).
Qed.

Lemma Qle_bool_lower (a b : Z) (q : Q) :
  b <= a -> Qle_bool (inject_Z a) q = true -> Qle_bool (inject_Z b) q = true.
Proof.
  rewrite !Qle_bool_iff, Zle_Qle. intros Hba Ha. exact (Qle_trans _ _ _ Hba Ha).
Qed.

Lemma Qle_bool_upper (a b : Z) (q : Q) :
  a <= b -> Qle_bool q (inject_Z a) = true -> Qle_bool q (inject_Z b) = true.
Proof.
  rewrite !Qle_bool_iff, Zle_Qle. intros Hab Ha. exact (Qle_trans _ _ _ Ha Hab).
Qed.

(** A score is in one of the three bands or between two of them, and in no
    two of these at once. *)
Lemma health_band_of_score (c : Customer) :
  ((if isHealthy c then 1 else 0) + (if isWarning c then 1 else 0)
   + (if isCritical c then 1 else 0) + (if betweenBands c then 1 else 0)
   = 1)%nat.
Proof.
  unfold isHealthy, isWarning, isCritical, betweenBands.
  destruct (Customer.healthScore c) as [q|]; [|reflexivity].
  cbn [Score.leb Score.ofZ].
  destruct (Qle_bool (inject_Z 71) q) eqn:H71.
  - rewrite (Qle_bool_lower 71 31 q) by (lia || exact H71).
    destruct (Qle_bool q (inject_Z 70)) eqn:H70;
      [pose proof (Qle_bool_between 71 70 q H71 H70); lia|].
    destruct (Qle_bool q (inject_Z 30)) eqn:H30;
      [pose proof (Qle_bool_between 71 30 q H71 H30); lia|].
    reflexivity.
  - destruct (Qle_bool (inject_Z 31) q) eqn:H31.
    + destruct (Qle_bool q (inject_Z 30)) eqn:H30;
        [pose proof (Qle_bool_between 31 30 q H31 H30); lia|].
      destruct (Qle_bool q (inject_Z 70)); reflexivity.
    + destruct (Qle_bool q (inject_Z 30)) eqn:H30.
      * rewrite (Qle_bool_upper 30 70 q) by (lia || exact H30). reflexivity.
      * destruct (Qle_bool q (inject_Z 70)); reflexivity.
Qed.

Lemma health_bands_partition (cs : list Customer) :
  (count isHealthy cs + count isWarning cs + count isCritical cs
   + count betweenBands cs = List.length cs)%nat.
Proof.
  induction cs as [|c cs IH]; [reflexivity|].
  rewrite !count_cons. cbn [List.length].
  pose proof (health_band_of_score c). lia.
Qed.

Lemma integer_not_betweenBands (c : Customer) :
  ScoreIsInteger (Customer.healthScore c) -> betweenBands c = false.
Proof.
  unfold betweenBands, ScoreIsInteger.
  destruct (Customer.healthScore c) as [q|]; [|contradiction].
  intros [z Hz].
  assert (Hle : forall a, Qle_bool q (inject_Z a) = (z <=? a)).
  { intros a. apply eq_true_iff_eq.
    rewrite Qle_bool_iff, Hz, <- Zle_Qle, Z.leb_le. reflexivity. }
  assert (Hge : forall a, Qle_bool (inject_Z a) q = (a <=? z)).
  { intros a. apply eq_true_iff_eq.
    rewrite Qle_bool_iff, Hz, <- Zle_Qle, Z.leb_le. reflexivity. }
  rewrite !Hle, !Hge.
  destruct (Z.leb_spec z 30), (Z.leb_spec 31 z), (Z.leb_spec z 70),
    (Z.leb_spec 71 z); try reflexivity; lia.
Qed.

Lemma count_none (p : Customer -> bool) (cs : list Customer) :
  Forall (fun c => p c = false) cs -> count p cs = 0%nat.
Proof.
  induction 1 as [|c cs Hc _ IH]; [reflexivity|].
  rewrite count_cons, Hc, IH. reflexivity.
Qed.

(** The three health bands cover every whole score once. *)
Lemma stats_distribution_sum (cs : list Customer) :
  Forall (fun c => ScoreIsInteger (Customer.healthScore c)) cs ->
  let d := Stats.healthDistribution (computeStats cs) in
  (HealthDistribution.healthy d + HealthDistribution.warning d
   + HealthDistribution.critical d = Stats.total (computeStats cs))%nat.
Proof.
  intros Hint. cbn zeta.
  pose proof (health_bands_partition cs) as Hsum.
  rewrite (count_none betweenBands cs) in Hsum.
  - cbn [computeStats Stats.healthDistribution Stats.total
         HealthDistribution.healthy HealthDistribution.warning
         HealthDistribution.critical]. lia.
  - eapply Forall_impl; [|exact Hint]. exact integer_not_betweenBands.
Qed.

Lemma tiers_partition (cs : list Customer) :
  Forall (fun c => Customer.subscriptionTier c <> None) cs ->
  (count (hasTier basic) cs + count (hasTier premium) cs
   + count (hasTier enterprise) cs = List.length cs)%nat.
Proof.
  induction 1 as [|c cs Hc _ IH]; [reflexivity|].
  rewrite !count_cons. cbn [List.length]. unfold hasTier at 1 3 5.
  destruct (Customer.subscriptionTier c) as [[]|]; [| | |congruence];
    cbn [Tier_eqb]; lia.
Qed.

(** The three tier counts cover every customer that has a tier, which is
    every customer [createCustomer] stores. *)
Lemma stats_byTier_sum (cs : list Customer) :
  Forall (fun c => Customer.subscriptionTier c <> None) cs ->
  let t := Stats.byTier (computeStats cs) in
  (TierCounts.basic t + TierCounts.premium t + TierCounts.enterprise t
   = Stats.total (computeStats cs))%nat.
Proof. exact (tiers_partition cs). Qed.



(** Over a collection that is not empty the average is the mean of the
    health scores, rounded to the nearest integer. *)
Lemma stats_average_nonempty (c : Customer) (cs : list Customer) (sum : Q) :
  sumHealthScores (c :: cs) = Score.Real sum ->
  Stats.averageHealthScore (computeStats (c :: cs))
  = Num (JS.Math_round (sum / inject_Z (Z.of_nat (S (List.length cs))))%Q).
Proof.
  intros Hsum.
  unfold computeStats, Stats.averageHealthScore, roundedMean.
  cbn [List.length]. rewrite Hsum. reflexivity.
Qed.

(** [C6] Over the empty collection, [getCustomerStats] succeeds with the
    total 0 and with [NaN] where the average is reported, not with 0.  The
    empty collection is reached through the public operations: after the
    only customer is deleted, the statistics are those of the empty
    collection. *)
Theorem stats_average_of_empty_is_NaN :
  (forall next : nat,
      exists st,
        fst (getCustomerStats {| customers := []; nextId := next |}) = succeed st
        /\ Stats.total st = 0%nat
        /\ Stats.averageHealthScore st = NaN
        /\ Stats.averageHealthScore st <> Num 0)
  /\ (success (fst (deleteCustomer "9" singletonState)) = true
      /\ option_map Stats.averageHealthScore
           (data (fst (getCustomerStats (snd (deleteCustomer "9" singletonState)))))
         = Some NaN).
Proof.
  split.
  - intros next. eexists. split; [reflexivity|].
    repeat split. discriminate.
  - split; vm_compute; reflexivity.
Qed.

(** ** Trimming and lower-casing *)

Lemma isWhiteSpace_toLowerChar (c : ascii) :
  JS.isWhiteSpace (JS.toLowerChar c) = JS.isWhiteSpace c.
Proof. destruct c as [[] [] [] [] [] [] [] []]; reflexivity. Qed.

Lemma toLowerCase_empty (s : string) :
  String.eqb (JS.toLowerCase s) "" = String.eqb s "".
Proof. destruct s; reflexivity. Qed.

Lemma trimStart_toLowerCase (s : string) :
  JS.trimStart (JS.toLowerCase s) = JS.toLowerCase (JS.trimStart s).
Proof.
  induction s as [|c r IH]; [reflexivity|].
  cbn [JS.toLowerCase JS.trimStart]. rewrite isWhiteSpace_toLowerChar.
  destruct (JS.isWhiteSpace c); [exact IH | reflexivity].
Qed.

Lemma trimEnd_toLowerCase (s : string) :
  JS.trimEnd (JS.toLowerCase s) = JS.toLowerCase (JS.trimEnd s).
Proof.
  induction s as [|c r IH]; [reflexivity|].
  cbn [JS.toLowerCase JS.trimEnd].
  rewrite isWhiteSpace_toLowerChar, IH, toLowerCase_empty.
  destruct (JS.isWhiteSpace c && String.eqb (JS.trimEnd r) ""); reflexivity.
Qed.

Lemma trim_toLowerCase (s : string) :
  JS.trim (JS.toLowerCase s) = JS.toLowerCase (JS.trim s).
Proof. unfold JS.trim. rewrite trimStart_toLowerCase. apply trimEnd_toLowerCase. Qed.

Lemma isBlank_trim (s : string) : isBlank s = String.eqb (JS.trim s) "".
Proof. destruct s; reflexivity. Qed.

(** ** Search *)

(** A term with a trailing space finds the customer of company "Acme",
    whose fields do not contain the term with its space. *)
Lemma search_keeps_surrounding_space_counterexample :
  spec_search "acme " (customers janeState) = []
  /\ option_map (@List.length Customer)
       (data (fst (searchCustomers "acme " janeState))) = Some 1%nat
  /\ data (fst (searchCustomers "acme " janeState))
     <> Some (spec_search "acme " (customers janeState)).
Proof.
  split; [vm_compute; reflexivity|]. split; [vm_compute; reflexivity|].
  vm_compute. discriminate.
Qed.

Lemma matchesSearch_spec (term : string) (c : Customer) :
  matchesSearch (JS.trim (JS.toLowerCase term)) c = spec_matches (JS.trim term) c.
Proof.
  unfold matchesSearch, spec_matches, containsIgnoringCase, optIncludesLower.
  rewrite trim_toLowerCase. reflexivity.
Qed.

(** [C9] For an empty or whitespace-only term the search succeeds with the
    empty sequence.  For every other term it succeeds with exactly the
    customers, in the order of the collection, whose name, company or email
    contains the term without its leading and trailing whitespace, the
    letter case ignored.  The state is the same afterwards. *)
Theorem search_matches_trimmed_term :
  forall (term : string) (s : State),
    searchCustomers term s
    = (succeed
         (if String.eqb (JS.trim term) ""
          then []
          else filter (spec_matches (JS.trim term)) (customers s)),
       s).
Proof.
  intros term s. unfold searchCustomers. unfold_body.
  rewrite isBlank_trim. destruct (String.eqb (JS.trim term) ""); [reflexivity|].
  do 2 f_equal. apply filter_ext. intros c. apply matchesSearch_spec.
Qed.

(** ** Validation on create *)

(** Eleven domains break the listed rules, and the customer is created. *)
Lemma create_accepts_eleven_domains_counterexample :
  spec_validCreate elevenDomains = false
  /\ success (fst (createCustomer 0 elevenDomains emptyState)) = true
  /\ code (fst (createCustomer 0 elevenDomains emptyState))
     <> Some VALIDATION_ERROR
  /\ List.length (customers (snd (createCustomer 0 elevenDomains emptyState)))
     = 1%nat.
Proof.
  split; [vm_compute; reflexivity|]. split; [vm_compute; reflexivity|].
  split; [vm_compute; discriminate | vm_compute; reflexivity].
Qed.

Lemma passesCreateChecks_enforced (input : CustomerCreateInput) :
  passesCreateChecks input = enforced_validCreate input.
Proof.
  unfold passesCreateChecks, enforced_validCreate, badEmail, JS.truthy.
  rewrite !isBlank_trim.
  destruct (CreateInput.email input) as [e|];
    destruct (CreateInput.domains input) as [ds|]; cbn [orElse forallb];
    repeat match goal with
           | |- context [String.eqb ?a ?b] => destruct (String.eqb a b)
           | |- context [(?a <=? ?b)%nat] => destruct (a <=? b)%nat
           | |- context [isValidEmail ?a] => destruct (isValidEmail a)
           | |- context [forallb ?f ?l] => destruct (forallb f l)
           end; reflexivity.
Qed.

(** [C4] [createCustomer] fails with a validation error, the state left as
    it was, exactly when the input breaks one of these rules: name and
    company are not empty after trimming and have at most 100 characters
    then; an email that is not empty is well-formed; every domain is
    syntactically valid and has at most 253 characters. *)
Theorem create_validation_rules :
  forall (now : Z) (input : CustomerCreateInput) (s : State),
    let r := createCustomer now input s in
    (enforced_validCreate input = false
     /\ success (fst r) = false
     /\ code (fst r) = Some VALIDATION_ERROR
     /\ snd r = s)
    \/ (enforced_validCreate input = true
        /\ code (fst r) <> Some VALIDATION_ERROR).
Proof.
  intros now input s r. subst r. rewrite createCustomer_unfold.
  rewrite <- passesCreateChecks_enforced.
  destruct (validateCustomerInput_spec input) as [[Hp ->]|[Hp (e & -> & msg & ->)]].
  - right. split; [exact Hp|].
    destruct (checkDuplicateEmail _ _) as [[]|e] eqn:Hd.
    + discriminate.
    + destruct (checkDuplicateEmail_throws _ _ _ Hd) as (v & _ & ->).
      discriminate.
  - left. repeat split. exact Hp.
Qed.

(** ** Pagination *)

Lemma firstn_add_split {A : Type} (a b : nat) (xs : list A) :
  firstn (a + b) xs = firstn a xs ++ firstn b (skipn a xs).
Proof.
  revert xs. induction a as [|a IH]; intros xs; [reflexivity|].
  destruct xs as [|x xs]; simpl.
  - rewrite firstn_nil. reflexivity.
  - rewrite IH. reflexivity.
Qed.

(** Consecutive windows of width [l] add up to a prefix. *)
Lemma concat_windows {A : Type} (l : nat) (xs : list A) (k : nat) :
  List.concat (map (fun p => firstn l (skipn ((p - 1) * l) xs)) (seq 1 k))
  = firstn (k * l) xs.
Proof.
  induction k as [|k IH]; [reflexivity|].
  rewrite seq_S, map_app, concat_app, IH. cbn [map List.concat Nat.add].
  rewrite app_nil_r. replace (S k - 1)%nat with k by lia.
  replace (S k * l)%nat with (k * l + l)%nat by lia.
  symmetry. apply firstn_add_split.
Qed.

(** [slice] between two indices that are not negative. *)
Lemma slice_nonneg {A : Type} (xs : list A) (a b : Z) :
  0 <= a <= b ->
  JS.slice xs a b = firstn (Z.to_nat (b - a)) (skipn (Z.to_nat a) xs).
Proof.
  intros H. unfold JS.slice, JS.relativeIndex.
  destruct (Z.ltb_spec a 0); [lia|]. destruct (Z.ltb_spec b 0); [lia|].
  set (len := Z.of_nat (List.length xs)).
  destruct (Z.le_gt_cases len a) as [Ha|Ha].
  - rewrite !Z.min_r by lia. rewrite Z.sub_diag. cbn [Z.to_nat firstn].
    rewrite (skipn_all2 xs) by (subst len; lia). rewrite firstn_nil. reflexivity.
  - rewrite (Z.min_l a) by lia.
    destruct (Z.le_gt_cases len b) as [Hb|Hb].
    + rewrite Z.min_r by lia.
      rewrite !firstn_all2; [reflexivity | |]; rewrite length_skipn; subst len; lia.
    + rewrite Z.min_l by lia. reflexivity.
Qed.

(** A window that starts anywhere and is [l] wide holds at most [l]
    elements. *)
Lemma slice_length_le {A : Type} (xs : list A) (start l : Z) :
  0 <= l ->
  Z.of_nat (List.length (JS.slice xs start (start + l))) <= l.
Proof.
  intros Hl. unfold JS.slice. rewrite length_firstn.
  set (len := Z.of_nat (List.length xs)).
  assert (JS.relativeIndex len (start + l) - JS.relativeIndex len start <= l).
  { unfold JS.relativeIndex.
    destruct (Z.ltb_spec (start + l) 0); destruct (Z.ltb_spec start 0); lia. }
  lia.
Qed.

Lemma Math_ceil_div_bounds (n l : Z) :
  1 <= l ->
  n <= JS.Math_ceil_div n l * l < n + l.
Proof.
  intros Hl. unfold JS.Math_ceil_div.
  pose proof (Z.div_mod (- n) l ltac:(lia)).
  pose proof (Z.mod_pos_bound (- n) l ltac:(lia)). nia.
Qed.

Lemma length_insertBy {A : Type} (cmp : A -> A -> Z) (x : A) (xs : list A) :
  List.length (JS.insertBy cmp x xs) = S (List.length xs).
Proof.
  induction xs as [|y r IH]; [reflexivity|]. simpl.
  destruct (cmp x y <=? 0); simpl; [reflexivity | rewrite IH; reflexivity].
Qed.

Lemma length_sort {A : Type} (cmp : A -> A -> Z) (xs : list A) :
  List.length (JS.sort cmp xs) = List.length xs.
Proof.
  induction xs as [|x r IH]; [reflexivity|]. simpl.
  rewrite length_insertBy, IH. reflexivity.
Qed.

(** ** Filtering and sorting *)

Lemma filter_filter {A : Type} (p q : A -> bool) (l : list A) :
  filter q (filter p l) = filter (fun x => p x && q x) l.
Proof.
  induction l as [|x l IH]; [reflexivity|]. cbn [filter].
  destruct (p x); cbn [filter andb]; [|exact IH].
  destruct (q x); rewrite IH; reflexivity.
Qed.

Lemma filter_all {A : Type} (l : list A) : filter (fun _ => true) l = l.
Proof. induction l as [|x l IH]; [reflexivity|]. cbn [filter]. rewrite IH. reflexivity. Qed.

Lemma filterIfDefined_filter {A : Type} (o : option A)
  (p : A -> Customer -> bool) (cs : list Customer) :
  filterIfDefined o p cs
  = filter (fun c => match o with Some a => p a c | None => true end) cs.
Proof. destruct o; [reflexivity | symmetry; apply filter_all]. Qed.

Lemma filterIfTruthy_filter (o : option string)
  (p : string -> Customer -> bool) (cs : list Customer) :
  filterIfTruthy o p cs
  = filter (fun c => match o with
                     | Some a => if JS.truthy a then p a c else true
                     | None => true
                     end) cs.
Proof.
  destruct o as [a|]; cbn [filterIfTruthy]; [|symmetry; apply filter_all].
  destruct (JS.truthy a); [reflexivity | symmetry; apply filter_all].
Qed.

Lemma applyFilters_passes (options : ListOptions.t) (cs : list Customer) :
  applyFilters options cs = filter (passesFilters options) cs.
Proof.
  unfold applyFilters.
  rewrite filterIfTruthy_filter, filterIfTruthy_filter,
    filterIfDefined_filter, filterIfDefined_filter, filterIfDefined_filter.
  rewrite !filter_filter. apply filter_ext. intros c.
  unfold passesFilters. rewrite ?andb_assoc. reflexivity.
Qed.

Lemma insertBy_Permutation {A : Type} (cmp : A -> A -> Z) (x : A) (l : list A) :
  Permutation (x :: l) (JS.insertBy cmp x l).
Proof.
  induction l as [|y r IH]; cbn [JS.insertBy]; [reflexivity|].
  destruct (cmp x y <=? 0); [reflexivity|].
  rewrite perm_swap. constructor. exact IH.
Qed.

Lemma sort_Permutation {A : Type} (cmp : A -> A -> Z) (l : list A) :
  Permutation l (JS.sort cmp l).
Proof.
  induction l as [|x r IH]; cbn [JS.sort]; [constructor|].
  rewrite <- insertBy_Permutation. constructor. exact IH.
Qed.

(** With a comparator that never answers but 0, nothing moves. *)
Lemma sort_constant_zero {A : Type} (cmp : A -> A -> Z) (l : list A) :
  (forall a b, cmp a b = 0) -> JS.sort cmp l = l.
Proof.
  intros Hz. induction l as [|x r IH]; cbn [JS.sort]; [reflexivity|].
  rewrite IH. destruct r as [|y r']; cbn [JS.insertBy]; [reflexivity|].
  rewrite Hz. reflexivity.
Qed.

Lemma StronglySorted_weaken {A : Type} (R R' : A -> A -> Prop) (l : list A) :
  (forall a b, R a b -> R' a b) ->
  StronglySorted R l -> StronglySorted R' l.
Proof.
  intros Himpl Hl. induction Hl as [|x r Hr IH Hx]; constructor; [exact IH|].
  eapply Forall_impl; [|exact Hx]. intros y. apply Himpl.
Qed.

Section SortedBy.

Context {A : Type}.
Variable cmp : A -> A -> Z.
Variable P : A -> Prop.

(** On the elements of [P] the comparator is consistent: it orders any two
    of them one way or the other, and does so transitively. *)
Hypothesis cmp_total : forall a b, P a -> P b -> 0 < cmp a b -> cmp b a <= 0.
Hypothesis cmp_trans :
  forall a b c, P a -> P b -> P c ->
                cmp a b <= 0 -> cmp b c <= 0 -> cmp a c <= 0.

Lemma insertBy_Forall (R : A -> Prop) (x : A) (l : list A) :
  R x -> Forall R l -> Forall R (JS.insertBy cmp x l).
Proof.
  intros Hx Hl. induction Hl as [|y r Hy Hr IH]; cbn [JS.insertBy].
  - constructor; [exact Hx | constructor].
  - destruct (cmp x y <=? 0); constructor; auto.
Qed.

Lemma sort_Forall (R : A -> Prop) (l : list A) :
  Forall R l -> Forall R (JS.sort cmp l).
Proof.
  induction 1 as [|x r Hx _ IH]; cbn [JS.sort]; [constructor|].
  apply insertBy_Forall; assumption.
Qed.

Lemma insertBy_StronglySorted (x : A) (l : list A) :
  P x -> Forall P l ->
  StronglySorted (fun a b => cmp a b <= 0) l ->
  StronglySorted (fun a b => cmp a b <= 0) (JS.insertBy cmp x l).
Proof.
  intros Px Pl Hl. induction Hl as [|y r Hr IH Hy]; cbn [JS.insertBy].
  - constructor; constructor.
  - inversion Pl as [|? ? Py Pr]; subst.
    destruct (Z.leb_spec (cmp x y) 0) as [Hle|Hgt].
    + constructor; [constructor; assumption|].
      constructor; [exact Hle|].
      rewrite Forall_forall in Hy, Pr. apply Forall_forall. intros z Hz.
      exact (cmp_trans x y z Px Py (Pr z Hz) Hle (Hy z Hz)).
    + constructor; [exact (IH Pr)|].
      apply insertBy_Forall; [exact (cmp_total x y Px Py Hgt) | exact Hy].
Qed.

Lemma sort_StronglySorted (l : list A) :
  Forall P l -> StronglySorted (fun a b => cmp a b <= 0) (JS.sort cmp l).
Proof.
  induction 1 as [|x r Px Pr IH]; cbn [JS.sort]; [constructor|].
  apply insertBy_StronglySorted; [exact Px | apply sort_Forall; exact Pr | exact IH].
Qed.

End SortedBy.

Section Stable.

Context {A : Type}.
Variable cmp : A -> A -> Z.
Variable p : A -> bool.
Variable P : A -> Prop.

(** Two elements of [P] in the class [p] never compare as out of order. *)
Hypothesis same_class :
  forall a b, P a -> P b -> p a = true -> p b = true -> cmp a b <= 0.

Lemma filter_insertBy (x : A) (l : list A) :
  P x -> Forall P l ->
  filter p (JS.insertBy cmp x l) = filter p (x :: l).
Proof.
  intros Px Pl. induction Pl as [|y r Py Pr IH]; cbn [JS.insertBy]; [reflexivity|].
  destruct (Z.leb_spec (cmp x y) 0) as [Hle|Hgt]; [reflexivity|].
  cbn [filter] in *. rewrite IH.
  destruct (p x) eqn:Hx, (p y) eqn:Hy; try reflexivity.
  pose proof (same_class x y Px Py Hx Hy). lia.
Qed.

Lemma filter_sort (l : list A) :
  Forall P l -> filter p (JS.sort cmp l) = filter p l.
Proof.
  induction 1 as [|x r Px Pr IH]; cbn [JS.sort]; [reflexivity|].
  rewrite filter_insertBy; [|exact Px | apply sort_Forall; exact Pr].
  cbn [filter]. rewrite IH. reflexivity.
Qed.

End Stable.

Section Listing.

Variable localeCompare : string -> string -> Z.
Variable toISOString : Z -> string.

Lemma getCustomers_unfold (options : ListOptions.t) (s : State) :
  getCustomers localeCompare toISOString options s
  = (succeed (paginate options (filteredSorted localeCompare toISOString options s)),
     s).
Proof. reflexivity. Qed.

Lemma length_filteredSorted (options : ListOptions.t) (s : State) :
  List.length (filteredSorted localeCompare toISOString options s)
  = List.length (applyFilters options (customers s)).
Proof.
  unfold filteredSorted, applySort.
  destruct (ListOptions.sortBy options); [apply length_sort | reflexivity].
Qed.

Lemma pageData_window (options : ListOptions.t) (s : State) (p : nat) :
  1 <= orDefault (ListOptions.limit options) 10 ->
  (1 <= p)%nat ->
  pageData localeCompare toISOString options s (Z.of_nat p)
  = firstn (Z.to_nat (orDefault (ListOptions.limit options) 10))
      (skipn ((p - 1) * Z.to_nat (orDefault (ListOptions.limit options) 10))
         (filteredSorted localeCompare toISOString options s)).
Proof.
  intros Hl Hp. unfold pageData. rewrite getCustomers_unfold.
  cbn [fst data succeed paginate Paginated.data].
  change (filteredSorted localeCompare toISOString (withPage (Z.of_nat p) options) s)
    with (filteredSorted localeCompare toISOString options s).
  change (ListOptions.limit (withPage (Z.of_nat p) options))
    with (ListOptions.limit options).
  change (ListOptions.page (withPage (Z.of_nat p) options))
    with (Some (Z.of_nat p)).
  set (limit := orDefault (ListOptions.limit options) 10) in *.
  assert (Hpage : orDefault (Some (Z.of_nat p)) 1 = Z.of_nat p).
  { unfold orDefault. destruct (Z.eqb_spec (Z.of_nat p) 0); [lia | reflexivity]. }
  rewrite Hpage. rewrite slice_nonneg by nia.
  f_equal; [f_equal; lia|]. f_equal.
  rewrite Z2Nat.inj_mul by lia. f_equal. lia.
Qed.

Lemma filteredSorted_passing (options : ListOptions.t) (s : State) :
  filteredSorted localeCompare toISOString options s
  = applySort localeCompare toISOString options
      (filter (passesFilters options) (customers s)).
Proof. unfold filteredSorted. rewrite applyFilters_passes. reflexivity. Qed.

(** [C7] [getCustomers] filters, sorts and then paginates.  The sequence it
    paginates holds the customers that pass every filter that is set, each
    once: in the order of the collection when no sort key is given, and
    ordered by the comparator of the sort key when that comparator is
    consistent on them.  For a limit of at least one item per page (10
    when none is given), the slice of any page has at most [limit]
    elements, [total] is the number of customers that pass the filters,
    [totalPages] is the ceiling of [total / limit], and the slices of the
    pages [1 .. totalPages], one after the other, are that sequence. *)
Theorem pagination_reconstructs_listing :
  forall (options : ListOptions.t) (s : State),
    let limit := orDefault (ListOptions.limit options) 10 in
    let page := orDefault (ListOptions.page options) 1 in
    let passing := filter (passesFilters options) (customers s) in
    let listing := filteredSorted localeCompare toISOString options s in
    1 <= limit ->
    Permutation passing listing
    /\ (ListOptions.sortBy options = None -> listing = passing)
    /\ (forall key,
           ListOptions.sortBy options = Some key ->
           let cmp :=
             compareBy localeCompare toISOString key
               (ListOptions.sortOrder options) in
           (forall a b, In a passing -> In b passing ->
                        0 < cmp a b -> cmp b a <= 0) ->
           (forall a b c, In a passing -> In b passing -> In c passing ->
                          cmp a b <= 0 -> cmp b c <= 0 -> cmp a c <= 0) ->
           StronglySorted (fun a b => cmp a b <= 0) listing)
    /\ (exists r,
        getCustomers localeCompare toISOString options s = (succeed r, s)
        /\ Paginated.data r
           = JS.slice listing ((page - 1) * limit) ((page - 1) * limit + limit)
        /\ Z.of_nat (List.length (Paginated.data r)) <= limit
        /\ Pagination.page (Paginated.pagination r) = page
        /\ Pagination.limit (Paginated.pagination r) = limit
        /\ Pagination.total (Paginated.pagination r)
           = Z.of_nat (List.length passing)
        /\ Pagination.total (Paginated.pagination r)
           <= Pagination.totalPages (Paginated.pagination r) * limit
           < Pagination.total (Paginated.pagination r) + limit
        /\ List.concat
             (map (pageData localeCompare toISOString options s)
                (pagesUpTo (Pagination.totalPages (Paginated.pagination r))))
           = listing).
Proof.
  intros options s limit page passing listing Hl.
  assert (Hlisting : listing
                     = applySort localeCompare toISOString options passing)
    by apply filteredSorted_passing.
  split.
  { rewrite Hlisting. unfold applySort.
    destruct (ListOptions.sortBy options); [apply sort_Permutation | reflexivity]. }
  split.
  { intros Hkey. rewrite Hlisting. unfold applySort. rewrite Hkey. reflexivity. }
  split.
  { intros key Hkey cmp Htotal Htrans. rewrite Hlisting. unfold applySort.
    rewrite Hkey. fold cmp.
    apply (sort_StronglySorted cmp (fun a => In a passing)).
    - exact Htotal.
    - exact Htrans.
    - apply Forall_forall. intros a Ha. exact Ha. }
  eexists. split; [apply getCustomers_unfold|].
  cbn [paginate Paginated.data Paginated.pagination Pagination.page
       Pagination.limit Pagination.total Pagination.totalPages].
  fold limit page listing.
  pose proof (Math_ceil_div_bounds (Z.of_nat (List.length listing)) limit Hl)
    as Hceil.
  set (totalPages := JS.Math_ceil_div (Z.of_nat (List.length listing)) limit) in *.
  split; [reflexivity|].
  split; [apply slice_length_le; lia|].
  split; [reflexivity|]. split; [reflexivity|].
  split.
  { subst listing passing.
    rewrite length_filteredSorted, applyFilters_passes. reflexivity. }
  split; [exact Hceil|].
  unfold pagesUpTo. rewrite map_map.
  rewrite (map_ext_in _
             (fun p => firstn (Z.to_nat limit)
                         (skipn ((p - 1) * Z.to_nat limit) listing))).
  - rewrite concat_windows. apply firstn_all2. nia.
  - intros p Hp. apply in_seq in Hp. apply pageData_window; [exact Hl | lia].
Qed.

End Listing.

Lemma pagination_reconstructs_listing_witness :
  List.concat
    (map (pageData (fun _ _ => 0) (fun _ => "") twoPerPage threeCustomers) [1; 2])
  = filteredSorted (fun _ _ => 0) (fun _ => "") twoPerPage threeCustomers
  /\ map Customer.healthScore
       (filteredSorted (fun _ _ => 0) (fun _ => "") twoPerPage threeCustomers)
     = [Score.ofZ 80; Score.ofZ 70; Score.ofZ 50].
Proof.
  destruct (pagination_reconstructs_listing (fun _ _ => 0) (fun _ => "")
              twoPerPage threeCustomers)
    as (_ & _ & _ & r & Hr & _ & _ & _ & _ & _ & _ & Hcat).
  - vm_compute. discriminate.
  - split; [|vm_compute; reflexivity].
    rewrite getCustomers_unfold in Hr. apply succeed_inj in Hr.
    rewrite <- Hr in Hcat. exact Hcat.
Defined.

(** With the limit -2 the page of [getCustomers] holds one of the three
    customers, which is more than the limit; [totalPages] is -1, so there
    is no page from 1 to [totalPages], and the pages do not make up the
    listing. *)
Lemma pagination_with_negative_limit_counterexample :
  exists r,
    getCustomers (fun _ _ => 0) (fun _ => "") negativeLimit threeCustomers
    = (succeed r, threeCustomers)
    /\ Pagination.limit (Paginated.pagination r) = -2
    /\ List.length (Paginated.data r) = 1%nat
    /\ ~ Z.of_nat (List.length (Paginated.data r))
         <= Pagination.limit (Paginated.pagination r)
    /\ Pagination.total (Paginated.pagination r) = 3
    /\ Pagination.totalPages (Paginated.pagination r) = -1
    /\ List.concat
         (map (pageData (fun _ _ => 0) (fun _ => "") negativeLimit threeCustomers)
            (pagesUpTo (Pagination.totalPages (Paginated.pagination r))))
       = []
    /\ List.length
         (filteredSorted (fun _ _ => 0) (fun _ => "") negativeLimit threeCustomers)
       = 3%nat.
Proof.
  eexists. split; [apply getCustomers_unfold|].
  repeat split; try (vm_compute; reflexivity).
  vm_compute. intros H. apply H. reflexivity.
Qed.

(** ** Update and the recomputed health score *)

(** What [findIndex] finds: the array splits at the index, the element
    there satisfies the predicate and no earlier element does. *)
Lemma findIndex_Some {A : Type} (p : A -> bool) (xs : list A) (i : nat) :
  JS.findIndex p xs = Some i ->
  exists before x after,
    xs = before ++ x :: after
    /\ List.length before = i
    /\ p x = true
    /\ forallb (fun y => negb (p y)) before = true.
Proof.
  revert i. induction xs as [|y r IH]; intros i; simpl; [discriminate|].
  destruct (p y) eqn:Hy.
  - intros H; injection H as <-. exists [], y, r. repeat split. exact Hy.
  - destruct (JS.findIndex p r) as [j|]; [|discriminate].
    simpl. intros H; injection H as <-.
    destruct (IH j eq_refl) as (before & x & after & -> & <- & Hx & Hb).
    exists (y :: before), x, after. simpl. rewrite Hy, Hb. repeat split. exact Hx.
Qed.

Lemma findIndex_None {A : Type} (p : A -> bool) (xs : list A) :
  JS.findIndex p xs = None -> forallb (fun y => negb (p y)) xs = true.
Proof.
  induction xs as [|y r IH]; simpl; [reflexivity|].
  destruct (p y); [discriminate|].
  destruct (JS.findIndex p r); [discriminate|]. intros _. apply IH. reflexivity.
Qed.

Lemma nth_error_middle {A : Type} (before after : list A) (x : A) :
  nth_error (before ++ x :: after) (List.length before) = Some x.
Proof. induction before; simpl; auto. Qed.

Lemma setAt_middle {A : Type} (before after : list A) (x v : A) :
  JS.setAt (List.length before) v (before ++ x :: after) = before ++ v :: after.
Proof. induction before as [|y r IH]; simpl; [reflexivity | rewrite IH; reflexivity]. Qed.

Lemma splice1_middle {A : Type} (before after : list A) (x : A) :
  JS.splice1 (List.length before) (before ++ x :: after) = before ++ after.
Proof.
  unfold JS.splice1.
  rewrite firstn_app, firstn_all, Nat.sub_diag. cbn [firstn].
  rewrite app_nil_r.
  change (S (List.length before)) with (1 + List.length before)%nat.
  rewrite <- skipn_skipn.
  rewrite skipn_app, skipn_all, Nat.sub_diag. reflexivity.
Qed.

Lemma validateCustomerUpdateInput_spec (input : CustomerUpdateInput) :
  (passesUpdateChecks input = true
   /\ validateCustomerUpdateInput input = Return tt)
  \/ (passesUpdateChecks input = false
      /\ exists e, validateCustomerUpdateInput input = Throw e
                   /\ isValidationError e).
Proof.
  unfold passesUpdateChecks, validateCustomerUpdateInput, checkDomainsOpt, bind.
  repeat match goal with
         | |- context [throwIf ?b _] =>
             destruct b; cbn [throwIf negb andb];
             [right; split; [reflexivity|]; eexists; split;
                [reflexivity | eexists; reflexivity]|]
         end.
  destruct (UpdateInput.domains input) as [ds|]; cbn [orElse].
  - apply checkDomains_spec.
  - left; split; reflexivity.
Qed.

(** What a successful update did. *)
Lemma updateCustomer_success (stamp now : Z) (id : string)
  (input : CustomerUpdateInput) (s : State) :
  success (fst (updateCustomer stamp now id input s)) = true ->
  exists before existing after,
    customers s = before ++ existing :: after
    /\ Customer.id existing = id
    /\ forallb (fun c => negb (String.eqb (Customer.id c) id)) before = true
    /\ isBlank id = false
    /\ passesUpdateChecks input = true
    /\ checkDuplicateEmailExcept id (UpdateInput.email input) (customers s)
       = Return tt
    /\ updateCustomer stamp now id input s
       = (succeed (updatedCustomer stamp now existing input),
          {| customers :=
               before ++ updatedCustomer stamp now existing input :: after;
             nextId := nextId s |}).
Proof.
  rewrite updateCustomer_unfold.
  destruct (isBlank id) eqn:Hid; [discriminate|].
  destruct (JS.findIndex _ _) as [i|] eqn:Hfind; [|discriminate].
  destruct (findIndex_Some _ _ _ Hfind) as (before & x & after & Hcs & <- & Hx & Hb).
  destruct (validateCustomerUpdateInput_spec input)
    as [[Hp ->]|[Hp (e & -> & _)]]; [|discriminate].
  destruct (checkDuplicateEmailExcept _ _ _) as [[]|] eqn:Hdup; [|discriminate].
  assert (Hnth : nth_error (customers s) (List.length before) = Some x)
    by (rewrite Hcs; apply nth_error_middle).
  rewrite Hnth. intros _.
  exists before, x, after. apply String.eqb_eq in Hx.
  do 6 (split; [assumption || reflexivity|]).
  unfold assignAt. rewrite Hcs, setAt_middle. reflexivity.
Qed.

Lemma findIndex_middle {A : Type} (p : A -> bool) (before after : list A) (x : A) :
  forallb (fun y => negb (p y)) before = true ->
  p x = true ->
  JS.findIndex p (before ++ x :: after) = Some (List.length before).
Proof.
  intros Hb Hx. induction before as [|y r IH]; simpl.
  - rewrite Hx. reflexivity.
  - simpl in Hb. apply andb_true_iff in Hb as [Hy Hr].
    apply negb_true_iff in Hy. rewrite Hy, (IH Hr). reflexivity.
Qed.

Lemma calculateHealthScore_spec (now : Z) (c : Customer) :
  calculateHealthScore now c
  = spec_recomputedHealthScore now (Customer.subscriptionTier c)
      (Customer.domains c) (Customer.email c) (Customer.createdAt c).
Proof.
  unfold calculateHealthScore, spec_recomputedHealthScore.
  rewrite clamp_min_max. f_equal. unfold JS.Math_round. apply Qfloor_comp.
  apply Qplus_comp; [|reflexivity]. unfold recomputedScore.
  apply Qplus_comp; [|reflexivity]. symmetry. apply sharedScore_integer.
Qed.

Lemma passesUpdateChecks_withPatchScore (h : option Score.t)
  (input : CustomerUpdateInput) :
  passesUpdateChecks input = true ->
  badHealthScore h = false ->
  passesUpdateChecks (withPatchScore h input) = true.
Proof.
  unfold passesUpdateChecks, withPatchScore.
  cbn [UpdateInput.name UpdateInput.company UpdateInput.email
       UpdateInput.healthScore UpdateInput.domains].
  intros Hp Hh. rewrite Hh.
  repeat (apply andb_true_iff in Hp as [Hp ?]).
  repeat (apply andb_true_iff; split); auto.
Qed.

Lemma touchesScoreInputs_true (input : CustomerUpdateInput) :
  UpdateInput.subscriptionTier input <> None
  \/ UpdateInput.domains input <> None ->
  touchesScoreInputs input = true.
Proof.
  unfold touchesScoreInputs.
  destruct (UpdateInput.subscriptionTier input);
    destruct (UpdateInput.domains input); intros [H|H]; congruence.
Qed.

(** [C3] When the patch of a successful update contains a tier or domains,
    the health score of the updated customer is recomputed from the merged
    record: its tier, domains and email after the patch, and the age of the
    account as the bonus [min(daysSinceCreatedAt / 10, 15)].  Whatever
    health score the same patch carries does not change the result. *)
Theorem update_recomputes_health_score :
  forall (stamp now : Z) (id : string) (input : CustomerUpdateInput)
         (s : State) (c : Customer),
    UpdateInput.subscriptionTier input <> None
    \/ UpdateInput.domains input <> None ->
    data (fst (updateCustomer stamp now id input s)) = Some c ->
    exists existing,
      In existing (customers s)
      /\ Customer.id existing = id
      /\ In c (customers (snd (updateCustomer stamp now id input s)))
      /\ Customer.subscriptionTier c
         = orKeep (UpdateInput.subscriptionTier input)
             (Customer.subscriptionTier existing)
      /\ Customer.domains c
         = orKeep (UpdateInput.domains input) (Customer.domains existing)
      /\ Customer.email c
         = orKeep (option_map JS.trim (UpdateInput.email input))
             (Customer.email existing)
      /\ Customer.createdAt c = Customer.createdAt existing
      /\ Customer.healthScore c
         = Score.ofZ
             (spec_recomputedHealthScore now (Customer.subscriptionTier c)
                (Customer.domains c) (Customer.email c) (Customer.createdAt c))
      /\ forall h : option Score.t,
           badHealthScore h = false ->
           option_map Customer.healthScore
             (data (fst (updateCustomer stamp now id (withPatchScore h input) s)))
           = Some (Customer.healthScore c).
Proof.
  intros stamp now id input s c Htouch Hc.
  apply touchesScoreInputs_true in Htouch.
  assert (Hok : success (fst (updateCustomer stamp now id input s)) = true).
  { exact (tryCatch_data_success _ s c Hc). }
  destruct (updateCustomer_success _ _ _ _ _ Hok)
    as (before & existing & after & Hcs & Hid & Hb & Hblank & Hp & Hdup & Heq).
  rewrite Heq in Hc |- *. cbn [fst snd data succeed customers] in Hc |- *.
  injection Hc as <-.
  exists existing.
  split; [rewrite Hcs; apply in_or_app; right; left; reflexivity|].
  split; [exact Hid|].
  split; [apply in_or_app; right; left; reflexivity|].
  unfold updatedCustomer, recalculate. rewrite Htouch.
  cbn [withHealthScore ensureTrimmed spreadPatch Customer.subscriptionTier
       Customer.domains Customer.email Customer.createdAt Customer.healthScore].
  split; [reflexivity|]. split; [reflexivity|].
  split.
  { unfold trimmedOrOpt, orKeep.
    destruct (UpdateInput.email input) as [[|a e]|]; reflexivity. }
  split; [reflexivity|].
  split.
  { rewrite calculateHealthScore_spec. reflexivity. }
  intros h Hh. rewrite updateCustomer_unfold, Hblank, Hcs.
  rewrite findIndex_middle;
    [|exact Hb | rewrite Hid; apply String.eqb_refl].
  destruct (validateCustomerUpdateInput_spec (withPatchScore h input))
    as [[_ ->]|[Hbad _]];
    [|rewrite (passesUpdateChecks_withPatchScore h input Hp Hh) in Hbad;
      discriminate].
  change (UpdateInput.email (withPatchScore h input))
    with (UpdateInput.email input).
  rewrite <- Hcs, Hdup, Hcs, nth_error_middle.
  cbn [fst data succeed option_map].
  unfold updatedCustomer, recalculate.
  change (touchesScoreInputs (withPatchScore h input))
    with (touchesScoreInputs input).
  rewrite Htouch. reflexivity.
Qed.

Lemma update_recomputes_health_score_witness :
  exists c,
    data (fst (updateCustomer thirtyDaysLater thirtyDaysLater "9" upgradePatch
                 janeState)) = Some c
    /\ Customer.healthScore c = Score.ofZ 98.
Proof.
  eexists. split; [vm_compute; reflexivity|].
  match goal with
  | |- Customer.healthScore ?c = _ =>
      destruct (update_recomputes_health_score thirtyDaysLater thirtyDaysLater
                  "9" upgradePatch janeState c)
        as (existing & _ & _ & _ & _ & _ & _ & _ & Hscore & _)
  end.
  - left. discriminate.
  - vm_compute. reflexivity.
  - rewrite Hscore. vm_compute. reflexivity.
Defined.

(** ** Uniqueness of emails *)

(** The email of the new input equals the email of the stored customer up
    to letter case, and the create succeeds: the collection then holds both
    emails. *)
Lemma create_accepts_email_in_other_case_counterexample :
  map Customer.email (customers janeState) = [Some "jane@acme.com"]
  /\ sameEmailIgnoringCase "JANE@ACME.COM" "jane@acme.com" = true
  /\ success (fst (createCustomer 2000 shoutingJane janeState)) = true
  /\ code (fst (createCustomer 2000 shoutingJane janeState))
     <> Some DUPLICATE_ERROR
  /\ map Customer.email
       (customers (snd (createCustomer 2000 shoutingJane janeState)))
     = [Some "jane@acme.com"; Some "JANE@ACME.COM"].
Proof.
  split; [vm_compute; reflexivity|]. split; [vm_compute; reflexivity|].
  split; [vm_compute; reflexivity|].
  split; [vm_compute; discriminate | vm_compute; reflexivity].
Qed.

Lemma toString_inj (n m : nat) : JS.toString n = JS.toString m -> n = m.
Proof.
  unfold JS.toString. intros H. apply Unsigned.to_uint_inj.
  assert (E : Some (Nat.to_uint n) = Some (Nat.to_uint m)).
  { rewrite <- !NilEmpty.usu, H. reflexivity. }
  injection E as E. exact E.
Qed.

Lemma truthy_true (e : string) : JS.truthy e = true <-> e <> "".
Proof.
  unfold JS.truthy. rewrite negb_true_iff.
  split; intros H.
  - intros ->. discriminate.
  - apply String.eqb_neq. exact H.
Qed.

Lemma optString_eqb_Some (o : option string) (e : string) :
  optString_eqb o (Some e) = true <-> o = Some e.
Proof.
  destruct o as [x|]; simpl.
  - rewrite String.eqb_eq. split; congruence.
  - split; discriminate.
Qed.

Lemma in_nonEmptyEmails (e : string) (cs : list Customer) :
  In e (nonEmptyEmails cs) <->
  JS.truthy e = true /\ exists c, In c cs /\ Customer.email c = Some e.
Proof.
  unfold nonEmptyEmails. rewrite in_flat_map. unfold nonEmptyEmail. split.
  - intros (c & Hc & He). destruct (Customer.email c) as [x|] eqn:Hx; [|contradiction].
    destruct (JS.truthy x) eqn:Ht; [|contradiction].
    destruct He as [<-|[]]. split; [exact Ht|]. exists c. split; assumption.
  - intros (Ht & c & Hc & He). exists c. split; [exact Hc|].
    rewrite He, Ht. left. reflexivity.
Qed.

Lemma nonEmptyEmails_app (a b : list Customer) :
  nonEmptyEmails (a ++ b) = nonEmptyEmails a ++ nonEmptyEmails b.
Proof. apply flat_map_app. Qed.

Lemma nonEmptyEmails_cons (c : Customer) (cs : list Customer) :
  nonEmptyEmails (c :: cs) = nonEmptyEmail c ++ nonEmptyEmails cs.
Proof. reflexivity. Qed.

Lemma NoDup_app_remove_mid {A : Type} (a m b : list A) :
  NoDup (a ++ m ++ b) -> NoDup (a ++ b).
Proof.
  induction m as [|x m IH]; [exact (fun H => H)|].
  intros H. apply IH. exact (NoDup_remove_1 a (m ++ b) x H).
Qed.

Lemma NoDup_insert {A : Type} (a b : list A) (x : A) :
  NoDup (a ++ b) -> ~ In x (a ++ b) -> NoDup (a ++ x :: b).
Proof.
  intros Hn Hx. apply (Permutation_NoDup (Permutation_middle a b x)).
  constructor; assumption.
Qed.

Lemma checkDuplicateEmail_passes (e : string) (cs : list Customer) :
  e <> "" ->
  checkDuplicateEmail (Some e) cs = Return tt ->
  ~ In e (nonEmptyEmails cs).
Proof.
  intros He. unfold checkDuplicateEmail, throwIf.
  apply truthy_true in He. rewrite He. cbn [andb].
  destruct (existsb _ cs) eqn:Hex; [discriminate|]. intros _ Hin.
  apply in_nonEmptyEmails in Hin as (_ & c & Hc & Hemail).
  assert (existsb (fun c => optString_eqb (Customer.email c) (Some e)) cs = true).
  { apply existsb_exists. exists c. split; [exact Hc|].
    apply optString_eqb_Some. exact Hemail. }
  congruence.
Qed.

Lemma checkDuplicateEmail_rejects (e : string) (cs : list Customer) (c : Customer) :
  e <> "" -> In c cs -> Customer.email c = Some e ->
  checkDuplicateEmail (Some e) cs
  = Throw (ServiceError (DuplicateError "email" e)).
Proof.
  intros He Hc Hemail. unfold checkDuplicateEmail, throwIf.
  apply truthy_true in He. rewrite He. cbn [andb].
  replace (existsb _ cs) with true; [reflexivity|]. symmetry.
  apply existsb_exists. exists c. split; [exact Hc|].
  apply optString_eqb_Some. exact Hemail.
Qed.

Lemma checkDuplicateEmailExcept_passes (id e : string) (cs : list Customer) :
  e <> "" ->
  checkDuplicateEmailExcept id (Some e) cs = Return tt ->
  forall c, In c cs -> Customer.id c <> id -> Customer.email c <> Some e.
Proof.
  intros He. unfold checkDuplicateEmailExcept, throwIf.
  apply truthy_true in He. rewrite He. cbn [andb].
  destruct (existsb _ cs) eqn:Hex; [discriminate|]. intros _ c Hc Hid Hemail.
  assert (existsb
            (fun c => negb (String.eqb (Customer.id c) id)
                      && optString_eqb (Customer.email c) (Some e)) cs = true).
  { apply existsb_exists. exists c. split; [exact Hc|].
    apply andb_true_iff. split.
    - apply negb_true_iff, String.eqb_neq. exact Hid.
    - apply optString_eqb_Some. exact Hemail. }
  congruence.
Qed.

Lemma checkDuplicateEmailExcept_rejects (id e : string) (cs : list Customer)
  (c : Customer) :
  e <> "" -> In c cs -> Customer.id c <> id -> Customer.email c = Some e ->
  checkDuplicateEmailExcept id (Some e) cs
  = Throw (ServiceError (DuplicateError "email" e)).
Proof.
  intros He Hc Hid Hemail. unfold checkDuplicateEmailExcept, throwIf.
  apply truthy_true in He. rewrite He. cbn [andb].
  replace (existsb _ cs) with true; [reflexivity|]. symmetry.
  apply existsb_exists. exists c. split; [exact Hc|].
  apply andb_true_iff. split.
  - apply negb_true_iff, String.eqb_neq. exact Hid.
  - apply optString_eqb_Some. exact Hemail.
Qed.

Lemma updatedCustomer_id (stamp now : Z) (existing : Customer)
  (input : CustomerUpdateInput) :
  Customer.id (updatedCustomer stamp now existing input) = Customer.id existing.
Proof.
  unfold updatedCustomer, recalculate.
  destruct (touchesScoreInputs input); reflexivity.
Qed.

Lemma updatedCustomer_email (stamp now : Z) (existing : Customer)
  (input : CustomerUpdateInput) :
  Customer.email (updatedCustomer stamp now existing input)
  = orKeep (option_map JS.trim (UpdateInput.email input))
      (Customer.email existing).
Proof.
  unfold updatedCustomer, recalculate.
  destruct (touchesScoreInputs input);
    cbn [withHealthScore ensureTrimmed spreadPatch Customer.email];
    unfold trimmedOrOpt, orKeep;
    destruct (UpdateInput.email input) as [[|a e]|]; reflexivity.
Qed.

(** A successful create keeps the invariant when its email is trimmed. *)
Lemma Consistent_create (now : Z) (input : CustomerCreateInput) (s : State) :
  Consistent s ->
  (forall e, CreateInput.email input = Some e -> JS.trim e = e) ->
  Consistent (snd (createCustomer now input s)).
Proof.
  intros [Hids Hissued Hemails] Htrim.
  destruct (success (fst (createCustomer now input s))) eqn:Hok.
  - destruct (createCustomer_success now input s Hok) as (_ & Hdup & ->).
    unfold incrementNextId, push. cbn [snd customers nextId].
    constructor; cbn [customers nextId].
    + rewrite map_app. cbn [map newCustomer Customer.id].
      apply NoDup_insert; rewrite app_nil_r; [exact Hids|].
      intros Hin. apply in_map_iff in Hin as (c & Hc & Hin).
      exact (Hissued c (nextId s) Hin (Nat.le_refl _) Hc).
    + intros c k Hc Hk. apply in_app_or in Hc as [Hc|[<-|[]]].
      * apply (Hissued c k Hc). lia.
      * cbn [newCustomer Customer.id]. intros Heq.
        apply toString_inj in Heq. lia.
    + rewrite nonEmptyEmails_app. unfold nonEmptyEmails at 2.
      cbn [flat_map]. rewrite app_nil_r. unfold nonEmptyEmail.
      cbn [newCustomer Customer.email].
      destruct (CreateInput.email input) as [e|] eqn:He; cbn [option_map].
      * rewrite (Htrim e eq_refl).
        destruct (JS.truthy e) eqn:Ht; [|rewrite app_nil_r; exact Hemails].
        apply NoDup_insert; rewrite app_nil_r; [exact Hemails|].
        apply checkDuplicateEmail_passes; [apply truthy_true; exact Ht | exact Hdup].
      * rewrite app_nil_r. exact Hemails.
  - replace (snd (createCustomer now input s)) with s;
      [constructor; assumption|].
    revert Hok. rewrite createCustomer_unfold.
    destruct (validateCustomerInput input); [|reflexivity].
    destruct (checkDuplicateEmail _ _); [discriminate | reflexivity].
Qed.

Lemma forallb_other_ids (id : string) (cs : list Customer) :
  forallb (fun c => negb (String.eqb (Customer.id c) id)) cs = true ->
  forall c, In c cs -> Customer.id c <> id.
Proof.
  intros H c Hc. rewrite forallb_forall in H.
  apply String.eqb_neq, negb_true_iff, H, Hc.
Qed.

(** A successful update keeps the invariant when its email is trimmed. *)
Lemma Consistent_update (stamp now : Z) (id : string)
  (input : CustomerUpdateInput) (s : State) :
  Consistent s ->
  (forall e, UpdateInput.email input = Some e -> JS.trim e = e) ->
  Consistent (snd (updateCustomer stamp now id input s)).
Proof.
  intros [Hids Hissued Hemails] Htrim.
  destruct (success (fst (updateCustomer stamp now id input s))) eqn:Hok.
  - destruct (updateCustomer_success _ _ _ _ _ Hok)
      as (before & existing & after & Hcs & Hid & Hb & _ & _ & Hdup & ->).
    cbn [snd]. set (c := updatedCustomer stamp now existing input).
    assert (Hcid : Customer.id c = Customer.id existing)
      by apply updatedCustomer_id.
    rewrite Hcs in Hids, Hissued, Hemails.
    constructor; cbn [customers nextId].
    + rewrite map_app in *. cbn [map] in *. rewrite Hcid. exact Hids.
    + intros x k Hx Hk. apply in_app_or in Hx as [Hx|[<-|Hx]].
      * apply (Hissued x k); [apply in_or_app; left; exact Hx | exact Hk].
      * rewrite Hcid.
        apply (Hissued existing k); [apply in_or_app; right; left; reflexivity
                                    | exact Hk].
      * apply (Hissued x k); [apply in_or_app; right; right; exact Hx | exact Hk].
    + rewrite nonEmptyEmails_app, nonEmptyEmails_cons in *.
      unfold nonEmptyEmail at 1. subst c. rewrite updatedCustomer_email.
      destruct (UpdateInput.email input) as [e|] eqn:He; cbn [option_map orKeep].
      * rewrite (Htrim e eq_refl).
        apply NoDup_app_remove_mid in Hemails.
        destruct (JS.truthy e) eqn:Ht; [|exact Hemails].
        apply NoDup_insert; [exact Hemails|].
        rewrite <- nonEmptyEmails_app. intros Hin.
        apply in_nonEmptyEmails in Hin as (_ & x & Hx & Hxe).
        apply truthy_true in Ht.
        refine (checkDuplicateEmailExcept_passes id e _ Ht Hdup x _ _ Hxe).
        -- rewrite Hcs. apply in_app_or in Hx as [Hx|Hx]; apply in_or_app;
             [left | right; right]; exact Hx.
        -- apply in_app_or in Hx as [Hx|Hx].
           ++ exact (forallb_other_ids id before Hb x Hx).
           ++ rewrite map_app in Hids. cbn [map] in Hids.
              apply NoDup_remove_2 in Hids. intros Heq. apply Hids.
              apply in_or_app. right. apply in_map_iff. exists x.
              split; [congruence | exact Hx].
      * exact Hemails.
  - replace (snd (updateCustomer stamp now id input s)) with s;
      [constructor; assumption|].
    revert Hok. rewrite updateCustomer_unfold.
    destruct (isBlank id); [reflexivity|].
    destruct (JS.findIndex _ _); [|reflexivity].
    destruct (validateCustomerUpdateInput input); [|reflexivity].
    destruct (checkDuplicateEmailExcept _ _ _); [|reflexivity].
    destruct (nth_error _ _); [discriminate | reflexivity].
Qed.

(** A delete keeps the invariant. *)
Lemma Consistent_delete (id : string) (s : State) :
  Consistent s -> Consistent (snd (deleteCustomer id s)).
Proof.
  intros [Hids Hissued Hemails]. rewrite deleteCustomer_unfold.
  destruct (isBlank id); [constructor; assumption|].
  destruct (JS.findIndex _ _) as [i|] eqn:Hfind; [|constructor; assumption].
  destruct (findIndex_Some _ _ _ Hfind) as (before & x & after & Hcs & <- & _ & _).
  cbn [snd]. unfold spliceAt. rewrite Hcs, splice1_middle.
  rewrite Hcs in Hids, Hissued, Hemails.
  constructor; cbn [customers nextId].
  - rewrite map_app in *. cbn [map] in Hids. exact (NoDup_remove_1 _ _ _ Hids).
  - intros c k Hc Hk. apply (Hissued c k); [|exact Hk].
    apply in_app_or in Hc as [Hc|Hc]; apply in_or_app;
      [left | right; right]; exact Hc.
  - rewrite nonEmptyEmails_app, nonEmptyEmails_cons in *.
    exact (NoDup_app_remove_mid _ _ _ Hemails).
Qed.

Section Sequences.

Variable localeCompare : string -> string -> Z.
Variable toISOString : Z -> string.

Lemma Consistent_perform (call : Call) (s : State) :
  Consistent s ->
  suppliesTrimmedEmail call ->
  Consistent (snd (perform localeCompare toISOString call s)).
Proof.
  intros Hs Htrim. destruct call; unfold perform, observe; cbn [snd].
  - exact Hs.
  - unfold getCustomerById, throwIf. unfold_body.
    destruct (isBlank id); [exact Hs|]. destruct (find _ _); exact Hs.
  - apply Consistent_create; [exact Hs | exact Htrim].
  - apply Consistent_update; [exact Hs | exact Htrim].
  - apply Consistent_delete. exact Hs.
  - unfold getCustomersByHealthScore, throwIf. unfold_body.
    destruct (_ || _); exact Hs.
  - exact Hs.
  - unfold searchCustomers. unfold_body.
    destruct (isBlank searchTerm); exact Hs.
  - exact Hs.
Qed.

Lemma Consistent_performAll (calls : list Call) :
  forall s,
    Consistent s ->
    Forall suppliesTrimmedEmail calls ->
    Consistent (performAll localeCompare toISOString calls s).
Proof.
  induction calls as [|call calls IH]; intros s Hs Hall; [exact Hs|].
  inversion Hall as [|? ? Hcall Hrest]; subst.
  unfold performAll. cbn [fold_left]. apply IH; [|exact Hrest].
  apply Consistent_perform; assumption.
Qed.

End Sequences.

Lemma nth_error_later_In {A : Type} (before after : list A) (x y : A) (m : nat) :
  (List.length before < m)%nat ->
  nth_error (before ++ x :: after) m = Some y ->
  In y after.
Proof.
  intros Hm H. rewrite nth_error_app2 in H by lia.
  destruct (m - List.length before)%nat as [|k] eqn:Hk; [lia|].
  cbn [nth_error] in H. exact (nth_error_In _ _ H).
Qed.

Lemma shared_email_later (cs : list Customer) (k m : nat) (x y : Customer)
  (e : string) :
  NoDup (nonEmptyEmails cs) ->
  (k < m)%nat ->
  nth_error cs k = Some x -> nth_error cs m = Some y ->
  Customer.email x = Some e -> Customer.email y = Some e ->
  e <> "" -> False.
Proof.
  intros Hn Hkm Hx Hy Hxe Hye He.
  apply nth_error_split in Hx as (before & after & -> & <-).
  apply (nth_error_later_In before after x y m Hkm) in Hy.
  rewrite nonEmptyEmails_app, nonEmptyEmails_cons in Hn.
  unfold nonEmptyEmail in Hn at 1. rewrite Hxe in Hn.
  apply truthy_true in He. rewrite He in Hn. cbn [app] in Hn.
  apply NoDup_remove_2 in Hn. apply Hn, in_or_app. right.
  apply in_nonEmptyEmails. split; [exact He|]. exists y. split; assumption.
Qed.

(** Distinct positions of a collection with distinct emails hold distinct
    emails, wherever an email is not empty. *)
Lemma emails_pairwise_distinct (cs : list Customer) :
  NoDup (nonEmptyEmails cs) ->
  forall (i j : nat) (a b : Customer) (e : string),
    i <> j ->
    nth_error cs i = Some a -> nth_error cs j = Some b ->
    Customer.email a = Some e -> e <> "" ->
    Customer.email b <> Some e.
Proof.
  intros Hn i j a b e Hij Ha Hb Hae He Hbe.
  destruct (Nat.lt_total i j) as [Hlt|[Heq|Hgt]]; [|contradiction|].
  - exact (shared_email_later cs i j a b e Hn Hlt Ha Hb Hae Hbe He).
  - exact (shared_email_later cs j i b a e Hn Hgt Hb Ha Hbe Hae He).
Qed.

Lemma findIndex_present (id : string) (cs : list Customer) (c : Customer) :
  In c cs -> Customer.id c = id ->
  JS.findIndex (fun x => String.eqb (Customer.id x) id) cs <> None.
Proof.
  intros Hc Hid Hnone. apply findIndex_None in Hnone.
  rewrite forallb_forall in Hnone. specialize (Hnone c Hc).
  rewrite Hid, String.eqb_refl in Hnone. discriminate.
Qed.

(** [C1] Under exact comparison: a create input whose email is not empty
    and is the email of an existing customer fails and leaves the state as
    it was, with [DUPLICATE_ERROR] when the input passes validation; an
    update whose patched email is not empty and is the email of a customer
    with another id fails and leaves the state as it was, with
    [DUPLICATE_ERROR] when the id is known and the patch passes validation;
    and, for calls that supply their emails without surrounding whitespace,
    a state with distinct issued ids and pairwise distinct emails stays so
    after any sequence of operations: no two customers share an email that
    is not empty. *)
Theorem exact_email_uniqueness :
  (forall (now : Z) (input : CustomerCreateInput) (s : State)
          (e : string) (c : Customer),
      CreateInput.email input = Some e -> e <> "" ->
      In c (customers s) -> Customer.email c = Some e ->
      success (fst (createCustomer now input s)) = false
      /\ snd (createCustomer now input s) = s
      /\ (enforced_validCreate input = true ->
          code (fst (createCustomer now input s)) = Some DUPLICATE_ERROR))
  /\ (forall (stamp now : Z) (id : string) (input : CustomerUpdateInput)
             (s : State) (e : string) (c : Customer),
         UpdateInput.email input = Some e -> e <> "" ->
         In c (customers s) -> Customer.id c <> id -> Customer.email c = Some e ->
         success (fst (updateCustomer stamp now id input s)) = false
         /\ snd (updateCustomer stamp now id input s) = s
         /\ (isBlank id = false ->
             (exists c0, In c0 (customers s) /\ Customer.id c0 = id) ->
             passesUpdateChecks input = true ->
             code (fst (updateCustomer stamp now id input s))
             = Some DUPLICATE_ERROR))
  /\ (forall (localeCompare : string -> string -> Z) (toISOString : Z -> string)
             (calls : list Call) (s : State),
         Consistent s ->
         Forall suppliesTrimmedEmail calls ->
         forall (i j : nat) (a b : Customer) (e : string),
           i <> j ->
           nth_error (customers (performAll localeCompare toISOString calls s)) i
           = Some a ->
           nth_error (customers (performAll localeCompare toISOString calls s)) j
           = Some b ->
           Customer.email a = Some e -> e <> "" ->
           Customer.email b <> Some e).
Proof.
  split; [|split].
  - intros now input s e c He Hne Hc Hce.
    rewrite createCustomer_unfold, <- passesCreateChecks_enforced.
    destruct (validateCustomerInput_spec input)
      as [[Hp ->]|[Hp (err & -> & msg & ->)]].
    + rewrite He, (checkDuplicateEmail_rejects e _ c Hne Hc Hce).
      repeat split.
    + repeat split. congruence.
  - intros stamp now id input s e c He Hne Hc Hid Hce.
    rewrite updateCustomer_unfold.
    destruct (isBlank id); [repeat split; discriminate|].
    destruct (JS.findIndex _ _) as [i|] eqn:Hfind.
    + destruct (validateCustomerUpdateInput_spec input)
        as [[Hp ->]|[Hp (err & -> & msg & ->)]].
      * rewrite He, (checkDuplicateEmailExcept_rejects id e _ c Hne Hc Hid Hce).
        repeat split.
      * repeat split. congruence.
    + repeat split. intros _ (c0 & Hc0 & Hid0) _.
      exfalso. exact (findIndex_present id _ c0 Hc0 Hid0 Hfind).
  - intros lc iso calls s Hs Hall.
    apply emails_pairwise_distinct.
    exact (emails_distinct _ (Consistent_performAll lc iso calls s Hs Hall)).
Qed.

Lemma Consistent_emptyState : Consistent emptyState.
Proof.
  constructor; cbn [emptyState customers nextId map nonEmptyEmails flat_map].
  - constructor.
  - intros c k [].
  - constructor.
Qed.

Lemma exact_email_uniqueness_witness :
  code (fst (createCustomer 2000 janeDoe janeState)) = Some DUPLICATE_ERROR
  /\ code (fst (updateCustomer 3000 3000 "10" takeJanesEmail twoCustomers))
     = Some DUPLICATE_ERROR
  /\ customers (performAll (fun _ _ => 0) (fun _ => "") threeCalls emptyState)
     = [janeCustomer; bobCustomer]
  /\ Customer.email bobCustomer <> Some "jane@acme.com".
Proof.
  destruct exact_email_uniqueness as (Hcreate & Hupdate & Hseq).
  split; [|split; [|split]].
  - apply (Hcreate 2000 janeDoe janeState "jane@acme.com" janeCustomer).
    + reflexivity.
    + discriminate.
    + vm_compute. left. reflexivity.
    + reflexivity.
    + vm_compute. reflexivity.
  - apply (Hupdate 3000 3000 "10" takeJanesEmail twoCustomers
             "jane@acme.com" janeCustomer).
    + reflexivity.
    + discriminate.
    + vm_compute. left. reflexivity.
    + vm_compute. discriminate.
    + reflexivity.
    + vm_compute. reflexivity.
    + exists bobCustomer. split; [vm_compute; right; left; reflexivity|].
      vm_compute. reflexivity.
    + vm_compute. reflexivity.
  - vm_compute. reflexivity.
  - apply (Hseq (fun _ _ => 0) (fun _ => "") threeCalls emptyState
             Consistent_emptyState) with (i := 0%nat) (j := 1%nat)
                                         (a := janeCustomer).
    + repeat constructor; intros e H; vm_compute in H; injection H as <-;
        vm_compute; reflexivity.
    + discriminate.
    + vm_compute. reflexivity.
    + vm_compute. reflexivity.
    + reflexivity.
    + discriminate.
Defined.

Lemma create_padded_email_is_stored_twice :
  success (fst (createCustomer 2000 paddedJane janeState)) = true
  /\ map Customer.email
       (customers (snd (createCustomer 2000 paddedJane janeState)))
     = [Some "jane@acme.com"; Some "jane@acme.com"].
Proof. split; vm_compute; reflexivity. Qed.

(** * Further properties of the service *)

(** ** The health score stays within 0..100 *)

Lemma calculateInitialHealthScore_range (input : CustomerCreateInput) :
  0 <= calculateInitialHealthScore input <= 100.
Proof. unfold calculateInitialHealthScore. lia. Qed.

Lemma calculateHealthScore_range (now : Z) (c : Customer) :
  0 <= calculateHealthScore now c <= 100.
Proof. unfold calculateHealthScore. lia. Qed.

(** The check of the patch lets through the numbers of 0..100, and [NaN]. *)
Lemma badHealthScore_cases (h : Score.t) :
  badHealthScore (Some h) = false <-> ScoreWithin 0 100 h \/ h = Score.NaN.
Proof.
  destruct h as [q|]; cbn [badHealthScore Score.ltb Score.ofZ ScoreWithin].
  - rewrite orb_false_iff, !negb_false_iff, !Qle_bool_iff.
    split; [intros H; left; exact H | intros [H|H]; [exact H | discriminate]].
  - split; [intros _; right; reflexivity | reflexivity].
Qed.

Lemma passesUpdateChecks_badHealthScore (input : CustomerUpdateInput) :
  passesUpdateChecks input = true ->
  badHealthScore (UpdateInput.healthScore input) = false.
Proof.
  unfold passesUpdateChecks. intros Hp.
  repeat (apply andb_true_iff in Hp as [Hp ?]).
  match goal with
  | H : negb (badHealthScore _) = true |- _ => apply negb_true_iff in H; exact H
  end.
Qed.

Lemma passesUpdateChecks_healthScore (input : CustomerUpdateInput)
  (h : Score.t) :
  passesUpdateChecks input = true ->
  UpdateInput.healthScore input = Some h ->
  h <> Score.NaN ->
  ScoreWithin 0 100 h.
Proof.
  intros Hp Hh Hnan. apply passesUpdateChecks_badHealthScore in Hp.
  rewrite Hh in Hp. apply badHealthScore_cases in Hp as [H|H];
    [exact H | contradiction].
Qed.

Lemma updatedCustomer_healthScore_range (stamp now : Z) (existing : Customer)
  (input : CustomerUpdateInput) :
  passesUpdateChecks input = true ->
  UpdateInput.healthScore input <> Some Score.NaN ->
  ScoreWithin 0 100 (Customer.healthScore existing) ->
  ScoreWithin 0 100
    (Customer.healthScore (updatedCustomer stamp now existing input)).
Proof.
  intros Hp Hnan He. unfold updatedCustomer, recalculate.
  destruct (touchesScoreInputs input).
  - cbn [withHealthScore Customer.healthScore]. apply ScoreWithin_ofZ.
    apply calculateHealthScore_range.
  - cbn [ensureTrimmed spreadPatch Customer.healthScore].
    destruct (UpdateInput.healthScore input) as [h|] eqn:Hh; cbn [orElse].
    + apply (passesUpdateChecks_healthScore input h Hp Hh). congruence.
    + exact He.
Qed.

Lemma createCustomer_state (now : Z) (input : CustomerCreateInput) (s : State) :
  snd (createCustomer now input s) = s
  \/ (success (fst (createCustomer now input s)) = true
      /\ snd (createCustomer now input s)
         = {| customers := customers s ++ [newCustomer now (nextId s) input];
              nextId := S (nextId s) |}).
Proof.
  destruct (success (fst (createCustomer now input s))) eqn:Hok.
  - right. split; [reflexivity|].
    destruct (createCustomer_success now input s Hok) as (_ & _ & ->). reflexivity.
  - left. revert Hok. rewrite createCustomer_unfold.
    destruct (validateCustomerInput input); [|reflexivity].
    destruct (checkDuplicateEmail _ _); [discriminate | reflexivity].
Qed.

Lemma updateCustomer_state (stamp now : Z) (id : string)
  (input : CustomerUpdateInput) (s : State) :
  snd (updateCustomer stamp now id input s) = s
  \/ exists before existing after,
       customers s = before ++ existing :: after
       /\ Customer.id existing = id
       /\ forallb (fun c => negb (String.eqb (Customer.id c) id)) before = true
       /\ passesUpdateChecks input = true
       /\ updateCustomer stamp now id input s
          = (succeed (updatedCustomer stamp now existing input),
             {| customers :=
                  before ++ updatedCustomer stamp now existing input :: after;
                nextId := nextId s |}).
Proof.
  destruct (success (fst (updateCustomer stamp now id input s))) eqn:Hok.
  - right. destruct (updateCustomer_success _ _ _ _ _ Hok)
      as (before & existing & after & Hcs & Hid & Hb & _ & Hp & _ & Heq).
    exists before, existing, after. repeat split; assumption.
  - left. revert Hok. rewrite updateCustomer_unfold.
    destruct (isBlank id); [reflexivity|].
    destruct (JS.findIndex _ _); [|reflexivity].
    destruct (validateCustomerUpdateInput input); [|reflexivity].
    destruct (checkDuplicateEmailExcept _ _ _); [|reflexivity].
    destruct (nth_error _ _); [discriminate | reflexivity].
Qed.

Lemma deleteCustomer_state (id : string) (s : State) :
  snd (deleteCustomer id s) = s
  \/ exists before existing after,
       customers s = before ++ existing :: after
       /\ Customer.id existing = id
       /\ forallb (fun c => negb (String.eqb (Customer.id c) id)) before = true
       /\ isBlank id = false
       /\ deleteCustomer id s
          = (succeed true,
             {| customers := before ++ after; nextId := nextId s |}).
Proof.
  rewrite deleteCustomer_unfold.
  destruct (isBlank id) eqn:Hblank; [left; reflexivity|].
  destruct (JS.findIndex _ _) as [i|] eqn:Hfind; [|left; reflexivity].
  destruct (findIndex_Some _ _ _ Hfind) as (before & x & after & Hcs & <- & Hx & Hb).
  right. exists before, x, after. apply String.eqb_eq in Hx.
  repeat split; try assumption.
  unfold spliceAt. rewrite Hcs, splice1_middle. reflexivity.
Qed.

Lemma perform_Step (localeCompare : string -> string -> Z)
  (toISOString : Z -> string) (call : Call) (s : State) :
  Step s (snd (perform localeCompare toISOString call s)).
Proof.
  destruct call; unfold perform, observe; cbn [snd].
  - constructor.
  - unfold getCustomerById, throwIf. unfold_body.
    destruct (isBlank id); [constructor|]. destruct (find _ _); constructor.
  - destruct (createCustomer_state now input s) as [->|[Hok ->]];
      [constructor | apply StepCreate; exact Hok].
  - destruct (updateCustomer_state stamp now id input s)
      as [->|(before & existing & after & Hcs & Hid & Hb & Hp & ->)];
      [constructor|]. cbn [snd]. subst id.
    apply StepUpdate; assumption.
  - destruct (deleteCustomer_state id s)
      as [->|(before & existing & after & Hcs & _ & _ & _ & ->)];
      [constructor|]. cbn [snd]. exact (StepDelete s before after existing Hcs).
  - unfold getCustomersByHealthScore, throwIf. unfold_body.
    destruct (_ || _); constructor.
  - constructor.
  - unfold searchCustomers. unfold_body.
    destruct (isBlank searchTerm); constructor.
  - constructor.
Qed.

(** An invariant that every step keeps holds after any sequence of calls. *)
Lemma performAll_invariant (P : State -> Prop)
  (localeCompare : string -> string -> Z) (toISOString : Z -> string) :
  (forall s s', P s -> Step s s' -> P s') ->
  forall calls s, P s -> P (performAll localeCompare toISOString calls s).
Proof.
  intros Hstep calls. induction calls as [|call calls IH]; intros s Hs; [exact Hs|].
  unfold performAll. cbn [fold_left]. apply IH.
  exact (Hstep s _ Hs (perform_Step localeCompare toISOString call s)).
Qed.

(** A patch that holds nothing but a score that the check lets through
    is stored for the first customer of the id, with that score. *)
Lemma update_scoreOnly (stamp now : Z) (h : Score.t) (existing : Customer)
  (s : State) :
  In existing (customers s) ->
  isBlank (Customer.id existing) = false ->
  badHealthScore (Some h) = false ->
  exists before x after,
    customers (snd (updateCustomer stamp now (Customer.id existing)
                      (scoreOnly h) s))
    = before ++ x :: after
    /\ success (fst (updateCustomer stamp now (Customer.id existing)
                       (scoreOnly h) s)) = true
    /\ Customer.id x = Customer.id existing
    /\ Customer.healthScore x = h.
Proof.
  intros Hin Hblank Hbad. rewrite updateCustomer_unfold, Hblank.
  destruct (JS.findIndex _ _) as [i|] eqn:Hfind;
    [|exfalso; exact (findIndex_present _ _ _ Hin eq_refl Hfind)].
  destruct (findIndex_Some _ _ _ Hfind) as (before & x & after & Hcs & Hlen & Hx & _).
  apply String.eqb_eq in Hx.
  destruct (validateCustomerUpdateInput_spec (scoreOnly h)) as [[_ ->]|[Hp _]].
  - cbn [scoreOnly UpdateInput.email checkDuplicateEmailExcept].
    assert (Hnth : nth_error (customers s) i = Some x)
      by (rewrite Hcs, <- Hlen; apply nth_error_middle).
    rewrite Hnth. cbn [snd assignAt customers].
    rewrite Hcs, <- Hlen, setAt_middle.
    eexists before, _, after. split; [reflexivity|]. split; [reflexivity|].
    split; [rewrite updatedCustomer_id; exact Hx | reflexivity].
  - unfold passesUpdateChecks in Hp.
    cbn [scoreOnly UpdateInput.name UpdateInput.company UpdateInput.email
         UpdateInput.healthScore UpdateInput.domains presentBlank tooLong
         badEmail orElse forallb negb andb] in Hp.
    rewrite Hbad in Hp. discriminate.
Qed.

Lemma ScoresInRange_create (now : Z) (input : CustomerCreateInput) (s : State) :
  ScoresInRange s -> ScoresInRange (snd (createCustomer now input s)).
Proof.
  intros Hs. destruct (createCustomer_state now input s) as [->|[_ ->]];
    [exact Hs|].
  unfold ScoresInRange in *. cbn [customers].
  apply Forall_app. split; [exact Hs|]. constructor; [|constructor].
  cbn [newCustomer Customer.healthScore]. apply ScoreWithin_ofZ.
  apply calculateInitialHealthScore_range.
Qed.

Lemma ScoresInRange_update (stamp now : Z) (id : string)
  (input : CustomerUpdateInput) (s : State) :
  UpdateInput.healthScore input <> Some Score.NaN ->
  ScoresInRange s -> ScoresInRange (snd (updateCustomer stamp now id input s)).
Proof.
  intros Hnan Hs. destruct (updateCustomer_state stamp now id input s)
    as [->|(before & existing & after & Hcs & _ & _ & Hp & ->)]; [exact Hs|].
  unfold ScoresInRange in *. cbn [snd customers].
  rewrite Hcs in Hs. apply Forall_app in Hs as [Hb Ha].
  inversion Ha as [|? ? He Ha']; subst.
  apply Forall_app. split; [exact Hb|]. constructor; [|exact Ha'].
  apply updatedCustomer_healthScore_range; assumption.
Qed.

Lemma ScoresInRange_delete (id : string) (s : State) :
  ScoresInRange s -> ScoresInRange (snd (deleteCustomer id s)).
Proof.
  intros Hs. destruct (deleteCustomer_state id s)
    as [->|(before & existing & after & Hcs & _ & _ & _ & ->)]; [exact Hs|].
  unfold ScoresInRange in *. cbn [snd customers].
  rewrite Hcs in Hs. apply Forall_app in Hs as [Hb Ha].
  inversion Ha as [|? ? _ Ha']; subst.
  apply Forall_app. split; assumption.
Qed.

Lemma ScoresInRange_perform (localeCompare : string -> string -> Z)
  (toISOString : Z -> string) (call : Call) (s : State) :
  carriesNoNaN call ->
  ScoresInRange s ->
  ScoresInRange (snd (perform localeCompare toISOString call s)).
Proof.
  intros Hcall Hs. destruct call; unfold perform, observe; cbn [snd].
  - exact Hs.
  - unfold getCustomerById, throwIf. unfold_body.
    destruct (isBlank id); [exact Hs|]. destruct (find _ _); exact Hs.
  - apply ScoresInRange_create. exact Hs.
  - apply ScoresInRange_update; [exact Hcall | exact Hs].
  - apply ScoresInRange_delete. exact Hs.
  - unfold getCustomersByHealthScore, throwIf. unfold_body.
    destruct (_ || _); exact Hs.
  - exact Hs.
  - unfold searchCustomers. unfold_body.
    destruct (isBlank searchTerm); exact Hs.
  - exact Hs.
Qed.

(** [X1] Health scores stay within 0..100: when every stored score is in
    that range, it is so after any sequence of calls of the public
    operations in which no update carries [NaN] as the health score of its
    patch, whatever the other arguments.  The condition cannot be dropped:
    an update of a stored customer, its id not blank, whose patch holds
    nothing but the health score [NaN] stores [NaN]. *)
Theorem health_scores_stay_in_range :
  forall (localeCompare : string -> string -> Z) (toISOString : Z -> string)
         (s : State),
    ScoresInRange s ->
    (forall calls : list Call,
        Forall carriesNoNaN calls ->
        ScoresInRange (performAll localeCompare toISOString calls s))
    /\ (forall (stamp now : Z) (existing : Customer),
           In existing (customers s) ->
           isBlank (Customer.id existing) = false ->
           let s' :=
             performAll localeCompare toISOString
               [CallUpdateCustomer stamp now (Customer.id existing)
                  (scoreOnly Score.NaN)] s in
           ~ ScoresInRange s'
           /\ exists c, In c (customers s')
                        /\ Customer.id c = Customer.id existing
                        /\ Customer.healthScore c = Score.NaN).
Proof.
  intros lc iso s Hs. split.
  - intros calls Hcalls. revert s Hs.
    induction Hcalls as [|call calls Hcall _ IH]; intros s Hs; [exact Hs|].
    unfold performAll. cbn [fold_left]. apply IH.
    apply ScoresInRange_perform; assumption.
  - intros stamp now existing Hin Hblank s'.
    destruct (update_scoreOnly stamp now Score.NaN existing s Hin Hblank eq_refl)
      as (before & x & after & Heq & _ & Hid & Hscore).
    assert (Hs' : customers s' = before ++ x :: after) by exact Heq.
    assert (Hx : In x (customers s')).
    { rewrite Hs'. apply in_or_app. right. left. reflexivity. }
    split.
    + intros Hrange. unfold ScoresInRange in Hrange.
      rewrite Forall_forall in Hrange. specialize (Hrange x Hx).
      rewrite Hscore in Hrange. exact Hrange.
    + exists x. split; [exact Hx|]. split; assumption.
Qed.

Lemma health_scores_stay_in_range_witness :
  ScoresInRange (performAll (fun _ _ => 0) (fun _ => "") threeCalls emptyState).
Proof.
  apply health_scores_stay_in_range.
  - unfold ScoresInRange, emptyState. cbn [customers]. constructor.
  - unfold threeCalls. constructor; [exact I|]. constructor; [exact I|].
    constructor; [|constructor]. cbn. discriminate.
Defined.

(** ** Ids: issued once, never reused *)

Lemma toString_starts_with_digit (n : nat) :
  exists c r, JS.toString n = String c r /\ JS.isWhiteSpace c = false.
Proof.
  unfold JS.toString.
  assert (Hn : Nat.to_uint n <> Decimal.Nil).
  { rewrite <- (Unsigned.of_to n) at 1. rewrite Unsigned.to_of.
    apply DecimalFacts.unorm_nonnil. }
  destruct (Nat.to_uint n); [contradiction| | | | | | | | | |];
    cbn [NilEmpty.string_of_uint]; eexists _, _; split; reflexivity.
Qed.

Lemma isBlank_String (c : ascii) (r : string) :
  JS.isWhiteSpace c = false -> isBlank (String c r) = false.
Proof.
  intros Hc. rewrite isBlank_trim. unfold JS.trim.
  cbn [JS.trimStart]. rewrite Hc. cbn [JS.trimEnd]. rewrite Hc. reflexivity.
Qed.

Lemma toString_not_blank (n : nat) : isBlank (JS.toString n) = false.
Proof.
  destruct (toString_starts_with_digit n) as (c & r & -> & Hc).
  apply isBlank_String. exact Hc.
Qed.

Lemma IdsFresh_Step (s s' : State) : IdsFresh s -> Step s s' -> IdsFresh s'.
Proof.
  intros [Hids Hissued] Hstep.
  destruct Hstep as [|now input _|stamp now input before after existing Hcs _ _
                    |before after existing Hcs].
  - constructor; assumption.
  - constructor; cbn [customers nextId].
    + rewrite map_app. cbn [map newCustomer Customer.id].
      apply NoDup_insert; rewrite app_nil_r; [exact Hids|].
      intros Hin. apply in_map_iff in Hin as (c & Hc & Hin).
      exact (Hissued c (nextId s) Hin (Nat.le_refl _) Hc).
    + intros c k Hc Hk. apply in_app_or in Hc as [Hc|[<-|[]]].
      * apply (Hissued c k Hc). lia.
      * cbn [newCustomer Customer.id]. intros Heq.
        apply toString_inj in Heq. lia.
  - rewrite Hcs in Hids, Hissued. constructor; cbn [customers nextId].
    + rewrite map_app in *. cbn [map] in *. rewrite updatedCustomer_id. exact Hids.
    + intros x k Hx Hk. apply in_app_or in Hx as [Hx|[<-|Hx]].
      * apply (Hissued x k); [apply in_or_app; left; exact Hx | exact Hk].
      * rewrite updatedCustomer_id.
        apply (Hissued existing k);
          [apply in_or_app; right; left; reflexivity | exact Hk].
      * apply (Hissued x k); [apply in_or_app; right; right; exact Hx | exact Hk].
  - rewrite Hcs in Hids, Hissued. constructor; cbn [customers nextId].
    + rewrite map_app in *. cbn [map] in Hids. exact (NoDup_remove_1 _ _ _ Hids).
    + intros c k Hc Hk. apply (Hissued c k); [|exact Hk].
      apply in_app_or in Hc as [Hc|Hc]; apply in_or_app;
        [left | right; right]; exact Hc.
Qed.

Lemma nextId_Step (s s' : State) : Step s s' -> (nextId s <= nextId s')%nat.
Proof. intros []; cbn [nextId]; lia. Qed.

Lemma idsFrom_Step (s0 s s' : State) : idsFrom s0 s -> Step s s' -> idsFrom s0 s'.
Proof.
  intros [Hn Hids] Hstep. split; [pose proof (nextId_Step s s' Hstep); lia|].
  destruct Hstep as [|now input _|stamp now input before after existing Hcs _ _
                    |before after existing Hcs]; cbn [customers nextId].
  - exact Hids.
  - intros c Hc. apply in_app_or in Hc as [Hc|[<-|[]]].
    + destruct (Hids c Hc) as [H|(k & Hk & H)]; [left; exact H|].
      right. exists k. split; [lia | exact H].
    + right. exists (nextId s). split; [lia | reflexivity].
  - rewrite Hcs in Hids. intros c Hc. apply in_app_or in Hc as [Hc|[<-|Hc]].
    + apply Hids, in_or_app. left. exact Hc.
    + rewrite updatedCustomer_id. apply Hids, in_or_app. right. left. reflexivity.
    + apply Hids, in_or_app. right. right. exact Hc.
  - rewrite Hcs in Hids. intros c Hc. apply Hids.
    apply in_app_or in Hc as [Hc|Hc]; apply in_or_app;
      [left | right; right]; exact Hc.
Qed.

(** [X2] Ids are issued by the counter and kept distinct.  From a state
    whose ids are pairwise distinct and not yet reached by the counter,
    any sequence of calls leads to a state of the same kind; the counter
    never decreases; and every id of the later state is an id of the
    earlier state or the decimal form of a counter value issued in
    between. *)
Theorem ids_come_from_the_counter :
  forall (localeCompare : string -> string -> Z) (toISOString : Z -> string)
         (calls : list Call) (s : State),
    IdsFresh s ->
    IdsFresh (performAll localeCompare toISOString calls s)
    /\ (nextId s <= nextId (performAll localeCompare toISOString calls s))%nat
    /\ forall c,
         In c (customers (performAll localeCompare toISOString calls s)) ->
         In (Customer.id c) (map Customer.id (customers s))
         \/ exists k,
              (nextId s <= k < nextId (performAll localeCompare toISOString calls s))%nat
              /\ Customer.id c = JS.toString k.
Proof.
  intros lc iso calls s Hs. split.
  - exact (performAll_invariant IdsFresh lc iso IdsFresh_Step calls s Hs).
  - apply (performAll_invariant (idsFrom s) lc iso (idsFrom_Step s) calls s).
    split; [lia|]. intros c Hc. left. apply in_map. exact Hc.
Qed.

Lemma IdsFresh_emptyState : IdsFresh emptyState.
Proof.
  constructor; cbn [emptyState customers nextId map].
  - constructor.
  - intros c k [].
Qed.

Lemma ids_come_from_the_counter_witness :
  map Customer.id
    (customers (performAll (fun _ _ => 0) (fun _ => "") threeCalls emptyState))
  = ["9"; "10"]
  /\ IdsFresh (performAll (fun _ _ => 0) (fun _ => "") threeCalls emptyState).
Proof.
  split; [vm_compute; reflexivity|].
  exact (proj1 (ids_come_from_the_counter (fun _ _ => 0) (fun _ => "")
                  threeCalls emptyState IdsFresh_emptyState)).
Defined.

Lemma idRetired_Step (x : string) (s s' : State) :
  idRetired x s -> Step s s' -> idRetired x s'.
Proof.
  intros [Habs Hfut] Hstep.
  destruct Hstep as [|now input _|stamp now input before after existing Hcs _ _
                    |before after existing Hcs]; split; cbn [customers nextId].
  - exact Habs.
  - exact Hfut.
  - rewrite map_app. cbn [map newCustomer Customer.id]. intros Hin.
    apply in_app_or in Hin as [Hin|[Hin|[]]]; [exact (Habs Hin)|].
    exact (Hfut (nextId s) (Nat.le_refl _) (eq_sym Hin)).
  - intros k Hk. apply Hfut. lia.
  - rewrite Hcs in Habs. rewrite map_app in *. cbn [map] in *.
    rewrite updatedCustomer_id. exact Habs.
  - exact Hfut.
  - rewrite Hcs in Habs. rewrite map_app in *. cbn [map] in Habs.
    intros Hin. apply Habs. apply in_app_or in Hin as [Hin|Hin]; apply in_or_app;
      [left | right; right]; exact Hin.
  - exact Hfut.
Qed.

Lemma find_none_id (id : string) (cs : list Customer) :
  ~ In id (map Customer.id cs) ->
  find (fun c => String.eqb (Customer.id c) id) cs = None.
Proof.
  intros Habs. destruct (find _ cs) as [c|] eqn:Hfind; [|reflexivity].
  apply find_some in Hfind as [Hc Hid]. apply String.eqb_eq in Hid.
  exfalso. apply Habs. rewrite <- Hid. apply in_map. exact Hc.
Qed.

Lemma findIndex_none_id (id : string) (cs : list Customer) :
  ~ In id (map Customer.id cs) ->
  JS.findIndex (fun c => String.eqb (Customer.id c) id) cs = None.
Proof.
  intros Habs. destruct (JS.findIndex _ cs) as [i|] eqn:Hfind; [|reflexivity].
  destruct (findIndex_Some _ _ _ Hfind) as (before & x & after & -> & _ & Hx & _).
  apply String.eqb_eq in Hx. exfalso. apply Habs. rewrite <- Hx.
  apply in_map, in_or_app. right. left. reflexivity.
Qed.

Lemma filter_other_ids (id : string) (before after : list Customer)
  (existing : Customer) :
  Customer.id existing = id ->
  NoDup (map Customer.id (before ++ existing :: after)) ->
  filter (fun c => negb (String.eqb (Customer.id c) id))
    (before ++ existing :: after)
  = before ++ after.
Proof.
  intros Hid Hn. rewrite map_app in Hn. cbn [map] in Hn.
  pose proof (NoDup_remove_2 _ _ _ Hn) as Habs. rewrite Hid in Habs.
  assert (Hkeep : forall l, (forall c, In c l -> In (Customer.id c) (map Customer.id l)) ->
                            ~ In id (map Customer.id l) ->
                            filter (fun c => negb (String.eqb (Customer.id c) id)) l = l).
  { intros l _ Hl. induction l as [|c l IH]; [reflexivity|]. cbn [filter].
    destruct (String.eqb_spec (Customer.id c) id) as [Heq|Hne].
    - exfalso. apply Hl. left. exact Heq.
    - cbn [negb]. rewrite IH; [reflexivity|]. intros H. apply Hl. right. exact H. }
  rewrite filter_app. cbn [filter]. rewrite Hid, String.eqb_refl. cbn [negb].
  rewrite !Hkeep; try reflexivity.
  - intros c Hc. apply in_map. exact Hc.
  - intros H. apply Habs, in_or_app. right. exact H.
  - intros c Hc. apply in_map. exact Hc.
  - intros H. apply Habs, in_or_app. left. exact H.
Qed.

(** [X3] Delete removes the customer for good.  From a state whose ids are
    distinct and issued, a successful delete leaves exactly the customers
    with other ids, in their order; looking the id up and deleting it again
    both fail with [NOT_FOUND]; and no later sequence of calls brings the id
    back: it is never issued again. *)
Theorem deleted_id_is_never_reused :
  forall (localeCompare : string -> string -> Z) (toISOString : Z -> string)
         (id : string) (s : State),
    IdsFresh s ->
    success (fst (deleteCustomer id s)) = true ->
    let s' := snd (deleteCustomer id s) in
    customers s'
    = filter (fun c => negb (String.eqb (Customer.id c) id)) (customers s)
    /\ S (List.length (customers s')) = List.length (customers s)
    /\ nextId s' = nextId s
    /\ code (fst (getCustomerById id s')) = Some NOT_FOUND
    /\ code (fst (deleteCustomer id s')) = Some NOT_FOUND
    /\ forall calls,
         ~ In id (map Customer.id
                    (customers (performAll localeCompare toISOString calls s'))).
Proof.
  intros lc iso id s Hfresh Hok s'. subst s'.
  destruct (deleteCustomer_state id s)
    as [Hsame|(before & existing & after & Hcs & Hid & _ & Hblank & Heq)].
  - exfalso. revert Hok. rewrite deleteCustomer_unfold.
    rewrite deleteCustomer_unfold in Hsame.
    destruct (isBlank id); [discriminate|].
    destruct (JS.findIndex _ _) as [i|] eqn:Hfind; [|discriminate].
    intros _. cbn [snd] in Hsame.
    destruct (findIndex_Some _ _ _ Hfind) as (b & x & a & Hcs & <- & _ & _).
    apply (f_equal (fun st => List.length (customers st))) in Hsame.
    unfold spliceAt in Hsame. cbn [customers] in Hsame.
    rewrite Hcs, splice1_middle, !length_app in Hsame. cbn [List.length] in Hsame.
    lia.
  - destruct Hfresh as [Hids Hissued]. rewrite Heq. cbn [snd customers nextId].
    assert (Habs : ~ In id (map Customer.id (before ++ after))).
    { rewrite Hcs, map_app in Hids. cbn [map] in Hids.
      apply NoDup_remove_2 in Hids. rewrite Hid, <- map_app in Hids. exact Hids. }
    split; [rewrite Hcs; symmetry; apply filter_other_ids;
            [exact Hid | rewrite <- Hcs; exact Hids]|].
    split; [rewrite Hcs, !length_app; cbn [List.length]; lia|].
    split; [reflexivity|].
    split.
    { unfold getCustomerById, throwIf. unfold_body. rewrite Hblank.
      cbn [customers]. rewrite (find_none_id id _ Habs). reflexivity. }
    split.
    { rewrite deleteCustomer_unfold, Hblank. cbn [customers].
      rewrite (findIndex_none_id id _ Habs). reflexivity. }
    intros calls.
    apply (performAll_invariant (idRetired id) lc iso (idRetired_Step id) calls).
    split; cbn [customers nextId]; [exact Habs|].
    intros k Hk. rewrite <- Hid. apply (Hissued existing k); [|exact Hk].
    rewrite Hcs. apply in_or_app. right. left. reflexivity.
Qed.

Lemma IdsFresh_janeState : IdsFresh janeState.
Proof.
  constructor.
  - vm_compute. repeat constructor. intros [].
  - intros c k Hc Hk. vm_compute in Hc. destruct Hc as [<-|[]].
    change (JS.toString 9 <> JS.toString k). intros Heq.
    apply toString_inj in Heq. subst k.
    change (nextId janeState) with 10%nat in Hk. lia.
Qed.

Lemma deleted_id_is_never_reused_witness :
  customers (snd (deleteCustomer "9" janeState)) = []
  /\ ~ In "9"
       (map Customer.id
          (customers (performAll (fun _ _ => 0) (fun _ => "") threeCalls
                        (snd (deleteCustomer "9" janeState))))).
Proof.
  split; [vm_compute; reflexivity|].
  apply (deleted_id_is_never_reused (fun _ _ => 0) (fun _ => "") "9" janeState
           IdsFresh_janeState).
  vm_compute. reflexivity.
Defined.

(** ** Create: what is stored, and reading it back *)

Lemma trimEnd_idempotent (s : string) : JS.trimEnd (JS.trimEnd s) = JS.trimEnd s.
Proof.
  induction s as [|c r IH]; [reflexivity|]. cbn [JS.trimEnd].
  destruct (JS.isWhiteSpace c && String.eqb (JS.trimEnd r) "") eqn:Hc;
    [reflexivity|].
  cbn [JS.trimEnd]. rewrite IH, Hc. reflexivity.
Qed.

Lemma trimStart_shape (s : string) :
  JS.trimStart s = ""%string
  \/ exists c r, JS.trimStart s = String c r /\ JS.isWhiteSpace c = false.
Proof.
  induction s as [|c r IH]; [left; reflexivity|]. cbn [JS.trimStart].
  destruct (JS.isWhiteSpace c) eqn:Hc; [exact IH|].
  right. exists c, r. split; [reflexivity | exact Hc].
Qed.

Lemma trim_idempotent (s : string) : JS.trim (JS.trim s) = JS.trim s.
Proof.
  unfold JS.trim. destruct (trimStart_shape s) as [->|(c & r & -> & Hc)].
  - reflexivity.
  - cbn [JS.trimEnd]. rewrite Hc. cbn [andb JS.trimStart]. rewrite Hc.
    cbn [JS.trimEnd]. rewrite Hc, trimEnd_idempotent. reflexivity.
Qed.

Lemma find_app_last (p : Customer -> bool) (cs : list Customer) (c : Customer) :
  (forall x, In x cs -> p x = false) -> p c = true ->
  find p (cs ++ [c]) = Some c.
Proof.
  intros Hcs Hc. induction cs as [|x cs IH]; cbn [app find].
  - rewrite Hc. reflexivity.
  - rewrite (Hcs x (or_introl eq_refl)). apply IH.
    intros y Hy. apply Hcs. right. exact Hy.
Qed.

(** [X4] Create, then read back.  When no stored customer carries the id
    the counter is about to issue, a successful create appends the new
    customer, advances the counter by one, and [getCustomerById] with the
    id of the new customer returns that customer. *)
Theorem create_then_get_by_id :
  forall (now : Z) (input : CustomerCreateInput) (s : State),
    (forall c, In c (customers s) -> Customer.id c <> JS.toString (nextId s)) ->
    success (fst (createCustomer now input s)) = true ->
    exists c,
      data (fst (createCustomer now input s)) = Some c
      /\ Customer.id c = JS.toString (nextId s)
      /\ customers (snd (createCustomer now input s)) = customers s ++ [c]
      /\ nextId (snd (createCustomer now input s)) = S (nextId s)
      /\ getCustomerById (Customer.id c) (snd (createCustomer now input s))
         = (succeed c, snd (createCustomer now input s)).
Proof.
  intros now input s Hfree Hok.
  destruct (createCustomer_success now input s Hok) as (_ & _ & ->).
  exists (newCustomer now (nextId s) input). cbn [fst snd data succeed].
  do 4 (split; [reflexivity|]).
  unfold getCustomerById, throwIf. unfold_body.
  cbn [newCustomer Customer.id]. rewrite toString_not_blank.
  unfold incrementNextId, push. cbn [customers].
  rewrite find_app_last; [reflexivity| |].
  - intros x Hx. apply String.eqb_neq, Hfree, Hx.
  - cbn [newCustomer Customer.id]. apply String.eqb_refl.
Qed.

Lemma create_then_get_by_id_witness :
  option_map Customer.name
    (data (fst (getCustomerById "9" (snd (createCustomer 1000 janeDoe emptyState)))))
  = Some "Jane Doe"%string.
Proof.
  destruct (create_then_get_by_id 1000 janeDoe emptyState)
    as (c & Hc & Hid & _ & _ & Hget).
  - intros c [].
  - vm_compute. reflexivity.
  - assert (Hnine : Customer.id c = "9"%string) by (rewrite Hid; reflexivity).
    rewrite Hnine in Hget. rewrite Hget. cbn [fst data succeed option_map].
    vm_compute in Hc. injection Hc as <-. reflexivity.
Defined.

Lemma forallb_Forall_true {A : Type} (p : A -> bool) (l : list A) :
  forallb p l = true -> Forall (fun x => p x = true) l.
Proof. intros H. apply Forall_forall. apply forallb_forall. exact H. Qed.

(** [X5] What create stores.  The customer of a successful create has the
    name and the company of the input without surrounding whitespace, not
    empty and of at most 100 characters; its email, when the input has a
    non-empty one, is that email trimmed and is well-formed; it has a tier
    and a list of domains, each domain valid; its health score lies in
    50..100; and both timestamps are the time of the call. *)
Theorem created_customer_is_well_formed :
  forall (now : Z) (input : CustomerCreateInput) (s : State) (c : Customer),
    data (fst (createCustomer now input s)) = Some c ->
    Customer.name c = JS.trim (CreateInput.name input)
    /\ JS.trim (Customer.name c) = Customer.name c
    /\ Customer.name c <> ""%string
    /\ (String.length (Customer.name c) <= 100)%nat
    /\ Customer.company c = JS.trim (CreateInput.company input)
    /\ JS.trim (Customer.company c) = Customer.company c
    /\ Customer.company c <> ""%string
    /\ (String.length (Customer.company c) <= 100)%nat
    /\ Customer.email c = option_map JS.trim (CreateInput.email input)
    /\ (forall e, CreateInput.email input = Some e -> e <> ""%string ->
                  wellFormedEmail (JS.trim e))
    /\ Customer.subscriptionTier c <> None
    /\ (exists ds, Customer.domains c = Some ds
                   /\ Forall (fun d => isValidDomain d = true) ds)
    /\ (exists h, Customer.healthScore c = Score.ofZ h /\ 50 <= h <= 100)
    /\ Customer.createdAt c = Some now
    /\ Customer.updatedAt c = Some now.
Proof.
  intros now input s c Hc.
  pose proof (tryCatch_data_success _ s c Hc) as Hok.
  destruct (createCustomer_success now input s Hok) as (Hv & _ & Heq).
  rewrite Heq in Hc. cbn [fst data succeed] in Hc. injection Hc as <-.
  destruct (validateCustomerInput_spec input) as [[Hp _]|[_ (e & He & _)]];
    [|congruence].
  unfold passesCreateChecks in Hp.
  repeat (apply andb_true_iff in Hp as [Hp ?]).
  rewrite isBlank_trim in *.
  cbn [newCustomer Customer.name Customer.company Customer.email
       Customer.subscriptionTier Customer.domains Customer.healthScore
       Customer.createdAt Customer.updatedAt].
  repeat match goal with
         | H : negb (String.eqb _ "") = true |- _ =>
             apply negb_true_iff, String.eqb_neq in H
         | H : (_ <=? _)%nat = true |- _ => apply Nat.leb_le in H
         end.
  split; [reflexivity|]. split; [apply trim_idempotent|].
  split; [assumption|]. split; [assumption|].
  split; [reflexivity|]. split; [apply trim_idempotent|].
  split; [assumption|]. split; [assumption|].
  split; [reflexivity|].
  split.
  { intros e He Hne. apply isValidEmail_spec.
    match goal with
    | H : negb (badEmail _) = true |- _ =>
        rewrite He in H; cbn [badEmail] in H;
        apply truthy_true in Hne; rewrite Hne in H;
        apply negb_true_iff in H; cbn [andb] in H;
        apply negb_false_iff in H; exact H
    end. }
  split; [destruct (CreateInput.subscriptionTier input); discriminate|].
  split.
  { destruct (CreateInput.domains input) as [ds|]; eexists; (split; [reflexivity|]).
    - apply forallb_Forall_true. assumption.
    - constructor. }
  split.
  { eexists. split; [reflexivity|].
    pose proof (initialScore_bounds input). unfold calculateInitialHealthScore. lia. }
  split; reflexivity.
Qed.

Lemma created_customer_is_well_formed_witness :
  exists c,
    data (fst (createCustomer 1000 janeDoe emptyState)) = Some c
    /\ exists h, Customer.healthScore c = Score.ofZ h /\ 50 <= h <= 100.
Proof.
  eexists. split; [vm_compute; reflexivity|].
  match goal with
  | |- exists h, Customer.healthScore ?c = _ /\ _ =>
      destruct (created_customer_is_well_formed 1000 janeDoe emptyState c)
        as (_ & _ & _ & _ & _ & _ & _ & _ & _ & _ & _ & _ & H & _ & _)
  end.
  - vm_compute. reflexivity.
  - exact H.
Defined.

(** ** Update: what changes and what does not *)

Lemma passesUpdateChecks_name (input : CustomerUpdateInput) (n : string) :
  passesUpdateChecks input = true ->
  UpdateInput.name input = Some n ->
  JS.truthy n = true /\ JS.trim n <> ""%string
  /\ (String.length (JS.trim n) <= 100)%nat.
Proof.
  unfold passesUpdateChecks. intros Hp Hn. rewrite Hn in Hp.
  repeat (apply andb_true_iff in Hp as [Hp ?]).
  cbn [presentBlank tooLong] in *.
  apply negb_true_iff in Hp. unfold isBlank in Hp.
  apply orb_false_iff in Hp as [Ht Hb]. apply negb_false_iff in Ht.
  apply String.eqb_neq in Hb.
  match goal with
  | H : negb (JS.truthy n && _) = true |- _ =>
      rewrite Ht in H; cbn [andb] in H; apply negb_true_iff, Nat.ltb_ge in H
  end.
  repeat split; assumption.
Qed.

Lemma passesUpdateChecks_company (input : CustomerUpdateInput) (n : string) :
  passesUpdateChecks input = true ->
  UpdateInput.company input = Some n ->
  JS.truthy n = true /\ JS.trim n <> ""%string
  /\ (String.length (JS.trim n) <= 100)%nat.
Proof.
  unfold passesUpdateChecks. intros Hp Hn. rewrite Hn in Hp.
  repeat (apply andb_true_iff in Hp as [Hp ?]).
  cbn [presentBlank tooLong] in *.
  match goal with
  | H : negb (isBlank n) = true |- _ =>
      apply negb_true_iff in H; unfold isBlank in H;
      apply orb_false_iff in H as [Ht Hb]; apply negb_false_iff in Ht;
      apply String.eqb_neq in Hb
  end.
  match goal with
  | H : negb (JS.truthy n && _) = true |- _ =>
      rewrite Ht in H; cbn [andb] in H; apply negb_true_iff, Nat.ltb_ge in H
  end.
  repeat split; assumption.
Qed.

(** [X6] A successful update replaces one customer, the first with the
    given id, in place, and leaves the other customers, their order and the
    id counter as they are.  The updated customer keeps its id and its
    creation time and gets the time of the call as its update time; name
    and company are the trimmed values of the patch, or unchanged when the
    patch has none; email, tier and domains are those of the patch (the
    email trimmed), or unchanged; and when the patch has neither a tier nor
    domains, the health score is the one of the patch, or unchanged. *)
Theorem update_changes_only_patched_fields :
  forall (stamp now : Z) (id : string) (input : CustomerUpdateInput)
         (s : State) (c : Customer),
    data (fst (updateCustomer stamp now id input s)) = Some c ->
    exists before existing after,
      customers s = before ++ existing :: after
      /\ customers (snd (updateCustomer stamp now id input s))
         = before ++ c :: after
      /\ nextId (snd (updateCustomer stamp now id input s)) = nextId s
      /\ Customer.id existing = id
      /\ (forall x, In x before -> Customer.id x <> id)
      /\ Customer.id c = id
      /\ Customer.createdAt c = Customer.createdAt existing
      /\ Customer.updatedAt c = Some stamp
      /\ Customer.name c
         = orElse (option_map JS.trim (UpdateInput.name input))
             (Customer.name existing)
      /\ Customer.company c
         = orElse (option_map JS.trim (UpdateInput.company input))
             (Customer.company existing)
      /\ Customer.email c
         = orKeep (option_map JS.trim (UpdateInput.email input))
             (Customer.email existing)
      /\ Customer.subscriptionTier c
         = orKeep (UpdateInput.subscriptionTier input)
             (Customer.subscriptionTier existing)
      /\ Customer.domains c
         = orKeep (UpdateInput.domains input) (Customer.domains existing)
      /\ (UpdateInput.subscriptionTier input = None ->
          UpdateInput.domains input = None ->
          Customer.healthScore c
          = orElse (UpdateInput.healthScore input)
              (Customer.healthScore existing)).
Proof.
  intros stamp now id input s c Hc.
  pose proof (tryCatch_data_success _ s c Hc) as Hok.
  destruct (updateCustomer_success _ _ _ _ _ Hok)
    as (before & existing & after & Hcs & Hid & Hb & _ & Hp & _ & Heq).
  rewrite Heq in Hc |- *. cbn [fst snd data succeed customers nextId] in Hc |- *.
  injection Hc as <-.
  exists before, existing, after.
  split; [exact Hcs|]. split; [reflexivity|]. split; [reflexivity|].
  split; [exact Hid|]. split; [exact (forallb_other_ids id before Hb)|].
  split; [rewrite updatedCustomer_id; exact Hid|].
  split.
  { unfold updatedCustomer, recalculate.
    destruct (touchesScoreInputs input); reflexivity. }
  split.
  { unfold updatedCustomer, recalculate.
    destruct (touchesScoreInputs input); reflexivity. }
  split.
  { unfold updatedCustomer, recalculate.
    destruct (touchesScoreInputs input);
      cbn [withHealthScore ensureTrimmed spreadPatch Customer.name];
      destruct (UpdateInput.name input) as [n|] eqn:Hn; cbn [trimmedOr option_map orElse];
      try reflexivity;
      destruct (passesUpdateChecks_name input n Hp Hn) as (-> & _); reflexivity. }
  split.
  { unfold updatedCustomer, recalculate.
    destruct (touchesScoreInputs input);
      cbn [withHealthScore ensureTrimmed spreadPatch Customer.company];
      destruct (UpdateInput.company input) as [n|] eqn:Hn;
      cbn [trimmedOr option_map orElse];
      try reflexivity;
      destruct (passesUpdateChecks_company input n Hp Hn) as (-> & _); reflexivity. }
  split; [apply updatedCustomer_email|].
  split.
  { unfold updatedCustomer, recalculate.
    destruct (touchesScoreInputs input); reflexivity. }
  split.
  { unfold updatedCustomer, recalculate.
    destruct (touchesScoreInputs input); reflexivity. }
  intros Ht Hd. unfold updatedCustomer, recalculate, touchesScoreInputs.
  rewrite Ht, Hd. reflexivity.
Qed.

Lemma update_changes_only_patched_fields_witness :
  exists c,
    data (fst (updateCustomer 5000 5000 "9" renamePatch janeState)) = Some c
    /\ Customer.name c = "John Smith Updated"%string
    /\ Customer.healthScore c = Score.ofZ 90.
Proof.
  eexists. split; [vm_compute; reflexivity|].
  match goal with
  | |- Customer.name ?c = _ /\ _ =>
      destruct (update_changes_only_patched_fields 5000 5000 "9" renamePatch
                  janeState c)
        as (before & existing & after & Hcs & _ & _ & _ & _ & _ & _ & _
            & Hname & _ & _ & _ & _ & Hscore)
  end.
  - vm_compute. reflexivity.
  - split; [rewrite Hname; reflexivity|].
    rewrite Hscore; reflexivity.
Defined.

(** ** The operations that take an id *)

Lemma find_middle {A : Type} (p : A -> bool) (before after : list A) (x : A) :
  forallb (fun y => negb (p y)) before = true ->
  p x = true ->
  find p (before ++ x :: after) = Some x.
Proof.
  intros Hb Hx. induction before as [|y r IH]; cbn [app find].
  - rewrite Hx. reflexivity.
  - cbn [forallb] in Hb. apply andb_true_iff in Hb as [Hy Hr].
    apply negb_true_iff in Hy. rewrite Hy. exact (IH Hr).
Qed.

Lemma not_in_ids_forallb (id : string) (cs : list Customer) :
  forallb (fun c => negb (String.eqb (Customer.id c) id)) cs = true ->
  ~ In id (map Customer.id cs).
Proof.
  intros H Hin. apply in_map_iff in Hin as (c & Hc & Hin).
  exact (forallb_other_ids id cs H c Hin Hc).
Qed.

(** [X7] [getCustomerById], [updateCustomer] and [deleteCustomer] accept
    the same ids, and check the id before anything else.  A blank id makes
    all three fail with [VALIDATION_ERROR]; an id that no customer carries
    makes all three fail with [NOT_FOUND], whatever the patch of the update;
    otherwise the lookup returns the first customer with the id and the
    delete removes that customer and no other. *)
Theorem by_id_operations_agree :
  forall (id : string) (s : State),
    (isBlank id = true
     /\ code (fst (getCustomerById id s)) = Some VALIDATION_ERROR
     /\ code (fst (deleteCustomer id s)) = Some VALIDATION_ERROR
     /\ forall stamp now input,
          code (fst (updateCustomer stamp now id input s)) = Some VALIDATION_ERROR)
    \/ (isBlank id = false
        /\ ~ In id (map Customer.id (customers s))
        /\ code (fst (getCustomerById id s)) = Some NOT_FOUND
        /\ code (fst (deleteCustomer id s)) = Some NOT_FOUND
        /\ forall stamp now input,
             code (fst (updateCustomer stamp now id input s)) = Some NOT_FOUND)
    \/ (isBlank id = false
        /\ exists before c after,
             customers s = before ++ c :: after
             /\ Customer.id c = id
             /\ ~ In id (map Customer.id before)
             /\ getCustomerById id s = (succeed c, s)
             /\ deleteCustomer id s
                = (succeed true,
                   {| customers := before ++ after; nextId := nextId s |})).
Proof.
  intros id s. destruct (isBlank id) eqn:Hblank.
  - left. split; [reflexivity|].
    split; [unfold getCustomerById, throwIf; unfold_body; rewrite Hblank;
            reflexivity|].
    split; [rewrite deleteCustomer_unfold, Hblank; reflexivity|].
    intros stamp now input. rewrite updateCustomer_unfold, Hblank. reflexivity.
  - right.
    destruct (JS.findIndex (fun c => String.eqb (Customer.id c) id) (customers s))
      as [i|] eqn:Hfind.
    + right. split; [reflexivity|].
      destruct (findIndex_Some _ _ _ Hfind)
        as (before & x & after & Hcs & Hlen & Hx & Hb).
      exists before, x, after. split; [exact Hcs|].
      split; [apply String.eqb_eq; exact Hx|].
      split; [exact (not_in_ids_forallb id before Hb)|].
      split.
      * unfold getCustomerById, throwIf. unfold_body. rewrite Hblank, Hcs.
        rewrite (find_middle _ before after x Hb Hx). reflexivity.
      * rewrite deleteCustomer_unfold, Hblank, Hfind. unfold spliceAt.
        rewrite Hcs, <- Hlen, splice1_middle. reflexivity.
    + left. split; [reflexivity|].
      pose proof (findIndex_None _ _ Hfind) as Hnone.
      split; [exact (not_in_ids_forallb id _ Hnone)|].
      split.
      * unfold getCustomerById, throwIf. unfold_body. rewrite Hblank.
        rewrite (find_none_id id _ (not_in_ids_forallb id _ Hnone)). reflexivity.
      * split; [rewrite deleteCustomer_unfold, Hblank, Hfind; reflexivity|].
        intros stamp now input.
        rewrite updateCustomer_unfold, Hblank, Hfind. reflexivity.
Qed.

(** ** Filters *)

(** [X8] The filters of [getCustomers] are conjunctive: the filtered array
    holds, in the order of the collection, exactly the customers that
    satisfy every filter that is set.  A tier, a lower and an upper bound
    count when they are defined; the company and the search term count when
    they are not empty, compared in lower case (the search term against
    name, company and email). *)
Theorem filters_are_conjunctive :
  forall (options : ListOptions.t) (cs : list Customer),
    applyFilters options cs = filter (passesFilters options) cs
    /\ forall c,
         In c (applyFilters options cs) <->
         In c cs
         /\ (forall t, ListOptions.subscriptionTier options = Some t ->
                       Customer.subscriptionTier c = Some t)
         /\ (forall m, ListOptions.healthScoreMin options = Some m ->
                       exists q, Customer.healthScore c = Score.Real q
                                 /\ (inject_Z m <= q)%Q)
         /\ (forall m, ListOptions.healthScoreMax options = Some m ->
                       exists q, Customer.healthScore c = Score.Real q
                                 /\ (q <= inject_Z m)%Q)
         /\ (forall t, ListOptions.company options = Some t -> t <> ""%string ->
                       JS.includes (JS.toLowerCase (Customer.company c))
                         (JS.toLowerCase t) = true)
         /\ (forall t, ListOptions.searchTerm options = Some t -> t <> ""%string ->
                       matchesSearch (JS.toLowerCase t) c = true).
Proof.
  intros options cs.
  assert (Heq : applyFilters options cs = filter (passesFilters options) cs).
  { unfold applyFilters.
    rewrite filterIfTruthy_filter, filterIfTruthy_filter,
      filterIfDefined_filter, filterIfDefined_filter, filterIfDefined_filter.
    rewrite !filter_filter. apply filter_ext. intros c.
    unfold passesFilters. rewrite ?andb_assoc. reflexivity. }
  split; [exact Heq|]. intros c. rewrite Heq, filter_In. unfold passesFilters.
  rewrite !andb_true_iff.
  split.
  - intros (Hc & (((Ht & Hmin) & Hmax) & Hco) & Hse). split; [exact Hc|].
    split.
    { intros t Hopt. rewrite Hopt in Ht. unfold hasTier in Ht.
      destruct (Customer.subscriptionTier c) as [t'|]; [|discriminate].
      destruct t', t; try discriminate; reflexivity. }
    split; [intros m Hopt; rewrite Hopt in Hmin; apply leb_lower; exact Hmin|].
    split; [intros m Hopt; rewrite Hopt in Hmax; apply leb_upper; exact Hmax|].
    split.
    + intros t Hopt Hne. rewrite Hopt in Hco. apply truthy_true in Hne.
      rewrite Hne in Hco. exact Hco.
    + intros t Hopt Hne. rewrite Hopt in Hse. apply truthy_true in Hne.
      rewrite Hne in Hse. exact Hse.
  - intros (Hc & Ht & Hmin & Hmax & Hco & Hse). split; [exact Hc|].
    repeat split.
    + destruct (ListOptions.subscriptionTier options) as [t|]; [|reflexivity].
      unfold hasTier. rewrite (Ht t eq_refl). destruct t; reflexivity.
    + destruct (ListOptions.healthScoreMin options) as [m|]; [|reflexivity].
      apply leb_lower. apply Hmin. reflexivity.
    + destruct (ListOptions.healthScoreMax options) as [m|]; [|reflexivity].
      apply leb_upper. apply Hmax. reflexivity.
    + destruct (ListOptions.company options) as [t|]; [|reflexivity].
      destruct (JS.truthy t) eqn:Htr; [|reflexivity].
      apply Hco; [reflexivity | apply truthy_true; exact Htr].
    + destruct (ListOptions.searchTerm options) as [t|]; [|reflexivity].
      destruct (JS.truthy t) eqn:Htr; [|reflexivity].
      apply Hse; [reflexivity | apply truthy_true; exact Htr].
Qed.

(** ** Sorting *)

(** [X9] Sorting keeps the customers: whatever the sort key, the order and
    the collation, the listing is a rearrangement of the filtered
    customers; without a sort key, and with the key [domains] (whose values
    are arrays, for which the comparator answers 0), it is the filtered
    array in the order of the collection. *)
Theorem sorting_keeps_the_customers :
  forall (localeCompare : string -> string -> Z) (toISOString : Z -> string)
         (options : ListOptions.t) (s : State),
    Permutation (applyFilters options (customers s))
      (filteredSorted localeCompare toISOString options s)
    /\ ((ListOptions.sortBy options = None
         \/ ListOptions.sortBy options = Some K_domains) ->
        filteredSorted localeCompare toISOString options s
        = applyFilters options (customers s)).
Proof.
  intros lc iso options s. unfold filteredSorted, applySort. split.
  - destruct (ListOptions.sortBy options); [apply sort_Permutation | reflexivity].
  - intros [->| ->]; [reflexivity|]. apply sort_constant_zero.
    intros a b. unfold compareBy, fieldValue.
    destruct (Customer.domains a), (Customer.domains b); reflexivity.
Qed.

Lemma sorting_keeps_the_customers_witness :
  filteredSorted (fun _ _ => 0) (fun _ => "") (searchOnly "acme") threeCustomers
  = applyFilters (searchOnly "acme") (customers threeCustomers).
Proof.
  apply (sorting_keeps_the_customers (fun _ _ => 0) (fun _ => "")
           (searchOnly "acme") threeCustomers).
  left. reflexivity.
Defined.

Lemma compareBy_healthScore (localeCompare : string -> string -> Z)
  (toISOString : Z -> string) (order : option SortOrder) (a b : Customer) :
  compareBy localeCompare toISOString K_healthScore order a b
  = Score.sign (Customer.healthScore a) (Customer.healthScore b)
    * match order with Some desc => -1 | _ => 1 end.
Proof. reflexivity. Qed.

Lemma sign_le (p q : Q) :
  Score.sign (Score.Real p) (Score.Real q) <= 0 <-> (p <= q)%Q.
Proof.
  cbn [Score.sign]. rewrite Qle_alt.
  destruct (p ?= q)%Q; split; intros H; try lia; try discriminate.
  exfalso. apply H. reflexivity.
Qed.

Lemma sign_opp (p q : Q) :
  Score.sign (Score.Real q) (Score.Real p)
  = - Score.sign (Score.Real p) (Score.Real q).
Proof.
  cbn [Score.sign]. rewrite <- (Qcompare_antisym p q).
  destruct (p ?= q)%Q; reflexivity.
Qed.

(** On scores that are numbers the comparator of the health score says
    which of the two is the smaller one, in the order asked for. *)
Lemma compareBy_healthScore_le (localeCompare : string -> string -> Z)
  (toISOString : Z -> string) (order : option SortOrder) (a b : Customer) :
  Customer.healthScore a <> Score.NaN ->
  Customer.healthScore b <> Score.NaN ->
  compareBy localeCompare toISOString K_healthScore order a b <= 0
  <-> match order with
      | Some desc => ScoreLe (Customer.healthScore b) (Customer.healthScore a)
      | _ => ScoreLe (Customer.healthScore a) (Customer.healthScore b)
      end.
Proof.
  rewrite compareBy_healthScore.
  destruct (Customer.healthScore a) as [p|]; [|congruence].
  destruct (Customer.healthScore b) as [q|]; [|congruence].
  intros _ _. cbn [ScoreLe].
  destruct order as [[]|]; rewrite <- ?sign_le, ?(sign_opp p q); lia.
Qed.

Lemma ScoreLe_total (a b : Score.t) :
  a <> Score.NaN -> b <> Score.NaN -> ScoreLe a b \/ ScoreLe b a.
Proof.
  destruct a as [p|], b as [q|]; try congruence. intros _ _. cbn [ScoreLe].
  destruct (Qlt_le_dec p q) as [H|H]; [left; apply Qlt_le_weak; exact H | right; exact H].
Qed.

Lemma ScoreLe_trans (a b c : Score.t) : ScoreLe a b -> ScoreLe b c -> ScoreLe a c.
Proof.
  destruct a as [p|], b as [q|], c as [r|]; cbn [ScoreLe]; try contradiction.
  apply Qle_trans.
Qed.

(** [X10] Sorting by health score orders the listing by health score,
    ascending unless the order is [desc], descending when it is; customers
    with the same score keep the order they have in the collection.  This
    holds when the score of every customer that passes the filters is a
    number: with a [NaN] among them the comparator is not consistent, and
    the order that [sort] produces is then left to the implementation. *)
Theorem sort_by_health_score_is_ordered_and_stable :
  forall (localeCompare : string -> string -> Z) (toISOString : Z -> string)
         (options : ListOptions.t) (s : State),
    ListOptions.sortBy options = Some K_healthScore ->
    Forall (fun c => Customer.healthScore c <> Score.NaN)
      (applyFilters options (customers s)) ->
    let listing := filteredSorted localeCompare toISOString options s in
    (ListOptions.sortOrder options <> Some desc ->
     StronglySorted
       (fun a b => ScoreLe (Customer.healthScore a) (Customer.healthScore b))
       listing)
    /\ (ListOptions.sortOrder options = Some desc ->
        StronglySorted
          (fun a b => ScoreLe (Customer.healthScore b) (Customer.healthScore a))
          listing)
    /\ forall v,
         filter (hasScore v) listing
         = filter (hasScore v) (applyFilters options (customers s)).
Proof.
  intros lc iso options s Hkey Hnum listing. subst listing.
  unfold filteredSorted, applySort. rewrite Hkey.
  set (cmp := compareBy lc iso K_healthScore (ListOptions.sortOrder options)).
  set (number := fun c : Customer => Customer.healthScore c <> Score.NaN) in *.
  assert (Hcmp : forall a b, number a -> number b ->
             cmp a b <= 0
             <-> match ListOptions.sortOrder options with
                 | Some desc =>
                     ScoreLe (Customer.healthScore b) (Customer.healthScore a)
                 | _ => ScoreLe (Customer.healthScore a) (Customer.healthScore b)
                 end) by (intros; apply compareBy_healthScore_le; assumption).
  assert (Hsorted : StronglySorted (fun a b => cmp a b <= 0)
                      (JS.sort cmp (applyFilters options (customers s)))).
  { apply (sort_StronglySorted cmp number); [| |exact Hnum].
    - intros a b Ha Hb Hgt. apply Hcmp; [assumption..|].
      destruct (ScoreLe_total _ _ Ha Hb) as [H|H];
        destruct (ListOptions.sortOrder options) as [[]|];
        try exact H; exfalso;
        assert (cmp a b <= 0) by (apply Hcmp; assumption); lia.
    - intros a b c Ha Hb Hc Hab Hbc.
      apply Hcmp in Hab; [|assumption..]. apply Hcmp in Hbc; [|assumption..].
      apply Hcmp; [assumption..|].
      destruct (ListOptions.sortOrder options) as [[]|];
        eapply ScoreLe_trans; eassumption. }
  assert (Hnumbers : Forall number
                       (JS.sort cmp (applyFilters options (customers s))))
    by (apply sort_Forall; exact Hnum).
  assert (Hweaken : forall (R : Customer -> Customer -> Prop) l,
             Forall number l ->
             (forall a b, number a -> number b -> cmp a b <= 0 -> R a b) ->
             StronglySorted (fun a b => cmp a b <= 0) l -> StronglySorted R l).
  { intros R l Hl HR Hss. induction Hss as [|x r Hr IH Hx]; constructor.
    - apply IH. inversion Hl; assumption.
    - inversion Hl as [|? ? Px Pr]; subst.
      rewrite Forall_forall in Hx, Pr. apply Forall_forall. intros y Hy.
      apply HR; [exact Px | exact (Pr y Hy) | exact (Hx y Hy)]. }
  split; [|split].
  - intros Hasc. apply (Hweaken _ _ Hnumbers); [|exact Hsorted].
    intros a b Ha Hb Hle. apply Hcmp in Hle; [|assumption..].
    destruct (ListOptions.sortOrder options) as [[]|]; try exact Hle. congruence.
  - intros Hdesc. apply (Hweaken _ _ Hnumbers); [|exact Hsorted].
    intros a b Ha Hb Hle. apply Hcmp in Hle; [|assumption..].
    rewrite Hdesc in Hle. exact Hle.
  - intros v. apply (filter_sort cmp (hasScore v) number); [|exact Hnum].
    intros a b Ha Hb Hav Hbv. subst cmp. rewrite compareBy_healthScore.
    unfold hasScore in Hav, Hbv.
    destruct (Customer.healthScore a) as [p|]; [|discriminate].
    destruct (Customer.healthScore b) as [q|]; [|discriminate].
    apply Qeq_bool_iff in Hav, Hbv.
    assert (Heq : (p ?= q)%Q = Eq) by (apply Qeq_alt; rewrite Hav, Hbv; reflexivity).
    cbn [Score.sign]. rewrite Heq. destruct (ListOptions.sortOrder options) as [[]|]; lia.
Qed.

Lemma sort_by_health_score_is_ordered_and_stable_witness :
  StronglySorted
    (fun a b => ScoreLe (Customer.healthScore b) (Customer.healthScore a))
    (filteredSorted (fun _ _ => 0) (fun _ => "") twoPerPage threeCustomers).
Proof.
  apply (sort_by_health_score_is_ordered_and_stable (fun _ _ => 0)
           (fun _ => "") twoPerPage threeCustomers); [reflexivity| |reflexivity].
  vm_compute applyFilters. repeat constructor; discriminate.
Defined.

(** ** Statistics and the queries they count *)

Lemma tiers_partition_general (cs : list Customer) :
  (count (hasTier basic) cs + count (hasTier premium) cs
   + count (hasTier enterprise) cs + count hasNoTier cs = List.length cs)%nat.
Proof.
  induction cs as [|c cs IH]; [reflexivity|].
  rewrite !count_cons. cbn [List.length]. unfold hasTier at 1 3 5, hasNoTier at 1.
  destruct (Customer.subscriptionTier c) as [[]|]; cbn [Tier_eqb]; lia.
Qed.

Lemma filter_band (lo hi : Z) (p : Customer -> bool) (cs : list Customer) :
  Forall (fun c => ScoreWithin 0 100 (Customer.healthScore c)) cs ->
  (forall c, ScoreWithin 0 100 (Customer.healthScore c) ->
             p c = inScoreRange lo hi c) ->
  filter p cs = filter (inScoreRange lo hi) cs.
Proof.
  intros Hcs Hp. induction Hcs as [|c cs Hc _ IH]; [reflexivity|].
  cbn [filter]. rewrite (Hp c Hc), IH. reflexivity.
Qed.

Lemma getCustomersByHealthScore_ok (lo hi : Z) (s : State) :
  0 <= lo -> hi <= 100 -> lo <= hi ->
  getCustomersByHealthScore (Some lo) (Some hi) s
  = (succeed (filter (inScoreRange lo hi) (customers s)), s).
Proof.
  intros Hlo Hhi Hle. unfold getCustomersByHealthScore, throwIf. unfold_body.
  cbn [orElse].
  destruct (Z.ltb_spec lo 0); [lia|]. destruct (Z.ltb_spec 100 hi); [lia|].
  destruct (Z.ltb_spec hi lo); [lia|]. reflexivity.
Qed.

(** [X11] The statistics count what the queries return.  Each tier count
    is the number of customers [getCustomersByTier] returns for that tier,
    and the three counts together with the customers without a tier make up
    the total.  The three health bands, together with the customers whose
    score falls between the bands (a number strictly between 30 and 31 or
    between 70 and 71, or [NaN]), make up the total; the three bands alone
    do so when every stored score is a whole number.  When the stored
    scores are within 0..100, the bands healthy, warning and critical are
    the numbers of customers [getCustomersByHealthScore] returns for
    71..100, 31..70 and 0..30. *)
Theorem stats_count_what_the_queries_return :
  forall (s : State),
    exists st,
      getCustomerStats s = (succeed st, s)
      /\ Stats.total st = List.length (customers s)
      /\ (forall tier,
             option_map (@List.length Customer)
               (data (fst (getCustomersByTier tier s)))
             = Some (match tier with
                     | basic => TierCounts.basic (Stats.byTier st)
                     | premium => TierCounts.premium (Stats.byTier st)
                     | enterprise => TierCounts.enterprise (Stats.byTier st)
                     end))
      /\ (TierCounts.basic (Stats.byTier st)
          + TierCounts.premium (Stats.byTier st)
          + TierCounts.enterprise (Stats.byTier st)
          + count hasNoTier (customers s) = Stats.total st)%nat
      /\ (HealthDistribution.healthy (Stats.healthDistribution st)
          + HealthDistribution.warning (Stats.healthDistribution st)
          + HealthDistribution.critical (Stats.healthDistribution st)
          + count betweenBands (customers s)
          = Stats.total st)%nat
      /\ (Forall (fun c => ScoreIsInteger (Customer.healthScore c))
            (customers s) ->
          (HealthDistribution.healthy (Stats.healthDistribution st)
           + HealthDistribution.warning (Stats.healthDistribution st)
           + HealthDistribution.critical (Stats.healthDistribution st)
           = Stats.total st)%nat)
      /\ (ScoresInRange s ->
          option_map (@List.length Customer)
            (data (fst (getCustomersByHealthScore (Some 71) (Some 100) s)))
          = Some (HealthDistribution.healthy (Stats.healthDistribution st))
          /\ option_map (@List.length Customer)
               (data (fst (getCustomersByHealthScore (Some 31) (Some 70) s)))
             = Some (HealthDistribution.warning (Stats.healthDistribution st))
          /\ option_map (@List.length Customer)
               (data (fst (getCustomersByHealthScore (Some 0) (Some 30) s)))
             = Some (HealthDistribution.critical (Stats.healthDistribution st))).
Proof.
  intros s. exists (computeStats (customers s)).
  split; [reflexivity|]. split; [reflexivity|].
  split; [intros []; reflexivity|].
  split; [exact (tiers_partition_general (customers s))|].
  split; [exact (health_bands_partition (customers s))|].
  split; [exact (stats_distribution_sum (customers s))|].
  intros Hrange.
  rewrite !getCustomersByHealthScore_ok by lia.
  cbn [fst data succeed option_map computeStats
       Stats.healthDistribution HealthDistribution.healthy
       HealthDistribution.warning HealthDistribution.critical].
  unfold count.
  split; [|split]; do 2 f_equal; symmetry; apply filter_band; try exact Hrange;
    intros c Hc; apply ScoreWithin_leb, andb_true_iff in Hc as [Hlo Hhi];
    unfold isHealthy, isWarning, isCritical, inScoreRange;
    rewrite ?Hlo, ?Hhi, ?andb_true_r; reflexivity.
Qed.

Lemma ScoresInRange_threeCustomers : ScoresInRange threeCustomers.
Proof.
  unfold ScoresInRange. vm_compute customers.
  repeat (apply Forall_cons; [split; discriminate|]). apply Forall_nil.
Qed.

Lemma stats_count_what_the_queries_return_witness :
  option_map (@List.length Customer)
    (data (fst (getCustomersByHealthScore (Some 71) (Some 100) threeCustomers)))
  = option_map
      (fun st => HealthDistribution.healthy (Stats.healthDistribution st))
      (data (fst (getCustomerStats threeCustomers))).
Proof.
  destruct (stats_count_what_the_queries_return threeCustomers)
    as (st & Hst & _ & _ & _ & _ & _ & Hbands).
  destruct (Hbands ScoresInRange_threeCustomers) as (Hhealthy & _ & _).
  rewrite Hst, Hhealthy. reflexivity.
Defined.

(** ** The average health score *)



(** The one score 30.5 has the average 31. *)
Lemma average_of_a_fraction :
  forall c,
    Customer.healthScore c = Score.Real (61 # 2) ->
    Stats.averageHealthScore (computeStats [c]) = Num 31.
Proof.
  intros c Hc. unfold computeStats, Stats.averageHealthScore, roundedMean,
    sumHealthScores.
  cbn [List.length fold_left]. rewrite Hc. reflexivity.
Qed.


(** ** Search, letter case, and the search filter of the listing *)

Lemma toLowerChar_idempotent (c : ascii) :
  JS.toLowerChar (JS.toLowerChar c) = JS.toLowerChar c.
Proof. destruct c as [[] [] [] [] [] [] [] []]; reflexivity. Qed.

Lemma toLowerCase_idempotent (s : string) :
  JS.toLowerCase (JS.toLowerCase s) = JS.toLowerCase s.
Proof.
  induction s as [|c r IH]; [reflexivity|]. cbn [JS.toLowerCase].
  rewrite toLowerChar_idempotent, IH. reflexivity.
Qed.

(** [X13] Search ignores the letter case of the term: the term and its
    lower-case form give the same response.  For a term that is not blank,
    search returns what the search filter of the listing selects for the
    trimmed term; for a blank term the two part ways: search returns
    nothing, the filter of the listing lets every customer pass. *)
Theorem search_ignores_case_and_matches_the_list_filter :
  forall (term : string) (s : State),
    searchCustomers (JS.toLowerCase term) s = searchCustomers term s
    /\ ((JS.trim term <> ""%string
         /\ data (fst (searchCustomers term s))
            = Some (applyFilters (searchOnly (JS.trim term)) (customers s)))
        \/ (JS.trim term = ""%string
            /\ data (fst (searchCustomers term s)) = Some []
            /\ applyFilters (searchOnly (JS.trim term)) (customers s)
               = customers s)).
Proof.
  intros term s. split.
  - unfold searchCustomers. unfold_body.
    rewrite toLowerCase_idempotent.
    rewrite !isBlank_trim, trim_toLowerCase, toLowerCase_empty. reflexivity.
  - unfold searchCustomers. unfold_body. rewrite isBlank_trim.
    destruct (String.eqb_spec (JS.trim term) "") as [Hblank|Hne].
    + right. split; [exact Hblank|]. split; [reflexivity|].
      rewrite Hblank. reflexivity.
    + left. split; [exact Hne|]. cbn [fst data succeed].
      unfold applyFilters, searchOnly.
      cbn [ListOptions.subscriptionTier ListOptions.healthScoreMin
           ListOptions.healthScoreMax ListOptions.company ListOptions.searchTerm
           filterIfDefined filterIfTruthy].
      apply truthy_true in Hne. rewrite Hne, trim_toLowerCase. reflexivity.
Qed.

(** ** The outcomes of an update *)

Lemma name_rules (n : string) :
  negb (isBlank n)
  && negb (JS.truthy n && (100 <? String.length (JS.trim n))%nat)
  = negb (String.eqb (JS.trim n) "")
    && (String.length (JS.trim n) <=? 100)%nat.
Proof.
  rewrite isBlank_trim, Nat.ltb_antisym.
  destruct n as [|c n]; [reflexivity|].
  change (JS.truthy (String c n)) with true. cbn [andb].
  rewrite negb_involutive. reflexivity.
Qed.

Lemma email_rule (e : string) :
  negb (JS.truthy e && negb (isValidEmail e))
  = String.eqb e "" || isValidEmail e.
Proof.
  unfold JS.truthy. destruct (String.eqb e ""), (isValidEmail e); reflexivity.
Qed.

Lemma healthScore_rule (h : Score.t) :
  negb (badHealthScore (Some h))
  = match h with
    | Score.Real q => Qle_bool (inject_Z 0) q && Qle_bool q (inject_Z 100)
    | Score.NaN => true
    end.
Proof.
  destruct h as [q|]; cbn [badHealthScore Score.ltb Score.ofZ]; [|reflexivity].
  destruct (Qle_bool (inject_Z 0) q), (Qle_bool q (inject_Z 100)); reflexivity.
Qed.

Lemma passesUpdateChecks_enforced (input : CustomerUpdateInput) :
  passesUpdateChecks input = enforced_validPatch input.
Proof.
  unfold passesUpdateChecks, enforced_validPatch.
  transitivity
    ((negb (presentBlank (UpdateInput.name input))
      && negb (tooLong (UpdateInput.name input)))
     && (negb (presentBlank (UpdateInput.company input))
         && negb (tooLong (UpdateInput.company input)))
     && negb (badEmail (UpdateInput.email input))
     && negb (badHealthScore (UpdateInput.healthScore input))
     && forallb isValidDomain (orElse (UpdateInput.domains input) [])).
  { destruct (presentBlank (UpdateInput.name input)),
      (presentBlank (UpdateInput.company input)),
      (tooLong (UpdateInput.name input)),
      (tooLong (UpdateInput.company input)); reflexivity. }
  repeat f_equal.
  - destruct (UpdateInput.name input) as [n|]; [apply name_rules | reflexivity].
  - destruct (UpdateInput.company input) as [n|]; [apply name_rules | reflexivity].
  - destruct (UpdateInput.email input) as [e|]; [apply email_rule | reflexivity].
  - destruct (UpdateInput.healthScore input) as [h|];
      [apply healthScore_rule | reflexivity].
  - destruct (UpdateInput.domains input) as [ds|]; reflexivity.
Qed.

Lemma checkDuplicateEmailExcept_cases (id : string) (email : option string)
  (cs : list Customer) :
  (checkDuplicateEmailExcept id email cs = Return tt
   /\ ~ exists e c,
         email = Some e /\ e <> ""%string /\ In c cs /\ Customer.id c <> id
         /\ Customer.email c = Some e)
  \/ exists e c,
       email = Some e /\ e <> ""%string /\ In c cs /\ Customer.id c <> id
       /\ Customer.email c = Some e
       /\ checkDuplicateEmailExcept id email cs
          = Throw (ServiceError (DuplicateError "email" e)).
Proof.
  unfold checkDuplicateEmailExcept, throwIf.
  destruct email as [e|];
    [|left; split; [reflexivity | intros (e & c & He & _); discriminate He]].
  destruct (JS.truthy e) eqn:Ht.
  2:{ left. split; [reflexivity|]. intros (e' & c & He & Hne & _).
      injection He as <-. apply truthy_true in Hne. congruence. }
  cbn [andb].
  destruct (existsb _ cs) eqn:Hex.
  - right. apply existsb_exists in Hex as (c & Hc & Hcond).
    apply andb_true_iff in Hcond as [Hid Hemail].
    exists e, c. split; [reflexivity|]. split; [apply truthy_true; exact Ht|].
    split; [exact Hc|].
    split; [apply String.eqb_neq, negb_true_iff; exact Hid|].
    split; [apply optString_eqb_Some; exact Hemail | reflexivity].
  - left. split; [reflexivity|]. intros (e' & c & He & Hne & Hc & Hid & Hce).
    injection He as <-.
    assert (Hex' : existsb
                     (fun c => negb (String.eqb (Customer.id c) id)
                               && optString_eqb (Customer.email c) (Some e)) cs
                   = true).
    { apply existsb_exists. exists c. split; [exact Hc|].
      apply andb_true_iff. split.
      - apply negb_true_iff, String.eqb_neq. exact Hid.
      - apply optString_eqb_Some. exact Hce. }
    congruence.
Qed.

(** [X14] The outcomes of [updateCustomer], in the order of its checks.
    A blank id fails with [VALIDATION_ERROR]; an unknown id fails with
    [NOT_FOUND]; a patch that breaks a rule for a field it contains fails
    with [VALIDATION_ERROR]; a non-empty email that is the email of a
    customer with another id fails with [DUPLICATE_ERROR]; every failure
    leaves the state as it was; in the one remaining case, a known id, a
    patch within the rules and no such email, the update succeeds.  The
    rule for the health score refuses a number below 0 or above 100 and
    nothing else: a patch within the rules carries no score, a number of
    0..100, whole or not, or [NaN]; and an update of a stored customer
    with a patch that holds nothing but a score succeeds exactly when the
    score is such a number or is [NaN]. *)
Theorem update_outcomes :
  forall (stamp now : Z) (id : string) (input : CustomerUpdateInput) (s : State),
    let r := updateCustomer stamp now id input s in
    (forall h, UpdateInput.healthScore input = Some h ->
               enforced_validPatch input = true ->
               ScoreWithin 0 100 h \/ h = Score.NaN)
    /\ (forall existing h,
           In existing (customers s) ->
           isBlank (Customer.id existing) = false ->
           success (fst (updateCustomer stamp now (Customer.id existing)
                           (scoreOnly h) s)) = true
           <-> ScoreWithin 0 100 h \/ h = Score.NaN)
    /\
    ((isBlank id = true
     /\ code (fst r) = Some VALIDATION_ERROR /\ snd r = s)
    \/ (isBlank id = false
        /\ ~ In id (map Customer.id (customers s))
        /\ code (fst r) = Some NOT_FOUND /\ snd r = s)
    \/ (isBlank id = false
        /\ In id (map Customer.id (customers s))
        /\ enforced_validPatch input = false
        /\ code (fst r) = Some VALIDATION_ERROR /\ snd r = s)
    \/ (isBlank id = false
        /\ In id (map Customer.id (customers s))
        /\ enforced_validPatch input = true
        /\ (exists e c,
               UpdateInput.email input = Some e /\ e <> ""%string
               /\ In c (customers s) /\ Customer.id c <> id
               /\ Customer.email c = Some e)
        /\ code (fst r) = Some DUPLICATE_ERROR /\ snd r = s)
    \/ (isBlank id = false
        /\ In id (map Customer.id (customers s))
        /\ enforced_validPatch input = true
        /\ ~ (exists e c,
                 UpdateInput.email input = Some e /\ e <> ""%string
                 /\ In c (customers s) /\ Customer.id c <> id
                 /\ Customer.email c = Some e)
        /\ success (fst r) = true)).
Proof.
  intros stamp now id input s r. subst r.
  split.
  { intros h Hh Hvalid. rewrite <- passesUpdateChecks_enforced in Hvalid.
    apply passesUpdateChecks_badHealthScore in Hvalid. rewrite Hh in Hvalid.
    apply badHealthScore_cases. exact Hvalid. }
  split.
  { intros existing h Hin Hblank. rewrite <- badHealthScore_cases. split.
    - intros Hok.
      destruct (updateCustomer_success _ _ _ _ _ Hok)
        as (_ & _ & _ & _ & _ & _ & _ & Hp & _).
      exact (passesUpdateChecks_badHealthScore _ Hp).
    - intros Hh.
      destruct (update_scoreOnly stamp now h existing s Hin Hblank Hh)
        as (_ & _ & _ & _ & Hok & _). exact Hok. }
  rewrite updateCustomer_unfold.
  rewrite <- passesUpdateChecks_enforced.
  destruct (isBlank id) eqn:Hblank; [left; repeat split|]. right.
  destruct (JS.findIndex _ _) as [i|] eqn:Hfind.
  - right.
    destruct (findIndex_Some _ _ _ Hfind) as (before & x & after & Hcs & Hlen & Hx & _).
    assert (Hin : In id (map Customer.id (customers s))).
    { rewrite Hcs. apply String.eqb_eq in Hx. rewrite <- Hx.
      apply in_map, in_or_app. right. left. reflexivity. }
    destruct (validateCustomerUpdateInput_spec input)
      as [[Hp ->]|[Hp (e & -> & msg & ->)]].
    + right.
      destruct (checkDuplicateEmailExcept_cases id (UpdateInput.email input)
                  (customers s))
        as [[-> Hnone]|(e & c & He & Hne & Hc & Hid & Hce & ->)].
      * right.
        assert (Hnth : nth_error (customers s) i = Some x)
          by (rewrite Hcs, <- Hlen; apply nth_error_middle).
        rewrite Hnth. repeat split; assumption || reflexivity.
      * left. repeat split; try assumption. exists e, c. repeat split; assumption.
    + left. repeat split; assumption.
  - left. split; [reflexivity|].
    split; [exact (not_in_ids_forallb id _ (findIndex_None _ _ Hfind))|].
    split; reflexivity.
Qed.

(** * Properties of the HTTP layer *)

(** ** Strings *)

Section Strings.

Local Open Scope string_scope.

Lemma allChars_app (p : ascii -> bool) (s t : string) :
  allChars p (s ++ t) = allChars p s && allChars p t.
Proof.
  induction s as [|c s IH]; [reflexivity|].
  cbn [append allChars]. rewrite IH, andb_assoc. reflexivity.
Qed.

Lemma allChars_weaken (p q : ascii -> bool) (s : string) :
  (forall c, p c = true -> q c = true) ->
  allChars p s = true -> allChars q s = true.
Proof.
  intros Hpq. induction s as [|c s IH]; [reflexivity|].
  cbn [allChars]. rewrite !andb_true_iff. intros [Hc Hs].
  split; [apply Hpq; exact Hc | apply IH; exact Hs].
Qed.

Lemma remove_allChars (p : ascii -> bool) (s : string) :
  allChars (fun c => negb (p c)) (Text.remove p s) = true.
Proof.
  induction s as [|c s IH]; [reflexivity|].
  cbn [Text.remove]. destruct (p c) eqn:Hc; [exact IH|].
  cbn [allChars]. rewrite Hc, IH. reflexivity.
Qed.

Lemma remove_keeps_allChars (p q : ascii -> bool) (s : string) :
  allChars q s = true -> allChars q (Text.remove p s) = true.
Proof.
  induction s as [|c s IH]; [reflexivity|].
  cbn [allChars Text.remove]. rewrite andb_true_iff. intros [Hc Hs].
  destruct (p c); [apply IH; exact Hs|].
  cbn [allChars]. rewrite Hc, (IH Hs). reflexivity.
Qed.

Lemma remove_length (p : ascii -> bool) (s : string) :
  (String.length (Text.remove p s) <= String.length s)%nat.
Proof.
  induction s as [|c s IH]; [apply Nat.le_refl|].
  cbn [Text.remove]. destruct (p c); cbn [String.length]; lia.
Qed.

Lemma remove_none (p : ascii -> bool) (s : string) :
  allChars (fun c => negb (p c)) s = true -> Text.remove p s = s.
Proof.
  induction s as [|c s IH]; [reflexivity|].
  cbn [allChars Text.remove]. rewrite andb_true_iff, negb_true_iff.
  intros [-> Hs]. rewrite (IH Hs). reflexivity.
Qed.

Lemma substring_prefix_length (s : string) (n : nat) :
  (String.length (Text.substring s 0 n) <= n)%nat.
Proof.
  unfold Text.substring. rewrite Nat.min_0_l, Nat.max_0_l, Nat.sub_0_r.
  revert s. induction n as [|n IH]; intros [|c s]; cbn; try lia.
  specialize (IH s). lia.
Qed.

Lemma substring_prefix_allChars (p : ascii -> bool) (s : string) (n : nat) :
  allChars p s = true -> allChars p (Text.substring s 0 n) = true.
Proof.
  unfold Text.substring. rewrite Nat.min_0_l, Nat.max_0_l, Nat.sub_0_r.
  revert s. induction n as [|n IH]; intros [|c s]; cbn; try reflexivity.
  rewrite !andb_true_iff. intros [Hc Hs]. split; [exact Hc | apply IH; exact Hs].
Qed.

Lemma substring_prefix_all (s : string) (n : nat) :
  (String.length s <= n)%nat -> Text.substring s 0 n = s.
Proof.
  unfold Text.substring. rewrite Nat.min_0_l, Nat.max_0_l, Nat.sub_0_r.
  revert s. induction n as [|n IH]; intros [|c s]; cbn; try reflexivity; try lia.
  intros H. rewrite IH; [reflexivity | lia].
Qed.

(** A string without white space at its ends is its own [trim]. *)
Lemma trimStart_no_space (s : string) :
  allChars (fun c => negb (JS.isWhiteSpace c)) s = true -> JS.trimStart s = s.
Proof.
  destruct s as [|c s]; [reflexivity|].
  cbn [allChars JS.trimStart]. rewrite andb_true_iff, negb_true_iff.
  intros [-> _]. reflexivity.
Qed.

Lemma trimEnd_no_space (s : string) :
  allChars (fun c => negb (JS.isWhiteSpace c)) s = true -> JS.trimEnd s = s.
Proof.
  induction s as [|c s IH]; [reflexivity|].
  cbn [allChars JS.trimEnd]. rewrite andb_true_iff, negb_true_iff.
  intros [Hc Hs]. rewrite (IH Hs), Hc. reflexivity.
Qed.

Lemma trim_no_space (s : string) :
  allChars (fun c => negb (JS.isWhiteSpace c)) s = true -> JS.trim s = s.
Proof.
  intros H. unfold JS.trim. rewrite (trimStart_no_space s H).
  apply trimEnd_no_space. exact H.
Qed.

Lemma trimStart_length (s : string) :
  (String.length (JS.trimStart s) <= String.length s)%nat.
Proof.
  induction s as [|c s IH]; [apply Nat.le_refl|].
  cbn [JS.trimStart]. destruct (JS.isWhiteSpace c); cbn [String.length]; lia.
Qed.

Lemma trimEnd_length (s : string) :
  (String.length (JS.trimEnd s) <= String.length s)%nat.
Proof.
  induction s as [|c s IH]; [apply Nat.le_refl|].
  cbn [JS.trimEnd].
  destruct (JS.isWhiteSpace c && String.eqb (JS.trimEnd s) "");
    cbn [String.length]; lia.
Qed.

Lemma trim_length (s : string) :
  (String.length (JS.trim s) <= String.length s)%nat.
Proof.
  unfold JS.trim. pose proof (trimEnd_length (JS.trimStart s)).
  pose proof (trimStart_length s). lia.
Qed.

Lemma trimStart_allChars (p : ascii -> bool) (s : string) :
  allChars p s = true -> allChars p (JS.trimStart s) = true.
Proof.
  induction s as [|c s IH]; [reflexivity|].
  cbn [JS.trimStart]. destruct (JS.isWhiteSpace c); [|exact (fun H => H)].
  cbn [allChars]. rewrite andb_true_iff. intros [_ Hs]. apply IH. exact Hs.
Qed.

Lemma trimEnd_allChars (p : ascii -> bool) (s : string) :
  allChars p s = true -> allChars p (JS.trimEnd s) = true.
Proof.
  induction s as [|c s IH]; [reflexivity|].
  cbn [allChars JS.trimEnd]. rewrite andb_true_iff. intros [Hc Hs].
  destruct (JS.isWhiteSpace c && String.eqb (JS.trimEnd s) ""); [reflexivity|].
  cbn [allChars]. rewrite Hc, (IH Hs). reflexivity.
Qed.

Lemma trim_allChars (p : ascii -> bool) (s : string) :
  allChars p s = true -> allChars p (JS.trim s) = true.
Proof.
  intros H. unfold JS.trim. apply trimEnd_allChars, trimStart_allChars. exact H.
Qed.

Lemma toLowerCase_app (s t : string) :
  JS.toLowerCase (s ++ t) = JS.toLowerCase s ++ JS.toLowerCase t.
Proof.
  induction s as [|c s IH]; [reflexivity|].
  cbn [append JS.toLowerCase]. rewrite IH. reflexivity.
Qed.

Lemma toLowerCase_length (s : string) :
  String.length (JS.toLowerCase s) = String.length s.
Proof.
  induction s as [|c s IH]; [reflexivity|].
  cbn [JS.toLowerCase String.length]. rewrite IH. reflexivity.
Qed.

(** ** Patterns and the characters of their words *)

Lemma Matches_allChars (q : ascii -> bool) (r : Regex.t) (s : string) :
  classesWithin q r -> Regex.Matches r s -> allChars q s = true.
Proof.
  intros Hq H. induction H as [|p c Hc|r1 r2 s1 s2 _ IH1 _ IH2
                               |r1 r2 s _ IH|r1 r2 s _ IH| |r s1 s2 _ IH1 _ IH2].
  - reflexivity.
  - cbn [allChars]. rewrite (Hq c Hc). reflexivity.
  - destruct Hq as [H1 H2]. rewrite allChars_app, (IH1 H1), (IH2 H2). reflexivity.
  - apply IH, Hq.
  - apply IH, Hq.
  - reflexivity.
  - rewrite allChars_app, (IH1 Hq), (IH2 Hq). reflexivity.
Qed.

Lemma Matches_toLowerCase (r : Regex.t) (s : string) :
  classesClosed JS.toLowerChar r ->
  Regex.Matches r s -> Regex.Matches r (JS.toLowerCase s).
Proof.
  intros Hr H. induction H as [|p c Hc|r1 r2 s1 s2 _ IH1 _ IH2
                               |r1 r2 s _ IH|r1 r2 s _ IH| |r s1 s2 _ IH1 _ IH2].
  - constructor.
  - cbn [JS.toLowerCase]. constructor. apply Hr. exact Hc.
  - destruct Hr as [H1 H2]. rewrite toLowerCase_app.
    constructor; [apply IH1; exact H1 | apply IH2; exact H2].
  - apply Regex.MAltL, IH, Hr.
  - apply Regex.MAltR, IH, Hr.
  - constructor.
  - rewrite toLowerCase_app. constructor; [apply IH1; exact Hr | apply IH2; exact Hr].
Qed.

End Strings.

(** Facts about single characters are decided over the 256 code units. *)
Ltac each_char c :=
  destruct c as [[] [] [] [] [] [] [] []]; vm_compute; intros; congruence.

Lemma isLocalChar_notSpaceAt (c : ascii) :
  isLocalChar c = true -> Regex.notSpaceAt c = true.
Proof. each_char c. Qed.

Lemma isHostChar_notSpaceAt (c : ascii) :
  isHostChar c = true -> Regex.notSpaceAt c = true.
Proof. each_char c. Qed.

Lemma isAlpha_notSpaceAt (c : ascii) :
  Regex.isAlpha c = true -> Regex.notSpaceAt c = true.
Proof. each_char c. Qed.

Lemma isHostChar_isLocalChar (c : ascii) :
  isHostChar c = true -> isLocalChar c = true.
Proof. each_char c. Qed.

Lemma isAlpha_isLocalChar (c : ascii) :
  Regex.isAlpha c = true -> isLocalChar c = true.
Proof. each_char c. Qed.

Lemma isEmailChar_no_space (c : ascii) :
  isEmailChar c = true -> negb (JS.isWhiteSpace c) = true.
Proof. each_char c. Qed.

Lemma isLocalChar_lower (c : ascii) :
  isLocalChar c = true -> isLocalChar (JS.toLowerChar c) = true.
Proof. each_char c. Qed.

Lemma isHostChar_lower (c : ascii) :
  isHostChar c = true -> isHostChar (JS.toLowerChar c) = true.
Proof. each_char c. Qed.

Lemma isAlpha_lower (c : ascii) :
  Regex.isAlpha c = true -> Regex.isAlpha (JS.toLowerChar c) = true.
Proof. each_char c. Qed.

Lemma at_lower (c : ascii) :
  Ascii.eqb "@" c = true -> Ascii.eqb "@" (JS.toLowerChar c) = true.
Proof. each_char c. Qed.

Lemma dot_lower (c : ascii) :
  Ascii.eqb "." c = true -> Ascii.eqb "." (JS.toLowerChar c) = true.
Proof. each_char c. Qed.

Lemma isAlnumDashDot_no_space (c : ascii) :
  Regex.isAlnumDash c || Ascii.eqb "." c = true ->
  negb (JS.isWhiteSpace c) = true.
Proof. each_char c. Qed.

Lemma isIdChar_no_space (c : ascii) :
  isIdChar c = true -> negb (JS.isWhiteSpace c) = true.
Proof. each_char c. Qed.

Lemma isDigit_isIdChar (c : ascii) :
  Text.isDigit c = true -> isIdChar c = true.
Proof. each_char c. Qed.
(** ** The sanitisers *)

Lemma allChars_and (p q : ascii -> bool) (s : string) :
  allChars p s = true -> allChars q s = true ->
  allChars (fun c => p c && q c) s = true.
Proof.
  induction s as [|c s IH]; [reflexivity|].
  cbn [allChars]. rewrite !andb_true_iff. intros [Hp Hs] [Hq Hs'].
  repeat split; [exact Hp | exact Hq | apply IH; assumption].
Qed.

Lemma sanitizeString_spec (input : option Json.t) (r : string) :
  sanitizeString input = Some r ->
  (String.length r <= 1000)%nat /\ plainText r.
Proof.
  unfold sanitizeString. destruct input as [[| | |s| |]|]; try discriminate.
  destruct (JS.truthy s); [|discriminate]. intros H; injection H as <-.
  split; [apply substring_prefix_length|].
  apply substring_prefix_allChars. unfold isPlain.
  apply allChars_and.
  - apply remove_keeps_allChars, remove_allChars.
  - apply remove_allChars.
Qed.

Lemma present_Some (o : option string) (r : string) :
  present o = Some r -> o = Some r /\ r <> ""%string.
Proof.
  unfold present. destruct o as [x|]; [|discriminate].
  destruct (JS.truthy x) eqn:Hx; [|discriminate].
  intros H; injection H as <-. split; [reflexivity | apply truthy_true; exact Hx].
Qed.

Lemma classesWithin_routeEmailRegex : classesWithin isEmailChar routeEmailRegex.
Proof.
  unfold routeEmailRegex, Regex.plus, Regex.atLeast2, Regex.chr, isEmailChar.
  cbn [classesWithin].
  assert (Hl : forall c, isLocalChar c = true
                         -> isLocalChar c || Ascii.eqb c "@" = true)
    by (intros c ->; reflexivity).
  assert (Hh : forall c, isHostChar c = true
                         -> isLocalChar c || Ascii.eqb c "@" = true)
    by (intros c H; rewrite (isHostChar_isLocalChar c H); reflexivity).
  assert (Ha : forall c, Regex.isAlpha c = true
                         -> isLocalChar c || Ascii.eqb c "@" = true)
    by (intros c H; rewrite (isAlpha_isLocalChar c H); reflexivity).
  assert (Hat : forall c, Ascii.eqb "@" c = true
                          -> isLocalChar c || Ascii.eqb c "@" = true).
  { intros c H. apply Ascii.eqb_eq in H. subst c. reflexivity. }
  assert (Hdot : forall c, Ascii.eqb "." c = true
                           -> isLocalChar c || Ascii.eqb c "@" = true).
  { intros c H. apply Ascii.eqb_eq in H. subst c. reflexivity. }
  repeat split; assumption.
Qed.

Lemma classesClosed_routeEmailRegex :
  classesClosed JS.toLowerChar routeEmailRegex.
Proof.
  unfold routeEmailRegex, Regex.plus, Regex.atLeast2, Regex.chr.
  cbn [classesClosed].
  pose proof isLocalChar_lower. pose proof isHostChar_lower.
  pose proof isAlpha_lower. pose proof at_lower. pose proof dot_lower.
  repeat split; assumption.
Qed.

Lemma Matches_plus_weaken (p q : ascii -> bool) (s : string) :
  (forall c, p c = true -> q c = true) ->
  Regex.Matches (Regex.plus (Regex.Class p)) s ->
  Regex.Matches (Regex.plus (Regex.Class q)) s.
Proof.
  intros Hpq H. apply Matches_plus_Class in H as [Hne Hs].
  apply Matches_plus_Class. split; [exact Hne|].
  exact (allChars_weaken p q s Hpq Hs).
Qed.

Lemma Matches_atLeast2_plus (p q : ascii -> bool) (s : string) :
  (forall c, p c = true -> q c = true) ->
  Regex.Matches (Regex.atLeast2 (Regex.Class p)) s ->
  Regex.Matches (Regex.plus (Regex.Class q)) s.
Proof.
  intros Hpq H. unfold Regex.atLeast2 in H.
  apply Matches_Seq_inv in H as (s1 & s2 & -> & H1 & H2).
  apply Matches_Class_inv in H1 as (c & -> & Hc).
  apply Matches_plus_Class in H2 as [_ H2].
  apply Matches_plus_Class. split; [discriminate|].
  cbn [append allChars]. rewrite (Hpq c Hc). cbn [andb].
  exact (allChars_weaken p q _ Hpq H2).
Qed.

(** The pattern of the routes accepts fewer emails than the pattern of the
    service. *)
Lemma routeEmailRegex_emailRegex (s : string) :
  Regex.Matches routeEmailRegex s -> Regex.Matches emailRegex s.
Proof.
  unfold routeEmailRegex, emailRegex. intros H.
  apply Matches_Seq_inv in H as (a & r1 & -> & Ha & H).
  apply Matches_Seq_inv in H as (at_ & r2 & -> & Hat & H).
  apply Matches_Seq_inv in H as (b & r3 & -> & Hb & H).
  apply Matches_Seq_inv in H as (dot & t & -> & Hdot & Ht).
  constructor; [exact (Matches_plus_weaken _ _ a isLocalChar_notSpaceAt Ha)|].
  constructor; [exact Hat|].
  constructor; [exact (Matches_plus_weaken _ _ b isHostChar_notSpaceAt Hb)|].
  constructor; [exact Hdot|].
  exact (Matches_atLeast2_plus _ _ t isAlpha_notSpaceAt Ht).
Qed.

Lemma Matches_routeEmailRegex_nonempty (s : string) :
  Regex.Matches routeEmailRegex s -> s <> ""%string.
Proof.
  unfold routeEmailRegex. intros H.
  apply Matches_Seq_inv in H as (a & r1 & -> & Ha & _).
  apply Matches_plus_Class in Ha as [Hne _].
  destruct a; [contradiction | discriminate].
Qed.

(** What [sanitizeEmail] lets through: an email in lower case, without
    white space, that both patterns accept. *)
Lemma sanitizeEmail_spec (input : option Json.t) (e : string) :
  sanitizeEmail input = Some e ->
  Regex.test routeEmailRegex e = true
  /\ JS.toLowerCase e = e
  /\ JS.trim e = e
  /\ e <> ""%string
  /\ isValidEmail e = true.
Proof.
  unfold sanitizeEmail. destruct (sanitizeString input) as [x|]; [|discriminate].
  destruct (JS.truthy x); [|discriminate].
  destruct (Regex.test routeEmailRegex x) eqn:Hx; [|discriminate].
  intros H; injection H as <-.
  apply test_spec in Hx.
  pose proof (Matches_toLowerCase _ _ classesClosed_routeEmailRegex Hx) as Hm.
  assert (Htrim : JS.trim (JS.toLowerCase x) = JS.toLowerCase x).
  { apply trim_no_space.
    apply (allChars_weaken isEmailChar); [exact isEmailChar_no_space|].
    exact (Matches_allChars _ _ _ classesWithin_routeEmailRegex Hm). }
  split; [apply test_spec; exact Hm|].
  split; [apply toLowerCase_idempotent|].
  split; [exact Htrim|].
  split; [exact (Matches_routeEmailRegex_nonempty _ Hm)|].
  unfold isValidEmail. rewrite Htrim. apply test_spec.
  apply routeEmailRegex_emailRegex. exact Hm.
Qed.

Lemma classesWithin_domainRegex :
  classesWithin (fun c => Regex.isAlnumDash c || Ascii.eqb "." c) domainRegex.
Proof.
  unfold domainRegex, Regex.atLeast2, Regex.chr. cbn [classesWithin].
  assert (H1 : forall c, Regex.isAlnum c = true
                         -> Regex.isAlnumDash c || Ascii.eqb "." c = true)
    by (intros c H; unfold Regex.isAlnumDash; rewrite H; reflexivity).
  assert (H2 : forall c, Regex.isAlnumDash c = true
                         -> Regex.isAlnumDash c || Ascii.eqb "." c = true)
    by (intros c ->; reflexivity).
  assert (H3 : forall c, Ascii.eqb "." c = true
                         -> Regex.isAlnumDash c || Ascii.eqb "." c = true)
    by (intros c ->; apply orb_true_r).
  assert (H4 : forall c, Regex.isAlpha c = true
                         -> Regex.isAlnumDash c || Ascii.eqb "." c = true)
    by (intros c H; unfold Regex.isAlnumDash, Regex.isAlnum; rewrite H;
        reflexivity).
  repeat split; assumption.
Qed.

(** A domain that the routes keep is valid for the service. *)
Lemma keepsDomain_isValidDomain (d : string) :
  keepsDomain (Some d) = true -> isValidDomain d = true.
Proof.
  unfold keepsDomain, isValidDomain. rewrite !andb_true_iff.
  intros [[_ Ht] Hl]. split; [|exact Hl].
  replace (JS.trim d) with d; [exact Ht|]. symmetry.
  apply trim_no_space.
  apply (allChars_weaken (fun c => Regex.isAlnumDash c || Ascii.eqb "." c));
    [exact isAlnumDashDot_no_space|].
  apply (Matches_allChars _ domainRegex); [exact classesWithin_domainRegex|].
  apply test_spec. exact Ht.
Qed.

Lemma strings_keepsDomain (xs : list (option string)) :
  Forall (fun d => isValidDomain d = true) (strings (filter keepsDomain xs)).
Proof.
  induction xs as [|[d|] xs IH]; cbn [filter]; [constructor| |].
  - destruct (keepsDomain (Some d)) eqn:Hd; [|exact IH].
    cbn [strings]. constructor; [|exact IH].
    apply keepsDomain_isValidDomain. exact Hd.
  - cbn [keepsDomain]. exact IH.
Qed.

Lemma strings_length (xs : list (option string)) :
  (List.length (strings xs) <= List.length xs)%nat.
Proof.
  induction xs as [|[d|] xs IH]; cbn [strings List.length]; lia.
Qed.

Lemma filter_length_le {A : Type} (p : A -> bool) (xs : list A) :
  (List.length (filter p xs) <= List.length xs)%nat.
Proof.
  induction xs as [|x xs IH]; cbn [filter]; [lia|].
  destruct (p x); cbn [List.length]; lia.
Qed.

(** What [sanitizeDomains] lets through: a list that is not empty, no
    longer than the array of the body, of domains valid for the service. *)
Lemma sanitizeDomains_spec (input : option Json.t) (ds : list string) :
  sanitizeDomains input = Some ds ->
  ds <> []
  /\ Forall (fun d => isValidDomain d = true) ds
  /\ exists items, input = Some (Json.Arr items)
                   /\ (List.length ds <= List.length items)%nat.
Proof.
  unfold sanitizeDomains. destruct input as [[| | | |items|]|]; try discriminate.
  cbv zeta. remember (strings _) as l eqn:Hl.
  destruct (0 <? List.length l)%nat eqn:Hlen; [|discriminate].
  intros H; injection H as <-.
  split; [intros Hnil; rewrite Hnil in Hlen; discriminate|].
  rewrite Hl.
  split; [apply strings_keepsDomain|].
  exists items. split; [reflexivity|].
  eapply Nat.le_trans; [apply strings_length|].
  eapply Nat.le_trans; [apply filter_length_le|].
  rewrite length_map. apply filter_length_le.
Qed.

(** ** Create through the route *)

(** What [POST] hands to the service. *)
Lemma createInput_spec (body : option Json.t) (input : CustomerCreateInput) :
  CustomersRoute.createInput body = inr input ->
  exists rawData,
    body = Some rawData
    /\ sanitizeString (Json.get rawData "name") = Some (CreateInput.name input)
    /\ CreateInput.name input <> ""%string
    /\ (String.length (CreateInput.name input) <= 100)%nat
    /\ sanitizeString (Json.get rawData "company")
       = Some (CreateInput.company input)
    /\ CreateInput.company input <> ""%string
    /\ (String.length (CreateInput.company input) <= 100)%nat
    /\ CreateInput.email input = sanitizeEmail (Json.get rawData "email")
    /\ (forall e, CreateInput.email input = Some e ->
                  (String.length e <= 254)%nat)
    /\ CreateInput.subscriptionTier input
       = Some (orElse
                 (validateSubscriptionTier (Json.get rawData "subscriptionTier"))
                 basic)
    /\ CreateInput.domains input = sanitizeDomains (Json.get rawData "domains")
    /\ (forall ds, CreateInput.domains input = Some ds ->
                   (List.length ds <= 10)%nat).
Proof.
  unfold CustomersRoute.createInput. destruct body as [rawData|]; [|discriminate].
  destruct (negb (Json.truthy rawData) || negb (Json.isObject rawData));
    [discriminate|].
  destruct (present (sanitizeString (Json.get rawData "name")))
    as [name|] eqn:Hname; [|discriminate].
  destruct (present (sanitizeString (Json.get rawData "company")))
    as [company|] eqn:Hcompany; [|discriminate].
  destruct (100 <? String.length name)%nat eqn:Hn; [discriminate|].
  destruct (100 <? String.length company)%nat eqn:Hc; [discriminate|].
  destruct (match sanitizeEmail _ with Some _ => _ | None => _ end) eqn:He;
    [discriminate|].
  destruct (match sanitizeDomains _ with Some _ => _ | None => _ end) eqn:Hd;
    [discriminate|].
  intros H; injection H as <-. cbn.
  apply present_Some in Hname as [Hname Hname'].
  apply present_Some in Hcompany as [Hcompany Hcompany'].
  apply Nat.ltb_ge in Hn, Hc.
  exists rawData. repeat split; try assumption.
  - intros e Heq. rewrite Heq in He.
    destruct (sanitizeEmail_spec _ _ Heq) as (_ & _ & _ & Hne & _).
    apply truthy_true in Hne. rewrite Hne in He. cbn [andb] in He.
    apply Nat.ltb_ge in He. exact He.
  - intros ds Heq. rewrite Heq in Hd. apply Nat.ltb_ge in Hd. exact Hd.
Qed.

Lemma createInput_rejects (body : option Json.t) (r : Http.Response Customer) :
  CustomersRoute.createInput body = inl r ->
  Http.status r = 400 /\ Http.success r = false /\ Http.data r = None.
Proof.
  unfold CustomersRoute.createInput.
  repeat match goal with
         | |- context [match ?x with _ => _ end] => destruct x
         end;
    intros H; try discriminate H; injection H as <-; repeat split.
Qed.

(** Of the checks of the service, only the two on blank names are left to
    fail. *)
Lemma createInput_passes (body : option Json.t) (input : CustomerCreateInput) :
  CustomersRoute.createInput body = inr input ->
  passesCreateChecks input
  = negb (isBlank (CreateInput.name input))
    && negb (isBlank (CreateInput.company input)).
Proof.
  intros H.
  destruct (createInput_spec _ _ H)
    as (rawData & _ & _ & _ & Hn & _ & _ & Hc & He & _ & _ & Hd & _).
  unfold passesCreateChecks.
  assert (H1 : (String.length (JS.trim (CreateInput.name input)) <=? 100)%nat
               = true).
  { apply Nat.leb_le. pose proof (trim_length (CreateInput.name input)). lia. }
  assert (H2 : (String.length (JS.trim (CreateInput.company input)) <=? 100)%nat
               = true).
  { apply Nat.leb_le. pose proof (trim_length (CreateInput.company input)). lia. }
  assert (H3 : badEmail (CreateInput.email input) = false).
  { unfold badEmail. destruct (CreateInput.email input) as [e|]; [|reflexivity].
    symmetry in He. destruct (sanitizeEmail_spec _ _ He) as (_ & _ & _ & _ & ->).
    apply andb_false_r. }
  assert (H4 : forallb isValidDomain (orElse (CreateInput.domains input) [])
               = true).
  { destruct (CreateInput.domains input) as [ds|]; [|reflexivity].
    symmetry in Hd. destruct (sanitizeDomains_spec _ _ Hd) as (_ & Hv & _).
    cbn [orElse]. apply forallb_forall. apply Forall_forall. exact Hv. }
  rewrite H1, H2, H3, H4. cbn [negb]. rewrite !andb_true_r. reflexivity.
Qed.

Lemma respond_data {T U : Type} (result : ServiceResponse T)
  (fallback : string) (status : Z) (payload : option U) (okStatus : Z) (x : U) :
  Http.data (respond result fallback status payload okStatus) = Some x ->
  success result = true
  /\ payload = Some x
  /\ respond result fallback status payload okStatus
     = createSuccessResponse payload okStatus.
Proof.
  unfold respond. destruct (success result); cbn [negb]; [|discriminate].
  intros H. repeat split. exact H.
Qed.

Lemma respond_succeed {T U : Type} (d : T) (fallback : string) (status : Z)
  (payload : option U) (okStatus : Z) :
  respond (succeed d) fallback status payload okStatus
  = createSuccessResponse payload okStatus.
Proof. reflexivity. Qed.

Lemma respond_handleError {T U : Type} (e : CustomerServiceError)
  (fallback : string) (status : Z) (payload : option U) (okStatus : Z) :
  Http.status (respond (@handleError T (ServiceError e)) fallback status
                 payload okStatus) = status
  /\ Http.success (respond (@handleError T (ServiceError e)) fallback status
                     payload okStatus) = false
  /\ Http.code (respond (@handleError T (ServiceError e)) fallback status
                  payload okStatus) = Some (codeString (errorCode e)).
Proof.
  unfold respond. cbn [handleError success negb code option_map].
  unfold createErrorResponse. cbn [Http.status Http.success Http.code].
  repeat split. destruct (errorCode e); reflexivity.
Qed.

Lemma checkDuplicateEmail_cases (email : option string) (cs : list Customer) :
  (checkDuplicateEmail email cs = Return tt
   /\ ~ exists e c,
         email = Some e /\ e <> ""%string /\ In c cs
         /\ Customer.email c = Some e)
  \/ exists e c,
       email = Some e /\ e <> ""%string /\ In c cs
       /\ Customer.email c = Some e
       /\ checkDuplicateEmail email cs
          = Throw (ServiceError (DuplicateError "email" e)).
Proof.
  destruct email as [e|];
    [|left; split; [reflexivity | intros (e & c & He & _); discriminate He]].
  destruct (JS.truthy e) eqn:Ht.
  2:{ left. split; [unfold checkDuplicateEmail; rewrite Ht; reflexivity|].
      intros (e' & c & He & Hne & _).
      injection He as <-. apply truthy_true in Hne. congruence. }
  apply truthy_true in Ht.
  destruct (in_dec string_dec e (nonEmptyEmails cs)) as [Hin|Hout].
  - right. apply in_nonEmptyEmails in Hin as (_ & c & Hc & Hce).
    exists e, c. repeat split; try assumption.
    exact (checkDuplicateEmail_rejects e cs c Ht Hc Hce).
  - left. split.
    + unfold checkDuplicateEmail, throwIf.
      destruct (_ && _) eqn:Hb; [|reflexivity]. exfalso. apply Hout.
      apply andb_true_iff in Hb as [Hb1 Hb2].
      apply existsb_exists in Hb2 as (c & Hc & Hce).
      apply optString_eqb_Some in Hce.
      apply in_nonEmptyEmails. split; [exact Hb1|]. exists c. split; assumption.
    + intros (e' & c & He & _ & Hc & Hce). injection He as <-.
      apply Hout. apply in_nonEmptyEmails.
      split; [apply truthy_true; exact Ht|]. exists c. split; assumption.
Qed.

Lemma tierBonus_Some (t : Tier) : 5 <= tierBonus (Some t).
Proof. destruct t; cbn [tierBonus]; lia. Qed.

Lemma domainBonus_nonneg (ds : option (list string)) : 0 <= domainBonus ds.
Proof. unfold domainBonus. destruct ds; lia. Qed.

Lemma emailBonus_nonneg (e : option string) : 0 <= emailBonus e.
Proof. unfold emailBonus. destruct (JS.truthy_opt e); lia. Qed.

(** [X15] What a customer created through [POST /api/customers] looks
    like.  The answer is 201 and the customer is appended to the
    collection.  Its name and its company are not empty, have at most 100
    characters and hold no angle bracket and no brace; its email is what
    [sanitizeEmail] makes of the email of the body: absent when that is
    not a well-formed email, and otherwise in lower case, well-formed and
    of at most 254 characters; its tier is the tier of the body when that
    is one of the three names, and basic otherwise; it has at most ten
    domains, each valid; and its health score lies in 55..100. *)
Theorem post_created_customer_is_within_the_limits :
  forall (now : Z) (body : option Json.t) (s : State) (c : Customer),
    Http.data (fst (CustomersRoute.POST now body s)) = Some c ->
    exists rawData,
      body = Some rawData
      /\ Http.status (fst (CustomersRoute.POST now body s)) = 201
      /\ customers (snd (CustomersRoute.POST now body s)) = customers s ++ [c]
      /\ Customer.name c <> ""%string
      /\ (String.length (Customer.name c) <= 100)%nat
      /\ plainText (Customer.name c)
      /\ Customer.company c <> ""%string
      /\ (String.length (Customer.company c) <= 100)%nat
      /\ plainText (Customer.company c)
      /\ Customer.email c = sanitizeEmail (Json.get rawData "email")
      /\ (forall e, Customer.email c = Some e ->
                    (String.length e <= 254)%nat
                    /\ JS.toLowerCase e = e
                    /\ wellFormedEmail e)
      /\ Customer.subscriptionTier c
         = Some (orElse
                   (validateSubscriptionTier
                      (Json.get rawData "subscriptionTier")) basic)
      /\ (exists ds, Customer.domains c = Some ds
                     /\ (List.length ds <= 10)%nat
                     /\ Forall (fun d => isValidDomain d = true) ds)
      /\ exists h, Customer.healthScore c = Score.ofZ h /\ 55 <= h <= 100.
Proof.
  intros now body s c. unfold CustomersRoute.POST.
  destruct (CustomersRoute.createInput body) as [r|input] eqn:Hinput.
  { cbn [fst]. intros H.
    destruct (createInput_rejects _ _ Hinput) as (_ & _ & Hd). congruence. }
  pose proof (createInput_passes _ _ Hinput) as Hpass.
  destruct (createInput_spec _ _ Hinput)
    as (rawData & -> & Hrn & _ & Hn & Hrc & _ & Hc & He & He' & Ht & Hd & Hd').
  destruct (createCustomer now input s) as [result s'] eqn:Hcreate.
  cbn [fst snd]. intros Hdata.
  apply respond_data in Hdata as (Hok & Hdata & ->).
  assert (Hok' : success (fst (createCustomer now input s)) = true)
    by (rewrite Hcreate; exact Hok).
  destruct (createCustomer_success now input s Hok') as (Hvalid & _ & Heq).
  rewrite Hcreate in Heq. injection Heq as -> ->.
  cbn [succeed data] in Hdata. injection Hdata as <-.
  destruct (validateCustomerInput_spec input) as [[Hp _]|[_ (e & Habs & _)]];
    [|congruence].
  rewrite Hpass in Hp. apply andb_true_iff in Hp as [Hbn Hbc].
  apply negb_true_iff in Hbn, Hbc. rewrite isBlank_trim in Hbn, Hbc.
  apply String.eqb_neq in Hbn, Hbc.
  destruct (sanitizeString_spec _ _ Hrn) as [_ Hpn].
  destruct (sanitizeString_spec _ _ Hrc) as [_ Hpc].
  exists rawData. split; [reflexivity|]. split; [reflexivity|].
  split; [reflexivity|].
  cbn [newCustomer Customer.name Customer.company Customer.email
       Customer.subscriptionTier Customer.domains Customer.healthScore].
  split; [exact Hbn|].
  split; [pose proof (trim_length (CreateInput.name input)); lia|].
  split; [apply trim_allChars; exact Hpn|].
  split; [exact Hbc|].
  split; [pose proof (trim_length (CreateInput.company input)); lia|].
  split; [apply trim_allChars; exact Hpc|].
  assert (Hemail : option_map JS.trim (CreateInput.email input)
                   = sanitizeEmail (Json.get rawData "email")).
  { rewrite <- He. destruct (CreateInput.email input) as [e|] eqn:Heq;
      [|reflexivity]. symmetry in He.
    destruct (sanitizeEmail_spec _ _ He) as (_ & _ & Htrim & _).
    cbn [option_map]. rewrite Htrim. reflexivity. }
  split; [exact Hemail|].
  split.
  { rewrite Hemail. intros e Heq.
    destruct (sanitizeEmail_spec _ _ Heq) as (_ & Hlow & Htrim & _ & Hv).
    split; [apply He'; rewrite He; exact Heq|]. split; [exact Hlow|].
    apply isValidEmail_spec in Hv. rewrite Htrim in Hv. exact Hv. }
  split; [rewrite Ht; reflexivity|].
  split.
  { destruct (CreateInput.domains input) as [ds|] eqn:Heq.
    - exists ds. split; [reflexivity|]. split; [apply Hd'; reflexivity|].
      symmetry in Hd. destruct (sanitizeDomains_spec _ _ Hd) as (_ & Hv & _).
      exact Hv.
    - exists []. split; [reflexivity|]. split; [cbn; lia | constructor]. }
  eexists. split; [reflexivity|].
  unfold calculateInitialHealthScore, initialScore. rewrite Ht.
  pose proof (tierBonus_Some
                (orElse (validateSubscriptionTier
                           (Json.get rawData "subscriptionTier")) basic)).
  pose proof (domainBonus_nonneg (CreateInput.domains input)).
  pose proof (emailBonus_nonneg (CreateInput.email input)).
  lia.
Qed.

Lemma POST_unfold (now : Z) (body : option Json.t) (s : State)
  (input : CustomerCreateInput) :
  CustomersRoute.createInput body = inr input ->
  CustomersRoute.POST now body s
  = (respond (fst (createCustomer now input s)) "Failed to create customer"
       (createStatus (code (fst (createCustomer now input s))))
       (data (fst (createCustomer now input s))) 201,
     snd (createCustomer now input s)).
Proof.
  intros H. unfold CustomersRoute.POST. rewrite H.
  destruct (createCustomer now input s). reflexivity.
Qed.

(** [X16] The answers of [POST /api/customers].  A body that the route
    rejects is answered 400 and the service is not called.  Otherwise the
    route calls [createCustomer], and of the checks of the service only
    three can still fail: a name or a company that is blank, because
    removing brackets left white space only, is answered 400 with
    [VALIDATION_ERROR]; an email that a stored customer has is answered
    409 with [DUPLICATE_ERROR]; in both cases the state stays as it was.
    Every other request is answered 201 and appends the new customer.  No
    request is answered 500. *)
Theorem post_answers :
  forall (now : Z) (body : option Json.t) (s : State),
    let r := CustomersRoute.POST now body s in
    (exists response,
        CustomersRoute.createInput body = inl response
        /\ r = (response, s)
        /\ Http.status response = 400)
    \/ exists input,
         CustomersRoute.createInput body = inr input
         /\ ((isBlank (CreateInput.name input)
              || isBlank (CreateInput.company input) = true
              /\ Http.status (fst r) = 400
              /\ Http.code (fst r) = Some "VALIDATION_ERROR"%string
              /\ snd r = s)
             \/ (isBlank (CreateInput.name input)
                 || isBlank (CreateInput.company input) = false
                 /\ (exists e c,
                        CreateInput.email input = Some e
                        /\ In c (customers s) /\ Customer.email c = Some e)
                 /\ Http.status (fst r) = 409
                 /\ Http.code (fst r) = Some "DUPLICATE_ERROR"%string
                 /\ snd r = s)
             \/ (isBlank (CreateInput.name input)
                 || isBlank (CreateInput.company input) = false
                 /\ ~ (exists e c,
                          CreateInput.email input = Some e
                          /\ In c (customers s) /\ Customer.email c = Some e)
                 /\ Http.status (fst r) = 201
                 /\ Http.data (fst r) = Some (newCustomer now (nextId s) input)
                 /\ snd r
                    = {| customers :=
                           customers s ++ [newCustomer now (nextId s) input];
                         nextId := S (nextId s) |})).
Proof.
  intros now body s r. subst r.
  destruct (CustomersRoute.createInput body) as [response|input] eqn:Hinput.
  { left. exists response. split; [reflexivity|].
    split; [unfold CustomersRoute.POST; rewrite Hinput; reflexivity|].
    apply (createInput_rejects _ _ Hinput). }
  right. exists input. split; [reflexivity|].
  rewrite (POST_unfold now body s input Hinput).
  pose proof (createInput_passes _ _ Hinput) as Hpass.
  destruct (createInput_spec _ _ Hinput)
    as (rawData & _ & _ & _ & _ & _ & _ & _ & He & _).
  rewrite createCustomer_unfold.
  destruct (validateCustomerInput_spec input)
    as [[Hp ->]|[Hp (err & -> & msg & ->)]]; rewrite Hpass in Hp.
  - rewrite <- negb_orb in Hp. apply negb_true_iff in Hp.
    right.
    destruct (checkDuplicateEmail_cases (CreateInput.email input) (customers s))
      as [[-> Hnone]|(e & c & Heq & Hne & Hc & Hce & ->)].
    + right. split; [exact Hp|]. split.
      * intros (e & c & Heq & Hc & Hce). apply Hnone. exists e, c.
        repeat split; try assumption.
        rewrite He in Heq.
        apply (sanitizeEmail_spec _ _ Heq).
      * repeat split.
    + left. split; [exact Hp|].
      split; [exists e, c; repeat split; assumption|].
      repeat split.
  - rewrite <- negb_orb in Hp. apply negb_false_iff in Hp.
    left. split; [exact Hp|]. repeat split.
Qed.

(** ** Update through the route *)

Lemma sanitizeEmail_not_a_string (raw : Json.t) :
  match raw with
  | Json.Null => true
  | Json.Str r => String.eqb r ""
  | _ => false
  end = true ->
  sanitizeEmail (Some raw) = None.
Proof.
  destruct raw as [| | |r| |]; try discriminate; [reflexivity|].
  intros H. apply String.eqb_eq in H. subst r. reflexivity.
Qed.

Lemma present_sanitizeEmail (input : option Json.t) :
  present (sanitizeEmail input) = sanitizeEmail input.
Proof.
  destruct (sanitizeEmail input) as [e|] eqn:He; [|reflexivity].
  destruct (sanitizeEmail_spec _ _ He) as (_ & _ & _ & Hne & _).
  apply truthy_true in Hne. unfold present. rewrite Hne. reflexivity.
Qed.

Lemma emailField_spec (rawData : Json.t) (email : option string) (u : bool) :
  CustomerByIdRoute.emailField rawData = inr (email, u) ->
  email = sanitizeEmail (Json.get rawData "email")
  /\ (forall e, email = Some e -> (String.length e <= 254)%nat)
  /\ (u = true -> Json.get rawData "email" <> None)
  /\ (Json.get rawData "email" <> None -> email = None -> u = true).
Proof.
  unfold CustomerByIdRoute.emailField.
  destruct (Json.get rawData "email") as [raw|] eqn:Hraw.
  - destruct (match raw with Json.Null => _ | _ => _ end) eqn:Hclear.
    + intros H; injection H as <- <-.
      rewrite (sanitizeEmail_not_a_string raw Hclear).
      repeat split; try discriminate; reflexivity.
    + rewrite present_sanitizeEmail.
      destruct (sanitizeEmail (Some raw)) as [e|]; [|discriminate].
      destruct (254 <? String.length e)%nat eqn:Hlen; [discriminate|].
      intros H; injection H as <- <-. apply Nat.ltb_ge in Hlen.
      repeat split; try discriminate.
      intros e' He'; injection He' as <-. exact Hlen.
  - intros H; injection H as <- <-.
    replace (sanitizeEmail None) with (@None string) by reflexivity.
    repeat split; try discriminate. intros Habs. contradiction.
Qed.

Lemma nameField_spec (rawData : Json.t) (name : option string) :
  CustomerByIdRoute.nameField rawData = inr name ->
  name = sanitizeString (Json.get rawData "name")
  /\ forall n, name = Some n ->
               n <> ""%string /\ (String.length n <= 100)%nat.
Proof.
  unfold CustomerByIdRoute.nameField.
  destruct (sanitizeString (Json.get rawData "name")) as [x|].
  - destruct (JS.truthy x) eqn:Hx; [|discriminate]. cbn [negb].
    destruct (100 <? String.length x)%nat eqn:Hlen; [discriminate|].
    intros H; injection H as <-. split; [reflexivity|].
    intros n Hn; injection Hn as <-.
    apply Nat.ltb_ge in Hlen. apply truthy_true in Hx. split; assumption.
  - intros H; injection H as <-. split; [reflexivity | discriminate].
Qed.

Lemma companyField_spec (rawData : Json.t) (company : option string) :
  CustomerByIdRoute.companyField rawData = inr company ->
  company = sanitizeString (Json.get rawData "company")
  /\ forall n, company = Some n ->
               n <> ""%string /\ (String.length n <= 100)%nat.
Proof.
  unfold CustomerByIdRoute.companyField.
  destruct (sanitizeString (Json.get rawData "company")) as [x|].
  - destruct (JS.truthy x) eqn:Hx; [|discriminate]. cbn [negb].
    destruct (100 <? String.length x)%nat eqn:Hlen; [discriminate|].
    intros H; injection H as <-. split; [reflexivity|].
    intros n Hn; injection Hn as <-.
    apply Nat.ltb_ge in Hlen. apply truthy_true in Hx. split; assumption.
  - intros H; injection H as <-. split; [reflexivity | discriminate].
Qed.

Lemma tierField_spec (rawData : Json.t) (tier : option Tier) :
  CustomerByIdRoute.tierField rawData = inr tier ->
  tier = validateSubscriptionTier (Json.get rawData "subscriptionTier").
Proof.
  unfold CustomerByIdRoute.tierField.
  destruct (Json.get rawData "subscriptionTier") as [raw|].
  - destruct (validateSubscriptionTier (Some raw)); [|discriminate].
    intros H; injection H as <-. reflexivity.
  - intros H; injection H as <-. reflexivity.
Qed.

Lemma domainsField_spec (rawData : Json.t) (domains : option (list string)) :
  CustomerByIdRoute.domainsField rawData = inr domains ->
  forall ds, domains = Some ds ->
             (List.length ds <= 10)%nat
             /\ Forall (fun d => isValidDomain d = true) ds.
Proof.
  unfold CustomerByIdRoute.domainsField.
  destruct (Json.get rawData "domains") as [[| | | |items|]|] eqn:Hraw;
    try discriminate.
  - destruct (10 <? List.length items)%nat eqn:Hlen; [discriminate|].
    apply Nat.ltb_ge in Hlen.
    destruct (sanitizeDomains (Some (Json.Arr items))) as [l|] eqn:Hl;
      intros H; injection H as <-; intros ds Hds; injection Hds as <-.
    + destruct (sanitizeDomains_spec _ _ Hl) as (_ & Hv & items' & Heq & Hle).
      injection Heq as <-. cbn [orElse]. split; [lia | exact Hv].
    + cbn [orElse]. split; [cbn; lia | constructor].
  - intros H; injection H as <-. discriminate.
Qed.

Lemma healthScoreField_spec (rawData : Json.t)
  (healthScore : option Score.t) :
  CustomerByIdRoute.healthScoreField rawData = inr healthScore ->
  forall h, healthScore = Some h -> ScoreWithin 0 100 h.
Proof.
  unfold CustomerByIdRoute.healthScoreField, validateHealthScore.
  destruct (Json.get rawData "healthScore") as [[| |n| | |]|]; try discriminate.
  - cbv zeta.
    destruct (Score.leb (Score.ofZ 0) (Score.Real n)
              && Score.leb (Score.Real n) (Score.ofZ 100)) eqn:Hn; [|discriminate].
    intros H; injection H as <-. intros h Hh; injection Hh as <-.
    apply ScoreWithin_leb. exact Hn.
  - intros H; injection H as <-. discriminate.
Qed.

(** What [PUT] hands to the service. *)
Lemma updateInput_spec (body : option Json.t) (input : CustomerUpdateInput) :
  CustomerByIdRoute.updateInput body = inr input ->
  exists rawData,
    body = Some rawData
    /\ UpdateInput.name input = sanitizeString (Json.get rawData "name")
    /\ (forall n, UpdateInput.name input = Some n ->
                  n <> ""%string /\ (String.length n <= 100)%nat)
    /\ UpdateInput.company input = sanitizeString (Json.get rawData "company")
    /\ (forall n, UpdateInput.company input = Some n ->
                  n <> ""%string /\ (String.length n <= 100)%nat)
    /\ UpdateInput.email input = sanitizeEmail (Json.get rawData "email")
    /\ (forall e, UpdateInput.email input = Some e ->
                  (String.length e <= 254)%nat)
    /\ UpdateInput.subscriptionTier input
       = validateSubscriptionTier (Json.get rawData "subscriptionTier")
    /\ (forall ds, UpdateInput.domains input = Some ds ->
                   (List.length ds <= 10)%nat
                   /\ Forall (fun d => isValidDomain d = true) ds)
    /\ (forall h, UpdateInput.healthScore input = Some h -> ScoreWithin 0 100 h).
Proof.
  unfold CustomerByIdRoute.updateInput, CustomerByIdRoute.next.
  destruct body as [rawData|]; [|discriminate].
  destruct (negb (Json.truthy rawData) || negb (Json.isObject rawData));
    [discriminate|].
  destruct (CustomerByIdRoute.nameField rawData) as [|name] eqn:Hname;
    [discriminate|].
  destruct (CustomerByIdRoute.companyField rawData) as [|company] eqn:Hcompany;
    [discriminate|].
  destruct (CustomerByIdRoute.emailField rawData) as [|[email u]] eqn:Hemail;
    [discriminate|].
  destruct (CustomerByIdRoute.tierField rawData) as [|tier] eqn:Htier;
    [discriminate|].
  destruct (CustomerByIdRoute.domainsField rawData) as [|domains] eqn:Hdomains;
    [discriminate|].
  destruct (CustomerByIdRoute.healthScoreField rawData) as [|healthScore]
    eqn:HhealthScore; [discriminate|].
  cbv zeta. destruct (_ =? 0)%nat; [discriminate|].
  intros H; injection H as <-.
  cbn [CustomerByIdRoute.fields UpdateInput.name UpdateInput.company
       UpdateInput.email UpdateInput.subscriptionTier UpdateInput.domains
       UpdateInput.healthScore fst].
  destruct (emailField_spec _ _ _ Hemail) as (He & He' & _).
  destruct (nameField_spec _ _ Hname) as [Hn Hn'].
  destruct (companyField_spec _ _ Hcompany) as [Hc Hc'].
  exists rawData. split; [reflexivity|].
  split; [exact Hn|]. split; [exact Hn'|].
  split; [exact Hc|]. split; [exact Hc'|].
  split; [exact He|]. split; [exact He'|].
  split; [exact (tierField_spec _ _ Htier)|].
  split; [exact (domainsField_spec _ _ Hdomains)|].
  exact (healthScoreField_spec _ _ HhealthScore).
Qed.

Ltac rejected :=
  repeat match goal with
         | |- context [match ?x with _ => _ end] => destruct x
         end;
  intros H; try discriminate H; injection H as <-; repeat split.

Lemma nameField_rejects (rawData : Json.t) (r : Http.Response Customer) :
  CustomerByIdRoute.nameField rawData = inl r ->
  Http.status r = 400 /\ Http.success r = false /\ Http.data r = None.
Proof. unfold CustomerByIdRoute.nameField. rejected. Qed.

Lemma companyField_rejects (rawData : Json.t) (r : Http.Response Customer) :
  CustomerByIdRoute.companyField rawData = inl r ->
  Http.status r = 400 /\ Http.success r = false /\ Http.data r = None.
Proof. unfold CustomerByIdRoute.companyField. rejected. Qed.

Lemma emailField_rejects (rawData : Json.t) (r : Http.Response Customer) :
  CustomerByIdRoute.emailField rawData = inl r ->
  Http.status r = 400 /\ Http.success r = false /\ Http.data r = None.
Proof.
  unfold CustomerByIdRoute.emailField.
  destruct (Json.get rawData "email") as [raw|]; [|discriminate].
  destruct (match raw with Json.Null => _ | _ => _ end); [discriminate|].
  destruct (present _) as [e|]; [|intros H; injection H as <-; repeat split].
  destruct (254 <? String.length e)%nat; [|discriminate].
  intros H; injection H as <-; repeat split.
Qed.

Lemma tierField_rejects (rawData : Json.t) (r : Http.Response Customer) :
  CustomerByIdRoute.tierField rawData = inl r ->
  Http.status r = 400 /\ Http.success r = false /\ Http.data r = None.
Proof.
  unfold CustomerByIdRoute.tierField.
  destruct (Json.get rawData "subscriptionTier") as [raw|]; [|discriminate].
  destruct (validateSubscriptionTier (Some raw)); [discriminate|].
  intros H; injection H as <-; repeat split.
Qed.

Lemma domainsField_rejects (rawData : Json.t) (r : Http.Response Customer) :
  CustomerByIdRoute.domainsField rawData = inl r ->
  Http.status r = 400 /\ Http.success r = false /\ Http.data r = None.
Proof.
  unfold CustomerByIdRoute.domainsField.
  destruct (Json.get rawData "domains") as [[| | | |items|]|];
    try discriminate; try (intros H; injection H as <-; repeat split).
  destruct (10 <? List.length items)%nat; [|discriminate].
  intros H; injection H as <-; repeat split.
Qed.

Lemma healthScoreField_rejects (rawData : Json.t) (r : Http.Response Customer) :
  CustomerByIdRoute.healthScoreField rawData = inl r ->
  Http.status r = 400 /\ Http.success r = false /\ Http.data r = None.
Proof.
  unfold CustomerByIdRoute.healthScoreField.
  destruct (Json.get rawData "healthScore") as [raw|]; [|discriminate].
  destruct (validateHealthScore (Some raw)); [discriminate|].
  intros H; injection H as <-; repeat split.
Qed.

Lemma updateInput_rejects (body : option Json.t) (r : Http.Response Customer) :
  CustomerByIdRoute.updateInput body = inl r ->
  Http.status r = 400 /\ Http.success r = false /\ Http.data r = None.
Proof.
  unfold CustomerByIdRoute.updateInput, CustomerByIdRoute.next.
  destruct body as [rawData|];
    [|intros H; injection H as <-; repeat split].
  destruct (negb (Json.truthy rawData) || negb (Json.isObject rawData));
    [intros H; injection H as <-; repeat split|].
  destruct (CustomerByIdRoute.nameField rawData) as [x|name] eqn:Hname;
    [intros H; injection H as <-; exact (nameField_rejects _ _ Hname)|].
  destruct (CustomerByIdRoute.companyField rawData) as [x|company] eqn:Hcompany;
    [intros H; injection H as <-; exact (companyField_rejects _ _ Hcompany)|].
  destruct (CustomerByIdRoute.emailField rawData) as [x|email] eqn:Hemail;
    [intros H; injection H as <-; exact (emailField_rejects _ _ Hemail)|].
  destruct (CustomerByIdRoute.tierField rawData) as [x|tier] eqn:Htier;
    [intros H; injection H as <-; exact (tierField_rejects _ _ Htier)|].
  destruct (CustomerByIdRoute.domainsField rawData) as [x|domains] eqn:Hdomains;
    [intros H; injection H as <-; exact (domainsField_rejects _ _ Hdomains)|].
  destruct (CustomerByIdRoute.healthScoreField rawData) as [x|healthScore]
    eqn:HhealthScore;
    [intros H; injection H as <-;
     exact (healthScoreField_rejects _ _ HhealthScore)|].
  cbv zeta. destruct (_ =? 0)%nat; [|discriminate].
  intros H; injection H as <-; repeat split.
Qed.

Lemma PUT_unfold (stamp now : Z) (id customerId : string)
  (body : option Json.t) (s : State) (input : CustomerUpdateInput) :
  sanitizeId id = Some customerId ->
  CustomerByIdRoute.updateInput body = inr input ->
  CustomerByIdRoute.PUT stamp now id body s
  = (respond (fst (updateCustomer stamp now customerId input s))
       "Failed to update customer"
       (updateStatus (code (fst (updateCustomer stamp now customerId input s))))
       (data (fst (updateCustomer stamp now customerId input s))) 200,
     snd (updateCustomer stamp now customerId input s)).
Proof.
  intros Hid H. unfold CustomerByIdRoute.PUT. rewrite Hid, H.
  destruct (updateCustomer stamp now customerId input s). reflexivity.
Qed.

(** ** What a request does to the state *)

Section Requests.

Variable localeCompare : string -> string -> Z.
Variable toISOString : Z -> string.

Lemma getCustomerById_state (id : string) (s : State) :
  snd (getCustomerById id s) = s.
Proof.
  unfold getCustomerById, throwIf. unfold_body.
  destruct (isBlank id); [reflexivity|]. destruct (find _ _); reflexivity.
Qed.

Lemma searchCustomers_state (term : string) (s : State) :
  snd (searchCustomers term s) = s /\ success (fst (searchCustomers term s)) = true.
Proof.
  unfold searchCustomers. unfold_body. destruct (isBlank term); split; reflexivity.
Qed.

Lemma serve_Effect (request : Request) (s : State) :
  Effect s (snd (serve localeCompare toISOString request s)).
Proof.
  destruct request as [q|now body|id|stamp now id body|id|q];
    unfold serve; cbn [snd].
  - unfold CustomersRoute.GET.
    destruct (CustomersRoute.invalidRange _); [constructor|].
    rewrite getCustomers_unfold. constructor.
  - destruct (CustomersRoute.createInput body) as [r|input] eqn:Hinput.
    + unfold CustomersRoute.POST. rewrite Hinput. constructor.
    + rewrite (POST_unfold now body s input Hinput). cbn [snd].
      exact (Created s now body input Hinput).
  - unfold CustomerByIdRoute.GET. destruct (sanitizeId id) as [cid|];
      [|constructor].
    pose proof (getCustomerById_state cid s) as H.
    destruct (getCustomerById cid s) as [result s']. cbn [snd] in *.
    subst s'. constructor.
  - destruct (sanitizeId id) as [cid|] eqn:Hid.
    + destruct (CustomerByIdRoute.updateInput body) as [r|input] eqn:Hinput.
      * unfold CustomerByIdRoute.PUT. rewrite Hid, Hinput. constructor.
      * rewrite (PUT_unfold stamp now id cid body s input Hid Hinput).
        cbn [snd]. exact (Updated s stamp now cid body input Hinput).
    + unfold CustomerByIdRoute.PUT. rewrite Hid. constructor.
  - unfold CustomerByIdRoute.DELETE. destruct (sanitizeId id) as [cid|];
      [|constructor].
    pose proof (Removed s cid) as H.
    destruct (deleteCustomer cid s) as [result s']. exact H.
  - unfold SearchRoute.GET.
    destruct (present _) as [raw|]; [|constructor].
    destruct (SearchRoute.sanitizeSearchTerm _) as [term|]; [|constructor].
    destruct (_ <? 2)%nat; [constructor|].
    destruct (SearchRoute.isSuspicious raw); [constructor|].
    pose proof (searchCustomers_state term s) as [H _].
    destruct (searchCustomers term s) as [result s']. cbn [snd] in *.
    subst s'. constructor.
Qed.

Lemma serveAll_invariant (P : State -> Prop) :
  (forall s s', P s -> Effect s s' -> P s') ->
  forall requests s, P s -> P (serveAll localeCompare toISOString requests s).
Proof.
  intros Hstep requests.
  induction requests as [|request requests IH]; intros s Hs; [exact Hs|].
  unfold serveAll. cbn [fold_left]. apply IH.
  exact (Hstep s _ Hs (serve_Effect request s)).
Qed.

End Requests.

Lemma Effect_Step (s s' : State) : Effect s s' -> Step s s'.
Proof.
  intros [|now body input _|stamp now cid body input _|cid].
  - constructor.
  - destruct (createCustomer_state now input s) as [->|[Hok ->]];
      [constructor | apply StepCreate; exact Hok].
  - destruct (updateCustomer_state stamp now cid input s)
      as [->|(before & existing & after & Hcs & Hid & Hb & Hp & ->)];
      [constructor|]. cbn [snd]. subst cid.
    exact (StepUpdate s stamp now input before after existing Hcs Hb Hp).
  - destruct (deleteCustomer_state cid s)
      as [->|(before & existing & after & Hcs & _ & _ & _ & ->)];
      [constructor|]. cbn [snd].
    exact (StepDelete s before after existing Hcs).
Qed.

(** The routes hand no [NaN] to the service: the score of a body is a JSON
    number, and passes [validateHealthScore]. *)
Lemma ScoresInRange_Effect (s s' : State) :
  ScoresInRange s -> Effect s s' -> ScoresInRange s'.
Proof.
  intros Hs [|now body input _|stamp now cid body input Hinput|cid].
  - exact Hs.
  - apply ScoresInRange_create. exact Hs.
  - apply ScoresInRange_update; [|exact Hs]. intros Hnan.
    destruct (updateInput_spec _ _ Hinput)
      as (rawData & _ & _ & _ & _ & _ & _ & _ & _ & _ & Hscore).
    exact (Hscore _ Hnan).
  - apply ScoresInRange_delete. exact Hs.
Qed.

Lemma Consistent_Effect (s s' : State) :
  Consistent s -> Effect s s' -> Consistent s'.
Proof.
  intros Hs [|now body input Hinput|stamp now cid body input Hinput|cid].
  - exact Hs.
  - apply Consistent_create; [exact Hs|]. intros e He.
    destruct (createInput_spec _ _ Hinput)
      as (rawData & _ & _ & _ & _ & _ & _ & _ & Heq & _).
    rewrite Heq in He. apply (sanitizeEmail_spec _ _ He).
  - apply Consistent_update; [exact Hs|]. intros e He.
    destruct (updateInput_spec _ _ Hinput)
      as (rawData & _ & _ & _ & _ & _ & Heq & _).
    rewrite Heq in He. apply (sanitizeEmail_spec _ _ He).
  - apply Consistent_delete. exact Hs.
Qed.

Lemma LowerEmails_Effect (s s' : State) :
  LowerEmails s -> Effect s s' -> LowerEmails s'.
Proof.
  unfold LowerEmails.
  intros Hs [|now body input Hinput|stamp now cid body input Hinput|cid].
  - exact Hs.
  - destruct (createInput_spec _ _ Hinput)
      as (rawData & _ & _ & _ & _ & _ & _ & _ & Heq & _).
    destruct (createCustomer_state now input s) as [->|[_ ->]]; [exact Hs|].
    cbn [customers]. intros c e Hc He.
    apply in_app_or in Hc as [Hc|[<-|[]]]; [exact (Hs c e Hc He)|].
    cbn [newCustomer Customer.email] in He. rewrite Heq in He.
    destruct (sanitizeEmail (Json.get rawData "email")) as [x|] eqn:Hx;
      [|discriminate].
    destruct (sanitizeEmail_spec _ _ Hx) as (_ & Hlow & Htrim & _).
    cbn [option_map] in He. rewrite Htrim in He. injection He as <-. exact Hlow.
  - destruct (updateInput_spec _ _ Hinput)
      as (rawData & _ & _ & _ & _ & _ & Heq & _).
    destruct (updateCustomer_state stamp now cid input s)
      as [->|(before & existing & after & Hcs & _ & _ & _ & ->)]; [exact Hs|].
    cbn [snd customers]. rewrite Hcs in Hs. intros c e Hc He.
    apply in_app_or in Hc as [Hc|[<-|Hc]].
    + apply (Hs c e); [apply in_or_app; left; exact Hc | exact He].
    + rewrite updatedCustomer_email, Heq in He.
      destruct (sanitizeEmail (Json.get rawData "email")) as [x|] eqn:Hx.
      * destruct (sanitizeEmail_spec _ _ Hx) as (_ & Hlow & Htrim & _).
        cbn [option_map orKeep] in He. rewrite Htrim in He.
        injection He as <-. exact Hlow.
      * cbn [option_map orKeep] in He.
        apply (Hs existing e); [|exact He].
        apply in_or_app. right. left. reflexivity.
    + apply (Hs c e); [|exact He]. apply in_or_app. right. right. exact Hc.
  - destruct (deleteCustomer_state cid s)
      as [->|(before & existing & after & Hcs & _ & _ & _ & ->)]; [exact Hs|].
    cbn [snd customers]. rewrite Hcs in Hs. intros c e Hc He.
    apply (Hs c e); [|exact He].
    apply in_app_or in Hc as [Hc|Hc]; apply in_or_app;
      [left | right; right]; exact Hc.
Qed.

(** [X17] Through the routes, emails are unique whatever the letter case.
    From a state with distinct issued ids whose emails are pairwise distinct
    and in lower case, such as the empty collection, any sequence of
    requests to the routes leads to a state in which no two customers have
    emails that are equal when the letter case is ignored: the routes hand
    emails to the service in lower case and without surrounding white
    space, and the service compares them exactly. *)
Theorem emails_are_unique_ignoring_case_through_the_routes :
  forall (localeCompare : string -> string -> Z) (toISOString : Z -> string)
         (requests : list Request) (s : State),
    Consistent s -> LowerEmails s ->
    let s' := serveAll localeCompare toISOString requests s in
    Consistent s' /\ LowerEmails s'
    /\ forall (i j : nat) (a b : Customer) (ea eb : string),
         i <> j ->
         nth_error (customers s') i = Some a ->
         nth_error (customers s') j = Some b ->
         Customer.email a = Some ea -> ea <> ""%string ->
         Customer.email b = Some eb ->
         sameEmailIgnoringCase ea eb = false.
Proof.
  intros lc iso requests s Hs Hlow s'.
  assert (Hs' : Consistent s')
    by (apply (serveAll_invariant lc iso Consistent);
        [exact Consistent_Effect | exact Hs]).
  assert (Hlow' : LowerEmails s')
    by (apply (serveAll_invariant lc iso LowerEmails);
        [exact LowerEmails_Effect | exact Hlow]).
  split; [exact Hs'|]. split; [exact Hlow'|].
  intros i j a b ea eb Hij Ha Hb Hea Hne Heb.
  unfold sameEmailIgnoringCase. apply String.eqb_neq. intros Heq.
  rewrite (Hlow' a ea (nth_error_In _ _ Ha) Hea) in Heq.
  rewrite (Hlow' b eb (nth_error_In _ _ Hb) Heb) in Heq. subst eb.
  exact (emails_pairwise_distinct _ (emails_distinct _ Hs')
           i j a b ea Hij Ha Hb Hea Hne Heb).
Qed.

Lemma updatedCustomer_name (stamp now : Z) (existing : Customer)
  (input : CustomerUpdateInput) :
  (forall n, UpdateInput.name input = Some n -> n <> ""%string) ->
  Customer.name (updatedCustomer stamp now existing input)
  = orElse (option_map JS.trim (UpdateInput.name input)) (Customer.name existing).
Proof.
  intros Hn. unfold updatedCustomer, recalculate.
  destruct (touchesScoreInputs input);
    cbn [withHealthScore ensureTrimmed spreadPatch Customer.name];
    destruct (UpdateInput.name input) as [n|] eqn:Heq;
    cbn [trimmedOr option_map orElse]; try reflexivity;
    rewrite (proj2 (truthy_true n) (Hn n eq_refl)); reflexivity.
Qed.

Lemma updatedCustomer_company (stamp now : Z) (existing : Customer)
  (input : CustomerUpdateInput) :
  (forall n, UpdateInput.company input = Some n -> n <> ""%string) ->
  Customer.company (updatedCustomer stamp now existing input)
  = orElse (option_map JS.trim (UpdateInput.company input))
      (Customer.company existing).
Proof.
  intros Hn. unfold updatedCustomer, recalculate.
  destruct (touchesScoreInputs input);
    cbn [withHealthScore ensureTrimmed spreadPatch Customer.company];
    destruct (UpdateInput.company input) as [n|] eqn:Heq;
    cbn [trimmedOr option_map orElse]; try reflexivity;
    rewrite (proj2 (truthy_true n) (Hn n eq_refl)); reflexivity.
Qed.

Lemma updatedCustomer_subscriptionTier (stamp now : Z) (existing : Customer)
  (input : CustomerUpdateInput) :
  Customer.subscriptionTier (updatedCustomer stamp now existing input)
  = orKeep (UpdateInput.subscriptionTier input)
      (Customer.subscriptionTier existing).
Proof.
  unfold updatedCustomer, recalculate.
  destruct (touchesScoreInputs input); reflexivity.
Qed.

Lemma option_map_trim_sanitizeEmail (input : option Json.t) :
  option_map JS.trim (sanitizeEmail input) = sanitizeEmail input.
Proof.
  destruct (sanitizeEmail input) as [e|] eqn:He; [|reflexivity].
  destruct (sanitizeEmail_spec _ _ He) as (_ & _ & Htrim & _).
  cbn [option_map]. rewrite Htrim. reflexivity.
Qed.

(** [X18] What [PUT /api/customers/[id]] stores.  A successful update is
    answered 200 and replaces, in place, the first customer whose id is
    the sanitised id.  Name and company become the sanitised values of the
    body, trimmed, and stay as they are when the body has none; the tier
    becomes the tier of the body.  The email becomes what [sanitizeEmail]
    makes of the email of the body and stays as it is otherwise: a body
    whose email is [null] or the empty string is accepted, and the stored
    email is not cleared by it. *)
Theorem put_stores_the_sanitised_fields :
  forall (stamp now : Z) (id : string) (body : option Json.t) (s : State)
         (c : Customer),
    Http.data (fst (CustomerByIdRoute.PUT stamp now id body s)) = Some c ->
    exists rawData customerId before existing after,
      body = Some rawData
      /\ sanitizeId id = Some customerId
      /\ customers s = before ++ existing :: after
      /\ Customer.id existing = customerId
      /\ ~ In customerId (map Customer.id before)
      /\ customers (snd (CustomerByIdRoute.PUT stamp now id body s))
         = before ++ c :: after
      /\ Http.status (fst (CustomerByIdRoute.PUT stamp now id body s)) = 200
      /\ Customer.id c = customerId
      /\ Customer.name c
         = orElse (option_map JS.trim (sanitizeString (Json.get rawData "name")))
             (Customer.name existing)
      /\ Customer.company c
         = orElse
             (option_map JS.trim (sanitizeString (Json.get rawData "company")))
             (Customer.company existing)
      /\ Customer.subscriptionTier c
         = orKeep (validateSubscriptionTier (Json.get rawData "subscriptionTier"))
             (Customer.subscriptionTier existing)
      /\ Customer.email c
         = orKeep (sanitizeEmail (Json.get rawData "email"))
             (Customer.email existing)
      /\ (Json.get rawData "email" = Some Json.Null
          \/ Json.get rawData "email" = Some (Json.Str "") ->
          Customer.email c = Customer.email existing).
Proof.
  intros stamp now id body s c.
  destruct (sanitizeId id) as [cid|] eqn:Hid;
    [|unfold CustomerByIdRoute.PUT; rewrite Hid; discriminate].
  destruct (CustomerByIdRoute.updateInput body) as [r|input] eqn:Hinput.
  { unfold CustomerByIdRoute.PUT. rewrite Hid, Hinput. cbn [fst]. intros H.
    destruct (updateInput_rejects _ _ Hinput) as (_ & _ & Hd). congruence. }
  rewrite (PUT_unfold stamp now id cid body s input Hid Hinput).
  destruct (updateInput_spec _ _ Hinput)
    as (rawData & -> & Hn & Hn' & Hc & Hc' & He & _ & Ht & _).
  cbn [fst snd]. intros Hdata.
  apply respond_data in Hdata as (Hok & Hdata & ->).
  destruct (updateCustomer_success _ _ _ _ _ Hok)
    as (before & existing & after & Hcs & Hex & Hb & _ & _ & _ & Heq).
  rewrite Heq in Hdata |- *. cbn [fst snd succeed data customers] in Hdata |- *.
  injection Hdata as <-.
  exists rawData, cid, before, existing, after.
  split; [reflexivity|]. split; [reflexivity|]. split; [exact Hcs|].
  split; [exact Hex|]. split; [exact (not_in_ids_forallb cid before Hb)|].
  split; [reflexivity|]. split; [reflexivity|].
  split; [rewrite updatedCustomer_id; exact Hex|].
  split; [rewrite updatedCustomer_name, Hn;
          [reflexivity | intros n H; apply (Hn' n H)]|].
  split; [rewrite updatedCustomer_company, Hc;
          [reflexivity | intros n H; apply (Hc' n H)]|].
  split; [rewrite updatedCustomer_subscriptionTier, Ht; reflexivity|].
  assert (Hemail : Customer.email (updatedCustomer stamp now existing input)
                   = orKeep (sanitizeEmail (Json.get rawData "email"))
                       (Customer.email existing)).
  { rewrite updatedCustomer_email, He, option_map_trim_sanitizeEmail.
    reflexivity. }
  split; [exact Hemail|].
  intros [Hraw|Hraw]; rewrite Hemail, Hraw; reflexivity.
Qed.

(** ** The status of an answer *)

Lemma respond_ok {T U : Type} (result : ServiceResponse T) (fallback : string)
  (status : Z) (payload : option U) (okStatus : Z) :
  success result = true ->
  respond result fallback status payload okStatus
  = createSuccessResponse payload okStatus.
Proof. intros H. unfold respond. rewrite H. reflexivity. Qed.

Lemma respond_failed {T U : Type} (result : ServiceResponse T)
  (fallback : string) (status : Z) (payload : option U) (okStatus : Z) :
  success result = false ->
  Http.status (respond result fallback status payload okStatus) = status
  /\ Http.success (respond result fallback status payload okStatus) = false
  /\ Http.data (respond result fallback status payload okStatus) = None.
Proof. intros H. unfold respond. rewrite H. repeat split. Qed.

Lemma createCustomer_answers (now : Z) (input : CustomerCreateInput) (s : State) :
  success (fst (createCustomer now input s)) = true
  \/ failsWith (createCustomer now input s) s [VALIDATION_ERROR; DUPLICATE_ERROR].
Proof.
  unfold failsWith. rewrite createCustomer_unfold.
  destruct (validateCustomerInput_spec input)
    as [[_ ->]|[_ (err & -> & msg & ->)]].
  - destruct (checkDuplicateEmail _ _) as [[]|e] eqn:Hdup; [left; reflexivity|].
    apply checkDuplicateEmail_throws in Hdup as (v & _ & ->).
    right. repeat split. exists DUPLICATE_ERROR.
    split; [reflexivity | right; left; reflexivity].
  - right. repeat split. exists VALIDATION_ERROR.
    split; [reflexivity | left; reflexivity].
Qed.

Lemma checkDuplicateEmailExcept_throws (id : string) (email : option string)
  (cs : list Customer) (e : Thrown) :
  checkDuplicateEmailExcept id email cs = Throw e ->
  exists v, e = ServiceError (DuplicateError "email" v).
Proof.
  unfold checkDuplicateEmailExcept, throwIf. destruct email as [v|]; [|discriminate].
  destruct (_ && _); [|discriminate].
  intros H; injection H as <-. exists v; reflexivity.
Qed.

Lemma updateCustomer_answers (stamp now : Z) (id : string)
  (input : CustomerUpdateInput) (s : State) :
  success (fst (updateCustomer stamp now id input s)) = true
  \/ failsWith (updateCustomer stamp now id input s) s
       [VALIDATION_ERROR; NOT_FOUND; DUPLICATE_ERROR].
Proof.
  unfold failsWith. rewrite updateCustomer_unfold.
  destruct (isBlank id).
  { right. repeat split. exists VALIDATION_ERROR.
    split; [reflexivity | left; reflexivity]. }
  destruct (JS.findIndex _ _) as [i|] eqn:Hfind.
  2:{ right. repeat split. exists NOT_FOUND.
      split; [reflexivity | right; left; reflexivity]. }
  destruct (findIndex_Some _ _ _ Hfind) as (before & x & after & Hcs & Hlen & _).
  destruct (validateCustomerUpdateInput_spec input)
    as [[_ ->]|[_ (err & -> & msg & ->)]].
  - destruct (checkDuplicateEmailExcept _ _ _) as [[]|e] eqn:Hdup.
    + left.
      assert (Hnth : nth_error (customers s) i = Some x)
        by (rewrite Hcs, <- Hlen; apply nth_error_middle).
      rewrite Hnth. reflexivity.
    + apply checkDuplicateEmailExcept_throws in Hdup as (v & ->).
      right. repeat split. exists DUPLICATE_ERROR.
      split; [reflexivity | right; right; left; reflexivity].
  - right. repeat split. exists VALIDATION_ERROR.
    split; [reflexivity | left; reflexivity].
Qed.

Lemma deleteCustomer_answers (id : string) (s : State) :
  success (fst (deleteCustomer id s)) = true
  \/ failsWith (deleteCustomer id s) s [VALIDATION_ERROR; NOT_FOUND].
Proof.
  unfold failsWith. rewrite deleteCustomer_unfold.
  destruct (isBlank id).
  { right. repeat split. exists VALIDATION_ERROR.
    split; [reflexivity | left; reflexivity]. }
  destruct (JS.findIndex _ _) as [i|]; [left; reflexivity|].
  right. repeat split. exists NOT_FOUND.
  split; [reflexivity | right; left; reflexivity].
Qed.

Lemma getCustomerById_answers (id : string) (s : State) :
  success (fst (getCustomerById id s)) = true
  \/ failsWith (getCustomerById id s) s [VALIDATION_ERROR; NOT_FOUND].
Proof.
  unfold failsWith, getCustomerById, throwIf. unfold_body.
  destruct (isBlank id).
  { right. repeat split. exists VALIDATION_ERROR.
    split; [reflexivity | left; reflexivity]. }
  destruct (find _ _); [left; reflexivity|].
  right. repeat split. exists NOT_FOUND.
  split; [reflexivity | right; left; reflexivity].
Qed.

Ltac one_of_the_codes H :=
  repeat (destruct H as [<-|H]; [cbn; tauto|]); destruct H.

(** [X19] The statuses of the routes.  Every request to the three routes
    is answered 200, 201, 400, 404 or 409, and never 500: the service does
    not run into an internal error.  A request answered 400, 404 or 409
    leaves the collection and the id counter as they were, and so does
    every request that only reads. *)
Theorem routes_answer_no_500 :
  forall (localeCompare : string -> string -> Z) (toISOString : Z -> string)
         (request : Request) (s : State),
    let r := serve localeCompare toISOString request s in
    In (fst r) [200; 201; 400; 404; 409]
    /\ (In (fst r) [400; 404; 409] -> snd r = s)
    /\ (readsOnly request = true -> snd r = s).
Proof.
  intros lc iso request s r. subst r.
  destruct request as [q|now body|id|stamp now id body|id|q];
    unfold serve; cbn [fst snd readsOnly].
  - unfold CustomersRoute.GET.
    destruct (CustomersRoute.invalidRange _); [cbn; tauto|].
    rewrite getCustomers_unfold. cbn. tauto.
  - destruct (CustomersRoute.createInput body) as [x|input] eqn:Hinput.
    + unfold CustomersRoute.POST. rewrite Hinput. cbn [fst snd].
      destruct (createInput_rejects _ _ Hinput) as (-> & _). cbn. tauto.
    + rewrite (POST_unfold now body s input Hinput). cbn [fst snd].
      destruct (createCustomer_answers now input s)
        as [Hok|(Hfail & Hs & c & Hc & Hin)].
      * rewrite (respond_ok _ _ _ _ _ Hok). cbn.
        split; [tauto|]. split; [|discriminate].
        intros [H|[H|[H|[]]]]; discriminate H.
      * destruct (respond_failed (fst (createCustomer now input s))
                    "Failed to create customer"
                    (createStatus (code (fst (createCustomer now input s))))
                    (data (fst (createCustomer now input s))) 201 Hfail)
          as (-> & _).
        rewrite Hc, Hs. one_of_the_codes Hin.
  - unfold CustomerByIdRoute.GET.
    destruct (sanitizeId id) as [cid|]; [|cbn; tauto].
    pose proof (getCustomerById_state cid s) as Hstate.
    destruct (getCustomerById_answers cid s)
      as [Hok|(Hfail & Hs & c & Hc & Hin)];
      destruct (getCustomerById cid s) as [result s'];
      cbn [fst snd] in *; subst s'.
    + rewrite (respond_ok _ _ _ _ _ Hok). cbn. tauto.
    + destruct (respond_failed result "Failed to retrieve customer"
                  (byIdStatus (code result)) (data result) 200 Hfail)
        as (-> & _).
      rewrite Hc. one_of_the_codes Hin.
  - destruct (sanitizeId id) as [cid|] eqn:Hid;
      [|unfold CustomerByIdRoute.PUT; rewrite Hid; cbn; tauto].
    destruct (CustomerByIdRoute.updateInput body) as [x|input] eqn:Hinput.
    + unfold CustomerByIdRoute.PUT. rewrite Hid, Hinput. cbn [fst snd].
      destruct (updateInput_rejects _ _ Hinput) as (-> & _). cbn. tauto.
    + rewrite (PUT_unfold stamp now id cid body s input Hid Hinput).
      cbn [fst snd].
      destruct (updateCustomer_answers stamp now cid input s)
        as [Hok|(Hfail & Hs & c & Hc & Hin)].
      * rewrite (respond_ok _ _ _ _ _ Hok). cbn.
        split; [tauto|]. split; [|discriminate].
        intros [H|[H|[H|[]]]]; discriminate H.
      * destruct (respond_failed
                    (fst (updateCustomer stamp now cid input s))
                    "Failed to update customer"
                    (updateStatus
                       (code (fst (updateCustomer stamp now cid input s))))
                    (data (fst (updateCustomer stamp now cid input s))) 200
                    Hfail)
          as (-> & _).
        rewrite Hc, Hs. one_of_the_codes Hin.
  - unfold CustomerByIdRoute.DELETE.
    destruct (sanitizeId id) as [cid|]; [|cbn; tauto].
    destruct (deleteCustomer_answers cid s)
      as [Hok|(Hfail & Hs & c & Hc & Hin)];
      destruct (deleteCustomer cid s) as [result s']; cbn [fst snd] in *.
    + rewrite (respond_ok _ _ _ _ _ Hok). cbn.
      split; [tauto|]. split; [|discriminate].
      intros [H|[H|[H|[]]]]; discriminate H.
    + destruct (respond_failed result "Failed to delete customer"
                  (byIdStatus (code result))
                  (Some {| CustomerByIdRoute.deleted := true;
                           CustomerByIdRoute.id := cid |}) 200 Hfail)
        as (-> & _).
      rewrite Hc, Hs. one_of_the_codes Hin.
  - unfold SearchRoute.GET.
    destruct (present _) as [raw|]; [|cbn; tauto].
    destruct (SearchRoute.sanitizeSearchTerm _) as [term|]; [|cbn; tauto].
    destruct (_ <? 2)%nat; [cbn; tauto|].
    destruct (SearchRoute.isSuspicious raw); [cbn; tauto|].
    destruct (searchCustomers_state term s) as [Hs Hok].
    destruct (searchCustomers term s) as [result s']. cbn [fst snd] in *.
    subst s'. rewrite (respond_ok _ _ _ _ _ Hok). cbn. tauto.
Qed.

(** ** The routes for one customer *)

Lemma getCustomerById_unfold (id : string) (s : State) :
  getCustomerById id s =
  if isBlank id
  then (handleError (ServiceError (ValidationError "Customer ID is required")), s)
  else
    match find (fun c => String.eqb (Customer.id c) id) (customers s) with
    | Some customer => (succeed customer, s)
    | None => (handleError (ServiceError (NotFoundError id)), s)
    end.
Proof.
  unfold getCustomerById, throwIf. unfold_body.
  destruct (isBlank id); [reflexivity|]. destruct (find _ _); reflexivity.
Qed.

Lemma allChars_nonblank (s : string) :
  s <> ""%string ->
  allChars (fun c => negb (JS.isWhiteSpace c)) s = true ->
  isBlank s = false.
Proof.
  intros Hne Hs. destruct s as [|c r]; [contradiction|].
  cbn [allChars] in Hs. apply andb_true_iff in Hs as [Hc _].
  apply negb_true_iff in Hc. apply isBlank_String. exact Hc.
Qed.

(** What [sanitizeId] lets through: at most 50 letters, digits, dashes and
    underscores, and at least one; never a blank id. *)
Lemma sanitizeId_spec (id customerId : string) :
  sanitizeId id = Some customerId ->
  customerId <> ""%string
  /\ (String.length customerId <= 50)%nat
  /\ allChars isIdChar customerId = true
  /\ isBlank customerId = false.
Proof.
  unfold sanitizeId. destruct (JS.truthy id); [|discriminate].
  cbv zeta. remember (Text.substring _ 0 50) as x eqn:Hx.
  destruct (0 <? String.length x)%nat eqn:Hlen; [|discriminate].
  intros H; injection H as <-.
  assert (Hne : x <> ""%string)
    by (intros ->; discriminate Hlen).
  assert (Hchars : allChars isIdChar x = true).
  { rewrite Hx. apply substring_prefix_allChars.
    apply (allChars_weaken (fun c => negb (negb (isIdChar c))));
      [intros c Hc; rewrite negb_involutive in Hc; exact Hc|].
    apply remove_allChars. }
  split; [exact Hne|].
  split; [rewrite Hx; apply substring_prefix_length|].
  split; [exact Hchars|].
  apply allChars_nonblank; [exact Hne|].
  exact (allChars_weaken _ _ x isIdChar_no_space Hchars).
Qed.

(** An id of letters, digits, dashes and underscores, not empty and of at
    most 50 characters, passes [sanitizeId] unchanged. *)
Lemma sanitizeId_fixes (id : string) :
  id <> ""%string -> (String.length id <= 50)%nat ->
  allChars isIdChar id = true ->
  sanitizeId id = Some id.
Proof.
  intros Hne Hlen Hchars. unfold sanitizeId.
  rewrite (proj2 (truthy_true id) Hne).
  rewrite (trim_no_space id (allChars_weaken _ _ id isIdChar_no_space Hchars)).
  rewrite remove_none.
  2:{ apply (allChars_weaken isIdChar); [|exact Hchars].
      intros c Hc. rewrite negb_involutive. exact Hc. }
  rewrite (substring_prefix_all id 50 Hlen).
  destruct id as [|c r]; [contradiction | reflexivity].
Qed.

Lemma string_of_uint_digits (u : Decimal.uint) :
  allChars Text.isDigit (NilEmpty.string_of_uint u) = true.
Proof. induction u; cbn [NilEmpty.string_of_uint allChars]; auto. Qed.

Lemma toString_isIdChar (n : nat) : allChars isIdChar (JS.toString n) = true.
Proof.
  apply (allChars_weaken Text.isDigit); [exact isDigit_isIdChar|].
  apply string_of_uint_digits.
Qed.

Lemma toString_nonempty (n : nat) : JS.toString n <> ""%string.
Proof.
  destruct (toString_starts_with_digit n) as (c & r & -> & _). discriminate.
Qed.

Lemma in_ids_dec (id : string) (cs : list Customer) :
  In id (map Customer.id cs) \/ ~ In id (map Customer.id cs).
Proof.
  destruct (in_dec string_dec id (map Customer.id cs)); [left | right]; assumption.
Qed.

Lemma find_id (id : string) (cs : list Customer) :
  In id (map Customer.id cs) ->
  exists before c after,
    cs = before ++ c :: after
    /\ Customer.id c = id
    /\ forallb (fun x => negb (String.eqb (Customer.id x) id)) before = true.
Proof.
  induction cs as [|x cs IH]; [intros []|].
  intros Hin. destruct (String.eqb (Customer.id x) id) eqn:Hx.
  - exists [], x, cs. apply String.eqb_eq in Hx. repeat split. exact Hx.
  - cbn [map] in Hin. destruct Hin as [Habs|Hin];
      [apply String.eqb_eq in Habs; congruence|].
    destruct (IH Hin) as (before & c & after & -> & Hc & Hb).
    exists (x :: before), c, after. repeat split; [exact Hc|].
    cbn [forallb]. rewrite Hx, Hb. reflexivity.
Qed.

Lemma byId_found (id customerId : string) (s : State)
  (before after : list Customer) (c : Customer) :
  sanitizeId id = Some customerId ->
  customers s = before ++ c :: after ->
  Customer.id c = customerId ->
  forallb (fun x => negb (String.eqb (Customer.id x) customerId)) before = true ->
  CustomerByIdRoute.GET id s = (createSuccessResponse (Some c) 200, s)
  /\ CustomerByIdRoute.DELETE id s
     = (createSuccessResponse
          (Some {| CustomerByIdRoute.deleted := true;
                   CustomerByIdRoute.id := customerId |}) 200,
        {| customers := before ++ after; nextId := nextId s |}).
Proof.
  intros Hid Hcs Hc Hb.
  destruct (sanitizeId_spec _ _ Hid) as (_ & _ & _ & Hblank).
  assert (Hp : String.eqb (Customer.id c) customerId = true)
    by (apply String.eqb_eq; exact Hc).
  unfold CustomerByIdRoute.GET, CustomerByIdRoute.DELETE. rewrite Hid.
  rewrite getCustomerById_unfold, deleteCustomer_unfold, Hblank.
  rewrite Hcs at 1 2.
  rewrite (find_middle _ before after c Hb Hp).
  rewrite (findIndex_middle _ before after c Hb Hp).
  split; [reflexivity|].
  unfold spliceAt. rewrite Hcs, splice1_middle. reflexivity.
Qed.

Lemma byId_missing (id customerId : string) (s : State) :
  sanitizeId id = Some customerId ->
  ~ In customerId (map Customer.id (customers s)) ->
  Http.status (fst (CustomerByIdRoute.GET id s)) = 404
  /\ Http.status (fst (CustomerByIdRoute.DELETE id s)) = 404
  /\ snd (CustomerByIdRoute.DELETE id s) = s.
Proof.
  intros Hid Hout.
  destruct (sanitizeId_spec _ _ Hid) as (_ & _ & _ & Hblank).
  unfold CustomerByIdRoute.GET, CustomerByIdRoute.DELETE. rewrite Hid.
  rewrite getCustomerById_unfold, deleteCustomer_unfold, Hblank.
  rewrite (find_none_id customerId _ Hout), (findIndex_none_id customerId _ Hout).
  repeat split.
Qed.

(** [X20] The routes for one customer address the sanitised id.  An id
    without a letter, digit, dash or underscore is answered 400 with
    [INVALID_ID] by all three handlers.  Any other id is reduced to at
    most 50 such characters, which is never blank, so that the service does
    not reject it: when no customer has the reduced id, read and delete
    answer 404, and so does an update whose body the route accepts; when a
    customer has it, read answers 200 with the first such customer, and
    delete answers 200 and removes that customer and no other. *)
Theorem by_id_routes_address_the_sanitised_id :
  forall (id : string) (s : State),
    (sanitizeId id = None
     /\ CustomerByIdRoute.GET id s = (CustomerByIdRoute.invalidId, s)
     /\ CustomerByIdRoute.DELETE id s = (CustomerByIdRoute.invalidId, s)
     /\ forall stamp now body,
          CustomerByIdRoute.PUT stamp now id body s
          = (CustomerByIdRoute.invalidId, s))
    \/ exists customerId,
         sanitizeId id = Some customerId
         /\ customerId <> ""%string
         /\ (String.length customerId <= 50)%nat
         /\ allChars isIdChar customerId = true
         /\ ((~ In customerId (map Customer.id (customers s))
              /\ Http.status (fst (CustomerByIdRoute.GET id s)) = 404
              /\ Http.status (fst (CustomerByIdRoute.DELETE id s)) = 404
              /\ snd (CustomerByIdRoute.DELETE id s) = s
              /\ forall stamp now body input,
                   CustomerByIdRoute.updateInput body = inr input ->
                   Http.status (fst (CustomerByIdRoute.PUT stamp now id body s))
                   = 404
                   /\ snd (CustomerByIdRoute.PUT stamp now id body s) = s)
             \/ exists before c after,
                  customers s = before ++ c :: after
                  /\ Customer.id c = customerId
                  /\ ~ In customerId (map Customer.id before)
                  /\ CustomerByIdRoute.GET id s
                     = (createSuccessResponse (Some c) 200, s)
                  /\ CustomerByIdRoute.DELETE id s
                     = (createSuccessResponse
                          (Some {| CustomerByIdRoute.deleted := true;
                                   CustomerByIdRoute.id := customerId |}) 200,
                        {| customers := before ++ after;
                           nextId := nextId s |})).
Proof.
  intros id s. destruct (sanitizeId id) as [cid|] eqn:Hid.
  2:{ left. unfold CustomerByIdRoute.GET, CustomerByIdRoute.DELETE,
        CustomerByIdRoute.PUT. rewrite Hid. repeat split. }
  right. destruct (sanitizeId_spec _ _ Hid) as (Hne & Hlen & Hchars & Hblank).
  exists cid. do 4 (split; [assumption || reflexivity|]).
  destruct (in_ids_dec cid (customers s)) as [Hin|Hout].
  - right. destruct (find_id cid _ Hin) as (before & c & after & Hcs & Hc & Hb).
    exists before, c, after.
    split; [exact Hcs|]. split; [exact Hc|].
    split; [exact (not_in_ids_forallb cid before Hb)|].
    exact (byId_found id cid s before after c Hid Hcs Hc Hb).
  - left. split; [exact Hout|].
    destruct (byId_missing id cid s Hid Hout) as (H1 & H2 & H3).
    do 3 (split; [assumption|]).
    intros stamp now body input Hinput.
    rewrite (PUT_unfold stamp now id cid body s input Hid Hinput).
    rewrite updateCustomer_unfold, Hblank, (findIndex_none_id cid _ Hout).
    split; reflexivity.
Qed.

(** [X21] Create, read, delete, read again.  When the id about to be
    issued is not taken and has at most 50 digits, a customer created
    through [POST] is returned by [GET] with its id; [DELETE] with that id
    is answered 200 and gives back the collection as it was before the
    create, the id counter one further; and [GET] is then answered 404. *)
Theorem post_then_read_then_delete :
  forall (now : Z) (body : option Json.t) (s : State) (c : Customer),
    (forall x, In x (customers s) -> Customer.id x <> JS.toString (nextId s)) ->
    (String.length (JS.toString (nextId s)) <= 50)%nat ->
    Http.data (fst (CustomersRoute.POST now body s)) = Some c ->
    let s1 := snd (CustomersRoute.POST now body s) in
    let s2 := snd (CustomerByIdRoute.DELETE (Customer.id c) s1) in
    CustomerByIdRoute.GET (Customer.id c) s1
    = (createSuccessResponse (Some c) 200, s1)
    /\ Http.status (fst (CustomerByIdRoute.DELETE (Customer.id c) s1)) = 200
    /\ customers s2 = customers s
    /\ nextId s2 = S (nextId s)
    /\ Http.status (fst (CustomerByIdRoute.GET (Customer.id c) s2)) = 404.
Proof.
  intros now body s c Hfresh Hlen Hdata s1 s2. subst s2 s1.
  destruct (CustomersRoute.createInput body) as [r|input] eqn:Hinput.
  { revert Hdata. unfold CustomersRoute.POST. rewrite Hinput. cbn [fst].
    destruct (createInput_rejects _ _ Hinput) as (_ & _ & Hd). congruence. }
  revert Hdata. rewrite (POST_unfold now body s input Hinput).
  cbn [fst snd]. intros Hdata.
  apply respond_data in Hdata as (Hok & Hdata & _).
  destruct (createCustomer_success now input s Hok) as (_ & _ & Heq).
  rewrite Heq in Hdata |- *. cbn [fst snd succeed data] in Hdata |- *.
  injection Hdata as <-.
  unfold incrementNextId, push. cbn [customers nextId].
  set (c := newCustomer now (nextId s) input).
  assert (Hc : Customer.id c = JS.toString (nextId s)) by reflexivity.
  assert (Hid : sanitizeId (Customer.id c) = Some (Customer.id c)).
  { rewrite Hc. apply sanitizeId_fixes;
      [apply toString_nonempty | exact Hlen | apply toString_isIdChar]. }
  assert (Hb : forallb (fun x => negb (String.eqb (Customer.id x) (Customer.id c)))
                 (customers s) = true).
  { apply forallb_forall. intros x Hx. apply negb_true_iff, String.eqb_neq.
    rewrite Hc. exact (Hfresh x Hx). }
  destruct (byId_found (Customer.id c) (Customer.id c)
              {| customers := customers s ++ [c]; nextId := S (nextId s) |}
              (customers s) [] c Hid eq_refl eq_refl Hb) as [Hget Hdel].
  rewrite Hget, Hdel. cbn [fst snd customers nextId Http.status
                           createSuccessResponse].
  rewrite app_nil_r.
  split; [reflexivity|]. split; [reflexivity|]. split; [reflexivity|].
  split; [reflexivity|].
  apply (byId_missing (Customer.id c) (Customer.id c)); [exact Hid|].
  cbn [customers]. exact (not_in_ids_forallb _ _ Hb).
Qed.

(** ** The list route *)

Lemma parseNumericParam_range (p : option string) (lo hi n : Z) :
  parseNumericParam p lo hi = Some n -> lo <= n <= hi.
Proof.
  unfold parseNumericParam. destruct p as [x|]; [|discriminate].
  destruct (JS.truthy x); [|discriminate].
  destruct (Text.parseInt x) as [z|]; [|discriminate].
  destruct ((lo <=? z) && (z <=? hi)) eqn:Hz; [|discriminate].
  intros H; injection H as <-. lia.
Qed.

Lemma In_firstn {A : Type} (n : nat) (xs : list A) (x : A) :
  In x (firstn n xs) -> In x xs.
Proof.
  revert xs. induction n as [|n IH]; intros [|y xs]; cbn [firstn];
    try contradiction.
  intros [Hx|Hx]; [left; exact Hx | right; apply IH; exact Hx].
Qed.

Lemma In_skipn {A : Type} (n : nat) (xs : list A) (x : A) :
  In x (skipn n xs) -> In x xs.
Proof.
  revert xs. induction n as [|n IH]; intros [|y xs]; cbn [skipn];
    try (intros Hx; exact Hx).
  intros Hx. right. apply IH. exact Hx.
Qed.

Lemma slice_In {A : Type} (xs : list A) (a b : Z) (x : A) :
  In x (JS.slice xs a b) -> In x xs.
Proof.
  unfold JS.slice. intros H. apply In_firstn in H. exact (In_skipn _ _ _ H).
Qed.

Lemma filteredSorted_In (localeCompare : string -> string -> Z)
  (toISOString : Z -> string) (options : ListOptions.t) (s : State)
  (c : Customer) :
  In c (filteredSorted localeCompare toISOString options s) ->
  In c (customers s) /\ passesFilters options c = true.
Proof.
  unfold filteredSorted, applySort. intros H.
  assert (Hin : In c (applyFilters options (customers s))).
  { destruct (ListOptions.sortBy options) as [key|]; [|exact H].
    apply (Permutation_in c (Permutation_sym (sort_Permutation _ _)) H). }
  rewrite applyFilters_passes in Hin. apply filter_In in Hin. exact Hin.
Qed.

Lemma listOptions_page (q : Query) (n : Z) :
  ListOptions.page (CustomersRoute.listOptions q) = Some n -> 1 <= n <= 1000.
Proof.
  unfold CustomersRoute.listOptions. cbn [ListOptions.page].
  destruct (parseNumericParam (param "page" q) 1 1000) as [x|] eqn:Hx;
    [|discriminate].
  destruct (x =? 0); [discriminate|]. intros H; injection H as <-.
  exact (parseNumericParam_range _ _ _ _ Hx).
Qed.

Lemma listOptions_limit (q : Query) (n : Z) :
  ListOptions.limit (CustomersRoute.listOptions q) = Some n -> 1 <= n <= 100.
Proof.
  unfold CustomersRoute.listOptions. cbn [ListOptions.limit].
  destruct (parseNumericParam (param "limit" q) 1 100) as [x|] eqn:Hx;
    [|discriminate].
  destruct (x =? 0); [discriminate|]. intros H; injection H as <-.
  exact (parseNumericParam_range _ _ _ _ Hx).
Qed.

Lemma orDefault_range (o : option Z) (d lo hi : Z) :
  lo <= d <= hi -> (forall n, o = Some n -> lo <= n <= hi) ->
  lo <= orDefault o d <= hi.
Proof.
  intros Hd Ho. unfold orDefault. destruct o as [n|]; [|exact Hd].
  destruct (n =? 0); [exact Hd | apply Ho; reflexivity].
Qed.

(** [X22] The pages of [GET /api/customers].  The route never changes the
    state.  It answers 400 with [INVALID_RANGE] when both bounds of the
    health score are given and the lower exceeds the upper; otherwise it
    answers 200 with a page whose number is within 1..1000 and whose limit
    is within 1..100, whatever the query string asks for (10 when it asks
    for nothing the route accepts); the page holds at most that many
    customers, each a customer of the collection that passes the filters
    of the query, and the bounds the route passes on lie within 0..100. *)
Theorem list_route_pages_are_bounded :
  forall (localeCompare : string -> string -> Z) (toISOString : Z -> string)
         (q : Query) (s : State),
    let options := CustomersRoute.listOptions q in
    let r := CustomersRoute.GET localeCompare toISOString q s in
    snd r = s
    /\ (forall m, ListOptions.healthScoreMin options = Some m -> 0 <= m <= 100)
    /\ (forall m, ListOptions.healthScoreMax options = Some m -> 0 <= m <= 100)
    /\ ((CustomersRoute.invalidRange options = true
         /\ Http.status (fst r) = 400
         /\ Http.code (fst r) = Some "INVALID_RANGE"%string)
        \/ (CustomersRoute.invalidRange options = false
            /\ exists p,
                 fst r = createSuccessResponse (Some p) 200
                 /\ 1 <= Pagination.page (Paginated.pagination p) <= 1000
                 /\ 1 <= Pagination.limit (Paginated.pagination p) <= 100
                 /\ Z.of_nat (List.length (Paginated.data p))
                    <= Pagination.limit (Paginated.pagination p)
                 /\ forall c, In c (Paginated.data p) ->
                              In c (customers s)
                              /\ passesFilters options c = true)).
Proof.
  intros lc iso q s options r. subst r. unfold CustomersRoute.GET.
  fold options.
  assert (Hmin : forall m, ListOptions.healthScoreMin options = Some m
                           -> 0 <= m <= 100)
    by (intros m; apply parseNumericParam_range).
  assert (Hmax : forall m, ListOptions.healthScoreMax options = Some m
                           -> 0 <= m <= 100)
    by (intros m; apply parseNumericParam_range).
  destruct (CustomersRoute.invalidRange options) eqn:Hrange.
  { split; [reflexivity|]. split; [exact Hmin|]. split; [exact Hmax|].
    left. repeat split. }
  rewrite getCustomers_unfold. cbn [fst snd].
  split; [reflexivity|]. split; [exact Hmin|]. split; [exact Hmax|].
  right. split; [reflexivity|].
  exists (paginate options (filteredSorted lc iso options s)).
  split; [reflexivity|].
  assert (Hpage : 1 <= orDefault (ListOptions.page options) 1 <= 1000)
    by (apply orDefault_range; [lia | exact (listOptions_page q)]).
  assert (Hlimit : 1 <= orDefault (ListOptions.limit options) 10 <= 100)
    by (apply orDefault_range; [lia | exact (listOptions_limit q)]).
  unfold paginate.
  cbn [Paginated.pagination Paginated.data Pagination.page Pagination.limit].
  split; [exact Hpage|]. split; [exact Hlimit|].
  split; [apply slice_length_le; lia|].
  intros c Hc. apply slice_In in Hc.
  exact (filteredSorted_In lc iso options s c Hc).
Qed.

(** ** The search route *)

Lemma allChars_false_app_l (p : ascii -> bool) (s t : string) :
  allChars p s = false -> allChars p (s ++ t)%string = false.
Proof. intros H. rewrite allChars_app, H. reflexivity. Qed.

Lemma allChars_false_app_r (p : ascii -> bool) (s t : string) :
  allChars p t = false -> allChars p (s ++ t)%string = false.
Proof. intros H. rewrite allChars_app, H. apply andb_false_r. Qed.

(** A word of a pattern that needs a character of [k] holds one. *)
Lemma Matches_needs (k : ascii -> bool) (r : Regex.t) (s : string) :
  Regex.Matches r s -> needs k r ->
  allChars (fun c => negb (k c)) s = false.
Proof.
  intros H. induction H as [|p c Hc|r1 r2 s1 s2 _ IH1 _ IH2
                            |r1 r2 s _ IH|r1 r2 s _ IH| |r s1 s2 _ IH1 _ IH2];
    cbn [needs]; intros Hn; try contradiction.
  - cbn [allChars]. rewrite (Hn c Hc). reflexivity.
  - destruct Hn as [Hn|Hn];
      [apply allChars_false_app_l, IH1 | apply allChars_false_app_r, IH2];
      exact Hn.
  - apply IH, Hn.
  - apply IH, Hn.
Qed.

(** A string of characters outside [k] holds no occurrence of such a
    pattern. *)
Lemma occurs_needs (k : ascii -> bool) (r : Regex.t) (s : string) :
  needs k r ->
  allChars (fun c => negb (k c)) s = true ->
  SearchRoute.occurs r s = false.
Proof.
  intros Hn Hs. unfold SearchRoute.occurs.
  destruct (Regex.test _ s) eqn:Ht; [|reflexivity].
  apply test_spec in Ht.
  assert (Habs : allChars (fun c => negb (k c)) s = false).
  { apply (Matches_needs k _ s Ht). cbn [needs]. right. left. exact Hn. }
  congruence.
Qed.

Lemma Matches_Star_any (s : string) :
  Regex.Matches (Regex.Star SearchRoute.any) s.
Proof.
  apply Matches_Star_Class. induction s as [|c s IH]; [reflexivity | exact IH].
Qed.

(** A string with a character of the class [p] holds an occurrence of the
    class. *)
Lemma occurs_Class (p : ascii -> bool) (s : string) :
  SearchRoute.occurs (Regex.Class p) s = false ->
  allChars (fun c => negb (p c)) s = true.
Proof.
  intros H. destruct (allChars (fun c => negb (p c)) s) eqn:Hs; [reflexivity|].
  exfalso.
  assert (Hm : Regex.Matches
                 (Regex.Seq (Regex.Star SearchRoute.any)
                    (Regex.Seq (Regex.Class p) (Regex.Star SearchRoute.any))) s).
  { clear H. induction s as [|c s IH]; [discriminate|].
    cbn [allChars] in Hs. destruct (p c) eqn:Hc.
    - change (String c s) with ("" ++ (String c "" ++ s))%string.
      constructor; [constructor|].
      constructor; [constructor; exact Hc | apply Matches_Star_any].
    - cbn [negb andb] in Hs. specialize (IH Hs).
      apply Matches_Seq_inv in IH as (a & b & -> & _ & Hb).
      change (String c (a ++ b)%string) with (String c a ++ b)%string.
      constructor; [apply Matches_Star_any | exact Hb]. }
  apply test_spec in Hm. unfold SearchRoute.occurs in H. congruence.
Qed.

Lemma isAngle_not_searchChar (c : ascii) :
  isAngle c = true -> negb (SearchRoute.isSearchChar c) = true.
Proof. each_char c. Qed.

Lemma isBrace_not_searchChar (c : ascii) :
  isBrace c = true -> negb (SearchRoute.isSearchChar c) = true.
Proof. each_char c. Qed.

Lemma colon_not_searchChar (c : ascii) :
  Ascii.eqb (JS.toLowerChar c) ":" = true ->
  negb (SearchRoute.isSearchChar c) = true.
Proof. each_char c. Qed.

Lemma equals_not_searchChar (c : ascii) :
  Ascii.eqb "=" c = true -> negb (SearchRoute.isSearchChar c) = true.
Proof. each_char c. Qed.

Lemma openBrace_not_searchChar (c : ascii) :
  Ascii.eqb "{" c = true -> negb (SearchRoute.isSearchChar c) = true.
Proof. each_char c. Qed.

Lemma dollar_not_searchChar (c : ascii) :
  Ascii.eqb "$" c = true -> negb (SearchRoute.isSearchChar c) = true.
Proof. each_char c. Qed.

(** Each of the seven patterns needs a character that is removed from a
    search term. *)
Lemma suspiciousPatterns_need :
  Forall (needs (fun c => negb (SearchRoute.isSearchChar c)))
    SearchRoute.suspiciousPatterns.
Proof.
  unfold SearchRoute.suspiciousPatterns, SearchRoute.eitherCase, Regex.chr,
    Regex.plus.
  repeat apply Forall_cons; [| | | | | | |apply Forall_nil];
    cbn [SearchRoute.literal_i needs].
  - exact isAngle_not_searchChar.
  - do 10 right. left. exact colon_not_searchChar.
  - do 4 right. left. exact colon_not_searchChar.
  - do 8 right. left. exact colon_not_searchChar.
  - right. right. exact equals_not_searchChar.
  - left. exact openBrace_not_searchChar.
  - left. exact dollar_not_searchChar.
Qed.

Lemma isSuspicious_searchChars (raw : string) :
  allChars SearchRoute.isSearchChar raw = true ->
  SearchRoute.isSuspicious raw = false.
Proof.
  intros Hraw. unfold SearchRoute.isSuspicious.
  assert (Hs : allChars
                 (fun c => negb (negb (SearchRoute.isSearchChar c))) raw = true).
  { apply (allChars_weaken SearchRoute.isSearchChar); [|exact Hraw].
    intros c Hc. rewrite negb_involutive. exact Hc. }
  pose proof suspiciousPatterns_need as Hall.
  induction Hall as [|r rs Hr _ IH]; [reflexivity|].
  cbn [existsb]. rewrite (occurs_needs _ r raw Hr Hs). exact IH.
Qed.

Lemma isSuspicious_no_angle (raw : string) :
  SearchRoute.isSuspicious raw = false ->
  allChars (fun c => negb (isAngle c)) raw = true.
Proof.
  unfold SearchRoute.isSuspicious, SearchRoute.suspiciousPatterns.
  cbn [existsb]. intros H. apply orb_false_iff in H as [H _].
  apply occurs_Class. exact H.
Qed.

Lemma sanitizeSearchTerm_spec (input : option string) (term : string) :
  SearchRoute.sanitizeSearchTerm input = Some term ->
  term <> ""%string
  /\ (String.length term <= 100)%nat
  /\ allChars SearchRoute.isSearchChar term = true.
Proof.
  unfold SearchRoute.sanitizeSearchTerm. destruct input as [x|]; [|discriminate].
  destruct (JS.truthy x); [|discriminate].
  cbv zeta. remember (Text.substring _ 0 100) as t eqn:Ht.
  destruct (0 <? String.length t)%nat eqn:Hlen; [|discriminate].
  intros H; injection H as <-.
  split; [intros ->; discriminate Hlen|].
  split; [rewrite Ht; apply substring_prefix_length|].
  rewrite Ht. apply substring_prefix_allChars.
  apply (allChars_weaken (fun c => negb (negb (SearchRoute.isSearchChar c))));
    [intros c Hc; rewrite negb_involutive in Hc; exact Hc|].
  apply remove_allChars.
Qed.

Lemma substring_prefix_short (s : string) (n m : nat) :
  (m <= n)%nat -> (m <= String.length s)%nat ->
  (m <= String.length (Text.substring s 0 n))%nat.
Proof.
  unfold Text.substring. rewrite Nat.min_0_l, Nat.max_0_l, Nat.sub_0_r.
  revert s m. induction n as [|n IH]; intros [|c s] [|m]; cbn; try lia.
  intros H1 H2. specialize (IH s m). lia.
Qed.

(** A term of allowed characters is sanitised by trimming and cutting. *)
Lemma sanitizeSearchTerm_allowed (raw : string) :
  allChars SearchRoute.isSearchChar raw = true ->
  (1 <= String.length (JS.trim raw))%nat ->
  SearchRoute.sanitizeSearchTerm (Some raw)
  = Some (Text.substring (JS.trim raw) 0 100).
Proof.
  intros Hraw Hlen. unfold SearchRoute.sanitizeSearchTerm.
  assert (Hne : raw <> ""%string) by (intros ->; cbn in Hlen; lia).
  rewrite (proj2 (truthy_true raw) Hne).
  pose proof (trim_allChars _ raw Hraw) as Htrim.
  rewrite (remove_none isAngle).
  2:{ apply (allChars_weaken SearchRoute.isSearchChar); [|exact Htrim].
      intros c Hc. destruct (isAngle c) eqn:Ha; [|reflexivity].
      apply isAngle_not_searchChar in Ha. rewrite Hc in Ha. discriminate. }
  rewrite (remove_none isBrace).
  2:{ apply (allChars_weaken SearchRoute.isSearchChar); [|exact Htrim].
      intros c Hc. destruct (isBrace c) eqn:Ha; [|reflexivity].
      apply isBrace_not_searchChar in Ha. rewrite Hc in Ha. discriminate. }
  rewrite remove_none.
  2:{ apply (allChars_weaken SearchRoute.isSearchChar); [|exact Htrim].
      intros c Hc. rewrite negb_involutive. exact Hc. }
  cbv zeta.
  pose proof (substring_prefix_short (JS.trim raw) 100 1) as Hshort.
  destruct (0 <? _)%nat eqn:Hpos; [reflexivity|].
  apply Nat.ltb_ge in Hpos. lia.
Qed.

Lemma slice_from_zero {A : Type} (xs : list A) (n : Z) :
  0 <= n -> JS.slice xs 0 n = firstn (Z.to_nat n) xs.
Proof.
  intros Hn. rewrite slice_nonneg by lia. rewrite Z.sub_0_r. reflexivity.
Qed.

Lemma searchCustomers_succeeds (term : string) (s : State) :
  exists found, searchCustomers term s = (succeed found, s).
Proof.
  unfold searchCustomers. unfold_body.
  destruct (isBlank term); eexists; reflexivity.
Qed.

(** [X23] The answers of [GET /api/customers/search].  The route never
    changes the state.  When it answers 200, the term it has searched for
    is the sanitised term, of 2 to 100 characters, each a letter, a digit,
    an underscore, white space, an at sign, a dot or a dash; the query
    held no angle bracket; the limit is within 1..100 (20 when the query
    gives none the route accepts); the results are the first customers, up
    to the limit, of what [searchCustomers] finds for the term, and the
    two counts are the number of results and the number found.  Every
    other answer is 400.  And a query is never turned down when its term
    consists of such characters and has two or more of them after
    trimming: it is answered 200. *)
Theorem search_route_returns_the_first_results :
  forall (q : Query) (s : State),
    let r := SearchRoute.GET q s in
    snd r = s
    /\ (Http.status (fst r) = 400
        \/ exists raw term found d,
             param "q" q = Some raw
             /\ SearchRoute.sanitizeSearchTerm (Some raw) = Some term
             /\ (2 <= String.length term <= 100)%nat
             /\ allChars SearchRoute.isSearchChar term = true
             /\ allChars (fun c => negb (isAngle c)) raw = true
             /\ searchCustomers term s = (succeed found, s)
             /\ fst r = createSuccessResponse (Some d) 200
             /\ SearchRoute.searchTerm d = term
             /\ 1 <= SearchRoute.limit d <= 100
             /\ SearchRoute.results d
                = firstn (Z.to_nat (SearchRoute.limit d)) found
             /\ SearchRoute.resultCount d
                = Nat.min (Z.to_nat (SearchRoute.limit d)) (List.length found)
             /\ SearchRoute.totalFound d = List.length found)
    /\ (forall raw,
           param "q" q = Some raw ->
           allChars SearchRoute.isSearchChar raw = true ->
           (2 <= String.length (JS.trim raw))%nat ->
           Http.status (fst r) = 200).
Proof.
  intros q s r. subst r. unfold SearchRoute.GET.
  assert (Hlimit : 1 <= orDefault (parseNumericParam (param "limit" q) 1 100) 20
                   <= 100).
  { apply orDefault_range; [lia|]. intros n. apply parseNumericParam_range. }
  split; [|split].
  - destruct (present _) as [raw|]; [|reflexivity].
    destruct (SearchRoute.sanitizeSearchTerm _) as [term|]; [|reflexivity].
    destruct (_ <? 2)%nat; [reflexivity|].
    destruct (SearchRoute.isSuspicious raw); [reflexivity|].
    destruct (searchCustomers_succeeds term s) as [found ->]. reflexivity.
  - destruct (present (param "q" q)) as [raw|] eqn:Hraw; [|left; reflexivity].
    apply present_Some in Hraw as [Hraw _].
    destruct (SearchRoute.sanitizeSearchTerm (Some raw)) as [term|] eqn:Hterm;
      [|left; reflexivity].
    destruct (String.length term <? 2)%nat eqn:Hlen; [left; reflexivity|].
    destruct (SearchRoute.isSuspicious raw) eqn:Hsus; [left; reflexivity|].
    destruct (searchCustomers_succeeds term s) as [found Hfound].
    rewrite Hfound. cbn [fst snd data succeed].
    rewrite respond_succeed. right.
    destruct (sanitizeSearchTerm_spec _ _ Hterm) as (_ & Hmax & Hchars).
    apply Nat.ltb_ge in Hlen.
    eexists raw, term, found, _.
    split; [exact Hraw|]. split; [exact Hterm|]. split; [lia|].
    split; [exact Hchars|]. split; [exact (isSuspicious_no_angle raw Hsus)|].
    split; [exact Hfound|]. split; [reflexivity|].
    cbn [SearchRoute.searchTerm SearchRoute.limit SearchRoute.results
         SearchRoute.resultCount SearchRoute.totalFound].
    split; [reflexivity|]. split; [exact Hlimit|].
    rewrite slice_from_zero by lia.
    split; [reflexivity|]. split; [apply length_firstn | reflexivity].
  - intros raw Hraw Hchars Hlen. rewrite Hraw.
    assert (Hne : raw <> ""%string) by (intros ->; cbn in Hlen; lia).
    unfold present. rewrite (proj2 (truthy_true raw) Hne).
    rewrite (sanitizeSearchTerm_allowed raw Hchars) by lia.
    pose proof (substring_prefix_short (JS.trim raw) 100 2) as Hshort.
    destruct (_ <? 2)%nat eqn:Hshort'; [apply Nat.ltb_lt in Hshort'; lia|].
    rewrite (isSuspicious_searchChars raw Hchars).
    destruct (searchCustomers_succeeds (Text.substring (JS.trim raw) 0 100) s)
      as [found ->].
    reflexivity.
Qed.

(** ** The invariants of the service, through the routes *)

(** [X24] Whatever requests arrive, the invariants of the collection
    hold: from a state whose health scores lie in 0..100 and whose ids are
    pairwise distinct and issued by the counter, every sequence of requests
    to the routes leads to such a state, and the id counter never
    decreases. *)
Theorem routes_keep_scores_and_ids :
  forall (localeCompare : string -> string -> Z) (toISOString : Z -> string)
         (requests : list Request) (s : State),
    ScoresInRange s -> IdsFresh s ->
    let s' := serveAll localeCompare toISOString requests s in
    ScoresInRange s' /\ IdsFresh s' /\ (nextId s <= nextId s')%nat.
Proof.
  intros lc iso requests s Hscores Hids s'. subst s'.
  split; [|split].
  - apply (serveAll_invariant lc iso ScoresInRange); [|exact Hscores].
    intros a b Ha Hab. exact (ScoresInRange_Effect a b Ha Hab).
  - apply (serveAll_invariant lc iso IdsFresh); [|exact Hids].
    intros a b Ha Hab. exact (IdsFresh_Step a b Ha (Effect_Step a b Hab)).
  - apply (serveAll_invariant lc iso (fun x => (nextId s <= nextId x)%nat));
      [|apply Nat.le_refl].
    intros a b Ha Hab. pose proof (nextId_Step a b (Effect_Step a b Hab)). lia.
Qed.

(** ** The properties at sample requests *)

Lemma LowerEmails_emptyState : LowerEmails emptyState.
Proof. intros c e []. Qed.

Lemma ScoresInRange_emptyState : ScoresInRange emptyState.
Proof. constructor. Qed.

Lemma post_created_customer_is_within_the_limits_witness :
  Http.status (fst (CustomersRoute.POST 1000 (Some annBody) emptyState)) = 201
  /\ Customer.email annCustomer = sanitizeEmail (Json.get annBody "email")
  /\ exists h, Customer.healthScore annCustomer = Score.ofZ h /\ 55 <= h <= 100.
Proof.
  destruct (post_created_customer_is_within_the_limits 1000 (Some annBody)
              emptyState annCustomer)
    as (raw & Hraw & Hstatus & _ & _ & _ & _ & _ & _ & _ & Hemail & _ & _ & _
        & Hscore); [vm_compute; reflexivity|].
  injection Hraw as <-. split; [exact Hstatus|]. split; [exact Hemail|].
  exact Hscore.
Defined.

Lemma emails_are_unique_ignoring_case_through_the_routes_witness :
  sameEmailIgnoringCase "ann@acme.com" "bob@globex.com" = false.
Proof.
  destruct (emails_are_unique_ignoring_case_through_the_routes
              (fun _ _ => 0) (fun _ => ""%string)
              [CreateCustomer 1000 (Some annBody);
               CreateCustomer 2000 (Some bobBody)]
              emptyState Consistent_emptyState LowerEmails_emptyState)
    as (_ & _ & H).
  apply (H 0%nat 1%nat annCustomer bobCreated);
    [discriminate | vm_compute; reflexivity | vm_compute; reflexivity
     | reflexivity | discriminate | reflexivity].
Defined.

Lemma put_stores_the_sanitised_fields_witness :
  Http.status
    (fst (CustomerByIdRoute.PUT 5000 5000 " 9!" (Some clearEmailBody) janeState))
  = 200
  /\ Customer.email janeAfterPut = Customer.email janeCustomer.
Proof.
  destruct (put_stores_the_sanitised_fields 5000 5000 " 9!"
              (Some clearEmailBody) janeState janeAfterPut)
    as (raw & cid & before & existing & after & Hraw & _ & Hcs & _ & _ & _
        & Hstatus & _ & _ & _ & _ & _ & Hclear); [vm_compute; reflexivity|].
  injection Hraw as <-. split; [exact Hstatus|].
  rewrite Hclear by (left; reflexivity).
  change (customers janeState) with [janeCustomer] in Hcs.
  destruct before as [|x [|y before]]; try discriminate Hcs.
  injection Hcs as <- _. reflexivity.
Defined.

Lemma post_then_read_then_delete_witness :
  customers
    (snd (CustomerByIdRoute.DELETE (Customer.id annCustomer)
            (snd (CustomersRoute.POST 1000 (Some annBody) emptyState))))
  = customers emptyState.
Proof.
  apply (post_then_read_then_delete 1000 (Some annBody) emptyState annCustomer).
  - intros x [].
  - vm_compute. lia.
  - vm_compute. reflexivity.
Defined.

Lemma search_route_returns_the_first_results_witness :
  Http.status (fst (SearchRoute.GET acmeQuery threeCustomers)) = 200.
Proof.
  destruct (search_route_returns_the_first_results acmeQuery threeCustomers)
    as (_ & _ & H).
  apply (H " ACME "%string); [reflexivity | reflexivity | vm_compute; lia].
Defined.

Lemma routes_keep_scores_and_ids_witness :
  ScoresInRange
    (serveAll (fun _ _ => 0) (fun _ => ""%string)
       [CreateCustomer 1000 (Some annBody); DeleteCustomer "9"] emptyState).
Proof.
  apply (routes_keep_scores_and_ids (fun _ _ => 0) (fun _ => ""%string)
           [CreateCustomer 1000 (Some annBody); DeleteCustomer "9"] emptyState
           ScoresInRange_emptyState IdsFresh_emptyState).
Defined.

(** A health score of 30.5 passes [validateHealthScore] and the check of
    the service, and is stored.  The statistics then count one customer,
    none of them in a health band, and report the average 31. *)
Lemma put_stores_a_fraction :
  let answer := CustomerByIdRoute.PUT 5000 5000 "9" (Some fractionBody) janeState in
  Http.status (fst answer) = 200
  /\ map Customer.healthScore (customers (snd answer)) = [Score.Real (61 # 2)]
  /\ option_map
       (fun st => (Stats.total st, Stats.healthDistribution st,
                   Stats.averageHealthScore st))
       (data (fst (getCustomerStats (snd answer))))
     = Some (1%nat,
             {| HealthDistribution.healthy := 0;
                HealthDistribution.warning := 0;
                HealthDistribution.critical := 0 |},
             Num 31).
Proof. repeat split; vm_compute; reflexivity. Qed.

(** ** What the sanitisers return, sent again *)

Lemma sanitizeString_fixes (s : string) :
  s <> ""%string -> JS.trim s = s -> plainText s ->
  (String.length s <= 1000)%nat ->
  sanitizeString (Some (Json.Str s)) = Some s.
Proof.
  intros Hne Htrim Hplain Hlen. unfold sanitizeString.
  rewrite (proj2 (truthy_true s) Hne), Htrim.
  rewrite (remove_none isAngle).
  2:{ apply (allChars_weaken isPlain); [|exact Hplain].
      intros c Hc. apply andb_true_iff in Hc as [Hc _]. exact Hc. }
  rewrite (remove_none isBrace).
  2:{ apply (allChars_weaken isPlain); [|exact Hplain].
      intros c Hc. apply andb_true_iff in Hc as [_ Hc]. exact Hc. }
  rewrite (substring_prefix_all s 1000 Hlen). reflexivity.
Qed.

Lemma isEmailChar_isPlain (c : ascii) : isEmailChar c = true -> isPlain c = true.
Proof. each_char c. Qed.

Lemma isAlnumDashDot_isPlain (c : ascii) :
  Regex.isAlnumDash c || Ascii.eqb "." c = true -> isPlain c = true.
Proof. each_char c. Qed.

Lemma keepsDomain_fixes (d : string) :
  keepsDomain (Some d) = true -> sanitizeString (Some (Json.Str d)) = Some d.
Proof.
  unfold keepsDomain. rewrite !andb_true_iff. intros [[Hne Ht] Hlen].
  apply truthy_true in Hne. apply Nat.leb_le in Hlen. apply test_spec in Ht.
  pose proof (Matches_allChars _ _ _ classesWithin_domainRegex Ht) as Hchars.
  apply sanitizeString_fixes; [exact Hne | | | lia].
  - apply trim_no_space.
    exact (allChars_weaken _ _ d isAlnumDashDot_no_space Hchars).
  - exact (allChars_weaken _ _ d isAlnumDashDot_isPlain Hchars).
Qed.

Lemma strings_kept (xs : list (option string)) :
  Forall (fun d => keepsDomain (Some d) = true) (strings (filter keepsDomain xs)).
Proof.
  induction xs as [|[d|] xs IH]; cbn [filter]; [constructor| |].
  - destruct (keepsDomain (Some d)) eqn:Hd; [|exact IH].
    cbn [strings]. constructor; [exact Hd | exact IH].
  - cbn [keepsDomain]. exact IH.
Qed.

Lemma sanitizeDomains_kept (ds : list string) :
  ds <> [] ->
  Forall (fun d => keepsDomain (Some d) = true) ds ->
  sanitizeDomains (Some (Json.Arr (map Json.Str ds))) = Some ds.
Proof.
  intros Hne Hall. unfold sanitizeDomains.
  assert (H : strings
                (filter keepsDomain
                   (map (fun domain => sanitizeString (Some domain))
                      (filter Json.isString (map Json.Str ds)))) = ds).
  { clear Hne. induction Hall as [|d ds Hd _ IH]; [reflexivity|].
    cbn [map filter Json.isString]. rewrite (keepsDomain_fixes d Hd).
    cbn [filter]. rewrite Hd. cbn [strings]. rewrite IH. reflexivity. }
  cbv zeta. rewrite H. destruct ds; [contradiction | reflexivity].
Qed.

(** [X25] What the routes return can be sent again.  An email that
    [sanitizeEmail] has let through, an id that [sanitizeId] has let
    through, a list of domains that [sanitizeDomains] has let through and
    the name of a tier pass the same sanitiser unchanged.  [sanitizeString]
    is different: it trims before it removes brackets, so its result can
    begin with white space, which a second pass removes. *)
Theorem sanitisers_accept_their_own_results :
  (forall (input : option Json.t) (e : string),
      sanitizeEmail input = Some e ->
      sanitizeEmail (Some (Json.Str e)) = Some e)
  /\ (forall (id customerId : string),
         sanitizeId id = Some customerId ->
         sanitizeId customerId = Some customerId)
  /\ (forall (input : option Json.t) (ds : list string),
         sanitizeDomains input = Some ds ->
         sanitizeDomains (Some (Json.Arr (map Json.Str ds))) = Some ds)
  /\ (forall t : Tier,
         validateSubscriptionTier (Some (Json.Str (tierName t))) = Some t)
  /\ exists s r : string,
       sanitizeString (Some (Json.Str s)) = Some r
       /\ sanitizeString (Some (Json.Str r)) <> Some r.
Proof.
  split; [|split; [|split; [|split]]].
  - intros input e He.
    destruct (sanitizeEmail_spec _ _ He) as (Ht & Hlow & Htrim & Hne & _).
    assert (Hlen : (String.length e <= 1000)%nat).
    { revert He. unfold sanitizeEmail.
      destruct (sanitizeString input) as [x|] eqn:Hx; [|discriminate].
      destruct (JS.truthy x); [|discriminate].
      destruct (Regex.test routeEmailRegex x); [|discriminate].
      intros H; injection H as <-. rewrite toLowerCase_length.
      apply (sanitizeString_spec _ _ Hx). }
    assert (Hplain : plainText e).
    { apply (allChars_weaken isEmailChar); [exact isEmailChar_isPlain|].
      apply (Matches_allChars _ routeEmailRegex);
        [exact classesWithin_routeEmailRegex | apply test_spec; exact Ht]. }
    unfold sanitizeEmail.
    rewrite (sanitizeString_fixes e Hne Htrim Hplain Hlen).
    rewrite (proj2 (truthy_true e) Hne), Ht, Hlow. reflexivity.
  - intros id cid Hid.
    destruct (sanitizeId_spec _ _ Hid) as (Hne & Hlen & Hchars & _).
    exact (sanitizeId_fixes cid Hne Hlen Hchars).
  - intros input ds Hds.
    destruct (sanitizeDomains_spec _ _ Hds) as (Hne & _).
    apply sanitizeDomains_kept; [exact Hne|].
    revert Hds. unfold sanitizeDomains.
    destruct input as [[| | | |items|]|]; try discriminate.
    cbv zeta. destruct (0 <? _)%nat; [|discriminate].
    intros H; injection H as <-. apply strings_kept.
  - intros []; reflexivity.
  - exists "< a"%string, " a"%string.
    split; [reflexivity | vm_compute; discriminate].
Qed.
